(** * The ELF front end of libdwarf: loading headers, names, symbols,
      relocations and section groups (dwarf_elf_load_headers.c)

    A shallow embedding of the loader functions, with the object-access
    record threaded explicitly, followed by the properties of the
    loader that the reader pipeline relies on. *)

From Stdlib Require Import ZArith String Ascii List Bool Lia.
From Stdlib.Strings Require Import Byte.
From stdpp Require Import base list.
Import ListNotations.

Local Open Scope string_scope.
Local Open Scope Z_scope.

(** ** Integers of the C code *)

Definition two64 : Z := 2 ^ 64.
Definition two32 : Z := 2 ^ 32.

(** [Dwarf_Unsigned]: 64-bit unsigned arithmetic wraps. *)
Definition u64 (x : Z) : Z := x mod two64.
(** [unsigned]: 32-bit unsigned. *)
Definition u32 (x : Z) : Z := x mod two32.
(** A cast to [long] (64 bits, LP64) and its value. *)
Definition cast_long (x : Z) : Z := (x + 2 ^ 63) mod two64 - 2 ^ 63.

Definition is_u64 (x : Z) : Prop := 0 <= x < two64.

(** ** Bytes and C strings *)

Definition byte_val (b : byte) : Z := Z.of_N (Byte.to_N b).

Fixpoint le_decode (l : list byte) : Z :=
  match l with
  | [] => 0
  | b :: r => byte_val b + 256 * le_decode r
  end.

Definition be_decode (l : list byte) : Z := le_decode (rev l).

(** [n] bytes of a buffer starting at [off]. *)
Definition sub_bytes (buf : list byte) (off n : nat) : list byte :=
  take n (drop off buf).

(** [strncmp(s,q,n) == 0]: the first [n] characters agree, comparison
    stopping where both strings end. *)
Fixpoint strncmp_eq (s q : string) (n : nat) : bool :=
  match n with
  | O => true
  | S n' =>
      match s, q with
      | EmptyString, EmptyString => true
      | String a s', String b q' => Ascii.eqb a b && strncmp_eq s' q' n'
      | _, _ => false
      end
  end.

(** [strcmp(s,q) == 0]. *)
Definition strcmp_eq (s q : string) : bool := String.eqb s q.

Definition strlen (s : string) : nat := String.length s.

(** The string a [char *] advanced by [n] points to. *)
Fixpoint str_advance (n : nat) (s : string) : string :=
  match n with
  | O => s
  | S n' => match s with
            | EmptyString => EmptyString
            | String _ s' => str_advance n' s'
            end
  end.

(** ** Status values *)

Inductive status : Type := DW_DLV_OK | DW_DLV_NO_ENTRY | DW_DLV_ERROR.

(** The error codes the loader stores through [errcode]; [DW_DLE_code n]
    stands for any code written by the random-access reader. *)
Inductive Dwarf_Error_code : Type :=
| DW_DLE_ALLOC_FAIL
| DW_DLE_SECTION_SIZE_ERROR
| DW_DLE_SECTION_SIZE_OR_OFFSET_LARGE
| DW_DLE_SECTION_INDEX_BAD
| DW_DLE_SECTION_STRING_OFFSET_BAD
| DW_DLE_ELF_STRING_SECTION_MISSING
| DW_DLE_ELF_SECTION_ERROR
| DW_DLE_ELF_SECTION_GROUP_ERROR
| DW_DLE_OFFSET_SIZE
| DW_DLE_INTEGER_TOO_SMALL
| DW_DLE_BAD_TYPE_SIZE
| DW_DLE_INTERNAL_NULL_POINTER
| DW_DLE_code (n : Z).

(** ** Constants of the missing headers *)

(** Modelled from the spec: the ELF constants of dwarf_elf_defines.h, a
    header that is not among the sources; the ELF format fixes their
    values. *)
Definition SHT_NULL : Z := 0.
Definition SHT_RELA : Z := 4.
Definition SHT_NOBITS : Z := 8.
Definition SHT_REL : Z := 9.
Definition SHT_GROUP : Z := 17.
Definition SHF_GROUP : Z := 512.
Definition EM_MIPS : Z := 8.
Definition EM_SPARCV9 : Z := 43.

(** Modelled from the spec: the group numbers of libdwarf.h, not among
    the sources ("Constants: ANY = 0, BASE = 1, DWO = 2"). *)
Definition DW_GROUPNUMBER_BASE : Z := 1.
Definition DW_GROUPNUMBER_DWO : Z := 2.

(** The size of a 32-bit word in an SHT_GROUP payload. *)
Definition DWARF_32BIT_SIZE : Z := 4.

Definition sizeof_Dwarf_Unsigned : Z := 8.

(** Modelled from the spec: the sizes of the on-file records of
    dwarf_elfstructs.h, a header that is not among the sources; every
    field there is an array of a character type, one byte an element,
    so the sizes are those of the ELF32 and ELF64 records with no
    padding. *)
Definition sizeof_dw_elf32_ehdr : Z := 52.
Definition sizeof_dw_elf64_ehdr : Z := 64.
Definition sizeof_dw_elf32_sym : Z := 16.
Definition sizeof_dw_elf64_sym : Z := 24.
Definition sizeof_dw_elf32_rel : Z := 8.
Definition sizeof_dw_elf32_rela : Z := 12.
Definition sizeof_dw_elf64_rel : Z := 16.
Definition sizeof_dw_elf64_rela : Z := 24.

Inductive RelocRela : Type := RelocIsRela | RelocIsRel.
Inductive RelocOffsetSize : Type := RelocOffset32 | RelocOffset64.

(** The function stored in [ep->f_copy_word]. *)
Inductive copy_word : Type := use_memcpy | use_memcpy_swap_bytes.

(** ** On-file records, as arrays of bytes *)

Record dw_elf_ehdr : Type := Build_dw_elf_ehdr {
  e_ident : list byte; e_type : list byte; e_machine : list byte;
  e_version : list byte; e_entry : list byte; e_phoff : list byte;
  e_shoff : list byte; e_flags : list byte; e_ehsize : list byte;
  e_phentsize : list byte; e_phnum : list byte; e_shentsize : list byte;
  e_shnum : list byte; e_shstrndx : list byte
}.

Record dw_elf_sym : Type := Build_dw_elf_sym {
  st_name : list byte; st_value : list byte; st_size : list byte;
  st_info : list byte; st_other : list byte; st_shndx : list byte
}.

(** [dw_elf32_rel], [dw_elf32_rela], [dw_elf64_rel], [dw_elf64_rela]; a
    plain REL record has no [r_addend]. *)
Record dw_elf_rel : Type := Build_dw_elf_rel {
  r_offset : list byte; r_info : list byte; r_addend : list byte
}.

(** The records found in a buffer read from the file, at index [i]. *)
Definition cast_dw_elf32_ehdr (buf : list byte) : dw_elf_ehdr :=
  {| e_ident := sub_bytes buf 0 16; e_type := sub_bytes buf 16 2;
     e_machine := sub_bytes buf 18 2; e_version := sub_bytes buf 20 4;
     e_entry := sub_bytes buf 24 4; e_phoff := sub_bytes buf 28 4;
     e_shoff := sub_bytes buf 32 4; e_flags := sub_bytes buf 36 4;
     e_ehsize := sub_bytes buf 40 2; e_phentsize := sub_bytes buf 42 2;
     e_phnum := sub_bytes buf 44 2; e_shentsize := sub_bytes buf 46 2;
     e_shnum := sub_bytes buf 48 2; e_shstrndx := sub_bytes buf 50 2 |}.

Definition cast_dw_elf64_ehdr (buf : list byte) : dw_elf_ehdr :=
  {| e_ident := sub_bytes buf 0 16; e_type := sub_bytes buf 16 2;
     e_machine := sub_bytes buf 18 2; e_version := sub_bytes buf 20 4;
     e_entry := sub_bytes buf 24 8; e_phoff := sub_bytes buf 32 8;
     e_shoff := sub_bytes buf 40 8; e_flags := sub_bytes buf 48 4;
     e_ehsize := sub_bytes buf 52 2; e_phentsize := sub_bytes buf 54 2;
     e_phnum := sub_bytes buf 56 2; e_shentsize := sub_bytes buf 58 2;
     e_shnum := sub_bytes buf 60 2; e_shstrndx := sub_bytes buf 62 2 |}.

Definition cast_dw_elf32_sym (buf : list byte) (i : nat) : dw_elf_sym :=
  let b := (16 * i)%nat in
  {| st_name := sub_bytes buf b 4; st_value := sub_bytes buf (b + 4) 4;
     st_size := sub_bytes buf (b + 8) 4; st_info := sub_bytes buf (b + 12) 1;
     st_other := sub_bytes buf (b + 13) 1;
     st_shndx := sub_bytes buf (b + 14) 2 |}.

Definition cast_dw_elf64_sym (buf : list byte) (i : nat) : dw_elf_sym :=
  let b := (24 * i)%nat in
  {| st_name := sub_bytes buf b 4; st_info := sub_bytes buf (b + 4) 1;
     st_other := sub_bytes buf (b + 5) 1; st_shndx := sub_bytes buf (b + 6) 2;
     st_value := sub_bytes buf (b + 8) 8;
     st_size := sub_bytes buf (b + 16) 8 |}.

Definition cast_dw_elf32_rel (buf : list byte) (i : nat) : dw_elf_rel :=
  let b := (8 * i)%nat in
  {| r_offset := sub_bytes buf b 4; r_info := sub_bytes buf (b + 4) 4;
     r_addend := [] |}.

Definition cast_dw_elf32_rela (buf : list byte) (i : nat) : dw_elf_rel :=
  let b := (12 * i)%nat in
  {| r_offset := sub_bytes buf b 4; r_info := sub_bytes buf (b + 4) 4;
     r_addend := sub_bytes buf (b + 8) 4 |}.

Definition cast_dw_elf64_rel (buf : list byte) (i : nat) : dw_elf_rel :=
  let b := (16 * i)%nat in
  {| r_offset := sub_bytes buf b 8; r_info := sub_bytes buf (b + 8) 8;
     r_addend := [] |}.

Definition cast_dw_elf64_rela (buf : list byte) (i : nat) : dw_elf_rel :=
  let b := (24 * i)%nat in
  {| r_offset := sub_bytes buf b 8; r_info := sub_bytes buf (b + 8) 8;
     r_addend := sub_bytes buf (b + 16) 8 |}.

(** The byte at place [i] of an array of bytes, 0 to 255. *)
Definition byte_at (s : list byte) (i : nat) : Z := byte_val (nth i s "000"%byte).

(** ** The generic records *)

Record generic_ehdr : Type := Build_generic_ehdr {
  ge_ident : list byte; ge_type : Z; ge_machine : Z; ge_version : Z;
  ge_entry : Z; ge_phoff : Z; ge_shoff : Z; ge_flags : Z; ge_ehsize : Z;
  ge_phentsize : Z; ge_phnum : Z; ge_shentsize : Z; ge_shnum : Z;
  ge_shstrndx : Z
}.

Record generic_symentry : Type := Build_generic_symentry {
  gs_name : Z; gs_value : Z; gs_size : Z; gs_info : Z; gs_other : Z;
  gs_shndx : Z; gs_bind : Z; gs_type : Z
}.

Record generic_rela : Type := Build_generic_rela {
  gr_offset : Z; gr_info : Z; gr_sym : Z; gr_type : Z; gr_type2 : Z;
  gr_type3 : Z; gr_addend : Z; gr_is_rela : bool
}.

(** [struct location]: where a table of the object file lies. *)
Record location : Type := Build_location {
  g_name : string;
  g_offset : Z;
  g_count : Z;
  g_entrysize : Z;
  g_totalsize : Z
}.

Definition set_g_count (v : Z) (r : location) : location :=
  {| g_name := g_name r; g_offset := g_offset r; g_count := v;
     g_entrysize := g_entrysize r; g_totalsize := g_totalsize r |}.

(** [struct generic_shdr]: a section header in the width-independent form,
    with the fields the loader reads or writes.  A null pointer is [None]. *)
Record generic_shdr : Type := Build_generic_shdr {
  gh_name : Z;
  gh_namestring : string;
  gh_type : Z;
  gh_flags : Z;
  gh_offset : Z;
  gh_size : Z;
  gh_entsize : Z;
  gh_reloc_target_secnum : Z;
  gh_rels : option (list generic_rela);
  gh_relcount : Z;
  gh_sht_group_array : option (list Z);
  gh_sht_group_array_count : Z;
  gh_is_dwarf : bool;
  gh_section_group_number : Z
}.

Definition set_gh_namestring (v : string) (r : generic_shdr) : generic_shdr :=
  {| gh_name := gh_name r; gh_namestring := v; gh_type := gh_type r;
     gh_flags := gh_flags r; gh_offset := gh_offset r;
     gh_size := gh_size r; gh_entsize := gh_entsize r;
     gh_reloc_target_secnum := gh_reloc_target_secnum r;
     gh_rels := gh_rels r; gh_relcount := gh_relcount r;
     gh_sht_group_array := gh_sht_group_array r;
     gh_sht_group_array_count := gh_sht_group_array_count r;
     gh_is_dwarf := gh_is_dwarf r;
     gh_section_group_number := gh_section_group_number r |}.

Definition set_gh_rels (v : option (list generic_rela)) (r : generic_shdr) : generic_shdr :=
  {| gh_name := gh_name r; gh_namestring := gh_namestring r;
     gh_type := gh_type r; gh_flags := gh_flags r;
     gh_offset := gh_offset r; gh_size := gh_size r;
     gh_entsize := gh_entsize r;
     gh_reloc_target_secnum := gh_reloc_target_secnum r; gh_rels := v;
     gh_relcount := gh_relcount r;
     gh_sht_group_array := gh_sht_group_array r;
     gh_sht_group_array_count := gh_sht_group_array_count r;
     gh_is_dwarf := gh_is_dwarf r;
     gh_section_group_number := gh_section_group_number r |}.

Definition set_gh_relcount (v : Z) (r : generic_shdr) : generic_shdr :=
  {| gh_name := gh_name r; gh_namestring := gh_namestring r;
     gh_type := gh_type r; gh_flags := gh_flags r;
     gh_offset := gh_offset r; gh_size := gh_size r;
     gh_entsize := gh_entsize r;
     gh_reloc_target_secnum := gh_reloc_target_secnum r;
     gh_rels := gh_rels r; gh_relcount := v;
     gh_sht_group_array := gh_sht_group_array r;
     gh_sht_group_array_count := gh_sht_group_array_count r;
     gh_is_dwarf := gh_is_dwarf r;
     gh_section_group_number := gh_section_group_number r |}.

Definition set_gh_sht_group_array (v : option (list Z)) (r : generic_shdr) : generic_shdr :=
  {| gh_name := gh_name r; gh_namestring := gh_namestring r;
     gh_type := gh_type r; gh_flags := gh_flags r;
     gh_offset := gh_offset r; gh_size := gh_size r;
     gh_entsize := gh_entsize r;
     gh_reloc_target_secnum := gh_reloc_target_secnum r;
     gh_rels := gh_rels r; gh_relcount := gh_relcount r;
     gh_sht_group_array := v;
     gh_sht_group_array_count := gh_sht_group_array_count r;
     gh_is_dwarf := gh_is_dwarf r;
     gh_section_group_number := gh_section_group_number r |}.

Definition set_gh_sht_group_array_count (v : Z) (r : generic_shdr) : generic_shdr :=
  {| gh_name := gh_name r; gh_namestring := gh_namestring r;
     gh_type := gh_type r; gh_flags := gh_flags r;
     gh_offset := gh_offset r; gh_size := gh_size r;
     gh_entsize := gh_entsize r;
     gh_reloc_target_secnum := gh_reloc_target_secnum r;
     gh_rels := gh_rels r; gh_relcount := gh_relcount r;
     gh_sht_group_array := gh_sht_group_array r;
     gh_sht_group_array_count := v; gh_is_dwarf := gh_is_dwarf r;
     gh_section_group_number := gh_section_group_number r |}.

Definition set_gh_is_dwarf (v : bool) (r : generic_shdr) : generic_shdr :=
  {| gh_name := gh_name r; gh_namestring := gh_namestring r;
     gh_type := gh_type r; gh_flags := gh_flags r;
     gh_offset := gh_offset r; gh_size := gh_size r;
     gh_entsize := gh_entsize r;
     gh_reloc_target_secnum := gh_reloc_target_secnum r;
     gh_rels := gh_rels r; gh_relcount := gh_relcount r;
     gh_sht_group_array := gh_sht_group_array r;
     gh_sht_group_array_count := gh_sht_group_array_count r;
     gh_is_dwarf := v;
     gh_section_group_number := gh_section_group_number r |}.

Definition set_gh_section_group_number (v : Z) (r : generic_shdr) : generic_shdr :=
  {| gh_name := gh_name r; gh_namestring := gh_namestring r;
     gh_type := gh_type r; gh_flags := gh_flags r;
     gh_offset := gh_offset r; gh_size := gh_size r;
     gh_entsize := gh_entsize r;
     gh_reloc_target_secnum := gh_reloc_target_secnum r;
     gh_rels := gh_rels r; gh_relcount := gh_relcount r;
     gh_sht_group_array := gh_sht_group_array r;
     gh_sht_group_array_count := gh_sht_group_array_count r;
     gh_is_dwarf := gh_is_dwarf r; gh_section_group_number := v |}.

(** [dwarf_elf_object_access_internals_t]: the object-access record [ep]. *)
Record dwarf_elf_object_access_internals_t : Type := Build_internals {
  f_offsetsize : Z;
  f_filesize : Z;
  f_endian : Z;
  f_machine : Z;
  f_copy_word : copy_word;
  f_ehdr : option generic_ehdr;
  f_loc_ehdr : location;
  f_shdr : list generic_shdr;
  f_loc_shdr : location;
  f_elf_shstrings_data : option (list byte);
  f_elf_shstrings_length : Z;
  f_elf_shstrings_max : Z;
  f_symtab : option (list generic_symentry);
  f_loc_symtab : location;
  f_symtab_sect_index : Z;
  f_symtab_sect_strings : option (list byte);
  f_symtab_sect_strings_max : Z;
  f_symtab_sect_strings_sect_index : Z;
  f_sg_next_group_number : Z;
  f_sht_group_type_section_count : Z;
  f_shf_group_flag_section_count : Z;
  f_dwo_group_section_count : Z
}.

Definition set_f_machine (v : Z) (r : dwarf_elf_object_access_internals_t) : dwarf_elf_object_access_internals_t :=
  {| f_offsetsize := f_offsetsize r; f_filesize := f_filesize r;
     f_endian := f_endian r; f_machine := v; f_copy_word := f_copy_word r;
     f_ehdr := f_ehdr r; f_loc_ehdr := f_loc_ehdr r; f_shdr := f_shdr r;
     f_loc_shdr := f_loc_shdr r;
     f_elf_shstrings_data := f_elf_shstrings_data r;
     f_elf_shstrings_length := f_elf_shstrings_length r;
     f_elf_shstrings_max := f_elf_shstrings_max r; f_symtab := f_symtab r;
     f_loc_symtab := f_loc_symtab r;
     f_symtab_sect_index := f_symtab_sect_index r;
     f_symtab_sect_strings := f_symtab_sect_strings r;
     f_symtab_sect_strings_max := f_symtab_sect_strings_max r;
     f_symtab_sect_strings_sect_index := f_symtab_sect_strings_sect_index r;
     f_sg_next_group_number := f_sg_next_group_number r;
     f_sht_group_type_section_count := f_sht_group_type_section_count r;
     f_shf_group_flag_section_count := f_shf_group_flag_section_count r;
     f_dwo_group_section_count := f_dwo_group_section_count r |}.

Definition set_f_ehdr (v : option generic_ehdr) (r : dwarf_elf_object_access_internals_t) : dwarf_elf_object_access_internals_t :=
  {| f_offsetsize := f_offsetsize r; f_filesize := f_filesize r;
     f_endian := f_endian r; f_machine := f_machine r;
     f_copy_word := f_copy_word r; f_ehdr := v; f_loc_ehdr := f_loc_ehdr r;
     f_shdr := f_shdr r; f_loc_shdr := f_loc_shdr r;
     f_elf_shstrings_data := f_elf_shstrings_data r;
     f_elf_shstrings_length := f_elf_shstrings_length r;
     f_elf_shstrings_max := f_elf_shstrings_max r; f_symtab := f_symtab r;
     f_loc_symtab := f_loc_symtab r;
     f_symtab_sect_index := f_symtab_sect_index r;
     f_symtab_sect_strings := f_symtab_sect_strings r;
     f_symtab_sect_strings_max := f_symtab_sect_strings_max r;
     f_symtab_sect_strings_sect_index := f_symtab_sect_strings_sect_index r;
     f_sg_next_group_number := f_sg_next_group_number r;
     f_sht_group_type_section_count := f_sht_group_type_section_count r;
     f_shf_group_flag_section_count := f_shf_group_flag_section_count r;
     f_dwo_group_section_count := f_dwo_group_section_count r |}.

Definition set_f_loc_ehdr (v : location) (r : dwarf_elf_object_access_internals_t) : dwarf_elf_object_access_internals_t :=
  {| f_offsetsize := f_offsetsize r; f_filesize := f_filesize r;
     f_endian := f_endian r; f_machine := f_machine r;
     f_copy_word := f_copy_word r; f_ehdr := f_ehdr r; f_loc_ehdr := v;
     f_shdr := f_shdr r; f_loc_shdr := f_loc_shdr r;
     f_elf_shstrings_data := f_elf_shstrings_data r;
     f_elf_shstrings_length := f_elf_shstrings_length r;
     f_elf_shstrings_max := f_elf_shstrings_max r; f_symtab := f_symtab r;
     f_loc_symtab := f_loc_symtab r;
     f_symtab_sect_index := f_symtab_sect_index r;
     f_symtab_sect_strings := f_symtab_sect_strings r;
     f_symtab_sect_strings_max := f_symtab_sect_strings_max r;
     f_symtab_sect_strings_sect_index := f_symtab_sect_strings_sect_index r;
     f_sg_next_group_number := f_sg_next_group_number r;
     f_sht_group_type_section_count := f_sht_group_type_section_count r;
     f_shf_group_flag_section_count := f_shf_group_flag_section_count r;
     f_dwo_group_section_count := f_dwo_group_section_count r |}.

Definition set_f_shdr (v : list generic_shdr) (r : dwarf_elf_object_access_internals_t) : dwarf_elf_object_access_internals_t :=
  {| f_offsetsize := f_offsetsize r; f_filesize := f_filesize r;
     f_endian := f_endian r; f_machine := f_machine r;
     f_copy_word := f_copy_word r; f_ehdr := f_ehdr r;
     f_loc_ehdr := f_loc_ehdr r; f_shdr := v; f_loc_shdr := f_loc_shdr r;
     f_elf_shstrings_data := f_elf_shstrings_data r;
     f_elf_shstrings_length := f_elf_shstrings_length r;
     f_elf_shstrings_max := f_elf_shstrings_max r; f_symtab := f_symtab r;
     f_loc_symtab := f_loc_symtab r;
     f_symtab_sect_index := f_symtab_sect_index r;
     f_symtab_sect_strings := f_symtab_sect_strings r;
     f_symtab_sect_strings_max := f_symtab_sect_strings_max r;
     f_symtab_sect_strings_sect_index := f_symtab_sect_strings_sect_index r;
     f_sg_next_group_number := f_sg_next_group_number r;
     f_sht_group_type_section_count := f_sht_group_type_section_count r;
     f_shf_group_flag_section_count := f_shf_group_flag_section_count r;
     f_dwo_group_section_count := f_dwo_group_section_count r |}.

Definition set_f_elf_shstrings_data (v : option (list byte)) (r : dwarf_elf_object_access_internals_t) : dwarf_elf_object_access_internals_t :=
  {| f_offsetsize := f_offsetsize r; f_filesize := f_filesize r;
     f_endian := f_endian r; f_machine := f_machine r;
     f_copy_word := f_copy_word r; f_ehdr := f_ehdr r;
     f_loc_ehdr := f_loc_ehdr r; f_shdr := f_shdr r;
     f_loc_shdr := f_loc_shdr r; f_elf_shstrings_data := v;
     f_elf_shstrings_length := f_elf_shstrings_length r;
     f_elf_shstrings_max := f_elf_shstrings_max r; f_symtab := f_symtab r;
     f_loc_symtab := f_loc_symtab r;
     f_symtab_sect_index := f_symtab_sect_index r;
     f_symtab_sect_strings := f_symtab_sect_strings r;
     f_symtab_sect_strings_max := f_symtab_sect_strings_max r;
     f_symtab_sect_strings_sect_index := f_symtab_sect_strings_sect_index r;
     f_sg_next_group_number := f_sg_next_group_number r;
     f_sht_group_type_section_count := f_sht_group_type_section_count r;
     f_shf_group_flag_section_count := f_shf_group_flag_section_count r;
     f_dwo_group_section_count := f_dwo_group_section_count r |}.

Definition set_f_elf_shstrings_length (v : Z) (r : dwarf_elf_object_access_internals_t) : dwarf_elf_object_access_internals_t :=
  {| f_offsetsize := f_offsetsize r; f_filesize := f_filesize r;
     f_endian := f_endian r; f_machine := f_machine r;
     f_copy_word := f_copy_word r; f_ehdr := f_ehdr r;
     f_loc_ehdr := f_loc_ehdr r; f_shdr := f_shdr r;
     f_loc_shdr := f_loc_shdr r;
     f_elf_shstrings_data := f_elf_shstrings_data r;
     f_elf_shstrings_length := v;
     f_elf_shstrings_max := f_elf_shstrings_max r; f_symtab := f_symtab r;
     f_loc_symtab := f_loc_symtab r;
     f_symtab_sect_index := f_symtab_sect_index r;
     f_symtab_sect_strings := f_symtab_sect_strings r;
     f_symtab_sect_strings_max := f_symtab_sect_strings_max r;
     f_symtab_sect_strings_sect_index := f_symtab_sect_strings_sect_index r;
     f_sg_next_group_number := f_sg_next_group_number r;
     f_sht_group_type_section_count := f_sht_group_type_section_count r;
     f_shf_group_flag_section_count := f_shf_group_flag_section_count r;
     f_dwo_group_section_count := f_dwo_group_section_count r |}.

Definition set_f_elf_shstrings_max (v : Z) (r : dwarf_elf_object_access_internals_t) : dwarf_elf_object_access_internals_t :=
  {| f_offsetsize := f_offsetsize r; f_filesize := f_filesize r;
     f_endian := f_endian r; f_machine := f_machine r;
     f_copy_word := f_copy_word r; f_ehdr := f_ehdr r;
     f_loc_ehdr := f_loc_ehdr r; f_shdr := f_shdr r;
     f_loc_shdr := f_loc_shdr r;
     f_elf_shstrings_data := f_elf_shstrings_data r;
     f_elf_shstrings_length := f_elf_shstrings_length r;
     f_elf_shstrings_max := v; f_symtab := f_symtab r;
     f_loc_symtab := f_loc_symtab r;
     f_symtab_sect_index := f_symtab_sect_index r;
     f_symtab_sect_strings := f_symtab_sect_strings r;
     f_symtab_sect_strings_max := f_symtab_sect_strings_max r;
     f_symtab_sect_strings_sect_index := f_symtab_sect_strings_sect_index r;
     f_sg_next_group_number := f_sg_next_group_number r;
     f_sht_group_type_section_count := f_sht_group_type_section_count r;
     f_shf_group_flag_section_count := f_shf_group_flag_section_count r;
     f_dwo_group_section_count := f_dwo_group_section_count r |}.

Definition set_f_symtab (v : option (list generic_symentry)) (r : dwarf_elf_object_access_internals_t) : dwarf_elf_object_access_internals_t :=
  {| f_offsetsize := f_offsetsize r; f_filesize := f_filesize r;
     f_endian := f_endian r; f_machine := f_machine r;
     f_copy_word := f_copy_word r; f_ehdr := f_ehdr r;
     f_loc_ehdr := f_loc_ehdr r; f_shdr := f_shdr r;
     f_loc_shdr := f_loc_shdr r;
     f_elf_shstrings_data := f_elf_shstrings_data r;
     f_elf_shstrings_length := f_elf_shstrings_length r;
     f_elf_shstrings_max := f_elf_shstrings_max r; f_symtab := v;
     f_loc_symtab := f_loc_symtab r;
     f_symtab_sect_index := f_symtab_sect_index r;
     f_symtab_sect_strings := f_symtab_sect_strings r;
     f_symtab_sect_strings_max := f_symtab_sect_strings_max r;
     f_symtab_sect_strings_sect_index := f_symtab_sect_strings_sect_index r;
     f_sg_next_group_number := f_sg_next_group_number r;
     f_sht_group_type_section_count := f_sht_group_type_section_count r;
     f_shf_group_flag_section_count := f_shf_group_flag_section_count r;
     f_dwo_group_section_count := f_dwo_group_section_count r |}.

Definition set_f_loc_symtab (v : location) (r : dwarf_elf_object_access_internals_t) : dwarf_elf_object_access_internals_t :=
  {| f_offsetsize := f_offsetsize r; f_filesize := f_filesize r;
     f_endian := f_endian r; f_machine := f_machine r;
     f_copy_word := f_copy_word r; f_ehdr := f_ehdr r;
     f_loc_ehdr := f_loc_ehdr r; f_shdr := f_shdr r;
     f_loc_shdr := f_loc_shdr r;
     f_elf_shstrings_data := f_elf_shstrings_data r;
     f_elf_shstrings_length := f_elf_shstrings_length r;
     f_elf_shstrings_max := f_elf_shstrings_max r; f_symtab := f_symtab r;
     f_loc_symtab := v; f_symtab_sect_index := f_symtab_sect_index r;
     f_symtab_sect_strings := f_symtab_sect_strings r;
     f_symtab_sect_strings_max := f_symtab_sect_strings_max r;
     f_symtab_sect_strings_sect_index := f_symtab_sect_strings_sect_index r;
     f_sg_next_group_number := f_sg_next_group_number r;
     f_sht_group_type_section_count := f_sht_group_type_section_count r;
     f_shf_group_flag_section_count := f_shf_group_flag_section_count r;
     f_dwo_group_section_count := f_dwo_group_section_count r |}.

Definition set_f_symtab_sect_strings (v : option (list byte)) (r : dwarf_elf_object_access_internals_t) : dwarf_elf_object_access_internals_t :=
  {| f_offsetsize := f_offsetsize r; f_filesize := f_filesize r;
     f_endian := f_endian r; f_machine := f_machine r;
     f_copy_word := f_copy_word r; f_ehdr := f_ehdr r;
     f_loc_ehdr := f_loc_ehdr r; f_shdr := f_shdr r;
     f_loc_shdr := f_loc_shdr r;
     f_elf_shstrings_data := f_elf_shstrings_data r;
     f_elf_shstrings_length := f_elf_shstrings_length r;
     f_elf_shstrings_max := f_elf_shstrings_max r; f_symtab := f_symtab r;
     f_loc_symtab := f_loc_symtab r;
     f_symtab_sect_index := f_symtab_sect_index r;
     f_symtab_sect_strings := v;
     f_symtab_sect_strings_max := f_symtab_sect_strings_max r;
     f_symtab_sect_strings_sect_index := f_symtab_sect_strings_sect_index r;
     f_sg_next_group_number := f_sg_next_group_number r;
     f_sht_group_type_section_count := f_sht_group_type_section_count r;
     f_shf_group_flag_section_count := f_shf_group_flag_section_count r;
     f_dwo_group_section_count := f_dwo_group_section_count r |}.

Definition set_f_symtab_sect_strings_max (v : Z) (r : dwarf_elf_object_access_internals_t) : dwarf_elf_object_access_internals_t :=
  {| f_offsetsize := f_offsetsize r; f_filesize := f_filesize r;
     f_endian := f_endian r; f_machine := f_machine r;
     f_copy_word := f_copy_word r; f_ehdr := f_ehdr r;
     f_loc_ehdr := f_loc_ehdr r; f_shdr := f_shdr r;
     f_loc_shdr := f_loc_shdr r;
     f_elf_shstrings_data := f_elf_shstrings_data r;
     f_elf_shstrings_length := f_elf_shstrings_length r;
     f_elf_shstrings_max := f_elf_shstrings_max r; f_symtab := f_symtab r;
     f_loc_symtab := f_loc_symtab r;
     f_symtab_sect_index := f_symtab_sect_index r;
     f_symtab_sect_strings := f_symtab_sect_strings r;
     f_symtab_sect_strings_max := v;
     f_symtab_sect_strings_sect_index := f_symtab_sect_strings_sect_index r;
     f_sg_next_group_number := f_sg_next_group_number r;
     f_sht_group_type_section_count := f_sht_group_type_section_count r;
     f_shf_group_flag_section_count := f_shf_group_flag_section_count r;
     f_dwo_group_section_count := f_dwo_group_section_count r |}.

Definition set_f_symtab_sect_strings_sect_index (v : Z) (r : dwarf_elf_object_access_internals_t) : dwarf_elf_object_access_internals_t :=
  {| f_offsetsize := f_offsetsize r; f_filesize := f_filesize r;
     f_endian := f_endian r; f_machine := f_machine r;
     f_copy_word := f_copy_word r; f_ehdr := f_ehdr r;
     f_loc_ehdr := f_loc_ehdr r; f_shdr := f_shdr r;
     f_loc_shdr := f_loc_shdr r;
     f_elf_shstrings_data := f_elf_shstrings_data r;
     f_elf_shstrings_length := f_elf_shstrings_length r;
     f_elf_shstrings_max := f_elf_shstrings_max r; f_symtab := f_symtab r;
     f_loc_symtab := f_loc_symtab r;
     f_symtab_sect_index := f_symtab_sect_index r;
     f_symtab_sect_strings := f_symtab_sect_strings r;
     f_symtab_sect_strings_max := f_symtab_sect_strings_max r;
     f_symtab_sect_strings_sect_index := v;
     f_sg_next_group_number := f_sg_next_group_number r;
     f_sht_group_type_section_count := f_sht_group_type_section_count r;
     f_shf_group_flag_section_count := f_shf_group_flag_section_count r;
     f_dwo_group_section_count := f_dwo_group_section_count r |}.

Definition set_f_sg_next_group_number (v : Z) (r : dwarf_elf_object_access_internals_t) : dwarf_elf_object_access_internals_t :=
  {| f_offsetsize := f_offsetsize r; f_filesize := f_filesize r;
     f_endian := f_endian r; f_machine := f_machine r;
     f_copy_word := f_copy_word r; f_ehdr := f_ehdr r;
     f_loc_ehdr := f_loc_ehdr r; f_shdr := f_shdr r;
     f_loc_shdr := f_loc_shdr r;
     f_elf_shstrings_data := f_elf_shstrings_data r;
     f_elf_shstrings_length := f_elf_shstrings_length r;
     f_elf_shstrings_max := f_elf_shstrings_max r; f_symtab := f_symtab r;
     f_loc_symtab := f_loc_symtab r;
     f_symtab_sect_index := f_symtab_sect_index r;
     f_symtab_sect_strings := f_symtab_sect_strings r;
     f_symtab_sect_strings_max := f_symtab_sect_strings_max r;
     f_symtab_sect_strings_sect_index := f_symtab_sect_strings_sect_index r;
     f_sg_next_group_number := v;
     f_sht_group_type_section_count := f_sht_group_type_section_count r;
     f_shf_group_flag_section_count := f_shf_group_flag_section_count r;
     f_dwo_group_section_count := f_dwo_group_section_count r |}.

Definition set_f_sht_group_type_section_count (v : Z) (r : dwarf_elf_object_access_internals_t) : dwarf_elf_object_access_internals_t :=
  {| f_offsetsize := f_offsetsize r; f_filesize := f_filesize r;
     f_endian := f_endian r; f_machine := f_machine r;
     f_copy_word := f_copy_word r; f_ehdr := f_ehdr r;
     f_loc_ehdr := f_loc_ehdr r; f_shdr := f_shdr r;
     f_loc_shdr := f_loc_shdr r;
     f_elf_shstrings_data := f_elf_shstrings_data r;
     f_elf_shstrings_length := f_elf_shstrings_length r;
     f_elf_shstrings_max := f_elf_shstrings_max r; f_symtab := f_symtab r;
     f_loc_symtab := f_loc_symtab r;
     f_symtab_sect_index := f_symtab_sect_index r;
     f_symtab_sect_strings := f_symtab_sect_strings r;
     f_symtab_sect_strings_max := f_symtab_sect_strings_max r;
     f_symtab_sect_strings_sect_index := f_symtab_sect_strings_sect_index r;
     f_sg_next_group_number := f_sg_next_group_number r;
     f_sht_group_type_section_count := v;
     f_shf_group_flag_section_count := f_shf_group_flag_section_count r;
     f_dwo_group_section_count := f_dwo_group_section_count r |}.

Definition set_f_shf_group_flag_section_count (v : Z) (r : dwarf_elf_object_access_internals_t) : dwarf_elf_object_access_internals_t :=
  {| f_offsetsize := f_offsetsize r; f_filesize := f_filesize r;
     f_endian := f_endian r; f_machine := f_machine r;
     f_copy_word := f_copy_word r; f_ehdr := f_ehdr r;
     f_loc_ehdr := f_loc_ehdr r; f_shdr := f_shdr r;
     f_loc_shdr := f_loc_shdr r;
     f_elf_shstrings_data := f_elf_shstrings_data r;
     f_elf_shstrings_length := f_elf_shstrings_length r;
     f_elf_shstrings_max := f_elf_shstrings_max r; f_symtab := f_symtab r;
     f_loc_symtab := f_loc_symtab r;
     f_symtab_sect_index := f_symtab_sect_index r;
     f_symtab_sect_strings := f_symtab_sect_strings r;
     f_symtab_sect_strings_max := f_symtab_sect_strings_max r;
     f_symtab_sect_strings_sect_index := f_symtab_sect_strings_sect_index r;
     f_sg_next_group_number := f_sg_next_group_number r;
     f_sht_group_type_section_count := f_sht_group_type_section_count r;
     f_shf_group_flag_section_count := v;
     f_dwo_group_section_count := f_dwo_group_section_count r |}.

Definition set_f_dwo_group_section_count (v : Z) (r : dwarf_elf_object_access_internals_t) : dwarf_elf_object_access_internals_t :=
  {| f_offsetsize := f_offsetsize r; f_filesize := f_filesize r;
     f_endian := f_endian r; f_machine := f_machine r;
     f_copy_word := f_copy_word r; f_ehdr := f_ehdr r;
     f_loc_ehdr := f_loc_ehdr r; f_shdr := f_shdr r;
     f_loc_shdr := f_loc_shdr r;
     f_elf_shstrings_data := f_elf_shstrings_data r;
     f_elf_shstrings_length := f_elf_shstrings_length r;
     f_elf_shstrings_max := f_elf_shstrings_max r; f_symtab := f_symtab r;
     f_loc_symtab := f_loc_symtab r;
     f_symtab_sect_index := f_symtab_sect_index r;
     f_symtab_sect_strings := f_symtab_sect_strings r;
     f_symtab_sect_strings_max := f_symtab_sect_strings_max r;
     f_symtab_sect_strings_sect_index := f_symtab_sect_strings_sect_index r;
     f_sg_next_group_number := f_sg_next_group_number r;
     f_sht_group_type_section_count := f_sht_group_type_section_count r;
     f_shf_group_flag_section_count := f_shf_group_flag_section_count r;
     f_dwo_group_section_count := v |}.

(** What a loader call can see and change: the record [ep], the cell
    [*errcode], the reads issued to the file so far (offset, size), and
    the outcomes of the allocations still to come ([false]: the allocator
    returns null; an exhausted list: it succeeds). *)
Record world : Type := Build_world {
  w_ep : dwarf_elf_object_access_internals_t;
  w_errcode : Dwarf_Error_code;
  w_reads : list (Z * Z);
  w_heap : list bool
}.

Definition set_w_ep (v : dwarf_elf_object_access_internals_t) (r : world) : world :=
  {| w_ep := v; w_errcode := w_errcode r; w_reads := w_reads r;
     w_heap := w_heap r |}.

Definition set_w_errcode (v : Dwarf_Error_code) (r : world) : world :=
  {| w_ep := w_ep r; w_errcode := v; w_reads := w_reads r;
     w_heap := w_heap r |}.

Definition set_w_reads (v : list (Z * Z)) (r : world) : world :=
  {| w_ep := w_ep r; w_errcode := w_errcode r; w_reads := v;
     w_heap := w_heap r |}.

Definition set_w_heap (v : list bool) (r : world) : world :=
  {| w_ep := w_ep r; w_errcode := w_errcode r; w_reads := w_reads r;
     w_heap := v |}.

(** ** The file and the allocator *)

(** What [RRMOA] (the random-access read of the object file) hands back:
    the bytes placed in the buffer, indexed from its start, or a status
    other than OK; an error status comes with the code the reader
    stored. *)
Inductive read_result : Type :=
| RdOk (content : nat -> byte)
| RdNoEntry
| RdError (code : Dwarf_Error_code).

Definition bytes_of (content : nat -> byte) (n : Z) : list byte :=
  map content (seq 0 (Z.to_nat n)).

Definition set_err (c : Dwarf_Error_code) (w : world) : world :=
  set_w_errcode c w.

(** [*errcode = c; return DW_DLV_ERROR;] *)
Definition fail (c : Dwarf_Error_code) (w : world) : status * world :=
  (DW_DLV_ERROR, set_err c w).

(** [malloc] and [calloc]: whether the pointer returned is non-null. *)
Definition malloc (w : world) : bool * world :=
  match w_heap w with
  | [] => (true, w)
  | b :: h => (b, set_w_heap h w)
  end.

Definition upd_ep (f : dwarf_elf_object_access_internals_t ->
                       dwarf_elf_object_access_internals_t)
  (w : world) : world := set_w_ep (f (w_ep w)) w.

(** Loops over indices that leave the function on the first status
    other than OK. *)
Fixpoint for_each {S : Type} (idx : list nat)
  (body : nat -> S -> option (status * S)) (s : S) : option (status * S) :=
  match idx with
  | [] => Some (DW_DLV_OK, s)
  | i :: rest =>
      match body i s with
      | Some (DW_DLV_OK, s') => for_each rest body s'
      | r => r
      end
  end.

(** The C string starting at [off] in a buffer. *)
Fixpoint cstring (l : list byte) : string :=
  match l with
  | [] => EmptyString
  | b :: r => if Byte.eqb b "000"%byte then EmptyString
              else String (ascii_of_byte b) (cstring r)
  end.

Definition cstring_at (data : list byte) (off : Z) : string :=
  cstring (drop (Z.to_nat off) data).

Definition is_empty_section (type : Z) : bool :=
  if type =? SHT_NOBITS then true
  else if type =? SHT_NULL then true
  else false.

Definition string_endswith (n q : string) : bool :=
  let len := strlen n in
  let qlen := strlen q in
  if (len <? qlen)%nat then false
  else
    let startpt := str_advance (len - qlen) n in
    if negb (strcmp_eq startpt q) then false else true.

Definition elf_sht_groupsec (type : Z) (sname : string) : bool :=
  if (type =? SHT_GROUP) || strcmp_eq sname ".group" then true else false.

Definition elf_flagmatches (flagsword flag : Z) : bool :=
  if Z.land flagsword flag =? flag then true else false.

Definition memcpy (s : list byte) : list byte := s.

(** Modelled from the spec: [_dwarf_memcpy_swap_bytes] of memcpy_swap.c,
    which is not among the sources; the spec describes the selector of
    fixed-width reads as "byte-swap vs identity". *)
Definition _dwarf_memcpy_swap_bytes (s : list byte) : list byte := rev s.

Definition copy_fn (f : copy_word) : list byte -> list byte :=
  match f with
  | use_memcpy => memcpy
  | use_memcpy_swap_bytes => _dwarf_memcpy_swap_bytes
  end.

Section Loader.

(** The host's byte order, fixed when the library is configured. *)
Variable WORDS_BIGENDIAN : bool.
(** Declared in headers that are not among the sources. *)
Variable DW_OBJECT_LSB : Z.
(** Whether the elements of the byte arrays in the records of
    dwarf_elfstructs.h, a header that is not among the sources, are of
    a signed character type: a plain [char] on a host where that is
    signed. *)
Variable CHAR_IS_SIGNED : bool.

(** The size in bytes of the fields [gr_type2] and [gr_type3] of
    [struct generic_rela], unsigned integers declared in a header
    that is not among the sources. *)
Variable sizeof_gr_type2 : Z.
Variable _dwarf_ignorethissection : string -> bool.
Variable SIGN_EXTEND : Z -> Z -> Z.
(** [RRMOA(fd,buf,offset,size,filesize,errcode)], by offset, size and
    file size. *)
Variable RRMOA : Z -> Z -> Z -> read_result.
(** Whether the sizes of the records of the system's elf.h, when there
    is one, agree with those of dwarf_elfstructs.h. *)
Variable struct_sizes_agree : bool.
(** What freshly allocated memory holds: a record, a byte, a word. *)
Variable uninit_rela : generic_rela.
Variable uninit_byte : byte.
Variable uninit_word : Z.

(** [ASNAR(func,t,s)]: [t] is cleared, [func] copies the bytes of [s]
    to its low-order end, and [t] is read in the host's order. *)
Definition ASNAR (func : list byte -> list byte) (s : list byte) : Z :=
  let t := replicate (Z.to_nat sizeof_Dwarf_Unsigned) "000"%byte in
  let tbyte := if WORDS_BIGENDIAN
               then (Z.to_nat sizeof_Dwarf_Unsigned - length s)%nat
               else 0%nat in
  let t := (take tbyte t ++ func s ++ drop (tbyte + length s) t)%list in
  if WORDS_BIGENDIAN then be_decode t else le_decode t.

(** A call of [RRMOA]: the read is issued, and a failing read leaves
    its code in [*errcode]. *)
Definition do_RRMOA (offset size : Z) (w : world) : read_result * world :=
  let w := set_w_reads ((w_reads w ++ [(offset, size)])%list) w in
  match RRMOA offset size (f_filesize (w_ep w)) with
  | RdError c => (RdError c, set_err c w)
  | r => (r, w)
  end.

Definition read_status (r : read_result) : status :=
  match r with
  | RdOk _ => DW_DLV_OK
  | RdNoEntry => DW_DLV_NO_ENTRY
  | RdError _ => DW_DLV_ERROR
  end.

(** *** The classifier of section names *)

(** [_dwarf_load_elf_section_is_dwarf(sname,&is_rela,&is_rel)]: the
    result, then the two flags as left in [*is_rela] and [*is_rel]. *)
Definition _dwarf_load_elf_section_is_dwarf (sname : string)
  : bool * (bool * bool) :=
  let is_rel := false in
  let is_rela := false in
  if _dwarf_ignorethissection sname then (false, (is_rela, is_rel))
  else if strncmp_eq sname ".rel" 4 then
    if strncmp_eq sname ".rela." 6 then
      let is_rela := true in (true, (is_rela, is_rel))
    else if strncmp_eq sname ".rel." 5 then
      let is_rela := true in (true, (is_rela, is_rel))
    else (false, (is_rela, is_rel))
  else if strncmp_eq sname ".debug_" 7 then (true, (is_rela, is_rel))
  else if strncmp_eq sname ".zdebug_" 8 then (true, (is_rela, is_rel))
  else if strcmp_eq sname ".eh_frame" then (true, (is_rela, is_rel))
  else if strncmp_eq sname ".gdb_index" 10 then (true, (is_rela, is_rel))
  else (false, (is_rela, is_rel)).

Definition out_is_rela (r : bool * (bool * bool)) : bool := fst (snd r).
Definition out_is_rel (r : bool * (bool * bool)) : bool := snd (snd r).

(** *** The ELF header *)

Definition generic_ehdr_of (cw : copy_word) (e : dw_elf_ehdr)
  : generic_ehdr :=
  {| ge_ident := e_ident e;
     ge_type := ASNAR (copy_fn cw) (e_type e);
     ge_machine := ASNAR (copy_fn cw) (e_machine e);
     ge_version := ASNAR (copy_fn cw) (e_version e);
     ge_entry := ASNAR (copy_fn cw) (e_entry e);
     ge_phoff := ASNAR (copy_fn cw) (e_phoff e);
     ge_shoff := ASNAR (copy_fn cw) (e_shoff e);
     ge_flags := ASNAR (copy_fn cw) (e_flags e);
     ge_ehsize := ASNAR (copy_fn cw) (e_ehsize e);
     ge_phentsize := ASNAR (copy_fn cw) (e_phentsize e);
     ge_phnum := ASNAR (copy_fn cw) (e_phnum e);
     ge_shentsize := ASNAR (copy_fn cw) (e_shentsize e);
     ge_shnum := ASNAR (copy_fn cw) (e_shnum e);
     ge_shstrndx := ASNAR (copy_fn cw) (e_shstrndx e) |}.

Definition generic_ehdr_from_32 (e : dw_elf_ehdr) (w : world)
  : status * world :=
  let ehdr := generic_ehdr_of (f_copy_word (w_ep w)) e in
  let w := upd_ep (set_f_machine (ge_machine ehdr)) w in
  let w := upd_ep (set_f_ehdr (Some ehdr)) w in
  let w := upd_ep (set_f_loc_ehdr
                     {| g_name := "Elf File Header"; g_offset := 0;
                        g_count := 1;
                        g_entrysize := sizeof_dw_elf32_ehdr;
                        g_totalsize := sizeof_dw_elf32_ehdr |}) w in
  (DW_DLV_OK, w).

Definition generic_ehdr_from_64 (e : dw_elf_ehdr) (w : world)
  : status * world :=
  let ehdr := generic_ehdr_of (f_copy_word (w_ep w)) e in
  let w := upd_ep (set_f_machine (ge_machine ehdr)) w in
  let w := upd_ep (set_f_ehdr (Some ehdr)) w in
  let w := upd_ep (set_f_loc_ehdr
                     {| g_name := "Elf File Header"; g_offset := 0;
                        g_count := 1;
                        g_entrysize := sizeof_dw_elf64_ehdr;
                        g_totalsize := sizeof_dw_elf64_ehdr |}) w in
  (DW_DLV_OK, w).

Definition elf_load_elf_header32 (w : world) : status * world :=
  let '(r, w) := do_RRMOA 0 sizeof_dw_elf32_ehdr w in
  match r with
  | RdOk content =>
      let ehdr32 := cast_dw_elf32_ehdr (bytes_of content sizeof_dw_elf32_ehdr) in
      let '(ehdr, w) := malloc w in
      if negb ehdr then fail DW_DLE_ALLOC_FAIL w
      else generic_ehdr_from_32 ehdr32 w
  | _ => (read_status r, w)
  end.

Definition elf_load_elf_header64 (w : world) : status * world :=
  let '(r, w) := do_RRMOA 0 sizeof_dw_elf64_ehdr w in
  match r with
  | RdOk content =>
      let ehdr64 := cast_dw_elf64_ehdr (bytes_of content sizeof_dw_elf64_ehdr) in
      let '(ehdr, w) := malloc w in
      if negb ehdr then fail DW_DLE_ALLOC_FAIL w
      else generic_ehdr_from_64 ehdr64 w
  | _ => (read_status r, w)
  end.

Definition validate_struct_sizes (w : world) : status * world :=
  if negb struct_sizes_agree then fail DW_DLE_BAD_TYPE_SIZE w
  else (DW_DLV_OK, w).

Definition _dwarf_load_elf_header (w : world) : status * world :=
  let offsetsize := f_offsetsize (w_ep w) in
  let '(res, w) := validate_struct_sizes w in
  match res with
  | DW_DLV_OK =>
      if offsetsize =? 32 then elf_load_elf_header32 w
      else if offsetsize =? 64 then
        if sizeof_Dwarf_Unsigned <? 8 then fail DW_DLE_INTEGER_TOO_SMALL w
        else elf_load_elf_header64 w
      else fail DW_DLE_OFFSET_SIZE w
  | _ => (res, w)
  end.

(** *** Symbols *)

(** The body of the loop over symbol records. *)
Definition generic_symentry_of (cw : copy_word) (psym : dw_elf_sym)
  : generic_symentry :=
  let gs_info := ASNAR (copy_fn cw) (st_info psym) in
  let bind := Z.shiftr gs_info 4 in
  let type := Z.land gs_info 15 in
  {| gs_name := ASNAR (copy_fn cw) (st_name psym);
     gs_value := ASNAR (copy_fn cw) (st_value psym);
     gs_size := ASNAR (copy_fn cw) (st_size psym);
     gs_info := gs_info;
     gs_other := ASNAR (copy_fn cw) (st_other psym);
     gs_shndx := ASNAR (copy_fn cw) (st_shndx psym);
     gs_bind := bind;
     gs_type := type |}.

(** The out-parameters [*gsym_out] and [*count_out] are written on
    success only: [Some] of their values then, [None] otherwise. *)
Definition dwarf_generic_elf_load_symbols32 (offset size : Z) (w : world)
  : status * option (list generic_symentry * Z) * world :=
  let ecount := u64 (cast_long (size / sizeof_dw_elf32_sym)) in
  let size2 := u64 (ecount * sizeof_dw_elf32_sym) in
  if negb (size =? size2) then
    let '(r, w) := fail DW_DLE_SECTION_SIZE_ERROR w in (r, None, w)
  else
    let '(psym, w) := malloc w in
    if negb psym then
      let '(r, w) := fail DW_DLE_ALLOC_FAIL w in (r, None, w)
    else
      let '(gsym, w) := malloc w in
      if negb gsym then
        let '(r, w) := fail DW_DLE_ALLOC_FAIL w in (r, None, w)
      else
        let '(r, w) := do_RRMOA offset size w in
        match r with
        | RdOk content =>
            let psym := bytes_of content size in
            let gsym :=
              map (fun i => generic_symentry_of (f_copy_word (w_ep w))
                              (cast_dw_elf32_sym psym i))
                  (seq 0 (Z.to_nat ecount)) in
            (DW_DLV_OK, Some (gsym, ecount), w)
        | _ => (read_status r, None, w)
        end.

Definition dwarf_generic_elf_load_symbols64 (offset size : Z) (w : world)
  : status * option (list generic_symentry * Z) * world :=
  let ecount := u64 (cast_long (size / sizeof_dw_elf64_sym)) in
  let size2 := u64 (ecount * sizeof_dw_elf64_sym) in
  if negb (size =? size2) then
    let '(r, w) := fail DW_DLE_SECTION_SIZE_ERROR w in (r, None, w)
  else
    let '(psym, w) := malloc w in
    if negb psym then
      let '(r, w) := fail DW_DLE_ALLOC_FAIL w in (r, None, w)
    else
      let '(gsym, w) := malloc w in
      if negb gsym then
        let '(r, w) := fail DW_DLE_ALLOC_FAIL w in (r, None, w)
      else
        let '(r, w) := do_RRMOA offset size w in
        match r with
        | RdOk content =>
            let psym := bytes_of content size in
            let gsym :=
              map (fun i => generic_symentry_of (f_copy_word (w_ep w))
                              (cast_dw_elf64_sym psym i))
                  (seq 0 (Z.to_nat ecount)) in
            (DW_DLV_OK, Some (gsym, ecount), w)
        | _ => (read_status r, None, set_err DW_DLE_ALLOC_FAIL w)
        end.

(** [secnum] arrives as an [int]. *)
Definition dwarf_generic_elf_load_symbols (secnum : Z) (psh : generic_shdr)
  (w : world) : status * option (list generic_symentry * Z) * world :=
  let ep := w_ep w in
  if u32 secnum =? 0 then (DW_DLV_NO_ENTRY, None, w)
  else if gh_size psh >? f_filesize ep then
    let '(r, w) := fail DW_DLE_SECTION_SIZE_ERROR w in (r, None, w)
  else if f_offsetsize ep =? 32 then
    dwarf_generic_elf_load_symbols32 (gh_offset psh) (gh_size psh) w
  else if f_offsetsize ep =? 64 then
    dwarf_generic_elf_load_symbols64 (gh_offset psh) (gh_size psh) w
  else
    let '(r, w) := fail DW_DLE_OFFSET_SIZE w in (r, None, w).

(** [None]: the section index points outside the table [f_shdr], where
    C gives the access no meaning. *)
Definition _dwarf_load_elf_symtab_symbols (w : world)
  : option (status * world) :=
  let ep := w_ep w in
  let secnum := f_symtab_sect_index ep in
  if secnum =? 0 then Some (DW_DLV_NO_ENTRY, w)
  else
    psh ← f_shdr ep !! Z.to_nat secnum;
    if gh_size psh >? f_filesize ep then
      Some (fail DW_DLE_SECTION_SIZE_ERROR w)
    else
      let '(res, out, w) := dwarf_generic_elf_load_symbols secnum psh w in
      match out with
      | Some (gsym, count) =>
          let w := upd_ep (set_f_symtab (Some gsym)) w in
          let w := upd_ep (fun ep => set_f_loc_symtab
                              (set_g_count count (f_loc_symtab ep)) ep) w in
          Some (res, w)
      | None => Some (res, w)
      end.

(** *** Relocation records *)

(** [t = s[i]] for an unsigned [t] of [size] bytes: the element of
    the array is converted to the type of [t], so that an element of
    a signed character type that holds a byte of 0x80 or more, a
    negative value, arrives modulo 2^(8 * size). *)
Definition char_at (size : Z) (s : list byte) (i : nat) : Z :=
  let c := byte_at s i in
  if CHAR_IS_SIGNED && (128 <=? c) then (c - 256) mod 2 ^ (8 * size)
  else c.

(** The bodies of the four decoding loops: the record [relp] of the
    file is decoded into the generic record [grel]. *)
Definition rela32_body (ep : dwarf_elf_object_access_internals_t)
  (relp : dw_elf_rel) (grel : generic_rela) : generic_rela :=
  let cw := copy_fn (f_copy_word ep) in
  let gr_info := ASNAR cw (r_info relp) in
  {| gr_offset := ASNAR cw (r_offset relp);
     gr_info := gr_info;
     gr_addend := SIGN_EXTEND (ASNAR cw (r_addend relp)) 4;
     gr_sym := Z.shiftr gr_info 8;
     gr_type := Z.land gr_info 255;
     gr_type2 := gr_type2 grel;
     gr_type3 := gr_type3 grel;
     gr_is_rela := true |}.

Definition rela64_body (ep : dwarf_elf_object_access_internals_t)
  (relp : dw_elf_rel) (grel : generic_rela) : generic_rela :=
  let objlittleendian := f_endian ep =? DW_OBJECT_LSB in
  let ismips64 := f_machine ep =? EM_MIPS in
  let issparcv9 := f_machine ep =? EM_SPARCV9 in
  let cw := copy_fn (f_copy_word ep) in
  let gr_offset := ASNAR cw (r_offset relp) in
  let gr_info := ASNAR cw (r_info relp) in
  let gr_addend := SIGN_EXTEND (ASNAR cw (r_addend relp)) 8 in
  if ismips64 && objlittleendian then
    let realsym := take 4 (r_info relp) in
    {| gr_offset := gr_offset; gr_info := gr_info; gr_addend := gr_addend;
       gr_sym := ASNAR cw realsym;
       gr_type := char_at sizeof_Dwarf_Unsigned (r_info relp) 7;
       gr_type2 := char_at sizeof_gr_type2 (r_info relp) 6;
       gr_type3 := char_at sizeof_gr_type2 (r_info relp) 5;
       gr_is_rela := true |}
  else if issparcv9 then
    let realsym := take 4 (r_info relp) in
    {| gr_offset := gr_offset; gr_info := gr_info; gr_addend := gr_addend;
       gr_sym := ASNAR cw realsym;
       gr_type := char_at sizeof_Dwarf_Unsigned (r_info relp) 7;
       gr_type2 := gr_type2 grel;
       gr_type3 := gr_type3 grel;
       gr_is_rela := true |}
  else
    {| gr_offset := gr_offset; gr_info := gr_info; gr_addend := gr_addend;
       gr_sym := Z.shiftr gr_info 32;
       gr_type := Z.land gr_info 4294967295;
       gr_type2 := gr_type2 grel;
       gr_type3 := gr_type3 grel;
       gr_is_rela := true |}.

Definition rel32_body (ep : dwarf_elf_object_access_internals_t)
  (relp : dw_elf_rel) (grel : generic_rela) : generic_rela :=
  let cw := copy_fn (f_copy_word ep) in
  let gr_info := ASNAR cw (r_info relp) in
  {| gr_offset := ASNAR cw (r_offset relp);
     gr_info := gr_info;
     gr_addend := 0;
     gr_sym := Z.shiftr gr_info 8;
     gr_is_rela := false;
     gr_type := Z.land gr_info 255;
     gr_type2 := gr_type2 grel;
     gr_type3 := gr_type3 grel |}.

Definition rel64_body (ep : dwarf_elf_object_access_internals_t)
  (relp : dw_elf_rel) (grel : generic_rela) : generic_rela :=
  let objlittleendian := f_endian ep =? DW_OBJECT_LSB in
  let ismips64 := f_machine ep =? EM_MIPS in
  let issparcv9 := f_machine ep =? EM_SPARCV9 in
  let cw := copy_fn (f_copy_word ep) in
  let gr_offset := ASNAR cw (r_offset relp) in
  let gr_info := ASNAR cw (r_info relp) in
  let gr_addend := 0 in
  if ismips64 && objlittleendian then
    let realsym := take 4 (r_info relp) in
    {| gr_offset := gr_offset; gr_info := gr_info; gr_addend := gr_addend;
       gr_sym := ASNAR cw realsym;
       gr_type := char_at sizeof_Dwarf_Unsigned (r_info relp) 7;
       gr_type2 := char_at sizeof_gr_type2 (r_info relp) 6;
       gr_type3 := char_at sizeof_gr_type2 (r_info relp) 5;
       gr_is_rela := false |}
  else if issparcv9 then
    let realsym := take 4 (r_info relp) in
    {| gr_offset := gr_offset; gr_info := gr_info; gr_addend := gr_addend;
       gr_sym := ASNAR cw realsym;
       gr_type := char_at sizeof_Dwarf_Unsigned (r_info relp) 7;
       gr_type2 := gr_type2 grel;
       gr_type3 := gr_type3 grel;
       gr_is_rela := false |}
  else
    {| gr_offset := gr_offset; gr_info := gr_info; gr_addend := gr_addend;
       gr_sym := Z.shiftr gr_info 32;
       gr_type := Z.land gr_info 4294967295;
       gr_type2 := gr_type2 grel;
       gr_type3 := gr_type3 grel;
       gr_is_rela := false |}.

(** The loop [for (i = 0; i < ecount; ++i,++relp,++grel)] over the
    records of the buffer [relp] and the array [grel]. *)
Definition rel_loop (cast : list byte -> nat -> dw_elf_rel)
  (body : dw_elf_rel -> generic_rela -> generic_rela)
  (ecount : Z) (relp : list byte) (grel : list generic_rela)
  : list generic_rela :=
  map (fun i => body (cast relp i) (nth i grel uninit_rela))
      (seq 0 (Z.to_nat ecount)).

Definition generic_rel_from_rela32 (gsh : generic_shdr) (relp : list byte)
  (grel : list generic_rela) (w : world)
  : status * list generic_rela * world :=
  let size := gh_size gsh in
  let ecount := size / sizeof_dw_elf32_rela in
  let size2 := u64 (ecount * sizeof_dw_elf32_rela) in
  if negb (size =? size2) then
    let '(r, w) := fail DW_DLE_SECTION_SIZE_ERROR w in (r, grel, w)
  else
    (DW_DLV_OK,
     rel_loop cast_dw_elf32_rela (rela32_body (w_ep w)) ecount relp grel, w).

Definition generic_rel_from_rela64 (gsh : generic_shdr) (relp : list byte)
  (grel : list generic_rela) (w : world)
  : status * list generic_rela * world :=
  let size := gh_size gsh in
  let ecount := size / sizeof_dw_elf64_rela in
  let size2 := u64 (ecount * sizeof_dw_elf64_rela) in
  if negb (size =? size2) then
    let '(r, w) := fail DW_DLE_SECTION_SIZE_ERROR w in (r, grel, w)
  else
    (DW_DLV_OK,
     rel_loop cast_dw_elf64_rela (rela64_body (w_ep w)) ecount relp grel, w).

Definition generic_rel_from_rel32 (gsh : generic_shdr) (relp : list byte)
  (grel : list generic_rela) (w : world)
  : status * list generic_rela * world :=
  let size := gh_size gsh in
  let ecount := size / sizeof_dw_elf32_rel in
  let size2 := u64 (ecount * sizeof_dw_elf32_rel) in
  if negb (size =? size2) then
    let '(r, w) := fail DW_DLE_SECTION_SIZE_ERROR w in (r, grel, w)
  else
    (DW_DLV_OK,
     rel_loop cast_dw_elf32_rel (rel32_body (w_ep w)) ecount relp grel, w).

Definition generic_rel_from_rel64 (gsh : generic_shdr) (relp : list byte)
  (grel : list generic_rela) (w : world)
  : status * list generic_rela * world :=
  let size := gh_size gsh in
  let ecount := size / sizeof_dw_elf64_rel in
  let size2 := u64 (ecount * sizeof_dw_elf64_rel) in
  if negb (size =? size2) then
    let '(r, w) := fail DW_DLE_SECTION_SIZE_ERROR w in (r, grel, w)
  else
    (DW_DLV_OK,
     rel_loop cast_dw_elf64_rel (rel64_body (w_ep w)) ecount relp grel, w).

(** *** String tables *)

(** [None]: an access outside the table [f_shdr]. *)
Definition _dwarf_load_elf_symstr (w : world) : option (status * world) :=
  let ep := w_ep w in
  if f_symtab_sect_strings_sect_index ep =? 0 then
    Some (DW_DLV_NO_ENTRY, w)
  else
    let strsectindex := f_symtab_sect_strings_sect_index ep in
    let strsectlength := f_symtab_sect_strings_max ep in
    if strsectlength >? f_filesize ep then
      Some (fail DW_DLE_SECTION_SIZE_OR_OFFSET_LARGE w)
    else
      strpsh ← f_shdr ep !! Z.to_nat strsectindex;
      if (gh_offset strpsh >? f_filesize ep)
         || (u64 (strsectlength + gh_offset strpsh) >? f_filesize ep)
      then Some (fail DW_DLE_SECTION_SIZE_OR_OFFSET_LARGE w)
      else
        let '(p, w) := malloc w in
        if negb p then
          let w := upd_ep (set_f_symtab_sect_strings None) w in
          let w := upd_ep (set_f_symtab_sect_strings_max 0) w in
          let w := upd_ep (set_f_symtab_sect_strings_sect_index 0) w in
          Some (fail DW_DLE_ALLOC_FAIL w)
        else
          let buf := replicate (Z.to_nat (u64 (strsectlength + 1))) "000"%byte in
          let w := upd_ep (set_f_symtab_sect_strings (Some buf)) w in
          let '(r, w) := do_RRMOA (gh_offset strpsh) strsectlength w in
          match r with
          | RdOk content =>
              let buf := (bytes_of content strsectlength
                            ++ drop (Z.to_nat strsectlength) buf)%list in
              Some (DW_DLV_OK,
                    upd_ep (set_f_symtab_sect_strings (Some buf)) w)
          | _ =>
              let w := upd_ep (set_f_symtab_sect_strings None) w in
              let w := upd_ep (set_f_symtab_sect_strings_max 0) w in
              let w := upd_ep (set_f_symtab_sect_strings_sect_index 0) w in
              Some (read_status r, w)
          end.

(** [None]: an access through a null [f_ehdr] or buffer, or outside
    the table [f_shdr]. *)
Definition _dwarf_elf_load_sectstrings (stringsection : Z) (w : world)
  : option (status * world) :=
  let w := upd_ep (set_f_elf_shstrings_length 0) w in
  ehdr ← f_ehdr (w_ep w);
  if stringsection >=? ge_shnum ehdr then
    Some (fail DW_DLE_SECTION_INDEX_BAD w)
  else
    psh ← f_shdr (w_ep w) !! Z.to_nat stringsection;
    let secoffset := gh_offset psh in
    if is_empty_section (gh_type psh) then
      Some (fail DW_DLE_ELF_STRING_SECTION_MISSING w)
    else if (secoffset >=? f_filesize (w_ep w))
            || (gh_size psh >? f_filesize (w_ep w))
            || (u64 (secoffset + gh_size psh) >? f_filesize (w_ep w))
    then Some (fail DW_DLE_SECTION_SIZE_OR_OFFSET_LARGE w)
    else
      let grow :=
        if gh_size psh >? f_elf_shstrings_max (w_ep w) then
          let '(p, w) := malloc w in
          let data := if p then Some (replicate (Z.to_nat (gh_size psh))
                                        uninit_byte)
                      else None in
          let w := upd_ep (set_f_elf_shstrings_data data) w in
          let w := upd_ep (set_f_elf_shstrings_max (gh_size psh)) w in
          if negb p then
            let w := upd_ep (set_f_elf_shstrings_max 0) w in
            (false, set_err DW_DLE_ALLOC_FAIL w)
          else (true, w)
        else (true, w) in
      let '(ok, w) := grow in
      if negb ok then Some (DW_DLV_ERROR, w)
      else
        let w := upd_ep (set_f_elf_shstrings_length (gh_size psh)) w in
        let '(r, w) := do_RRMOA secoffset (gh_size psh) w in
        match r with
        | RdOk content =>
            match f_elf_shstrings_data (w_ep w) with
            | Some buf =>
                let buf := (bytes_of content (gh_size psh)
                              ++ drop (Z.to_nat (gh_size psh)) buf)%list in
                Some (DW_DLV_OK,
                      upd_ep (set_f_elf_shstrings_data (Some buf)) w)
            | None =>
                if gh_size psh =? 0 then Some (DW_DLV_OK, w) else None
            end
        | _ => Some (read_status r, w)
        end.

(** *** Loading the relocations of a section *)

Definition object_reclen (localoffsize : RelocOffsetSize)
  (localrela : RelocRela) : Z :=
  match localoffsize, localrela with
  | RelocOffset32, RelocIsRela => sizeof_dw_elf32_rela
  | RelocOffset32, RelocIsRel => sizeof_dw_elf32_rel
  | RelocOffset64, RelocIsRela => sizeof_dw_elf64_rela
  | RelocOffset64, RelocIsRel => sizeof_dw_elf64_rel
  end.

Definition generic_rel_from (localoffsize : RelocOffsetSize)
  (localrela : RelocRela)
  : generic_shdr -> list byte -> list generic_rela -> world ->
    status * list generic_rela * world :=
  match localoffsize, localrela with
  | RelocOffset32, RelocIsRela => generic_rel_from_rela32
  | RelocOffset32, RelocIsRel => generic_rel_from_rel32
  | RelocOffset64, RelocIsRela => generic_rel_from_rela64
  | RelocOffset64, RelocIsRel => generic_rel_from_rel64
  end.

(** [gsh] points to one section header: the header is passed in and
    handed back as the call leaves it; [*grel_out] and [*count_out] are
    written on success only. *)
Definition _dwarf_elf_load_a_relx_batch (gsh : generic_shdr)
  (localrela : RelocRela) (localoffsize : RelocOffsetSize) (w : world)
  : status * generic_shdr * option (list generic_rela * Z) * world :=
  let ep := w_ep w in
  let offset := gh_offset gsh in
  let size := gh_size gsh in
  if size =? 0 then (DW_DLV_NO_ENTRY, gsh, None, w)
  else if (offset >? f_filesize ep)
          || (size >? f_filesize ep)
          || (u64 (size + offset) >? f_filesize ep)
  then
    let '(r, w) := fail DW_DLE_SECTION_SIZE_OR_OFFSET_LARGE w in
    (r, gsh, None, w)
  else
    let object_reclen := object_reclen localoffsize localrela in
    let count := u64 (cast_long (size / object_reclen)) in
    let size2 := u64 (count * object_reclen) in
    if negb (size =? size2) then
      let '(r, w) := fail DW_DLE_SECTION_SIZE_ERROR w in (r, gsh, None, w)
    else
      let '(p, w) := malloc w in
      if negb p then
        let '(r, w) := fail DW_DLE_ALLOC_FAIL w in (r, gsh, None, w)
      else
        let grel := replicate (Z.to_nat count) uninit_rela in
        let '(p, w) := malloc w in
        if negb p then
          let '(r, w) := fail DW_DLE_ALLOC_FAIL w in (r, gsh, None, w)
        else
          let '(r, w) := do_RRMOA offset size w in
          match r with
          | RdOk content =>
              let relp := bytes_of content size in
              let '(res, grel, w) :=
                generic_rel_from localoffsize localrela gsh relp grel w in
              match res with
              | DW_DLV_OK =>
                  let gsh := set_gh_relcount count gsh in
                  let gsh := set_gh_rels (Some grel) gsh in
                  (res, gsh, Some (grel, count), w)
              | _ => (res, gsh, None, w)
              end
          | _ => (read_status r, gsh, None, w)
          end.

(** The status, [*oksecnum_out], and the state.  [None]: an access
    outside the table [f_shdr]. *)
Definition this_rel_is_a_section_dwarf_related (gshdr : generic_shdr)
  (w : world) : option (status * Z * world) :=
  let ep := w_ep w in
  if negb (gh_type gshdr =? SHT_RELA) && negb (gh_type gshdr =? SHT_REL)
  then Some (DW_DLV_OK, 0, w)
  else
    let oksecnum := u32 (gh_reloc_target_secnum gshdr) in
    if oksecnum >=? g_count (f_loc_shdr ep) then
      let '(r, w) := fail DW_DLE_ELF_SECTION_ERROR w in Some (r, 0, w)
    else
      gstarg ← f_shdr ep !! Z.to_nat oksecnum;
      if negb (gh_is_dwarf gstarg) then Some (DW_DLV_OK, 0, w)
      else Some (DW_DLV_OK, oksecnum, w).

(** [ep] is the record itself, so the test for a null [ep] has no
    counterpart here. *)
Definition _dwarf_load_elf_relx (secnum : Z) (localr : RelocRela)
  (w : world) : option (status * world) :=
  let ep := w_ep w in
  let offsetsize := f_offsetsize ep in
  let seccount := g_count (f_loc_shdr ep) in
  if secnum >=? seccount then Some (fail DW_DLE_ELF_SECTION_ERROR w)
  else
    gshdr ← f_shdr ep !! Z.to_nat secnum;
    if is_empty_section (gh_type gshdr) then Some (DW_DLV_NO_ENTRY, w)
    else
      '(res, oksec, w) ← this_rel_is_a_section_dwarf_related gshdr w;
      match res with
      | DW_DLV_ERROR => Some (res, w)
      | _ =>
          if oksec =? 0 then Some (DW_DLV_OK, w)
          else
            let go (localoffsize : RelocOffsetSize) :=
              let '(res, gshdr, out, w) :=
                _dwarf_elf_load_a_relx_batch gshdr localr localoffsize w in
              match res, out with
              | DW_DLV_ERROR, _ => Some (res, w)
              | DW_DLV_NO_ENTRY, _ => Some (res, w)
              | DW_DLV_OK, Some (grp, count_read) =>
                  let gshdr := set_gh_rels (Some grp) gshdr in
                  let gshdr := set_gh_relcount count_read gshdr in
                  Some (DW_DLV_OK,
                        upd_ep (fun ep =>
                          set_f_shdr (<[Z.to_nat secnum := gshdr]> (f_shdr ep))
                                     ep) w)
              | DW_DLV_OK, None => Some (DW_DLV_OK, w)
              end in
            if offsetsize =? 64 then go RelocOffset64
            else if offsetsize =? 32 then go RelocOffset32
            else Some (fail DW_DLE_OFFSET_SIZE w)
      end.

(** *** Section names *)

(** The loop [for ( ; cur < endpoint; ++cur)] with [n] bytes left
    before [endpoint]: whether a NUL was met.  [None]: a read past the
    end of the buffer. *)
Fixpoint name_scan (strings_start : list byte) (cur n : nat)
  : option bool :=
  match n with
  | O => Some false
  | S n' =>
      match strings_start !! cur with
      | None => None
      | Some b => if Byte.eqb b "000"%byte then Some true
                  else name_scan strings_start (S cur) n'
      end
  end.

Definition validate_section_name_string (section_length : Z)
  (string_loc_index : Z) (strings_start : list byte) (w : world)
  : option (status * world) :=
  if section_length <=? string_loc_index then
    Some (fail DW_DLE_SECTION_STRING_OFFSET_BAD w)
  else
    found ← name_scan strings_start (Z.to_nat string_loc_index)
              (Z.to_nat (section_length - string_loc_index));
    if (found : bool) then Some (DW_DLV_OK, w)
    else Some (fail DW_DLE_SECTION_STRING_OFFSET_BAD w).

Definition set_section (i : nat) (f : generic_shdr -> generic_shdr)
  (w : world) : world :=
  upd_ep (fun ep => set_f_shdr (alter f i (f_shdr ep)) ep) w.

Definition invalid_sh_name : string :=
  "<Invalid sh_name value. Corrupt Elf.>".

(** The body of the loop of [_dwarf_elf_load_sect_namestring]. *)
Definition load_sect_namestring_body (i : nat) (w : world)
  : option (status * world) :=
  let ep := w_ep w in
  let stringsecbase := default [] (f_elf_shstrings_data ep) in
  gshdr ← f_shdr ep !! i;
  '(res, w) ← validate_section_name_string (f_elf_shstrings_length ep)
                (gh_name gshdr) stringsecbase w;
  match res with
  | DW_DLV_OK =>
      Some (DW_DLV_OK,
            set_section i (set_gh_namestring
                             (cstring_at stringsecbase (gh_name gshdr))) w)
  | _ => Some (res, set_section i (set_gh_namestring invalid_sh_name) w)
  end.

Definition _dwarf_elf_load_sect_namestring (w : world)
  : option (status * world) :=
  let generic_count := g_count (f_loc_shdr (w_ep w)) in
  for_each (seq 0 (Z.to_nat generic_count)) load_sect_namestring_body w.

(** *** Section groups *)

(** The locals of the loop of [read_gs_section_group] that outlive an
    iteration, with the state: [grouparray], [foundone]. *)
Definition gs_locals : Type := (list Z * bool * world)%type.

(** The end of the loop body, once the entry [gseca] is chosen. *)
Definition gs_assign (gseca : Z) (grouparray : list Z) (foundone : bool)
  (w : world) : option (status * gs_locals) :=
  let ep := w_ep w in
  targpsh ← f_shdr ep !! Z.to_nat gseca;
  if negb (gh_section_group_number targpsh =? 0) then
    Some (DW_DLV_ERROR,
          (grouparray, foundone, set_err DW_DLE_ELF_SECTION_GROUP_ERROR w))
  else
    let w := set_section (Z.to_nat gseca)
               (set_gh_section_group_number (f_sg_next_group_number ep)) w in
    Some (DW_DLV_OK, (grouparray, true, w)).

(** The body of the loop over the entries of an SHT_GROUP payload. *)
Definition gs_entry (data : list byte) (i : nat) (st : gs_locals)
  : option (status * gs_locals) :=
  let '(grouparray, foundone, w) := st in
  let ep := w_ep w in
  let dblock := sub_bytes data (Z.to_nat DWARF_32BIT_SIZE * i) 4 in
  let gseca := ASNAR memcpy dblock in
  let gsecb := ASNAR _dwarf_memcpy_swap_bytes dblock in
  if gseca =? 0 then
    Some (DW_DLV_ERROR,
          (grouparray, foundone, set_err DW_DLE_ELF_SECTION_GROUP_ERROR w))
  else
    let grouparray := <[i := gseca]> grouparray in
    if gseca >? g_count (f_loc_shdr ep) then
      if gsecb >? g_count (f_loc_shdr ep) then
        Some (DW_DLV_ERROR,
              (grouparray, foundone,
               set_err DW_DLE_ELF_SECTION_GROUP_ERROR w))
      else
        let gseca := gsecb in
        let grouparray := <[i := gseca]> grouparray in
        gs_assign gseca grouparray foundone w
    else gs_assign gseca grouparray foundone w.

(** The part of [read_gs_section_group] that interprets the payload
    [data] of [count] words of the group section [j], from the version
    word on. *)
Definition gs_payload (j : nat) (count : Z) (data : list byte) (w : world)
  : option (status * world) :=
  let grouparray := replicate (Z.to_nat count) uninit_word in
  let dblock := sub_bytes data 0 4 in
  let va := ASNAR memcpy dblock in
  if negb (va =? 1) && negb (va =? 16777216) then
    Some (fail DW_DLE_ELF_SECTION_GROUP_ERROR w)
  else
    let grouparray := <[0%nat := 1]> grouparray in
    '(res, (grouparray, foundone, w)) ←
      for_each (seq 1 (Z.to_nat count - 1)) (gs_entry data)
               (grouparray, false, w);
    match res with
    | DW_DLV_OK =>
        let w :=
          if (foundone : bool) then
            let w := upd_ep (fun ep =>
              set_f_sg_next_group_number
                (u64 (f_sg_next_group_number ep + 1)) ep) w in
            upd_ep (fun ep =>
              set_f_sht_group_type_section_count
                (u64 (f_sht_group_type_section_count ep + 1)) ep) w
          else w in
        let w := set_section j (set_gh_sht_group_array (Some grouparray)) w in
        let w := set_section j (set_gh_sht_group_array_count count) w in
        Some (DW_DLV_OK, w)
    | _ => Some (res, w)
    end.

(** [psh] is the header of section [j].  [None]: an access outside the
    table [f_shdr]. *)
Definition read_gs_section_group (j : nat) (w : world)
  : option (status * world) :=
  psh ← f_shdr (w_ep w) !! j;
  match gh_sht_group_array psh with
  | Some _ => Some (DW_DLV_OK, w)
  | None =>
      let ep := w_ep w in
      let seclen := gh_size psh in
      if seclen <? DWARF_32BIT_SIZE then
        Some (fail DW_DLE_ELF_SECTION_GROUP_ERROR w)
      else
        let '(data, w) := malloc w in
        if negb data then Some (fail DW_DLE_ALLOC_FAIL w)
        else if negb (gh_entsize psh =? DWARF_32BIT_SIZE) then
          Some (fail DW_DLE_ELF_SECTION_GROUP_ERROR w)
        else if gh_entsize psh =? 0 then
          Some (fail DW_DLE_ELF_SECTION_GROUP_ERROR w)
        else
          let count := seclen / gh_entsize psh in
          if count >? g_count (f_loc_shdr ep) then
            Some (fail DW_DLE_ELF_SECTION_GROUP_ERROR w)
          else
            let '(r, w) := do_RRMOA (gh_offset psh) seclen w in
            match r with
            | RdOk content =>
                let data := bytes_of content seclen in
                let '(grouparray, w) := malloc w in
                if negb grouparray then Some (fail DW_DLE_ALLOC_FAIL w)
                else gs_payload j count data w
            | _ => Some (read_status r, w)
            end
  end.

(** Steps A and B: the body of the first loop. *)
Definition setup_step_AB (i : nat) (w : world) : option (status * world) :=
  psh ← f_shdr (w_ep w) !! i;
  let name := gh_namestring psh in
  if is_empty_section (gh_type psh) then Some (DW_DLV_OK, w)
  else if negb (elf_sht_groupsec (gh_type psh) name) then
    if elf_flagmatches (gh_flags psh) SHF_GROUP then
      Some (DW_DLV_OK,
            upd_ep (fun ep =>
              set_f_shf_group_flag_section_count
                (u64 (f_shf_group_flag_section_count ep + 1)) ep) w)
    else Some (DW_DLV_OK, w)
  else read_gs_section_group i w.

(** Step C: the body of the second loop. *)
Definition setup_step_C (i : nat) (w : world) : option (status * world) :=
  psh ← f_shdr (w_ep w) !! i;
  let name := gh_namestring psh in
  if is_empty_section (gh_type psh) then Some (DW_DLV_OK, w)
  else if elf_sht_groupsec (gh_type psh) name then Some (DW_DLV_OK, w)
  else if string_endswith name ".dwo" then
    if negb (gh_section_group_number psh =? 0) then
      Some (fail DW_DLE_ELF_SECTION_GROUP_ERROR w)
    else
      let w := set_section i (set_gh_is_dwarf true) w in
      let w := set_section i
                 (set_gh_section_group_number DW_GROUPNUMBER_DWO) w in
      Some (DW_DLV_OK,
            upd_ep (fun ep =>
              set_f_dwo_group_section_count
                (u64 (f_dwo_group_section_count ep + 1)) ep) w)
  else if fst (_dwarf_load_elf_section_is_dwarf name) then
    let w := if gh_section_group_number psh =? 0
             then set_section i
                    (set_gh_section_group_number DW_GROUPNUMBER_BASE) w
             else w in
    Some (DW_DLV_OK, set_section i (set_gh_is_dwarf true) w)
  else Some (DW_DLV_OK, w).

Definition _dwarf_elf_setup_all_section_groups (w : world)
  : option (status * world) :=
  let count := g_count (f_loc_shdr (w_ep w)) in
  '(res, w) ← for_each (seq 0 (Z.to_nat count)) setup_step_AB w;
  match res with
  | DW_DLV_OK => for_each (seq 0 (Z.to_nat count)) setup_step_C w
  | _ => Some (res, w)
  end.

End Loader.

(** * Loading the section headers *)

(** Modelled from the spec: the sizes and the layouts of [dw_elf32_shdr]
    and [dw_elf64_shdr] of dwarf_elfstructs.h, a header that is not among
    the sources; every field there is an array of bytes, in the
    order and of the widths of the ELF32 and ELF64 section headers. *)
Definition sizeof_dw_elf32_shdr : Z := 40.
Definition sizeof_dw_elf64_shdr : Z := 64.

Record dw_elf_shdr : Type := Build_dw_elf_shdr {
  sh_name : list byte; sh_type : list byte; sh_flags : list byte;
  sh_addr : list byte; sh_offset : list byte; sh_size : list byte;
  sh_link : list byte; sh_info : list byte; sh_addralign : list byte;
  sh_entsize : list byte
}.

(** The record [psh[i]] of a buffer of [dw_elf32_shdr], of
    [dw_elf64_shdr]. *)
Definition cast_dw_elf32_shdr (buf : list byte) (i : nat) : dw_elf_shdr :=
  let b := (40 * i)%nat in
  {| sh_name := sub_bytes buf b 4; sh_type := sub_bytes buf (b + 4) 4;
     sh_flags := sub_bytes buf (b + 8) 4; sh_addr := sub_bytes buf (b + 12) 4;
     sh_offset := sub_bytes buf (b + 16) 4;
     sh_size := sub_bytes buf (b + 20) 4; sh_link := sub_bytes buf (b + 24) 4;
     sh_info := sub_bytes buf (b + 28) 4;
     sh_addralign := sub_bytes buf (b + 32) 4;
     sh_entsize := sub_bytes buf (b + 36) 4 |}.

Definition cast_dw_elf64_shdr (buf : list byte) (i : nat) : dw_elf_shdr :=
  let b := (64 * i)%nat in
  {| sh_name := sub_bytes buf b 4; sh_type := sub_bytes buf (b + 4) 4;
     sh_flags := sub_bytes buf (b + 8) 8; sh_addr := sub_bytes buf (b + 16) 8;
     sh_offset := sub_bytes buf (b + 24) 8;
     sh_size := sub_bytes buf (b + 32) 8; sh_link := sub_bytes buf (b + 40) 4;
     sh_info := sub_bytes buf (b + 44) 4;
     sh_addralign := sub_bytes buf (b + 48) 8;
     sh_entsize := sub_bytes buf (b + 56) 8 |}.

(** The fields of [struct generic_shdr] that are set from the file and
    that [generic_shdr] leaves out: the table [f_shdr] keeps them, for
    the section [i], at index [i] of a list of its own. *)
Record generic_shdr_rest : Type := Build_generic_shdr_rest {
  gh_secnum : Z; gh_addr : Z; gh_link : Z; gh_info : Z; gh_addralign : Z
}.

(** The fields of [ep] that only the loading of the section headers
    uses: the second half of the table [f_shdr], and what is recorded of
    the sections ".dynsym", ".dynstr" and ".dynamic". *)
Record ep_rest : Type := Build_ep_rest {
  f_shdr_rest : list generic_shdr_rest;
  f_dynsym_sect_index : Z;
  f_loc_dynsym : location;
  f_dynsym_sect_strings_sect_index : Z;
  f_dynsym_sect_strings_max : Z;
  f_dynamic_sect_index : Z;
  f_loc_dynamic : location
}.

Definition set_f_shdr_rest (v : list generic_shdr_rest)
  (r : ep_rest) : ep_rest :=
  {| f_shdr_rest := v; f_dynsym_sect_index := f_dynsym_sect_index r;
     f_loc_dynsym := f_loc_dynsym r;
     f_dynsym_sect_strings_sect_index := f_dynsym_sect_strings_sect_index r;
     f_dynsym_sect_strings_max := f_dynsym_sect_strings_max r;
     f_dynamic_sect_index := f_dynamic_sect_index r;
     f_loc_dynamic := f_loc_dynamic r |}.

Definition set_f_dynsym_sect_index (v : Z) (r : ep_rest) : ep_rest :=
  {| f_shdr_rest := f_shdr_rest r; f_dynsym_sect_index := v;
     f_loc_dynsym := f_loc_dynsym r;
     f_dynsym_sect_strings_sect_index := f_dynsym_sect_strings_sect_index r;
     f_dynsym_sect_strings_max := f_dynsym_sect_strings_max r;
     f_dynamic_sect_index := f_dynamic_sect_index r;
     f_loc_dynamic := f_loc_dynamic r |}.

Definition set_f_loc_dynsym (v : location) (r : ep_rest) : ep_rest :=
  {| f_shdr_rest := f_shdr_rest r;
     f_dynsym_sect_index := f_dynsym_sect_index r; f_loc_dynsym := v;
     f_dynsym_sect_strings_sect_index := f_dynsym_sect_strings_sect_index r;
     f_dynsym_sect_strings_max := f_dynsym_sect_strings_max r;
     f_dynamic_sect_index := f_dynamic_sect_index r;
     f_loc_dynamic := f_loc_dynamic r |}.

Definition set_f_dynsym_sect_strings_sect_index (v : Z)
  (r : ep_rest) : ep_rest :=
  {| f_shdr_rest := f_shdr_rest r;
     f_dynsym_sect_index := f_dynsym_sect_index r;
     f_loc_dynsym := f_loc_dynsym r; f_dynsym_sect_strings_sect_index := v;
     f_dynsym_sect_strings_max := f_dynsym_sect_strings_max r;
     f_dynamic_sect_index := f_dynamic_sect_index r;
     f_loc_dynamic := f_loc_dynamic r |}.

Definition set_f_dynsym_sect_strings_max (v : Z) (r : ep_rest) : ep_rest :=
  {| f_shdr_rest := f_shdr_rest r;
     f_dynsym_sect_index := f_dynsym_sect_index r;
     f_loc_dynsym := f_loc_dynsym r;
     f_dynsym_sect_strings_sect_index := f_dynsym_sect_strings_sect_index r;
     f_dynsym_sect_strings_max := v;
     f_dynamic_sect_index := f_dynamic_sect_index r;
     f_loc_dynamic := f_loc_dynamic r |}.

Definition set_f_dynamic_sect_index (v : Z) (r : ep_rest) : ep_rest :=
  {| f_shdr_rest := f_shdr_rest r;
     f_dynsym_sect_index := f_dynsym_sect_index r;
     f_loc_dynsym := f_loc_dynsym r;
     f_dynsym_sect_strings_sect_index := f_dynsym_sect_strings_sect_index r;
     f_dynsym_sect_strings_max := f_dynsym_sect_strings_max r;
     f_dynamic_sect_index := v; f_loc_dynamic := f_loc_dynamic r |}.

Definition set_f_loc_dynamic (v : location) (r : ep_rest) : ep_rest :=
  {| f_shdr_rest := f_shdr_rest r;
     f_dynsym_sect_index := f_dynsym_sect_index r;
     f_loc_dynsym := f_loc_dynsym r;
     f_dynsym_sect_strings_sect_index := f_dynsym_sect_strings_sect_index r;
     f_dynsym_sect_strings_max := f_dynsym_sect_strings_max r;
     f_dynamic_sect_index := f_dynamic_sect_index r; f_loc_dynamic := v |}.

Definition set_g_offset (v : Z) (r : location) : location :=
  {| g_name := g_name r; g_offset := v; g_count := g_count r;
     g_entrysize := g_entrysize r; g_totalsize := g_totalsize r |}.

Definition set_f_loc_shdr (v : location)
  (r : dwarf_elf_object_access_internals_t) : dwarf_elf_object_access_internals_t :=
  {| f_offsetsize := f_offsetsize r; f_filesize := f_filesize r;
     f_endian := f_endian r; f_machine := f_machine r;
     f_copy_word := f_copy_word r; f_ehdr := f_ehdr r;
     f_loc_ehdr := f_loc_ehdr r; f_shdr := f_shdr r; f_loc_shdr := v;
     f_elf_shstrings_data := f_elf_shstrings_data r;
     f_elf_shstrings_length := f_elf_shstrings_length r;
     f_elf_shstrings_max := f_elf_shstrings_max r; f_symtab := f_symtab r;
     f_loc_symtab := f_loc_symtab r;
     f_symtab_sect_index := f_symtab_sect_index r;
     f_symtab_sect_strings := f_symtab_sect_strings r;
     f_symtab_sect_strings_max := f_symtab_sect_strings_max r;
     f_symtab_sect_strings_sect_index := f_symtab_sect_strings_sect_index r;
     f_sg_next_group_number := f_sg_next_group_number r;
     f_sht_group_type_section_count := f_sht_group_type_section_count r;
     f_shf_group_flag_section_count := f_shf_group_flag_section_count r;
     f_dwo_group_section_count := f_dwo_group_section_count r |}.

Definition set_f_symtab_sect_index (v : Z)
  (r : dwarf_elf_object_access_internals_t) : dwarf_elf_object_access_internals_t :=
  {| f_offsetsize := f_offsetsize r; f_filesize := f_filesize r;
     f_endian := f_endian r; f_machine := f_machine r;
     f_copy_word := f_copy_word r; f_ehdr := f_ehdr r;
     f_loc_ehdr := f_loc_ehdr r; f_shdr := f_shdr r;
     f_loc_shdr := f_loc_shdr r;
     f_elf_shstrings_data := f_elf_shstrings_data r;
     f_elf_shstrings_length := f_elf_shstrings_length r;
     f_elf_shstrings_max := f_elf_shstrings_max r; f_symtab := f_symtab r;
     f_loc_symtab := f_loc_symtab r; f_symtab_sect_index := v;
     f_symtab_sect_strings := f_symtab_sect_strings r;
     f_symtab_sect_strings_max := f_symtab_sect_strings_max r;
     f_symtab_sect_strings_sect_index := f_symtab_sect_strings_sect_index r;
     f_sg_next_group_number := f_sg_next_group_number r;
     f_sht_group_type_section_count := f_sht_group_type_section_count r;
     f_shf_group_flag_section_count := f_shf_group_flag_section_count r;
     f_dwo_group_section_count := f_dwo_group_section_count r |}.

(** The state of the functions that load the section headers: the
    state of the other loader functions and the rest of [ep]. *)
Definition loader_state : Type := (world * ep_rest)%type.

(** A function that leaves the rest of [ep] alone, on the whole state. *)
Definition on_world (f : world -> option (status * world))
  (st : loader_state) : option (status * loader_state) :=
  '(r, w) ← f (fst st); Some (r, (w, snd st)).

(** [*errcode = c; return DW_DLV_ERROR;] on the whole state. *)
Definition fail_with (c : Dwarf_Error_code) (st : loader_state)
  : option (status * loader_state) :=
  Some (DW_DLV_ERROR, (set_err c (fst st), snd st)).

Section SectionHeaders.

(** The host's byte order and the reader, as above. *)
Variable WORDS_BIGENDIAN : bool.
Variable RRMOA : Z -> Z -> Z -> read_result.
Variable _dwarf_ignorethissection : string -> bool.
Variable uninit_byte : byte.
Variable uninit_word : Z.
(** Error codes of libdwarf.h, which is not among the sources. *)
Variable DW_DLE_ELF_SECTION_COUNT_MISMATCH : Dwarf_Error_code.
Variable DW_DLE_ELF_STRING_SECTION_ERROR : Dwarf_Error_code.
Variable DW_DLE_ELF_SECTION_LINK_ERROR : Dwarf_Error_code.

(** The body of the loops of [generic_shdr_from_shdr32] and
    [generic_shdr_from_shdr64]: the header [gshdr[i]], which [calloc]
    has cleared, is filled from the record [psh] of the file.  The
    pointer [gh_namestring] is null there; the record has no null
    string and holds the empty string, which no function reads before
    [_dwarf_elf_load_sect_namestring] has set the names. *)
Definition generic_shdr_of (cw : copy_word) (i : Z) (psh : dw_elf_shdr)
  : generic_shdr * generic_shdr_rest :=
  let gh_type := ASNAR WORDS_BIGENDIAN (copy_fn cw) (sh_type psh) in
  let gh_info := ASNAR WORDS_BIGENDIAN (copy_fn cw) (sh_info psh) in
  ({| gh_name := ASNAR WORDS_BIGENDIAN (copy_fn cw) (sh_name psh);
      gh_namestring := "";
      gh_type := gh_type;
      gh_flags := ASNAR WORDS_BIGENDIAN (copy_fn cw) (sh_flags psh);
      gh_offset := ASNAR WORDS_BIGENDIAN (copy_fn cw) (sh_offset psh);
      gh_size := ASNAR WORDS_BIGENDIAN (copy_fn cw) (sh_size psh);
      gh_entsize := ASNAR WORDS_BIGENDIAN (copy_fn cw) (sh_entsize psh);
      gh_reloc_target_secnum :=
        if (gh_type =? SHT_REL) || (gh_type =? SHT_RELA) then gh_info else 0;
      gh_rels := None; gh_relcount := 0;
      gh_sht_group_array := None; gh_sht_group_array_count := 0;
      gh_is_dwarf := false; gh_section_group_number := 0 |},
   {| gh_secnum := i;
      gh_addr := ASNAR WORDS_BIGENDIAN (copy_fn cw) (sh_addr psh);
      gh_link := ASNAR WORDS_BIGENDIAN (copy_fn cw) (sh_link psh);
      gh_info := gh_info;
      gh_addralign := ASNAR WORDS_BIGENDIAN (copy_fn cw) (sh_addralign psh) |}).

(** The two functions differ in the record of the file only: [cast]
    finds the record [psh[i]], [reclen] is its size.  The result carries
    [*count_out].  [None]: the loop reads records past the end of the
    buffer of [count * entsize] bytes. *)
Definition generic_shdr_from_shdr (cast : list byte -> nat -> dw_elf_shdr)
  (reclen : Z) (offset entsize count : Z) (st : loader_state)
  : option (status * Z * loader_state) :=
  let '(w, m) := st in
  let count_out := 0 in
  let '(psh, w) := malloc w in
  if negb psh then
    Some (DW_DLV_ERROR, count_out, (set_err DW_DLE_ALLOC_FAIL w, m))
  else
    let '(gshdr, w) := malloc w in
    if negb gshdr then
      Some (DW_DLV_ERROR, count_out, (set_err DW_DLE_ALLOC_FAIL w, m))
    else
      let size := u64 (count * entsize) in
      let '(r, w) := do_RRMOA RRMOA offset size w in
      match r with
      | RdOk content =>
          if size <? count * reclen then None
          else
            let psh := bytes_of content size in
            let hdrs :=
              map (fun i => generic_shdr_of (f_copy_word (w_ep w))
                              (Z.of_nat i) (cast psh i))
                  (seq 0 (Z.to_nat count)) in
            let count_out := count in
            let w := upd_ep (set_f_shdr (map fst hdrs)) w in
            let w := upd_ep (set_f_loc_shdr
                               {| g_name := "Section Header";
                                  g_offset := offset;
                                  g_count := count;
                                  g_entrysize := reclen;
                                  g_totalsize := u64 (reclen * count) |}) w in
            Some (DW_DLV_OK, count_out,
                  (w, set_f_shdr_rest (map snd hdrs) m))
      | _ => Some (read_status r, count_out, (w, m))
      end.

Definition generic_shdr_from_shdr32 :=
  generic_shdr_from_shdr cast_dw_elf32_shdr sizeof_dw_elf32_shdr.

Definition generic_shdr_from_shdr64 :=
  generic_shdr_from_shdr cast_dw_elf64_shdr sizeof_dw_elf64_shdr.

(** [elf_load_sectheaders32] and [elf_load_sectheaders64], which differ
    in the record size and the function they call. *)
Definition elf_load_sectheaders (reclen : Z)
  (from_shdr : Z -> Z -> Z -> loader_state ->
               option (status * Z * loader_state))
  (offset entsize count : Z) (st : loader_state)
  : option (status * loader_state) :=
  let filesize := f_filesize (w_ep (fst st)) in
  if count =? 0 then Some (DW_DLV_NO_ENTRY, st)
  else if entsize <? reclen then fail_with DW_DLE_SECTION_SIZE_ERROR st
  else if (offset >? filesize) || (entsize >? 200) || (count >? filesize)
          || (u64 (u64 (count * entsize) + offset) >? filesize)
  then fail_with DW_DLE_SECTION_SIZE_OR_OFFSET_LARGE st
  else
    '(res, generic_count, st) ← from_shdr offset entsize count st;
    match res with
    | DW_DLV_OK =>
        if negb (generic_count =? count)
        then fail_with DW_DLE_ELF_SECTION_COUNT_MISMATCH st
        else Some (DW_DLV_OK, st)
    | _ => Some (res, st)
    end.

Definition elf_load_sectheaders32 :=
  elf_load_sectheaders sizeof_dw_elf32_shdr generic_shdr_from_shdr32.

Definition elf_load_sectheaders64 :=
  elf_load_sectheaders sizeof_dw_elf64_shdr generic_shdr_from_shdr64.

(** [None]: an access outside the table [f_shdr]. *)
Definition validate_links (knownsect string_sect : Z) (st : loader_state)
  : option (status * loader_state) :=
  if knownsect =? 0 then Some (DW_DLV_OK, st)
  else if string_sect =? 0 then fail_with DW_DLE_ELF_STRING_SECTION_ERROR st
  else
    pshk ← f_shdr_rest (snd st) !! Z.to_nat knownsect;
    if negb (string_sect =? gh_link pshk)
    then fail_with DW_DLE_ELF_SECTION_LINK_ERROR st
    else Some (DW_DLV_OK, st).

(** The body of the loop of [_dwarf_elf_find_sym_sections].  The
    loop runs once [_dwarf_elf_load_sect_namestring] has set the name
    of every section below the count, so that [gh_namestring] is a
    string.  [None]: an access outside the table [f_shdr]. *)
Definition find_sym_body (i : nat) (st : loader_state)
  : option (status * loader_state) :=
  let '(w, m) := st in
  psh ← f_shdr (w_ep w) !! i;
  let name := gh_namestring psh in
  if is_empty_section (gh_type psh) then Some (DW_DLV_OK, st)
  else if strcmp_eq name ".dynsym" then
    let m := set_f_dynsym_sect_index (Z.of_nat i) m in
    let m := set_f_loc_dynsym
               (set_g_offset (gh_offset psh) (f_loc_dynsym m)) m in
    Some (DW_DLV_OK, (w, m))
  else if strcmp_eq name ".dynstr" then
    let m := set_f_dynsym_sect_strings_sect_index (Z.of_nat i) m in
    let m := set_f_dynsym_sect_strings_max (gh_size psh) m in
    Some (DW_DLV_OK, (w, m))
  else if strcmp_eq name ".symtab" then
    let w := upd_ep (set_f_symtab_sect_index (Z.of_nat i)) w in
    let w := upd_ep (fun ep =>
               set_f_loc_symtab
                 (set_g_offset (gh_offset psh) (f_loc_symtab ep)) ep) w in
    Some (DW_DLV_OK, (w, m))
  else if strcmp_eq name ".strtab" then
    let w := upd_ep (set_f_symtab_sect_strings_sect_index (Z.of_nat i)) w in
    let w := upd_ep (set_f_symtab_sect_strings_max (gh_size psh)) w in
    Some (DW_DLV_OK, (w, m))
  else if strcmp_eq name ".dynamic" then
    let m := set_f_dynamic_sect_index (Z.of_nat i) m in
    let m := set_f_loc_dynamic
               (set_g_offset (gh_offset psh) (f_loc_dynamic m)) m in
    Some (DW_DLV_OK, (w, m))
  else Some (DW_DLV_OK, st).

Definition _dwarf_elf_find_sym_sections (st : loader_state)
  : option (status * loader_state) :=
  let count := g_count (f_loc_shdr (w_ep (fst st))) in
  '(res, st) ← for_each (seq 0 (Z.to_nat count)) find_sym_body st;
  match res with
  | DW_DLV_OK =>
      let ep := w_ep (fst st) in
      '(res, st) ← validate_links (f_symtab_sect_index ep)
                     (f_symtab_sect_strings_sect_index ep) st;
      match res with
      | DW_DLV_OK => Some (DW_DLV_OK, st)
      | _ => Some (res, st)
      end
  | _ => Some (res, st)
  end.

(** [None]: an access through a null [f_ehdr], or what the functions
    called give no result for. *)
Definition _dwarf_load_elf_sectheaders (st : loader_state)
  : option (status * loader_state) :=
  let ep := w_ep (fst st) in
  '(res, st) ←
    (if f_offsetsize ep =? 32 then
       ehdr ← f_ehdr ep;
       elf_load_sectheaders32 (ge_shoff ehdr) (ge_shentsize ehdr)
         (ge_shnum ehdr) st
     else if f_offsetsize ep =? 64 then
       ehdr ← f_ehdr ep;
       elf_load_sectheaders64 (ge_shoff ehdr) (ge_shentsize ehdr)
         (ge_shnum ehdr) st
     else fail_with DW_DLE_OFFSET_SIZE st);
  match res with
  | DW_DLV_OK =>
      ehdr ← f_ehdr (w_ep (fst st));
      '(res, st) ← on_world (_dwarf_elf_load_sectstrings RRMOA uninit_byte
                               (ge_shstrndx ehdr)) st;
      match res with
      | DW_DLV_OK =>
          '(res, st) ← on_world _dwarf_elf_load_sect_namestring st;
          match res with
          | DW_DLV_OK =>
              '(res, st) ← _dwarf_elf_find_sym_sections st;
              match res with
              | DW_DLV_OK =>
                  on_world (_dwarf_elf_setup_all_section_groups
                              WORDS_BIGENDIAN _dwarf_ignorethissection
                              RRMOA uninit_word) st
              | _ => Some (res, st)
              end
          | _ => Some (res, st)
          end
      | _ => Some (res, st)
      end
  | _ => Some (res, st)
  end.

End SectionHeaders.

(** ** Sample objects *)

(** A section header with the fields set that the samples vary. *)
Definition sample_shdr (name : string) (type offset size entsize : Z)
  (target : Z) (is_dwarf : bool) : generic_shdr :=
  {| gh_name := 0; gh_namestring := name; gh_type := type; gh_flags := 0;
     gh_offset := offset; gh_size := size; gh_entsize := entsize;
     gh_reloc_target_secnum := target; gh_rels := None; gh_relcount := 0;
     gh_sht_group_array := None; gh_sht_group_array_count := 0;
     gh_is_dwarf := is_dwarf; gh_section_group_number := 0 |}.

Definition sample_loc (name : string) (count : Z) : location :=
  {| g_name := name; g_offset := 0; g_count := count; g_entrysize := 0;
     g_totalsize := 0 |}.

(** The record [ep] of an object of [filesize] bytes with the section
    table [shdrs] and the symbol table at section [symtab], before
    symbols, strings and groups are loaded. *)
Definition sample_ep_symtab (offsetsize filesize symtab : Z)
  (shdrs : list generic_shdr) : dwarf_elf_object_access_internals_t :=
  {| f_offsetsize := offsetsize; f_filesize := filesize; f_endian := 2;
     f_machine := 62; f_copy_word := use_memcpy; f_ehdr := None;
     f_loc_ehdr := sample_loc "Elf File Header" 1;
     f_shdr := shdrs;
     f_loc_shdr := sample_loc "Section Header" (Z.of_nat (length shdrs));
     f_elf_shstrings_data := None; f_elf_shstrings_length := 0;
     f_elf_shstrings_max := 0; f_symtab := None;
     f_loc_symtab := sample_loc "" 0; f_symtab_sect_index := symtab;
     f_symtab_sect_strings := None; f_symtab_sect_strings_max := 0;
     f_symtab_sect_strings_sect_index := 0; f_sg_next_group_number := 3;
     f_sht_group_type_section_count := 0;
     f_shf_group_flag_section_count := 0;
     f_dwo_group_section_count := 0 |}.

Definition sample_ep (offsetsize filesize : Z) (shdrs : list generic_shdr)
  : dwarf_elf_object_access_internals_t :=
  sample_ep_symtab offsetsize filesize 0 shdrs.

Definition sample_world (ep : dwarf_elf_object_access_internals_t) : world :=
  {| w_ep := ep; w_errcode := DW_DLE_code 0; w_reads := []; w_heap := [] |}.

(** A reader over the bytes [file]: it refuses what lies outside them. *)
Definition sample_RRMOA (file : list byte) (offset size filesize : Z)
  : read_result :=
  if (offset <? 0) || (size <? 0)
     || (offset + size >? Z.of_nat (length file))
  then RdError (DW_DLE_code 1)
  else RdOk (fun i => nth (Z.to_nat offset + i) file "000"%byte).

Definition no_file : Z -> Z -> Z -> read_result := sample_RRMOA [].

Definition sample_uninit_rela : generic_rela :=
  {| gr_offset := 0; gr_info := 0; gr_sym := 0; gr_type := 0; gr_type2 := 0;
     gr_type3 := 0; gr_addend := 0; gr_is_rela := false |}.

(** An object with a code section and its relocations. *)
Definition text_sections : list generic_shdr :=
  [ sample_shdr "" SHT_NULL 0 0 0 0 false;
    sample_shdr ".text" 1 64 16 0 0 false;
    sample_shdr ".rela.text" SHT_RELA 80 24 24 1 false ].

(** An object with a DWARF section, already marked, and its
    relocations. *)
Definition debug_sections : list generic_shdr :=
  [ sample_shdr "" SHT_NULL 0 0 0 0 false;
    sample_shdr ".debug_info" 1 64 16 0 0 true;
    sample_shdr ".rela.debug_info" SHT_RELA 80 24 24 1 false ].

(** A relocation section naming a target beyond the table. *)
Definition stray_sections : list generic_shdr :=
  [ sample_shdr "" SHT_NULL 0 0 0 0 false;
    sample_shdr ".rela.text" SHT_RELA 80 24 24 7 false ].

(** An object of an unusable offset size that has a symbol table as its
    section 1. *)
Definition odd_symtab_ep : dwarf_elf_object_access_internals_t :=
  sample_ep_symtab 16 200 1
    [ sample_shdr "" SHT_NULL 0 0 0 0 false;
      sample_shdr ".symtab" 2 64 48 24 0 false ].

(** ** The contracts the properties are stated with *)

(** A range of the file: offset, size and their sum within the file. *)
Definition in_file (filesize offset size : Z) : Prop :=
  offset <= filesize /\ size <= filesize /\ offset + size <= filesize.

(** The symbol-string fields of [ep] agree: a buffer is present only
    under a non-zero section index of the table whose range passed the
    check against the file size. *)
Definition symstr_consistent (ep : dwarf_elf_object_access_internals_t)
  : Prop :=
  f_symtab_sect_strings ep = None
  \/ (f_symtab_sect_strings_sect_index ep <> 0
      /\ exists strpsh : generic_shdr,
          f_shdr ep !! Z.to_nat (f_symtab_sect_strings_sect_index ep)
          = Some strpsh
          /\ f_symtab_sect_strings_max ep <= f_filesize ep
          /\ gh_offset strpsh <= f_filesize ep
          /\ u64 (f_symtab_sect_strings_max ep + gh_offset strpsh)
             <= f_filesize ep).

(** A symbol decoder [load] checks its section size against the record
    size [reclen]. *)
Definition sym_size_contract
  (load : Z -> Z -> world ->
          status * option (list generic_symentry * Z) * world)
  (reclen : Z) : Prop :=
  forall (offset size : Z) (w : world),
    is_u64 size ->
    (size mod reclen <> 0 ->
     load offset size w
     = (DW_DLV_ERROR, None, set_err DW_DLE_SECTION_SIZE_ERROR w))
    /\ (forall res out w',
           load offset size w = (res, out, w') ->
           res = DW_DLV_OK ->
           size mod reclen = 0
           /\ exists gsym, out = Some (gsym, size / reclen)
                           /\ Z.of_nat (length gsym) = size / reclen).

(** A relocation decoder [decode] checks the size of its section against
    the record size [reclen]. *)
Definition rel_size_contract
  (decode : generic_shdr -> list byte -> list generic_rela -> world ->
            status * list generic_rela * world)
  (reclen : Z) : Prop :=
  forall (gsh : generic_shdr) (relp : list byte) (grel : list generic_rela)
         (w : world),
    is_u64 (gh_size gsh) ->
    (gh_size gsh mod reclen <> 0 ->
     decode gsh relp grel w
     = (DW_DLV_ERROR, grel, set_err DW_DLE_SECTION_SIZE_ERROR w))
    /\ (forall res out w',
           decode gsh relp grel w = (res, out, w') ->
           res = DW_DLV_OK ->
           gh_size gsh mod reclen = 0
           /\ Z.of_nat (length out) = gh_size gsh / reclen).

(** A relocation section of 5 bytes placed beyond the end of a file of
    10 bytes, and an empty one placed there. *)
Definition beyond_eof_rela : generic_shdr :=
  sample_shdr ".rela.debug_info" SHT_RELA 100 5 24 1 false.

Definition empty_beyond_eof_rela : generic_shdr :=
  sample_shdr ".rela.debug_info" SHT_RELA 100 0 24 1 false.

Definition tiny_file_world : world :=
  sample_world
    (sample_ep 64 10 [ sample_shdr "" SHT_NULL 0 0 0 0 false;
                       sample_shdr ".debug_info" 1 4 4 0 0 true;
                       beyond_eof_rela ]).

(** An element [c] of a byte array, 0 to 255 as a byte, once it is
    converted to an unsigned integer of [size] bytes: itself when the
    character type is unsigned or [c] is below 0x80, and
    [c + 2^(8 * size) - 256], the sign extension, otherwise: [c] again
    in one byte, [c + 2^64 - 256] in eight. *)
Definition widened (CHAR_IS_SIGNED : bool) (size : Z) (c : Z) : Z :=
  if CHAR_IS_SIGNED && (128 <=? c) then c + 2 ^ (8 * size) - 256 else c.

(** How a decoded 64-bit relocation record [g] relates to the [r_info]
    bytes of the record [relp] of the file, by machine. *)
Definition r_info_decoding (WORDS_BIGENDIAN : bool) (DW_OBJECT_LSB : Z)
  (CHAR_IS_SIGNED : bool) (sizeof_gr_type2 : Z)
  (ep : dwarf_elf_object_access_internals_t) (relp : dw_elf_rel)
  (g : generic_rela) : Prop :=
  let cw := copy_fn (f_copy_word ep) in
  let info := ASNAR WORDS_BIGENDIAN cw (r_info relp) in
  let element size k :=
    widened CHAR_IS_SIGNED size (byte_at (r_info relp) k) in
  gr_info g = info
  /\ (f_machine ep = EM_MIPS -> f_endian ep = DW_OBJECT_LSB ->
      gr_sym g = ASNAR WORDS_BIGENDIAN cw (take 4 (r_info relp))
      /\ gr_type g = element sizeof_Dwarf_Unsigned 7%nat
      /\ gr_type2 g = element sizeof_gr_type2 6%nat
      /\ gr_type3 g = element sizeof_gr_type2 5%nat)
  /\ (f_machine ep = EM_SPARCV9 ->
      gr_sym g = ASNAR WORDS_BIGENDIAN cw (take 4 (r_info relp))
      /\ gr_type g = element sizeof_Dwarf_Unsigned 7%nat)
  /\ (~ (f_machine ep = EM_MIPS /\ f_endian ep = DW_OBJECT_LSB) ->
      f_machine ep <> EM_SPARCV9 ->
      gr_sym g = Z.shiftr info 32
      /\ gr_type g = Z.land info 4294967295).

(** A little-endian MIPS64 object, and one 64-bit RELA record of it:
    offset 0x10, symbol 3 in the first four bytes of [r_info], the
    bytes 1, 0x82 and 0x92 in its places 5, 6 and 7, addend 0; and
    what the decoder makes of it where the character type is signed
    and [gr_type2] and [gr_type3] are one byte wide. *)
Definition mips64el_ep : dwarf_elf_object_access_internals_t :=
  {| f_offsetsize := 64; f_filesize := 200; f_endian := 2;
     f_machine := EM_MIPS; f_copy_word := use_memcpy; f_ehdr := None;
     f_loc_ehdr := sample_loc "Elf File Header" 1;
     f_shdr := debug_sections;
     f_loc_shdr := sample_loc "Section Header" 3;
     f_elf_shstrings_data := None; f_elf_shstrings_length := 0;
     f_elf_shstrings_max := 0; f_symtab := None;
     f_loc_symtab := sample_loc "" 0; f_symtab_sect_index := 0;
     f_symtab_sect_strings := None; f_symtab_sect_strings_max := 0;
     f_symtab_sect_strings_sect_index := 0; f_sg_next_group_number := 3;
     f_sht_group_type_section_count := 0;
     f_shf_group_flag_section_count := 0;
     f_dwo_group_section_count := 0 |}.

Definition mips_rela_bytes : list byte :=
  [ "016"; "000"; "000"; "000"; "000"; "000"; "000"; "000";
    "003"; "000"; "000"; "000"; "000"; "001"; "130"; "146";
    "000"; "000"; "000"; "000"; "000"; "000"; "000"; "000" ]%byte.

Definition mips_rela_decoded : generic_rela :=
  {| gr_offset := 16; gr_info := 10557001576021491715; gr_sym := 3;
     gr_type := 18446744073709551506; gr_type2 := 130; gr_type3 := 1;
     gr_addend := 0; gr_is_rela := true |}.

(** A name offset [idx] in a string section of [section_length] bytes
    held in [data]: below the length, with a NUL at or after it and
    before the end. *)
Definition name_offset_ok (section_length idx : Z) (data : list byte)
  : Prop :=
  idx < section_length
  /\ exists j : nat,
      idx <= Z.of_nat j < section_length /\ data !! j = Some "000"%byte.

Definition resolve_name (data : list byte) (sh : generic_shdr)
  : generic_shdr :=
  set_gh_namestring (cstring_at data (gh_name sh)) sh.

Definition mark_invalid_name (sh : generic_shdr) : generic_shdr :=
  set_gh_namestring invalid_sh_name sh.

(** Section [i] after name resolution stopped at section [k]. *)
Definition stopped_at (k : nat) (data : list byte) (i : nat)
  (sh : generic_shdr) : generic_shdr :=
  if (i <? k)%nat then resolve_name data sh
  else if (i =? k)%nat then mark_invalid_name sh
  else sh.

(** What the loop over the names keeps fixed, and what it has done
    when it reaches section [a]. *)
Definition names_done (w : world) (a : nat) (wc : world) : Prop :=
  f_elf_shstrings_data (w_ep wc) = f_elf_shstrings_data (w_ep w)
  /\ f_elf_shstrings_length (w_ep wc) = f_elf_shstrings_length (w_ep w)
  /\ forall i : nat,
      f_shdr (w_ep wc) !! i
      = if (i <? a)%nat
        then resolve_name (default [] (f_elf_shstrings_data (w_ep w)))
               <$> f_shdr (w_ep w) !! i
        else f_shdr (w_ep w) !! i.

(** The section-header string table ["\0.text\0.debug_info\0"] followed
    by the three bytes "abc" with no NUL after them, and a section table
    whose third name offset points into those. *)
Definition sample_shstrings : list byte :=
  [ "000"; "."; "t"; "e"; "x"; "t"; "000"; "."; "d"; "e"; "b"; "u"; "g";
    "_"; "i"; "n"; "f"; "o"; "000"; "a"; "b"; "c" ]%byte.

Definition named_shdr (name : Z) : generic_shdr :=
  {| gh_name := name; gh_namestring := ""; gh_type := 1; gh_flags := 0;
     gh_offset := 0; gh_size := 0; gh_entsize := 0;
     gh_reloc_target_secnum := 0; gh_rels := None; gh_relcount := 0;
     gh_sht_group_array := None; gh_sht_group_array_count := 0;
     gh_is_dwarf := false; gh_section_group_number := 0 |}.

Definition bad_names_world : world :=
  sample_world
    (set_f_elf_shstrings_length 22
       (set_f_elf_shstrings_max 22
          (set_f_elf_shstrings_data (Some sample_shstrings)
             (sample_ep 64 200
                [ named_shdr 0; named_shdr 1; named_shdr 19;
                  named_shdr 7 ])))).

(** The two readings of entry [i] of an SHT_GROUP payload [data], the
    one the loader keeps for a table of [count] sections, and the
    leading version word. *)
Definition gs_native (WORDS_BIGENDIAN : bool) (data : list byte) (i : nat)
  : Z :=
  ASNAR WORDS_BIGENDIAN memcpy
    (sub_bytes data (Z.to_nat DWARF_32BIT_SIZE * i) 4).

Definition gs_swapped (WORDS_BIGENDIAN : bool) (data : list byte) (i : nat)
  : Z :=
  ASNAR WORDS_BIGENDIAN _dwarf_memcpy_swap_bytes
    (sub_bytes data (Z.to_nat DWARF_32BIT_SIZE * i) 4).

Definition gs_selected (WORDS_BIGENDIAN : bool) (count : Z)
  (data : list byte) (i : nat) : Z :=
  if gs_native WORDS_BIGENDIAN data i >? count
  then gs_swapped WORDS_BIGENDIAN data i
  else gs_native WORDS_BIGENDIAN data i.

Definition gs_version (WORDS_BIGENDIAN : bool) (data : list byte) : Z :=
  ASNAR WORDS_BIGENDIAN memcpy (sub_bytes data 0 4).

(** The sections that the entries 1 to [k - 1] of a payload select, in
    the order of the payload. *)
Definition gs_selection (WORDS_BIGENDIAN : bool) (count : Z)
  (data : list byte) (k : nat) : list Z :=
  map (gs_selected WORDS_BIGENDIAN count data) (seq 1 (k - 1)).

(** Whether one of the entries [sels] selects section [i]. *)
Definition selects (sels : list Z) (i : nat) : bool :=
  existsb (fun s => (Z.to_nat s =? i)%nat) sels.

(** The table [L] once the sections [sels] have been given the group
    number [n], one after the other. *)
Definition number_sections (n : Z) (sels : list Z) (L : list generic_shdr)
  : list generic_shdr :=
  foldl (fun L s => alter (set_gh_section_group_number n) (Z.to_nat s) L)
        L sels.

(** Entry [k] of the payload [data] of a group that gets the number
    [n], read against the table [L] of [count] sections as it was when
    the payload was opened, is refused: it is zero, or both its readings
    exceed the count, or the section it selects has a group number
    already, which is [n] when an earlier entry of the payload has
    selected that section and the number it has in [L] otherwise. *)
Definition gs_refused (WORDS_BIGENDIAN : bool) (n count : Z)
  (L : list generic_shdr) (data : list byte) (k : nat) : Prop :=
  let sel := gs_selected WORDS_BIGENDIAN count data k in
  gs_native WORDS_BIGENDIAN data k = 0
  \/ (gs_native WORDS_BIGENDIAN data k > count
      /\ gs_swapped WORDS_BIGENDIAN data k > count)
  \/ exists targ : generic_shdr,
      L !! Z.to_nat sel = Some targ
      /\ (if selects (gs_selection WORDS_BIGENDIAN count data k)
               (Z.to_nat sel)
          then n else gh_section_group_number targ) <> 0.

(** The array of a group of [cnt] words when the loop over its entries
    reaches entry [k]: the version word 1, the sections selected so
    far, then what the allocation left there. *)
Definition gs_array_at (WORDS_BIGENDIAN : bool) (uninit_word : Z)
  (count : Z) (data : list byte) (cnt k : nat) : list Z :=
  (1 :: gs_selection WORDS_BIGENDIAN count data k)
    ++ replicate (cnt - k) uninit_word.

(** The state [w] with [L] for its section table. *)
Definition with_table (L : list generic_shdr) (w : world) : world :=
  upd_ep (set_f_shdr L) w.

(** What a successful reading of the payload [data], of [cnt] words, of
    the group section [j] makes of the record: the sections selected
    have the next group number, the section [j] holds the array (the
    version word 1, then the sections selected) and its length, and
    the next group number and the count of groups have advanced when
    the payload has an entry. *)
Definition group_recorded (WORDS_BIGENDIAN : bool) (j : nat) (cnt : Z)
  (data : list byte) (ep : dwarf_elf_object_access_internals_t)
  : dwarf_elf_object_access_internals_t :=
  let n := f_sg_next_group_number ep in
  let sels := gs_selection WORDS_BIGENDIAN (g_count (f_loc_shdr ep)) data
                (Z.to_nat cnt) in
  let L := number_sections n sels (f_shdr ep) in
  let L := alter (set_gh_sht_group_array (Some (1 :: sels))) j L in
  let L := alter (set_gh_sht_group_array_count cnt) j L in
  let ep :=
    if 1 <? cnt then
      set_f_sht_group_type_section_count
        (u64 (f_sht_group_type_section_count ep + 1))
        (set_f_sg_next_group_number (u64 (n + 1)) ep)
    else ep in
  set_f_shdr L ep.

(** The first [n] allocations to come succeed. *)
Definition allocations_succeed (n : nat) (w : world) : Prop :=
  Forall (fun b => b = true) (take n (w_heap w)).

(** A group section with one section of the table: the payload holds
    the version word 1 and twice the entry 1. *)
Definition group_sections : list generic_shdr :=
  [ sample_shdr "" SHT_NULL 0 0 0 0 false;
    sample_shdr ".debug_info" 1 64 16 0 0 false;
    sample_shdr ".group" SHT_GROUP 0 12 4 0 false ].


Definition group_world : world :=
  sample_world (sample_ep 64 200 group_sections).

(** ** Section groups, as the table records them *)




(** Section [i] is named by the payload recorded at group section [j]
    (entry 0 of a payload is its version word). *)
Definition listed_in (L : list generic_shdr) (j i : nat) : Prop :=
  exists sh arr k,
    L !! j = Some sh /\ gh_sht_group_array sh = Some arr
    /\ (1 <= k)%nat /\ arr !! k = Some (Z.of_nat i).

(** The section table of an object whose groups are not set up yet. *)
Definition fresh_sections (L : list generic_shdr) : Prop :=
  forall i sh, L !! i = Some sh ->
               gh_section_group_number sh = 0
               /\ gh_is_dwarf sh = false
               /\ gh_sht_group_array sh = None.

(** What step C makes of one section header. *)
Definition marked (ign : string -> bool) (sh : generic_shdr) : generic_shdr :=
  let name := gh_namestring sh in
  if is_empty_section (gh_type sh) then sh
  else if elf_sht_groupsec (gh_type sh) name then sh
  else if string_endswith name ".dwo" then
    set_gh_section_group_number DW_GROUPNUMBER_DWO (set_gh_is_dwarf true sh)
  else if fst (_dwarf_load_elf_section_is_dwarf ign name) then
    set_gh_is_dwarf true
      (if gh_section_group_number sh =? 0
       then set_gh_section_group_number DW_GROUPNUMBER_BASE sh
       else sh)
  else sh.




(** What step C has done when the second loop reaches section [a];
    [L1] is the table when the loop began. *)
Definition sections_marked (ign : string -> bool) (L1 : list generic_shdr)
  (a : nat) (w : world) : Prop :=
  (forall i, f_shdr (w_ep w) !! i
             = if (i <? a)%nat then marked ign <$> L1 !! i else L1 !! i)
  /\ (forall i sh, (i < a)%nat -> L1 !! i = Some sh ->
        is_empty_section (gh_type sh) = false ->
        elf_sht_groupsec (gh_type sh) (gh_namestring sh) = false ->
        string_endswith (gh_namestring sh) ".dwo" = true ->
        gh_section_group_number sh = 0).




(** An object with a base DWARF section placed in a group, a ".dwo"
    section and an ungrouped DWARF section; the file begins with the
    payload of the group: version 1, then section 1. *)
Definition grouped_sections : list generic_shdr :=
  [ sample_shdr "" SHT_NULL 0 0 0 0 false;
    sample_shdr ".debug_info" 1 64 16 0 0 false;
    sample_shdr ".debug_info.dwo" 1 80 16 0 0 false;
    sample_shdr ".group" SHT_GROUP 0 8 4 0 false;
    sample_shdr ".debug_line" 1 96 16 0 0 false ].

Definition grouped_file : list byte :=
  [ "001"; "000"; "000"; "000"; "001"; "000"; "000"; "000" ]%byte.

Definition grouped_world : world :=
  sample_world (sample_ep 64 200 grouped_sections).


(** ** Further contracts and samples *)

(** The string [s] begins with [q]. *)
Definition starts_with (q s : string) : Prop :=
  exists t : string, s = (q ++ t)%string.

(** The fields of a decoded symbol that come from one byte or two of the
    file, and the two halves of [st_info]. *)
Definition symentry_fields_ok (g : generic_symentry) : Prop :=
  gs_info g = 16 * gs_bind g + gs_type g
  /\ 0 <= gs_bind g < 16
  /\ 0 <= gs_type g < 16
  /\ 0 <= gs_other g < 256
  /\ 0 <= gs_shndx g < 65536
  /\ 0 <= gs_name g < two32.

(** An object whose section 1 is a symbol table of one 64-bit record
    placed at the start of the file: name offset 1, [st_info] 0x12
    (binding 1, type 2), section index 1, value 0x40, size 8. *)
Definition one_symbol_file : list byte :=
  [ "001"; "000"; "000"; "000"; "018"; "000"; "001"; "000";
    "064"; "000"; "000"; "000"; "000"; "000"; "000"; "000";
    "008"; "000"; "000"; "000"; "000"; "000"; "000"; "000" ]%byte.

Definition one_symbol_world : world :=
  sample_world
    (sample_ep_symtab 64 24 1
       [ sample_shdr "" SHT_NULL 0 0 0 0 false;
         sample_shdr ".symtab" 2 0 24 24 0 false ]).

(** What the two symbol decoders and their dispatcher hand back for the
    section at [offset] of [size] bytes: the record [ep] is as it was, at
    most the one read of the section was issued, and the symbols come
    with their count on success only. *)
Definition symbols_result (offset size : Z) (w : world)
  (r : status * option (list generic_symentry * Z) * world) : Prop :=
  let '(res, out, w1) := r in
  w_ep w1 = w_ep w
  /\ (w_reads w1 = w_reads w
      \/ w_reads w1 = (w_reads w ++ [(offset, size)])%list)
  /\ (res <> DW_DLV_OK -> out = None)
  /\ (res = DW_DLV_OK ->
      exists gsym, out = Some (gsym, Z.of_nat (length gsym))
                   /\ Forall symentry_fields_ok gsym).

(** A decoded 32-bit relocation record: [gr_info] splits into the
    symbol index and the type as ELF32_R_SYM and ELF32_R_TYPE do, the
    flag [gr_is_rela] is [is_rela], and a plain REL record has the
    addend 0. *)
Definition rel32_fields_ok (is_rela : bool) (g : generic_rela) : Prop :=
  gr_info g = 256 * gr_sym g + gr_type g
  /\ 0 <= gr_type g < 256
  /\ 0 <= gr_sym g < 16777216
  /\ 0 <= gr_offset g < two32
  /\ gr_is_rela g = is_rela
  /\ (is_rela = false -> gr_addend g = 0).

(** How the fields of a record decoded from a little-endian MIPS64
    object on a little-endian host lie in its [gr_info]. *)
Definition mips64el_fields (CHAR_IS_SIGNED : bool) (sizeof_gr_type2 : Z)
  (g : generic_rela) : Prop :=
  gr_sym g = gr_info g mod 2 ^ 32
  /\ gr_type3 g
     = widened CHAR_IS_SIGNED sizeof_gr_type2 ((gr_info g / 2 ^ 40) mod 256)
  /\ gr_type2 g
     = widened CHAR_IS_SIGNED sizeof_gr_type2 ((gr_info g / 2 ^ 48) mod 256)
  /\ gr_type g
     = widened CHAR_IS_SIGNED sizeof_Dwarf_Unsigned (gr_info g / 2 ^ 56).

(** The flag the caller asks for. *)
Definition is_rela_of (localr : RelocRela) : bool :=
  match localr with RelocIsRela => true | RelocIsRel => false end.

(** A record as the batch loader leaves it for the request [localr]. *)
Definition rel_flag_ok (localr : RelocRela) (g : generic_rela) : Prop :=
  gr_is_rela g = is_rela_of localr
  /\ (localr = RelocIsRel -> gr_addend g = 0).

(** The section-name strings of [ep] agree with their buffer: the
    length in use does not exceed the size recorded for the buffer, and
    the buffer, when there is one, has that size. *)
Definition shstrings_consistent (ep : dwarf_elf_object_access_internals_t)
  : Prop :=
  0 <= f_elf_shstrings_length ep <= f_elf_shstrings_max ep
  /\ match f_elf_shstrings_data ep with
     | Some buf => Z.of_nat (length buf) = f_elf_shstrings_max ep
     | None => f_elf_shstrings_max ep = 0
     end.

(** A section header without what the set-up of the section groups
    writes in it. *)
Definition section_static (sh : generic_shdr) : generic_shdr :=
  set_gh_is_dwarf false
    (set_gh_section_group_number 0
       (set_gh_sht_group_array None (set_gh_sht_group_array_count 0 sh))).

(** The record [ep] without what the set-up of the section groups
    writes: the group fields of the section headers, the next group
    number and the three counters. *)
Definition groups_erased (ep : dwarf_elf_object_access_internals_t)
  : dwarf_elf_object_access_internals_t :=
  set_f_shdr (section_static <$> f_shdr ep)
    (set_f_sg_next_group_number 0
       (set_f_sht_group_type_section_count 0
          (set_f_shf_group_flag_section_count 0
             (set_f_dwo_group_section_count 0 ep)))).

(** The read of the payload of a group section of [ep]. *)
Definition group_read (ep : dwarf_elf_object_access_internals_t)
  (rd : Z * Z) : Prop :=
  exists (j : nat) (psh : generic_shdr),
    f_shdr ep !! j = Some psh
    /\ is_empty_section (gh_type psh) = false
    /\ elf_sht_groupsec (gh_type psh) (gh_namestring psh) = true
    /\ rd = (gh_offset psh, gh_size psh).

(** What a step of the set-up of the section groups may do to the
    state: it leaves the record as it was but for the group fields, and
    it reads payloads of group sections only. *)
Definition groups_frame (w w' : world) : Prop :=
  groups_erased (w_ep w') = groups_erased (w_ep w)
  /\ exists l : list (Z * Z),
      w_reads w' = (w_reads w ++ l)%list /\ Forall (group_read (w_ep w)) l.

(** The test step C applies to the name and the type of a section. *)
Definition dwarf_name_test (ign : string -> bool) (sh : generic_shdr)
  : bool :=
  negb (is_empty_section (gh_type sh))
  && negb (elf_sht_groupsec (gh_type sh) (gh_namestring sh))
  && (string_endswith (gh_namestring sh) ".dwo"
      || fst (_dwarf_load_elf_section_is_dwarf ign (gh_namestring sh))).




(** How many headers of [L] satisfy [has]. *)
Fixpoint count_sections (has : generic_shdr -> bool) (L : list generic_shdr)
  : nat :=
  match L with
  | [] => 0%nat
  | sh :: r => ((if has sh then 1 else 0) + count_sections has r)%nat
  end.




(** A file of 104 NUL bytes, enough for the relocation section of
    [debug_sections]. *)
Definition zero_file : list byte := replicate 104 "000"%byte.

(** An ELF header that counts two sections, and an object whose section
    1 holds the section-name strings, placed at the start of the file. *)
Definition two_section_ehdr : generic_ehdr :=
  {| ge_ident := []; ge_type := 1; ge_machine := 62; ge_version := 1;
     ge_entry := 0; ge_phoff := 0; ge_shoff := 64; ge_flags := 0;
     ge_ehsize := 64; ge_phentsize := 0; ge_phnum := 0; ge_shentsize := 64;
     ge_shnum := 2; ge_shstrndx := 1 |}.

Definition strings_world : world :=
  sample_world
    (set_f_ehdr (Some two_section_ehdr)
       (sample_ep 64 200
          [ sample_shdr "" SHT_NULL 0 0 0 0 false;
            sample_shdr "" 3 0 22 0 0 false ])).

(** An object whose section 1 holds the symbol-name strings, found
    already: 22 bytes at the start of the file. *)
Definition symstr_world : world :=
  sample_world
    (set_f_symtab_sect_strings_max 22
       (set_f_symtab_sect_strings_sect_index 1
          (sample_ep 64 200
             [ sample_shdr "" SHT_NULL 0 0 0 0 false;
               sample_shdr ".strtab" 3 0 22 0 0 false ]))).

(** A payload whose one entry is the section count of [group_world]. *)
Definition count_entry_payload : list byte :=
  [ "001"; "000"; "000"; "000"; "003"; "000"; "000"; "000" ]%byte.

(** The fields of a decoded ELF header fit the widths of the fields of
    the file: two bytes, four bytes, or the offset size [bits] of the
    object for the entry point and the two table offsets. *)
Definition ehdr_fields_ok (bits : Z) (e : generic_ehdr) : Prop :=
  (0 <= ge_type e < 65536 /\ 0 <= ge_machine e < 65536
   /\ 0 <= ge_ehsize e < 65536)
  /\ (0 <= ge_phentsize e < 65536 /\ 0 <= ge_phnum e < 65536)
  /\ (0 <= ge_shentsize e < 65536 /\ 0 <= ge_shnum e < 65536
      /\ 0 <= ge_shstrndx e < 65536)
  /\ (0 <= ge_version e < two32 /\ 0 <= ge_flags e < two32)
  /\ (0 <= ge_entry e < 2 ^ bits /\ 0 <= ge_phoff e < 2 ^ bits
      /\ 0 <= ge_shoff e < 2 ^ bits).

(** The size of the ELF header of an object of offset size [bits]. *)
Definition ehdr_size (bits : Z) : Z :=
  if bits =? 32 then sizeof_dw_elf32_ehdr else sizeof_dw_elf64_ehdr.

(** The start of a 64-bit ELF file: the identification bytes, type 1,
    machine 62, version 1, the section headers at offset 64, header size
    64, section header size 64, four sections, string index 3. *)
Definition ehdr64_file : list byte :=
  ([ "127"; "E"; "L"; "F"; "002"; "001"; "001"; "000";
     "000"; "000"; "000"; "000"; "000"; "000"; "000"; "000";
     "001"; "000"; "062"; "000"; "001"; "000"; "000"; "000" ]
   ++ replicate 8 "000" ++ replicate 8 "000"
   ++ [ "064"; "000"; "000"; "000"; "000"; "000"; "000"; "000" ]
   ++ replicate 4 "000"
   ++ [ "064"; "000"; "000"; "000"; "000"; "000"; "064"; "000";
        "004"; "000"; "003"; "000" ])%byte%list.

(** ** The section headers *)

(** The size of a section header of a file of offset size [bits]. *)
Definition shdr_size (bits : Z) : Z :=
  if bits =? 32 then sizeof_dw_elf32_shdr else sizeof_dw_elf64_shdr.

(** The fields of a decoded section header fit the widths of the fields
    of the file: four bytes, or the offset size [bits] of the object for
    the flags, the address, the offset, the size, the alignment and the
    entry size. *)
Definition shdr_fields_ok (bits : Z) (sh : generic_shdr)
  (rest : generic_shdr_rest) : Prop :=
  (0 <= gh_name sh < two32 /\ 0 <= gh_type sh < two32
   /\ 0 <= gh_link rest < two32 /\ 0 <= gh_info rest < two32)
  /\ (0 <= gh_flags sh < 2 ^ bits /\ 0 <= gh_addr rest < 2 ^ bits
      /\ 0 <= gh_offset sh < 2 ^ bits)
  /\ (0 <= gh_size sh < 2 ^ bits /\ 0 <= gh_addralign rest < 2 ^ bits
      /\ 0 <= gh_entsize sh < 2 ^ bits).

(** The relocation target of a header is its [sh_info] for the two
    types of relocation sections and 0 for every other type. *)
Definition reloc_target_ok (sh : generic_shdr) (rest : generic_shdr_rest)
  : Prop :=
  gh_reloc_target_secnum sh
  = if (gh_type sh =? SHT_REL) || (gh_type sh =? SHT_RELA)
    then gh_info rest else 0.

(** A section table just loaded for [count] headers read at [offset]:
    the record has the table and its location and is otherwise as in
    [st], both halves of the table have [count] entries, no header has
    relocations, a group or a DWARF mark yet, and every header has its
    number and fields of the widths of the file. *)
Definition sections_loaded (bits offset count : Z) (st st' : loader_state)
  : Prop :=
  exists (L : list generic_shdr) (R : list generic_shdr_rest),
    w_ep (fst st')
    = set_f_loc_shdr
        {| g_name := "Section Header"; g_offset := offset; g_count := count;
           g_entrysize := shdr_size bits;
           g_totalsize := shdr_size bits * count |}
        (set_f_shdr L (w_ep (fst st)))
    /\ snd st' = set_f_shdr_rest R (snd st)
    /\ length L = Z.to_nat count /\ length R = Z.to_nat count
    /\ fresh_sections L
    /\ forall (i : nat) (sh : generic_shdr) (rest : generic_shdr_rest),
        L !! i = Some sh -> R !! i = Some rest ->
        gh_secnum rest = Z.of_nat i
        /\ shdr_fields_ok bits sh rest
        /\ reloc_target_ok sh rest
        /\ gh_rels sh = None /\ gh_relcount sh = 0.

(** What [elf_load_sectheaders32] ([bits] 32) and
    [elf_load_sectheaders64] ([bits] 64) leave behind with the status
    [r]: on OK the table of [count > 0] headers whose records, of the
    size [entsize] the file gives and at least the size of the
    structure, were read in one read that lies inside the file; on any
    other status the record as it was; and never more than that one
    read. *)
Definition sectheaders_result (bits offset entsize count : Z)
  (st : loader_state) (r : status) (st' : loader_state) : Prop :=
  let table_read := (offset, count * entsize) in
  (r = DW_DLV_OK ->
   sections_loaded bits offset count st st'
   /\ 0 < count /\ shdr_size bits <= entsize <= 200
   /\ w_reads (fst st') = (w_reads (fst st) ++ [table_read])%list)
  /\ (r <> DW_DLV_OK ->
      w_ep (fst st') = w_ep (fst st) /\ snd st' = snd st)
  /\ (w_reads (fst st') = w_reads (fst st)
      \/ w_reads (fst st') = (w_reads (fst st) ++ [table_read])%list
         /\ offset + count * entsize <= f_filesize (w_ep (fst st))).

(** The [n] bytes of [v], the least significant first. *)
Fixpoint le_bytes (n : nat) (v : Z) : list byte :=
  match n with
  | O => []
  | S n' =>
      default "000"%byte (Byte.of_N (Z.to_N (v mod 256)))
        :: le_bytes n' (v / 256)
  end.

(** A section header of a little-endian 64-bit file. *)
Definition shdr64_bytes (name type flags addr offset size link info
                           addralign entsize : Z) : list byte :=
  (le_bytes 4 name ++ le_bytes 4 type ++ le_bytes 8 flags
   ++ le_bytes 8 addr ++ le_bytes 8 offset ++ le_bytes 8 size
   ++ le_bytes 4 link ++ le_bytes 4 info ++ le_bytes 8 addralign
   ++ le_bytes 8 entsize)%list.

(** A little-endian 64-bit ELF file of 347 bytes: the header, four
    section headers at offset 64 (the null section, a symbol table
    without symbols linked to section 2, its strings, the section-name
    strings) and at offset 320 the 27 bytes of the section names. *)
Definition elf64_file : list byte :=
  (ehdr64_file
   ++ shdr64_bytes 0 0 0 0 0 0 0 0 0 0
   ++ shdr64_bytes 1 2 0 0 320 0 2 0 8 24
   ++ shdr64_bytes 9 3 0 0 320 1 0 0 1 0
   ++ shdr64_bytes 17 3 0 0 320 27 0 0 1 0
   ++ "000"%byte :: list_byte_of_string ".symtab"
   ++ "000"%byte :: list_byte_of_string ".strtab"
   ++ "000"%byte :: list_byte_of_string ".shstrtab" ++ [ "000"%byte ])%list.

(** The decoded header of [elf64_file]. *)
Definition elf64_ehdr : generic_ehdr :=
  {| ge_ident := take 16 ehdr64_file; ge_type := 1; ge_machine := 62;
     ge_version := 1; ge_entry := 0; ge_phoff := 0; ge_shoff := 64;
     ge_flags := 0; ge_ehsize := 64; ge_phentsize := 0; ge_phnum := 0;
     ge_shentsize := 64; ge_shnum := 4; ge_shstrndx := 3 |}.

(** The rest of a record [ep] that [calloc] has cleared. *)
Definition fresh_rest : ep_rest :=
  {| f_shdr_rest := []; f_dynsym_sect_index := 0;
     f_loc_dynsym := sample_loc "" 0;
     f_dynsym_sect_strings_sect_index := 0; f_dynsym_sect_strings_max := 0;
     f_dynamic_sect_index := 0; f_loc_dynamic := sample_loc "" 0 |}.

(** The state of the loader of [elf64_file] once the ELF header is
    decoded. *)
Definition elf64_state : loader_state :=
  (sample_world
     (set_f_loc_shdr (sample_loc "" 0)
        (set_f_ehdr (Some elf64_ehdr) (sample_ep 64 347 []))),
   fresh_rest).

(** ** The sections of the symbols *)

(** No section of [L] before [count] that is not empty has the name
    [name]; section [i] is the last one before [count] that is not
    empty and has it. *)
Definition none_named (name : string) (L : list generic_shdr) (count : nat)
  : Prop :=
  forall (j : nat) (sh : generic_shdr),
    (j < count)%nat -> L !! j = Some sh ->
    is_empty_section (gh_type sh) = false -> gh_namestring sh <> name.

Definition last_named (name : string) (L : list generic_shdr) (count : nat)
  (i : nat) (sh : generic_shdr) : Prop :=
  (i < count)%nat /\ L !! i = Some sh
  /\ is_empty_section (gh_type sh) = false /\ gh_namestring sh = name
  /\ forall (j : nat) (sh' : generic_shdr),
      (i < j < count)%nat -> L !! j = Some sh' ->
      is_empty_section (gh_type sh') = false -> gh_namestring sh' <> name.

(** What the loop of [_dwarf_elf_find_sym_sections] over the first
    [count] sections of [L] makes of the two fields it keeps for the
    name [name], an index and the [field] of the header: they stay as
    they were, [old], when no section has the name, and they are those
    of the last section that has it otherwise. *)
Definition recorded (name : string) (field : generic_shdr -> Z)
  (L : list generic_shdr) (count : nat) (old new : Z * Z) : Prop :=
  (none_named name L count /\ new = old)
  \/ exists (i : nat) (sh : generic_shdr),
      last_named name L count i sh /\ new = (Z.of_nat i, field sh).

(** The record [ep] with the four fields kept for ".symtab" and
    ".strtab" set, and the rest of the record with the six fields kept
    for ".dynsym", ".dynstr" and ".dynamic". *)
Definition sym_fields (symtab symtab_offset strtab strtab_max : Z)
  (ep : dwarf_elf_object_access_internals_t)
  : dwarf_elf_object_access_internals_t :=
  set_f_symtab_sect_index symtab
    (set_f_loc_symtab (set_g_offset symtab_offset (f_loc_symtab ep))
       (set_f_symtab_sect_strings_sect_index strtab
          (set_f_symtab_sect_strings_max strtab_max ep))).

Definition dyn_fields (dynsym dynsym_offset dynstr dynstr_max dynamic
                         dynamic_offset : Z) (m : ep_rest) : ep_rest :=
  set_f_dynsym_sect_index dynsym
    (set_f_loc_dynsym (set_g_offset dynsym_offset (f_loc_dynsym m))
       (set_f_dynsym_sect_strings_sect_index dynstr
          (set_f_dynsym_sect_strings_max dynstr_max
             (set_f_dynamic_sect_index dynamic
                (set_f_loc_dynamic
                   (set_g_offset dynamic_offset (f_loc_dynamic m)) m))))).

(** The state [st'] is [st] but for those ten fields and the error
    code. *)
Definition sym_fields_only (st st' : loader_state) : Prop :=
  let ep' := w_ep (fst st') in
  let m' := snd st' in
  ep' = sym_fields (f_symtab_sect_index ep') (g_offset (f_loc_symtab ep'))
          (f_symtab_sect_strings_sect_index ep')
          (f_symtab_sect_strings_max ep') (w_ep (fst st))
  /\ m' = dyn_fields (f_dynsym_sect_index m') (g_offset (f_loc_dynsym m'))
            (f_dynsym_sect_strings_sect_index m')
            (f_dynsym_sect_strings_max m') (f_dynamic_sect_index m')
            (g_offset (f_loc_dynamic m')) (snd st)
  /\ w_reads (fst st') = w_reads (fst st)
  /\ w_heap (fst st') = w_heap (fst st).

(** The ten fields of [st'] are what the loop over the first [k]
    sections of [st] records. *)
Definition sym_sections_found (st : loader_state) (k : nat)
  (st' : loader_state) : Prop :=
  let ep := w_ep (fst st) in
  let ep' := w_ep (fst st') in
  let m := snd st in
  let m' := snd st' in
  let L := f_shdr ep in
  recorded ".symtab" gh_offset L k
    (f_symtab_sect_index ep, g_offset (f_loc_symtab ep))
    (f_symtab_sect_index ep', g_offset (f_loc_symtab ep'))
  /\ recorded ".strtab" gh_size L k
       (f_symtab_sect_strings_sect_index ep, f_symtab_sect_strings_max ep)
       (f_symtab_sect_strings_sect_index ep', f_symtab_sect_strings_max ep')
  /\ recorded ".dynsym" gh_offset L k
       (f_dynsym_sect_index m, g_offset (f_loc_dynsym m))
       (f_dynsym_sect_index m', g_offset (f_loc_dynsym m'))
  /\ recorded ".dynstr" gh_size L k
       (f_dynsym_sect_strings_sect_index m, f_dynsym_sect_strings_max m)
       (f_dynsym_sect_strings_sect_index m', f_dynsym_sect_strings_max m')
  /\ recorded ".dynamic" gh_offset L k
       (f_dynamic_sect_index m, g_offset (f_loc_dynamic m))
       (f_dynamic_sect_index m', g_offset (f_loc_dynamic m')).

(** ** The stages of the loading of the section headers *)

(** The record [ep] without the buffer of the section-name strings, and
    without the names set in the section headers. *)
Definition shstrings_erased (ep : dwarf_elf_object_access_internals_t)
  : dwarf_elf_object_access_internals_t :=
  set_f_elf_shstrings_data None
    (set_f_elf_shstrings_length 0 (set_f_elf_shstrings_max 0 ep)).

Definition names_erased (ep : dwarf_elf_object_access_internals_t)
  : dwarf_elf_object_access_internals_t :=
  set_f_shdr (set_gh_namestring "" <$> f_shdr ep) ep.

(** The section table of [st] is the one of the ELF header [e]: the
    count kept for the table is [e_shnum], both halves of the table
    have that many headers, the length in use of the section-name
    strings lies within their buffer, and the index kept for the symbol
    table lies in the table. *)
Definition table_loaded (e : generic_ehdr) (st : loader_state) : Prop :=
  let ep := w_ep (fst st) in
  f_ehdr ep = Some e
  /\ (0 < ge_shnum e /\ g_count (f_loc_shdr ep) = ge_shnum e)
  /\ (length (f_shdr ep) = Z.to_nat (ge_shnum e)
      /\ length (f_shdr_rest (snd st)) = Z.to_nat (ge_shnum e))
  /\ shstrings_consistent ep
  /\ 0 <= f_symtab_sect_index ep < ge_shnum e.

(** The name offsets of the headers are not negative, and their
    offsets and sizes are 64-bit values. *)
Definition sizes_nonneg (L : list generic_shdr) : Prop :=
  Forall (fun sh => 0 <= gh_name sh
                    /\ is_u64 (gh_offset sh) /\ is_u64 (gh_size sh)) L.

(** Between [st1] and [st4] one read was issued, that of the section
    [e_shstrndx] of the table, the section-name strings, and it lies
    inside the file. *)
Definition strings_read (e : generic_ehdr) (st1 st4 : loader_state)
  : Prop :=
  exists psh : generic_shdr,
    f_shdr (w_ep (fst st4)) !! Z.to_nat (ge_shstrndx e) = Some psh
    /\ w_reads (fst st4)
       = (w_reads (fst st1) ++ [(gh_offset psh, gh_size psh)])%list
    /\ gh_offset psh + gh_size psh <= f_filesize (w_ep (fst st1)).

(** Between [st] and [st4] two reads were issued, both inside the file:
    that of the [e_shnum] section headers of [e_shentsize] bytes at
    [e_shoff], then that of the section-name strings. *)
Definition table_reads (e : generic_ehdr) (st st4 : loader_state) : Prop :=
  exists psh : generic_shdr,
    f_shdr (w_ep (fst st4)) !! Z.to_nat (ge_shstrndx e) = Some psh
    /\ w_reads (fst st4)
       = (w_reads (fst st)
            ++ [(ge_shoff e, ge_shnum e * ge_shentsize e);
                (gh_offset psh, gh_size psh)])%list
    /\ ge_shoff e + ge_shnum e * ge_shentsize e
       <= f_filesize (w_ep (fst st))
    /\ gh_offset psh + gh_size psh <= f_filesize (w_ep (fst st)).

(** The first stage of [_dwarf_load_elf_sectheaders] for the ELF
    header [e]: the section headers are loaded by the function for the
    offset size of the object. *)
Definition headers_stage (WORDS_BIGENDIAN : bool)
  (RRMOA : Z -> Z -> Z -> read_result)
  (DW_DLE_ELF_SECTION_COUNT_MISMATCH : Dwarf_Error_code)
  (e : generic_ehdr) (st : loader_state)
  : option (status * loader_state) :=
  if f_offsetsize (w_ep (fst st)) =? 32 then
    elf_load_sectheaders32 WORDS_BIGENDIAN RRMOA
      DW_DLE_ELF_SECTION_COUNT_MISMATCH
      (ge_shoff e) (ge_shentsize e) (ge_shnum e) st
  else if f_offsetsize (w_ep (fst st)) =? 64 then
    elf_load_sectheaders64 WORDS_BIGENDIAN RRMOA
      DW_DLE_ELF_SECTION_COUNT_MISMATCH
      (ge_shoff e) (ge_shentsize e) (ge_shnum e) st
  else fail_with DW_DLE_OFFSET_SIZE st.

(** The stages that follow the loading of the headers and precede the
    set-up of the section groups have all returned OK: the section-name
    strings were loaded (from [st1] to [st2]), then the names ([st3]),
    then the sections of the symbols were found ([st4]). *)
Definition later_stages (RRMOA : Z -> Z -> Z -> read_result)
  (uninit_byte : byte)
  (DW_DLE_ELF_STRING_SECTION_ERROR DW_DLE_ELF_SECTION_LINK_ERROR
     : Dwarf_Error_code)
  (e : generic_ehdr) (st1 st4 : loader_state) : Prop :=
  exists st2 st3 : loader_state,
    on_world (_dwarf_elf_load_sectstrings RRMOA uninit_byte (ge_shstrndx e))
      st1 = Some (DW_DLV_OK, st2)
    /\ on_world _dwarf_elf_load_sect_namestring st2 = Some (DW_DLV_OK, st3)
    /\ _dwarf_elf_find_sym_sections DW_DLE_ELF_STRING_SECTION_ERROR
         DW_DLE_ELF_SECTION_LINK_ERROR st3 = Some (DW_DLV_OK, st4).

(** All the stages of [_dwarf_load_elf_sectheaders] before the set-up
    of the section groups have returned OK, leading from [st] to
    [st4]. *)
Definition stages_before_groups (WORDS_BIGENDIAN : bool)
  (RRMOA : Z -> Z -> Z -> read_result) (uninit_byte : byte)
  (DW_DLE_ELF_SECTION_COUNT_MISMATCH DW_DLE_ELF_STRING_SECTION_ERROR
     DW_DLE_ELF_SECTION_LINK_ERROR : Dwarf_Error_code)
  (e : generic_ehdr) (st st4 : loader_state) : Prop :=
  exists st1 : loader_state,
    headers_stage WORDS_BIGENDIAN RRMOA DW_DLE_ELF_SECTION_COUNT_MISMATCH
      e st = Some (DW_DLV_OK, st1)
    /\ later_stages RRMOA uninit_byte DW_DLE_ELF_STRING_SECTION_ERROR
         DW_DLE_ELF_SECTION_LINK_ERROR e st1 st4.

(** The table of [elf64_file] with its names, as the loading of the
    headers and of the names leaves it. *)
Definition symtab_sections : list generic_shdr :=
  [ sample_shdr "" SHT_NULL 0 0 0 0 false;
    sample_shdr ".symtab" 2 320 0 24 0 false;
    sample_shdr ".strtab" 3 320 1 0 0 false;
    sample_shdr ".shstrtab" 3 320 27 0 0 false ].

Definition symtab_rest : list generic_shdr_rest :=
  [ {| gh_secnum := 0; gh_addr := 0; gh_link := 0; gh_info := 0;
       gh_addralign := 0 |};
    {| gh_secnum := 1; gh_addr := 0; gh_link := 2; gh_info := 0;
       gh_addralign := 8 |};
    {| gh_secnum := 2; gh_addr := 0; gh_link := 0; gh_info := 0;
       gh_addralign := 1 |};
    {| gh_secnum := 3; gh_addr := 0; gh_link := 0; gh_info := 0;
       gh_addralign := 1 |} ].

Definition named_state : loader_state :=
  (sample_world (sample_ep 64 347 symtab_sections),
   set_f_shdr_rest symtab_rest fresh_rest).

(** * Properties of the loader *)

(** ** Arithmetic of the C integers *)

Lemma u64_id (x : Z) : is_u64 x -> u64 x = x.
Proof. unfold is_u64, u64. intros H. apply Z.mod_small. exact H. Qed.

Lemma u64_range (x : Z) : is_u64 (u64 x).
Proof. unfold is_u64, u64, two64. apply Z.mod_pos_bound. lia. Qed.

Lemma cast_long_id (x : Z) : - 2 ^ 63 <= x < 2 ^ 63 -> cast_long x = x.
Proof.
  unfold cast_long, two64. intros H.
  rewrite Z.mod_small; lia.
Qed.

(** The record count computed through a [long] is the quotient. *)
Lemma count_via_long (size reclen : Z) :
  is_u64 size -> 2 <= reclen ->
  u64 (cast_long (size / reclen)) = size / reclen.
Proof.
  unfold is_u64, two64. intros Hs Hr.
  assert (H0 : 0 <= size / reclen) by (apply Z.div_pos; lia).
  assert (H1 : size / reclen < 2 ^ 63).
  { apply Z.div_lt_upper_bound; lia. }
  rewrite cast_long_id by lia.
  apply u64_id. unfold is_u64, two64. lia.
Qed.

Lemma quot_times_le (size reclen : Z) :
  0 <= size -> 0 < reclen -> 0 <= size / reclen * reclen <= size.
Proof.
  intros Hs Hr. pose proof (Z.mul_div_le size reclen Hr).
  assert (0 <= size / reclen) by (apply Z.div_pos; lia). nia.
Qed.

(** [size2 == size] holds exactly for the multiples of the record size. *)
Lemma size2_eq_iff (size reclen : Z) :
  is_u64 size -> 0 < reclen ->
  (size =? u64 (size / reclen * reclen)) = true <-> size mod reclen = 0.
Proof.
  intros Hs Hr. pose proof (quot_times_le size reclen (proj1 Hs) Hr) as Hq.
  rewrite u64_id by (unfold is_u64 in *; lia).
  rewrite Z.eqb_eq. pose proof (Z.div_mod size reclen ltac:(lia)). lia.
Qed.

(** ** Projections of the updates of the state *)

Lemma fail_status c w : fst (fail c w) = DW_DLV_ERROR.
Proof. reflexivity. Qed.

Lemma set_err_ep c w : w_ep (set_err c w) = w_ep w.
Proof. reflexivity. Qed.

Lemma set_err_reads c w : w_reads (set_err c w) = w_reads w.
Proof. reflexivity. Qed.

Lemma malloc_ep w : w_ep (snd (malloc w)) = w_ep w.
Proof. unfold malloc. destruct (w_heap w); reflexivity. Qed.

Lemma malloc_reads w : w_reads (snd (malloc w)) = w_reads w.
Proof. unfold malloc. destruct (w_heap w); reflexivity. Qed.

Lemma malloc_errcode w : w_errcode (snd (malloc w)) = w_errcode w.
Proof. unfold malloc. destruct (w_heap w); reflexivity. Qed.

Section Properties.

Context (WORDS_BIGENDIAN : bool) (DW_OBJECT_LSB : Z)
  (CHAR_IS_SIGNED : bool) (sizeof_gr_type2 : Z)
  (ign : string -> bool) (SIGN_EXTEND : Z -> Z -> Z)
  (RRMOA : Z -> Z -> Z -> read_result) (struct_sizes_agree : bool)
  (uninit_rela : generic_rela) (uninit_byte : byte) (uninit_word : Z).

Lemma do_RRMOA_ep o l w : w_ep (snd (do_RRMOA RRMOA o l w)) = w_ep w.
Proof. unfold do_RRMOA. simpl. destruct (RRMOA _ _ _); reflexivity. Qed.

Lemma do_RRMOA_reads o l w :
  w_reads (snd (do_RRMOA RRMOA o l w)) = (w_reads w ++ [(o, l)])%list.
Proof. unfold do_RRMOA. simpl. destruct (RRMOA _ _ _); reflexivity. Qed.

Lemma do_RRMOA_fst o l w :
  fst (do_RRMOA RRMOA o l w) = RRMOA o l (f_filesize (w_ep w)).
Proof. unfold do_RRMOA. simpl. destruct (RRMOA _ _ _); reflexivity. Qed.

(** ** C1: the classifier of relocation section names *)

(** C1 (what the code does where the claim fails): the plain-REL flag
    [*is_rel] is cleared on entry and never set, whatever the section
    name and whatever names are ignored; a name beginning ".rel." is
    reported through [*is_rela] instead. *)
Theorem C1_is_rel_never_set (sname : string) :
  out_is_rel (_dwarf_load_elf_section_is_dwarf ign sname) = false.
Proof.
  unfold _dwarf_load_elf_section_is_dwarf, out_is_rel.
  repeat match goal with
         | |- context [if ?c then _ else _] => destruct c
         end; reflexivity.
Qed.

(** ** C10: the symbol-string table is loaded or absent *)

(** C10: [_dwarf_load_elf_symstr] keeps the symbol-string fields
    consistent (a buffer is present only under a non-zero section
    index whose range lies in the file; so it is on a fresh record,
    where the pointer is null), and on consistent fields every return
    with a status other than OK leaves the buffer pointer null: either
    the record [ep] is as it was and the pointer was never set, or the
    pointer, the length and the section index were all cleared. *)
Theorem C10_symstr_failure_leaves_no_buffer (w w' : world) (r : status) :
  symstr_consistent (w_ep w) ->
  _dwarf_load_elf_symstr RRMOA w = Some (r, w') ->
  symstr_consistent (w_ep w')
  /\ (r <> DW_DLV_OK ->
      f_symtab_sect_strings (w_ep w') = None
      /\ (w_ep w' = w_ep w
          \/ (f_symtab_sect_strings_max (w_ep w') = 0
              /\ f_symtab_sect_strings_sect_index (w_ep w') = 0))).
Proof.
  intros Hc Hrun. unfold _dwarf_load_elf_symstr in Hrun.
  destruct (Z.eqb_spec (f_symtab_sect_strings_sect_index (w_ep w)) 0)
    as [Hz|Hnz].
  { inversion Hrun; subst. split; [exact Hc|]. intros _.
    destruct Hc as [Hn|[Hi _]]; [auto | contradiction]. }
  destruct (Z.gtb_spec (f_symtab_sect_strings_max (w_ep w))
              (f_filesize (w_ep w))) as [Hbig|Hle].
  { inversion Hrun; subst. split; [exact Hc|]. intros _.
    destruct Hc as [Hn|[_ [sh [_ [Hm _]]]]]; [auto | lia]. }
  destruct (f_shdr (w_ep w) !! _) as [strpsh|] eqn:Hlook;
    [simpl in Hrun | discriminate].
  destruct (Z.gtb_spec (gh_offset strpsh) (f_filesize (w_ep w)))
    as [Hobig|Hole].
  { inversion Hrun; subst. split; [exact Hc|]. intros _.
    destruct Hc as [Hn|[_ [sh [Hsh [_ [Ho _]]]]]]; [auto|].
    rewrite Hlook in Hsh. inversion Hsh; subst. lia. }
  destruct (Z.gtb_spec (u64 (f_symtab_sect_strings_max (w_ep w)
                             + gh_offset strpsh)) (f_filesize (w_ep w)))
    as [Hsbig|Hsle].
  { inversion Hrun; subst. split; [exact Hc|]. intros _.
    destruct Hc as [Hn|[_ [sh [Hsh [_ [_ Hs]]]]]]; [auto|].
    rewrite Hlook in Hsh. inversion Hsh; subst. lia. }
  simpl in Hrun.
  pose proof (malloc_ep w) as Hme.
  destruct (malloc w) as [p w1]. simpl in Hme.
  destruct p; simpl in Hrun.
  - match type of Hrun with
    | context [do_RRMOA RRMOA ?o ?l ?w0] =>
        pose proof (do_RRMOA_ep o l w0) as Hre;
        destruct (do_RRMOA RRMOA o l w0) as [rd w2]
    end.
    simpl in Hre.
    destruct rd; inversion Hrun; subst; simpl.
    + split; [|congruence]. right. rewrite Hre. simpl. rewrite Hme.
      split; [exact Hnz|]. exists strpsh. auto.
    + split; [left; reflexivity | auto].
    + split; [left; reflexivity | auto].
  - inversion Hrun; subst. simpl. split; [left; reflexivity | auto].
Qed.

(** ** C7: relocations of sections that hold no DWARF *)

Lemma relocation_section_not_empty (gshdr : generic_shdr) :
  gh_type gshdr = SHT_REL \/ gh_type gshdr = SHT_RELA ->
  is_empty_section (gh_type gshdr) = false.
Proof. intros [-> | ->]; reflexivity. Qed.

Lemma relocation_section_type_test (gshdr : generic_shdr) :
  gh_type gshdr = SHT_REL \/ gh_type gshdr = SHT_RELA ->
  negb (gh_type gshdr =? SHT_RELA) && negb (gh_type gshdr =? SHT_REL)
  = false.
Proof. intros [-> | ->]; reflexivity. Qed.

(** C7: for a relocation section (type SHT_REL or SHT_RELA) of the
    table whose target is a section of the table not marked as holding
    DWARF, [_dwarf_load_elf_relx] returns OK and leaves everything as it
    was: no read is issued, no section changes (so [gh_rels] and
    [gh_relcount] stay as they were).  When the target section number
    is not below the section count, it returns ERROR with
    DW_DLE_ELF_SECTION_ERROR. *)
Theorem C7_relx_skips_non_dwarf_target (w : world) (secnum : Z)
  (localr : RelocRela) (gshdr : generic_shdr) :
  0 <= secnum < g_count (f_loc_shdr (w_ep w)) ->
  f_shdr (w_ep w) !! Z.to_nat secnum = Some gshdr ->
  gh_type gshdr = SHT_REL \/ gh_type gshdr = SHT_RELA ->
  0 <= gh_reloc_target_secnum gshdr < two32 ->
  (forall gstarg : generic_shdr,
      gh_reloc_target_secnum gshdr < g_count (f_loc_shdr (w_ep w)) ->
      f_shdr (w_ep w) !! Z.to_nat (gh_reloc_target_secnum gshdr)
      = Some gstarg ->
      gh_is_dwarf gstarg = false ->
      _dwarf_load_elf_relx WORDS_BIGENDIAN DW_OBJECT_LSB CHAR_IS_SIGNED sizeof_gr_type2 SIGN_EXTEND RRMOA
        uninit_rela secnum localr w = Some (DW_DLV_OK, w))
  /\ (g_count (f_loc_shdr (w_ep w)) <= gh_reloc_target_secnum gshdr ->
      _dwarf_load_elf_relx WORDS_BIGENDIAN DW_OBJECT_LSB CHAR_IS_SIGNED sizeof_gr_type2 SIGN_EXTEND RRMOA
        uninit_rela secnum localr w
      = Some (DW_DLV_ERROR, set_err DW_DLE_ELF_SECTION_ERROR w)).
Proof.
  intros Hsec Hlook Htype Htarg.
  assert (Hu : u32 (gh_reloc_target_secnum gshdr)
               = gh_reloc_target_secnum gshdr)
    by (apply Z.mod_small; exact Htarg).
  split.
  - intros gstarg Hlt Hlk Hnd. unfold _dwarf_load_elf_relx.
    destruct (Z.geb_spec secnum (g_count (f_loc_shdr (w_ep w)))); [lia|].
    rewrite Hlook. simpl.
    rewrite relocation_section_not_empty by exact Htype.
    unfold this_rel_is_a_section_dwarf_related.
    rewrite relocation_section_type_test by exact Htype.
    rewrite Hu.
    destruct (Z.geb_spec (gh_reloc_target_secnum gshdr)
                (g_count (f_loc_shdr (w_ep w)))); [lia|].
    rewrite Hlk. simpl. rewrite Hnd. reflexivity.
  - intros Hge. unfold _dwarf_load_elf_relx.
    destruct (Z.geb_spec secnum (g_count (f_loc_shdr (w_ep w)))); [lia|].
    rewrite Hlook. simpl.
    rewrite relocation_section_not_empty by exact Htype.
    unfold this_rel_is_a_section_dwarf_related.
    rewrite relocation_section_type_test by exact Htype.
    rewrite Hu.
    destruct (Z.geb_spec (gh_reloc_target_secnum gshdr)
                (g_count (f_loc_shdr (w_ep w)))); [|lia].
    reflexivity.
Qed.

(** ** C8: an offset size that is neither 32 nor 64 *)

(** C8 (amended): with an offset size that is neither 32 nor 64,
    loading the ELF header returns ERROR with DW_DLE_OFFSET_SIZE (the
    record sizes agreeing with elf.h); loading the symbol table does so
    when the object has a symbol table section whose size does not
    exceed the file size; loading relocations does so for a relocation
    section of the table whose target is a section of non-zero number
    marked as holding DWARF.  Each time only the error code changes:
    nothing is read and nothing is loaded. *)
Theorem C8_offset_size_rejected (w : world) :
  f_offsetsize (w_ep w) <> 32 ->
  f_offsetsize (w_ep w) <> 64 ->
  (struct_sizes_agree = true ->
   _dwarf_load_elf_header WORDS_BIGENDIAN RRMOA struct_sizes_agree w
   = (DW_DLV_ERROR, set_err DW_DLE_OFFSET_SIZE w))
  /\ (forall psh : generic_shdr,
         0 < f_symtab_sect_index (w_ep w) < two32 ->
         f_shdr (w_ep w) !! Z.to_nat (f_symtab_sect_index (w_ep w))
         = Some psh ->
         gh_size psh <= f_filesize (w_ep w) ->
         _dwarf_load_elf_symtab_symbols WORDS_BIGENDIAN RRMOA w
         = Some (DW_DLV_ERROR, set_err DW_DLE_OFFSET_SIZE w))
  /\ (forall (secnum : Z) (localr : RelocRela) (gshdr gstarg : generic_shdr),
         0 <= secnum < g_count (f_loc_shdr (w_ep w)) ->
         f_shdr (w_ep w) !! Z.to_nat secnum = Some gshdr ->
         gh_type gshdr = SHT_REL \/ gh_type gshdr = SHT_RELA ->
         0 < gh_reloc_target_secnum gshdr < g_count (f_loc_shdr (w_ep w)) ->
         gh_reloc_target_secnum gshdr < two32 ->
         f_shdr (w_ep w) !! Z.to_nat (gh_reloc_target_secnum gshdr)
         = Some gstarg ->
         gh_is_dwarf gstarg = true ->
         _dwarf_load_elf_relx WORDS_BIGENDIAN DW_OBJECT_LSB CHAR_IS_SIGNED sizeof_gr_type2 SIGN_EXTEND RRMOA
           uninit_rela secnum localr w
         = Some (DW_DLV_ERROR, set_err DW_DLE_OFFSET_SIZE w)).
Proof.
  intros H32 H64.
  apply Z.eqb_neq in H32. apply Z.eqb_neq in H64.
  split; [|split].
  - intros Hagree. unfold _dwarf_load_elf_header, validate_struct_sizes.
    rewrite Hagree. simpl. rewrite H32, H64. reflexivity.
  - intros psh Hidx Hlook Hsize. unfold _dwarf_load_elf_symtab_symbols.
    destruct (Z.eqb_spec (f_symtab_sect_index (w_ep w)) 0); [lia|].
    rewrite Hlook. simpl.
    destruct (Z.gtb_spec (gh_size psh) (f_filesize (w_ep w))); [lia|].
    unfold dwarf_generic_elf_load_symbols.
    assert (Hu : u32 (f_symtab_sect_index (w_ep w))
                 = f_symtab_sect_index (w_ep w))
      by (apply Z.mod_small; lia).
    rewrite Hu.
    destruct (Z.eqb_spec (f_symtab_sect_index (w_ep w)) 0); [lia|].
    destruct (Z.gtb_spec (gh_size psh) (f_filesize (w_ep w))); [lia|].
    rewrite H32, H64. reflexivity.
  - intros secnum localr gshdr gstarg Hsec Hlook Htype Htarg Ht32 Hlk Hd.
    assert (Hu : u32 (gh_reloc_target_secnum gshdr)
                 = gh_reloc_target_secnum gshdr)
      by (apply Z.mod_small; lia).
    unfold _dwarf_load_elf_relx.
    destruct (Z.geb_spec secnum (g_count (f_loc_shdr (w_ep w)))); [lia|].
    rewrite Hlook. simpl.
    rewrite relocation_section_not_empty by exact Htype.
    unfold this_rel_is_a_section_dwarf_related.
    rewrite relocation_section_type_test by exact Htype.
    rewrite Hu.
    destruct (Z.geb_spec (gh_reloc_target_secnum gshdr)
                (g_count (f_loc_shdr (w_ep w)))); [lia|].
    rewrite Hlk. simpl. rewrite Hd. simpl.
    destruct (Z.eqb_spec (gh_reloc_target_secnum gshdr) 0); [lia|].
    rewrite H32, H64. reflexivity.
Qed.

(** ** C9: section sizes and record sizes *)

Lemma rel_loop_length cast body ecount relp grel :
  0 <= ecount ->
  Z.of_nat (length (rel_loop uninit_rela cast body ecount relp grel))
  = ecount.
Proof.
  intros H. unfold rel_loop. rewrite length_map, length_seq. lia.
Qed.

Lemma symbols32_size_contract :
  sym_size_contract (dwarf_generic_elf_load_symbols32 WORDS_BIGENDIAN RRMOA)
    sizeof_dw_elf32_sym.
Proof.
  intros offset size w Hs. unfold dwarf_generic_elf_load_symbols32.
  rewrite count_via_long by (auto; unfold sizeof_dw_elf32_sym; lia).
  assert (Hq : 0 <= size / sizeof_dw_elf32_sym)
    by (apply Z.div_pos; [apply Hs | reflexivity]).
  destruct (size =? u64 (size / sizeof_dw_elf32_sym * sizeof_dw_elf32_sym))
    eqn:Heq; simpl.
  - apply (size2_eq_iff size sizeof_dw_elf32_sym Hs ltac:(reflexivity))
      in Heq.
    split; [intros Hn; contradiction|].
    intros res out w' Hrun Hok.
    split; [exact Heq|].
    destruct (malloc w) as [p1 w1]; destruct p1; simpl in Hrun;
      [|inversion Hrun; subst; discriminate].
    destruct (malloc w1) as [p2 w2]; destruct p2; simpl in Hrun;
      [|inversion Hrun; subst; discriminate].
    destruct (do_RRMOA RRMOA offset size w2) as [rd w3].
    destruct rd; inversion Hrun; subst; try discriminate.
    eexists. split; [reflexivity|].
    rewrite length_map, length_seq. lia.
  - split; [reflexivity|].
    intros res out w' Hrun Hok. inversion Hrun; subst. discriminate.
Qed.

Lemma symbols64_size_contract :
  sym_size_contract (dwarf_generic_elf_load_symbols64 WORDS_BIGENDIAN RRMOA)
    sizeof_dw_elf64_sym.
Proof.
  intros offset size w Hs. unfold dwarf_generic_elf_load_symbols64.
  rewrite count_via_long by (auto; unfold sizeof_dw_elf64_sym; lia).
  assert (Hq : 0 <= size / sizeof_dw_elf64_sym)
    by (apply Z.div_pos; [apply Hs | reflexivity]).
  destruct (size =? u64 (size / sizeof_dw_elf64_sym * sizeof_dw_elf64_sym))
    eqn:Heq; simpl.
  - apply (size2_eq_iff size sizeof_dw_elf64_sym Hs ltac:(reflexivity))
      in Heq.
    split; [intros Hn; contradiction|].
    intros res out w' Hrun Hok.
    split; [exact Heq|].
    destruct (malloc w) as [p1 w1]; destruct p1; simpl in Hrun;
      [|inversion Hrun; subst; discriminate].
    destruct (malloc w1) as [p2 w2]; destruct p2; simpl in Hrun;
      [|inversion Hrun; subst; discriminate].
    destruct (do_RRMOA RRMOA offset size w2) as [rd w3].
    destruct rd; inversion Hrun; subst; try discriminate.
    eexists. split; [reflexivity|].
    rewrite length_map, length_seq. lia.
  - split; [reflexivity|].
    intros res out w' Hrun Hok. inversion Hrun; subst. discriminate.
Qed.

(** The four relocation decoders differ in the record size and the
    loop body only. *)
Ltac rel_contract reclen :=
  intros gsh relp grel w Hs;
  assert (Hq : 0 <= gh_size gsh / reclen)
    by (apply Z.div_pos; [apply Hs | reflexivity]);
  cbv beta delta [generic_rel_from_rela32 generic_rel_from_rela64
                  generic_rel_from_rel32 generic_rel_from_rel64] zeta;
  destruct (gh_size gsh =? u64 (gh_size gsh / reclen * reclen)) eqn:Heq;
  simpl;
  [ apply (size2_eq_iff (gh_size gsh) reclen Hs ltac:(reflexivity)) in Heq;
    split;
    [ intros Hn; contradiction
    | intros res out w' Hrun Hok; inversion Hrun; subst;
      split; [exact Heq | apply rel_loop_length; exact Hq] ]
  | split;
    [ reflexivity
    | intros res out w' Hrun Hok; inversion Hrun; subst; discriminate ] ].

Lemma rela32_size_contract :
  rel_size_contract
    (generic_rel_from_rela32 WORDS_BIGENDIAN SIGN_EXTEND uninit_rela)
    sizeof_dw_elf32_rela.
Proof. rel_contract sizeof_dw_elf32_rela. Qed.

Lemma rela64_size_contract :
  rel_size_contract
    (generic_rel_from_rela64 WORDS_BIGENDIAN DW_OBJECT_LSB CHAR_IS_SIGNED sizeof_gr_type2 SIGN_EXTEND
       uninit_rela)
    sizeof_dw_elf64_rela.
Proof. rel_contract sizeof_dw_elf64_rela. Qed.

Lemma rel32_size_contract :
  rel_size_contract (generic_rel_from_rel32 WORDS_BIGENDIAN uninit_rela)
    sizeof_dw_elf32_rel.
Proof. rel_contract sizeof_dw_elf32_rel. Qed.

Lemma rel64_size_contract :
  rel_size_contract
    (generic_rel_from_rel64 WORDS_BIGENDIAN DW_OBJECT_LSB CHAR_IS_SIGNED sizeof_gr_type2 uninit_rela)
    sizeof_dw_elf64_rel.
Proof. rel_contract sizeof_dw_elf64_rel. Qed.

Lemma generic_rel_from_size_contract localoffsize localrela :
  rel_size_contract
    (generic_rel_from WORDS_BIGENDIAN DW_OBJECT_LSB CHAR_IS_SIGNED sizeof_gr_type2 SIGN_EXTEND uninit_rela
       localoffsize localrela)
    (object_reclen localoffsize localrela).
Proof.
  destruct localoffsize, localrela; simpl.
  - apply rela32_size_contract.
  - apply rel32_size_contract.
  - apply rela64_size_contract.
  - apply rel64_size_contract.
Qed.

Lemma object_reclen_ge_2 localoffsize localrela :
  2 <= object_reclen localoffsize localrela.
Proof. destruct localoffsize, localrela; simpl; discriminate. Qed.

Lemma batch_success (gsh : generic_shdr) (localrela : RelocRela)
  (localoffsize : RelocOffsetSize) (w : world) res gsh' out w' :
  is_u64 (gh_size gsh) ->
  _dwarf_elf_load_a_relx_batch WORDS_BIGENDIAN DW_OBJECT_LSB CHAR_IS_SIGNED sizeof_gr_type2 SIGN_EXTEND
    RRMOA uninit_rela gsh localrela localoffsize w = (res, gsh', out, w') ->
  res = DW_DLV_OK ->
  gh_size gsh mod object_reclen localoffsize localrela = 0
  /\ exists grel,
      out = Some (grel, gh_size gsh / object_reclen localoffsize localrela)
      /\ Z.of_nat (length grel)
         = gh_size gsh / object_reclen localoffsize localrela
      /\ gh_relcount gsh'
         = gh_size gsh / object_reclen localoffsize localrela
      /\ gh_rels gsh' = Some grel.
Proof.
  intros Hs Hrun Hok. unfold _dwarf_elf_load_a_relx_batch in Hrun.
  pose proof (object_reclen_ge_2 localoffsize localrela) as HR.
  rewrite count_via_long in Hrun by assumption.
  destruct (gh_size gsh =? 0);
    [inversion Hrun; subst; discriminate|].
  destruct (_ || _); [inversion Hrun; subst; discriminate|].
  destruct (gh_size gsh =? u64 _) eqn:Heq; simpl in Hrun;
    [|inversion Hrun; subst; discriminate].
  apply size2_eq_iff in Heq; [|assumption|lia].
  split; [exact Heq|].
  destruct (malloc w) as [p1 w1]; destruct p1; simpl in Hrun;
    [|inversion Hrun; subst; discriminate].
  destruct (malloc w1) as [p2 w2]; destruct p2; simpl in Hrun;
    [|inversion Hrun; subst; discriminate].
  destruct (do_RRMOA RRMOA _ _ w2) as [rd w3].
  destruct rd; try (inversion Hrun; subst; discriminate).
  destruct (generic_rel_from _ _ _ _ _ _ _ _ _ _ _ _) as [[res1 grel1] w4]
    eqn:Hdec.
  match type of Hdec with
  | generic_rel_from _ _ _ _ _ _ _ _ _ ?relp ?grel _ = _ =>
      destruct (generic_rel_from_size_contract localoffsize localrela gsh
                  relp grel w3 Hs) as [_ Hc]
  end.
  specialize (Hc _ _ _ Hdec).
  destruct res1; inversion Hrun; subst; try discriminate.
  destruct (Hc eq_refl) as [_ Hlen].
  exists grel1. simpl. auto.
Qed.

Lemma batch_non_multiple (gsh : generic_shdr) (localrela : RelocRela)
  (localoffsize : RelocOffsetSize) (w : world) :
  is_u64 (gh_size gsh) ->
  gh_size gsh mod object_reclen localoffsize localrela <> 0 ->
  gh_offset gsh <= f_filesize (w_ep w) ->
  gh_size gsh <= f_filesize (w_ep w) ->
  u64 (gh_size gsh + gh_offset gsh) <= f_filesize (w_ep w) ->
  _dwarf_elf_load_a_relx_batch WORDS_BIGENDIAN DW_OBJECT_LSB CHAR_IS_SIGNED sizeof_gr_type2 SIGN_EXTEND
    RRMOA uninit_rela gsh localrela localoffsize w
  = (DW_DLV_ERROR, gsh, None, set_err DW_DLE_SECTION_SIZE_ERROR w).
Proof.
  intros Hs Hn Ho Hl Hsum. unfold _dwarf_elf_load_a_relx_batch.
  pose proof (object_reclen_ge_2 localoffsize localrela) as HR.
  rewrite count_via_long by assumption.
  destruct (Z.eqb_spec (gh_size gsh) 0) as [E|_].
  { rewrite E in Hn. rewrite Z.mod_0_l in Hn by lia. contradiction. }
  destruct (Z.gtb_spec (gh_offset gsh) (f_filesize (w_ep w))); [lia|].
  destruct (Z.gtb_spec (gh_size gsh) (f_filesize (w_ep w))); [lia|].
  destruct (Z.gtb_spec (u64 (gh_size gsh + gh_offset gsh))
              (f_filesize (w_ep w))); [lia|].
  simpl.
  destruct (gh_size gsh =? u64 _) eqn:Heq; simpl; [|reflexivity].
  apply size2_eq_iff in Heq; [contradiction|assumption|lia].
Qed.

(** C9 (amended): the two symbol decoders and the four relocation
    decoders return ERROR with DW_DLE_SECTION_SIZE_ERROR for a section
    size that is not a multiple of their record size, and succeed only
    for a multiple, delivering size / record size entries.  The
    relocation batch loader succeeds only for a multiple and then
    delivers and records size / record size entries; for a size that
    is not a multiple it returns DW_DLE_SECTION_SIZE_ERROR once the
    range of the section has passed the check against the file
    size. *)
Theorem C9_record_size_multiple :
  sym_size_contract (dwarf_generic_elf_load_symbols32 WORDS_BIGENDIAN RRMOA)
    sizeof_dw_elf32_sym
  /\ sym_size_contract
       (dwarf_generic_elf_load_symbols64 WORDS_BIGENDIAN RRMOA)
       sizeof_dw_elf64_sym
  /\ rel_size_contract
       (generic_rel_from_rela32 WORDS_BIGENDIAN SIGN_EXTEND uninit_rela)
       sizeof_dw_elf32_rela
  /\ rel_size_contract
       (generic_rel_from_rela64 WORDS_BIGENDIAN DW_OBJECT_LSB CHAR_IS_SIGNED sizeof_gr_type2 SIGN_EXTEND
          uninit_rela)
       sizeof_dw_elf64_rela
  /\ rel_size_contract (generic_rel_from_rel32 WORDS_BIGENDIAN uninit_rela)
       sizeof_dw_elf32_rel
  /\ rel_size_contract
       (generic_rel_from_rel64 WORDS_BIGENDIAN DW_OBJECT_LSB CHAR_IS_SIGNED sizeof_gr_type2 uninit_rela)
       sizeof_dw_elf64_rel
  /\ (forall (gsh : generic_shdr) (localrela : RelocRela)
             (localoffsize : RelocOffsetSize) (w : world),
         is_u64 (gh_size gsh) ->
         let reclen := object_reclen localoffsize localrela in
         let run := _dwarf_elf_load_a_relx_batch WORDS_BIGENDIAN
                      DW_OBJECT_LSB CHAR_IS_SIGNED sizeof_gr_type2 SIGN_EXTEND RRMOA uninit_rela gsh
                      localrela localoffsize w in
         (forall res gsh' out w',
             run = (res, gsh', out, w') ->
             res = DW_DLV_OK ->
             gh_size gsh mod reclen = 0
             /\ exists grel,
                 out = Some (grel, gh_size gsh / reclen)
                 /\ Z.of_nat (length grel) = gh_size gsh / reclen
                 /\ gh_relcount gsh' = gh_size gsh / reclen
                 /\ gh_rels gsh' = Some grel)
         /\ (gh_size gsh mod reclen <> 0 ->
             gh_offset gsh <= f_filesize (w_ep w) ->
             gh_size gsh <= f_filesize (w_ep w) ->
             u64 (gh_size gsh + gh_offset gsh) <= f_filesize (w_ep w) ->
             run = (DW_DLV_ERROR, gsh, None,
                    set_err DW_DLE_SECTION_SIZE_ERROR w))).
Proof.
  split; [apply symbols32_size_contract|].
  split; [apply symbols64_size_contract|].
  split; [apply rela32_size_contract|].
  split; [apply rela64_size_contract|].
  split; [apply rel32_size_contract|].
  split; [apply rel64_size_contract|].
  intros gsh localrela localoffsize w Hs reclen run. split.
  - intros res gsh' out w' Hrun Hok.
    exact (batch_success gsh localrela localoffsize w res gsh' out w'
             Hs Hrun Hok).
  - intros Hn Ho Hl Hsum.
    exact (batch_non_multiple gsh localrela localoffsize w Hs Hn Ho Hl Hsum).
Qed.

(** ** C4: file ranges are checked before they are read *)

Lemma sum_no_wrap (fs o l : Z) :
  0 <= fs < 2 ^ 63 -> 0 <= o <= fs -> 0 <= l <= fs -> u64 (o + l) = o + l.
Proof. intros. apply u64_id. unfold is_u64, two64. lia. Qed.

(** The check of the three loaders amounts to [in_file]. *)
Lemma range_check_passes (fs o l : Z) :
  0 <= fs < 2 ^ 63 -> is_u64 o -> is_u64 l ->
  (o >? fs) || (l >? fs) || (u64 (l + o) >? fs) = false <-> in_file fs o l.
Proof.
  intros Hfs [Ho _] [Hl _]. unfold in_file.
  rewrite !orb_false_iff.
  destruct (Z.gtb_spec o fs) as [Hof|Hof].
  { split; [intros [[Hx _] _]; discriminate | lia]. }
  destruct (Z.gtb_spec l fs) as [Hlf|Hlf].
  { split; [intros [[_ Hx] _]; discriminate | lia]. }
  rewrite (Z.add_comm l o). rewrite (sum_no_wrap fs) by lia.
  destruct (Z.gtb_spec (o + l) fs) as [Hsf|Hsf].
  - split; [intros [_ Hx]; discriminate | lia].
  - split; [lia | auto].
Qed.

Lemma generic_rel_from_reads localoffsize localrela gsh relp grel w :
  w_reads (snd (generic_rel_from WORDS_BIGENDIAN DW_OBJECT_LSB CHAR_IS_SIGNED sizeof_gr_type2 SIGN_EXTEND
                  uninit_rela localoffsize localrela gsh relp grel w))
  = w_reads w.
Proof.
  destruct localoffsize, localrela; simpl;
    cbv beta delta [generic_rel_from_rela32 generic_rel_from_rela64
                    generic_rel_from_rel32 generic_rel_from_rel64] zeta;
    match goal with
    | |- context [if ?c then _ else _] => destruct c
    end; reflexivity.
Qed.

Lemma symstr_reads (w : world) (strpsh : generic_shdr) r w' :
  0 <= f_filesize (w_ep w) < 2 ^ 63 ->
  f_shdr (w_ep w) !! Z.to_nat (f_symtab_sect_strings_sect_index (w_ep w))
  = Some strpsh ->
  is_u64 (gh_offset strpsh) ->
  is_u64 (f_symtab_sect_strings_max (w_ep w)) ->
  _dwarf_load_elf_symstr RRMOA w = Some (r, w') ->
  w_reads w' = w_reads w
  \/ (w_reads w'
      = (w_reads w
           ++ [(gh_offset strpsh, f_symtab_sect_strings_max (w_ep w))])%list
      /\ in_file (f_filesize (w_ep w)) (gh_offset strpsh)
           (f_symtab_sect_strings_max (w_ep w))).
Proof.
  intros Hfs Hlook Ho Hl Hrun. unfold _dwarf_load_elf_symstr in Hrun.
  destruct (f_symtab_sect_strings_sect_index (w_ep w) =? 0).
  { inversion Hrun; subst. auto. }
  destruct (Z.gtb_spec (f_symtab_sect_strings_max (w_ep w))
              (f_filesize (w_ep w))) as [Hbig|Hle].
  { inversion Hrun; subst. auto. }
  rewrite Hlook in Hrun. simpl in Hrun.
  destruct (_ || _) eqn:Hchk.
  { inversion Hrun; subst. auto. }
  assert (Hin : in_file (f_filesize (w_ep w)) (gh_offset strpsh)
                  (f_symtab_sect_strings_max (w_ep w))).
  { apply range_check_passes; try assumption.
    apply orb_false_iff in Hchk. destruct Hchk as [H1 H2].
    rewrite H1, H2.
    destruct (Z.gtb_spec (f_symtab_sect_strings_max (w_ep w))
                (f_filesize (w_ep w))); [lia | reflexivity]. }
  pose proof (malloc_reads w) as Hmr. pose proof (malloc_ep w) as Hme.
  destruct (malloc w) as [p w1]. simpl in Hmr, Hme.
  destruct p; simpl in Hrun.
  - match type of Hrun with
    | context [do_RRMOA RRMOA ?o ?l ?w0] =>
        pose proof (do_RRMOA_reads o l w0) as Hrr;
        destruct (do_RRMOA RRMOA o l w0) as [rd w2]
    end.
    simpl in Hrr. rewrite Hmr in Hrr.
    right. split; [|exact Hin].
    destruct rd; inversion Hrun; subst; simpl; exact Hrr.
  - inversion Hrun; subst. simpl. auto.
Qed.

Lemma symstr_refuses (w : world) (strpsh : generic_shdr) :
  0 <= f_filesize (w_ep w) < 2 ^ 63 ->
  f_shdr (w_ep w) !! Z.to_nat (f_symtab_sect_strings_sect_index (w_ep w))
  = Some strpsh ->
  is_u64 (gh_offset strpsh) ->
  is_u64 (f_symtab_sect_strings_max (w_ep w)) ->
  f_symtab_sect_strings_sect_index (w_ep w) <> 0 ->
  ~ in_file (f_filesize (w_ep w)) (gh_offset strpsh)
      (f_symtab_sect_strings_max (w_ep w)) ->
  _dwarf_load_elf_symstr RRMOA w
  = Some (DW_DLV_ERROR, set_err DW_DLE_SECTION_SIZE_OR_OFFSET_LARGE w).
Proof.
  intros Hfs Hlook Ho Hl Hidx Hout. unfold _dwarf_load_elf_symstr.
  destruct (Z.eqb_spec (f_symtab_sect_strings_sect_index (w_ep w)) 0);
    [contradiction|].
  destruct (Z.gtb_spec (f_symtab_sect_strings_max (w_ep w))
              (f_filesize (w_ep w))) as [Hbig|Hle]; [reflexivity|].
  rewrite Hlook. simpl.
  destruct (_ || _) eqn:Hchk; [reflexivity|].
  exfalso. apply Hout.
  apply range_check_passes; try assumption.
  apply orb_false_iff in Hchk. destruct Hchk as [H1 H2].
  rewrite H1, H2.
  destruct (Z.gtb_spec (f_symtab_sect_strings_max (w_ep w))
              (f_filesize (w_ep w))); [lia | reflexivity].
Qed.

Lemma batch_reads (gsh : generic_shdr) (localrela : RelocRela)
  (localoffsize : RelocOffsetSize) (w : world) r gsh' out w' :
  0 <= f_filesize (w_ep w) < 2 ^ 63 ->
  is_u64 (gh_offset gsh) -> is_u64 (gh_size gsh) ->
  _dwarf_elf_load_a_relx_batch WORDS_BIGENDIAN DW_OBJECT_LSB CHAR_IS_SIGNED sizeof_gr_type2 SIGN_EXTEND
    RRMOA uninit_rela gsh localrela localoffsize w = (r, gsh', out, w') ->
  w_reads w' = w_reads w
  \/ (w_reads w' = (w_reads w ++ [(gh_offset gsh, gh_size gsh)])%list
      /\ in_file (f_filesize (w_ep w)) (gh_offset gsh) (gh_size gsh)).
Proof.
  intros Hfs Ho Hl Hrun. unfold _dwarf_elf_load_a_relx_batch in Hrun.
  destruct (gh_size gsh =? 0); [inversion Hrun; subst; auto|].
  destruct (_ || _) eqn:Hchk; [inversion Hrun; subst; auto|].
  apply range_check_passes in Hchk; try assumption.
  destruct (negb _); [inversion Hrun; subst; auto|].
  pose proof (malloc_reads w) as Hm1.
  destruct (malloc w) as [p1 w1]. simpl in Hm1.
  destruct p1; simpl in Hrun; [|inversion Hrun; subst; simpl; auto].
  pose proof (malloc_reads w1) as Hm2.
  destruct (malloc w1) as [p2 w2]. simpl in Hm2.
  destruct p2; simpl in Hrun;
    [|inversion Hrun; subst; simpl; left; congruence].
  pose proof (do_RRMOA_reads (gh_offset gsh) (gh_size gsh) w2) as Hrr.
  destruct (do_RRMOA RRMOA _ _ w2) as [rd w3]. simpl in Hrr.
  rewrite Hm2, Hm1 in Hrr.
  right. split; [|exact Hchk].
  destruct rd; try (inversion Hrun; subst; exact Hrr).
  match type of Hrun with
  | context [generic_rel_from _ _ _ _ _ _ ?a ?b ?c ?d ?e ?f] =>
      pose proof (generic_rel_from_reads a b c d e f) as Hg;
      destruct (generic_rel_from WORDS_BIGENDIAN DW_OBJECT_LSB CHAR_IS_SIGNED sizeof_gr_type2 SIGN_EXTEND
                  uninit_rela a b c d e f) as [[res1 grel1] w4]
  end.
  simpl in Hg.
  destruct res1; inversion Hrun; subst; congruence.
Qed.

Lemma batch_refuses (gsh : generic_shdr) (localrela : RelocRela)
  (localoffsize : RelocOffsetSize) (w : world) :
  0 <= f_filesize (w_ep w) < 2 ^ 63 ->
  is_u64 (gh_offset gsh) -> is_u64 (gh_size gsh) ->
  gh_size gsh <> 0 ->
  ~ in_file (f_filesize (w_ep w)) (gh_offset gsh) (gh_size gsh) ->
  _dwarf_elf_load_a_relx_batch WORDS_BIGENDIAN DW_OBJECT_LSB CHAR_IS_SIGNED sizeof_gr_type2 SIGN_EXTEND
    RRMOA uninit_rela gsh localrela localoffsize w
  = (DW_DLV_ERROR, gsh, None,
     set_err DW_DLE_SECTION_SIZE_OR_OFFSET_LARGE w).
Proof.
  intros Hfs Ho Hl Hnz Hout. unfold _dwarf_elf_load_a_relx_batch.
  destruct (Z.eqb_spec (gh_size gsh) 0); [contradiction|].
  destruct (_ || _) eqn:Hchk; [reflexivity|].
  apply range_check_passes in Hchk; try assumption. contradiction.
Qed.

Lemma range_check_strict_passes (fs o l : Z) :
  0 <= fs < 2 ^ 63 -> is_u64 o -> is_u64 l ->
  (o >=? fs) || (l >? fs) || (u64 (o + l) >? fs) = false
  <-> in_file fs o l /\ o < fs.
Proof.
  intros Hfs [Ho _] [Hl _]. unfold in_file.
  rewrite !orb_false_iff.
  destruct (Z.geb_spec o fs) as [Hof|Hof].
  { split; [intros [[Hx _] _]; discriminate | lia]. }
  destruct (Z.gtb_spec l fs) as [Hlf|Hlf].
  { split; [intros [[_ Hx] _]; discriminate | lia]. }
  rewrite (sum_no_wrap fs) by lia.
  destruct (Z.gtb_spec (o + l) fs) as [Hsf|Hsf].
  - split; [intros [_ Hx]; discriminate | lia].
  - split; [lia | auto].
Qed.

Lemma sectstrings_reads (stringsection : Z) (w : world)
  (ehdr : generic_ehdr) (psh : generic_shdr) r w' :
  0 <= f_filesize (w_ep w) < 2 ^ 63 ->
  f_ehdr (w_ep w) = Some ehdr ->
  f_shdr (w_ep w) !! Z.to_nat stringsection = Some psh ->
  is_u64 (gh_offset psh) -> is_u64 (gh_size psh) ->
  _dwarf_elf_load_sectstrings RRMOA uninit_byte stringsection w
  = Some (r, w') ->
  w_reads w' = w_reads w
  \/ (w_reads w' = (w_reads w ++ [(gh_offset psh, gh_size psh)])%list
      /\ in_file (f_filesize (w_ep w)) (gh_offset psh) (gh_size psh)
      /\ gh_offset psh < f_filesize (w_ep w)).
Proof.
  intros Hfs He Hlook Ho Hl Hrun.
  unfold _dwarf_elf_load_sectstrings in Hrun. simpl in Hrun.
  rewrite He in Hrun. simpl in Hrun.
  destruct (stringsection >=? ge_shnum ehdr);
    [inversion Hrun; subst; auto|].
  rewrite Hlook in Hrun. simpl in Hrun.
  destruct (is_empty_section (gh_type psh));
    [inversion Hrun; subst; auto|].
  destruct (_ || _) eqn:Hchk; [inversion Hrun; subst; auto|].
  apply range_check_strict_passes in Hchk; try assumption.
  destruct Hchk as [Hin Hlt].
  destruct (gh_size psh >? f_elf_shstrings_max (w_ep w)).
  - match type of Hrun with
    | context [malloc ?w0] =>
        pose proof (malloc_reads w0) as Hm;
        destruct (malloc w0) as [p w1]
    end.
    simpl in Hm. destruct p; simpl in Hrun.
    + match type of Hrun with
      | context [do_RRMOA RRMOA ?o ?l ?w0] =>
          pose proof (do_RRMOA_reads o l w0) as Hrr;
          pose proof (do_RRMOA_ep o l w0) as Hre;
          destruct (do_RRMOA RRMOA o l w0) as [rd w2]
      end.
      simpl in Hrr, Hre. rewrite Hm in Hrr.
      right. split; [|split; assumption].
      destruct rd; try (inversion Hrun; subst; exact Hrr).
      rewrite Hre in Hrun. simpl in Hrun.
      inversion Hrun; subst. exact Hrr.
    + inversion Hrun; subst. simpl. auto.
  - simpl in Hrun.
    match type of Hrun with
    | context [do_RRMOA RRMOA ?o ?l ?w0] =>
        pose proof (do_RRMOA_reads o l w0) as Hrr;
        destruct (do_RRMOA RRMOA o l w0) as [rd w2]
    end.
    simpl in Hrr.
    right. split; [|split; assumption].
    destruct rd; try (inversion Hrun; subst; exact Hrr).
    destruct (f_elf_shstrings_data (w_ep w2)).
    + inversion Hrun; subst. exact Hrr.
    + destruct (gh_size psh =? 0); inversion Hrun; subst. exact Hrr.
Qed.

Lemma sectstrings_refuses (stringsection : Z) (w : world)
  (ehdr : generic_ehdr) (psh : generic_shdr) :
  0 <= f_filesize (w_ep w) < 2 ^ 63 ->
  f_ehdr (w_ep w) = Some ehdr ->
  f_shdr (w_ep w) !! Z.to_nat stringsection = Some psh ->
  is_u64 (gh_offset psh) -> is_u64 (gh_size psh) ->
  stringsection < ge_shnum ehdr ->
  is_empty_section (gh_type psh) = false ->
  ~ (in_file (f_filesize (w_ep w)) (gh_offset psh) (gh_size psh)
     /\ gh_offset psh < f_filesize (w_ep w)) ->
  _dwarf_elf_load_sectstrings RRMOA uninit_byte stringsection w
  = Some (DW_DLV_ERROR,
          set_err DW_DLE_SECTION_SIZE_OR_OFFSET_LARGE
            (upd_ep (set_f_elf_shstrings_length 0) w)).
Proof.
  intros Hfs He Hlook Ho Hl Hidx Hne Hout.
  unfold _dwarf_elf_load_sectstrings. simpl.
  rewrite He. simpl.
  destruct (Z.geb_spec stringsection (ge_shnum ehdr)); [lia|].
  rewrite Hlook. simpl. rewrite Hne.
  destruct (_ || _) eqn:Hchk; [reflexivity|].
  apply range_check_strict_passes in Hchk; try assumption.
  contradiction.
Qed.

(** C4 (amended): in a file of fewer than 2^63 bytes, each of the
    three loaders issues at most its one read, and only for a range
    whose offset, size and sum do not exceed the file size (for the
    section-header strings the offset is below the file size).  Once
    its earlier guards have passed (a symbol-string section index other
    than zero; a string section index below the section count that
    names a section with data; a relocation section of size other than
    zero), a range that fails this makes the loader return ERROR with
    DW_DLE_SECTION_SIZE_OR_OFFSET_LARGE, with no read and nothing else
    changed. *)
Theorem C4_ranges_checked_before_read (w : world) :
  0 <= f_filesize (w_ep w) < 2 ^ 63 ->
  (forall strpsh : generic_shdr,
      f_shdr (w_ep w) !! Z.to_nat (f_symtab_sect_strings_sect_index (w_ep w))
      = Some strpsh ->
      is_u64 (gh_offset strpsh) ->
      is_u64 (f_symtab_sect_strings_max (w_ep w)) ->
      (forall r w',
          _dwarf_load_elf_symstr RRMOA w = Some (r, w') ->
          w_reads w' = w_reads w
          \/ (w_reads w'
              = (w_reads w ++ [(gh_offset strpsh,
                                f_symtab_sect_strings_max (w_ep w))])%list
              /\ in_file (f_filesize (w_ep w)) (gh_offset strpsh)
                   (f_symtab_sect_strings_max (w_ep w))))
      /\ (f_symtab_sect_strings_sect_index (w_ep w) <> 0 ->
          ~ in_file (f_filesize (w_ep w)) (gh_offset strpsh)
              (f_symtab_sect_strings_max (w_ep w)) ->
          _dwarf_load_elf_symstr RRMOA w
          = Some (DW_DLV_ERROR,
                  set_err DW_DLE_SECTION_SIZE_OR_OFFSET_LARGE w)))
  /\ (forall (stringsection : Z) (ehdr : generic_ehdr) (psh : generic_shdr),
         f_ehdr (w_ep w) = Some ehdr ->
         f_shdr (w_ep w) !! Z.to_nat stringsection = Some psh ->
         is_u64 (gh_offset psh) -> is_u64 (gh_size psh) ->
         (forall r w',
             _dwarf_elf_load_sectstrings RRMOA uninit_byte stringsection w
             = Some (r, w') ->
             w_reads w' = w_reads w
             \/ (w_reads w'
                 = (w_reads w ++ [(gh_offset psh, gh_size psh)])%list
                 /\ in_file (f_filesize (w_ep w)) (gh_offset psh)
                      (gh_size psh)
                 /\ gh_offset psh < f_filesize (w_ep w)))
         /\ (stringsection < ge_shnum ehdr ->
             is_empty_section (gh_type psh) = false ->
             ~ (in_file (f_filesize (w_ep w)) (gh_offset psh) (gh_size psh)
                /\ gh_offset psh < f_filesize (w_ep w)) ->
             _dwarf_elf_load_sectstrings RRMOA uninit_byte stringsection w
             = Some (DW_DLV_ERROR,
                     set_err DW_DLE_SECTION_SIZE_OR_OFFSET_LARGE
                       (upd_ep (set_f_elf_shstrings_length 0) w))))
  /\ (forall (gsh : generic_shdr) (localrela : RelocRela)
             (localoffsize : RelocOffsetSize),
         is_u64 (gh_offset gsh) -> is_u64 (gh_size gsh) ->
         (forall r gsh' out w',
             _dwarf_elf_load_a_relx_batch WORDS_BIGENDIAN DW_OBJECT_LSB CHAR_IS_SIGNED sizeof_gr_type2
               SIGN_EXTEND RRMOA uninit_rela gsh localrela localoffsize w
             = (r, gsh', out, w') ->
             w_reads w' = w_reads w
             \/ (w_reads w'
                 = (w_reads w ++ [(gh_offset gsh, gh_size gsh)])%list
                 /\ in_file (f_filesize (w_ep w)) (gh_offset gsh)
                      (gh_size gsh)))
         /\ (gh_size gsh <> 0 ->
             ~ in_file (f_filesize (w_ep w)) (gh_offset gsh) (gh_size gsh) ->
             _dwarf_elf_load_a_relx_batch WORDS_BIGENDIAN DW_OBJECT_LSB CHAR_IS_SIGNED sizeof_gr_type2
               SIGN_EXTEND RRMOA uninit_rela gsh localrela localoffsize w
             = (DW_DLV_ERROR, gsh, None,
                set_err DW_DLE_SECTION_SIZE_OR_OFFSET_LARGE w))).
Proof.
  intros Hfs. split; [|split].
  - intros strpsh Hlook Ho Hl. split.
    + intros r w' Hrun.
      exact (symstr_reads w strpsh r w' Hfs Hlook Ho Hl Hrun).
    + intros Hidx Hout.
      exact (symstr_refuses w strpsh Hfs Hlook Ho Hl Hidx Hout).
  - intros stringsection ehdr psh He Hlook Ho Hl. split.
    + intros r w' Hrun.
      exact (sectstrings_reads stringsection w ehdr psh r w'
               Hfs He Hlook Ho Hl Hrun).
    + intros Hidx Hne Hout.
      exact (sectstrings_refuses stringsection w ehdr psh
               Hfs He Hlook Ho Hl Hidx Hne Hout).
  - intros gsh localrela localoffsize Ho Hl. split.
    + intros r gsh' out w' Hrun.
      exact (batch_reads gsh localrela localoffsize w r gsh' out w'
               Hfs Ho Hl Hrun).
    + intros Hnz Hout.
      exact (batch_refuses gsh localrela localoffsize w Hfs Ho Hl Hnz Hout).
Qed.

(** ** C5: the layout of [r_info] in 64-bit records *)

Lemma le_decode_app_zeros (l : list byte) (n : nat) :
  le_decode (l ++ replicate n "000"%byte) = le_decode l.
Proof.
  induction l as [|b l IH]; simpl.
  - induction n as [|n IHn]; simpl; [reflexivity|].
    rewrite IHn. reflexivity.
  - rewrite IH. reflexivity.
Qed.

Lemma rev_replicate {A : Type} (n : nat) (x : A) :
  rev (replicate n x) = replicate n x.
Proof.
  induction n as [|n IH]; [reflexivity|].
  simpl. rewrite IH. symmetry. apply replicate_S_end.
Qed.

(** [ASNAR] reads the copied bytes in the host's order. *)
Lemma ASNAR_host_order (func : list byte -> list byte) (s : list byte) :
  length (func s) = length s ->
  (length s <= 8)%nat ->
  ASNAR WORDS_BIGENDIAN func s
  = if WORDS_BIGENDIAN then be_decode (func s) else le_decode (func s).
Proof.
  intros Hlen Hle. unfold ASNAR.
  change (Z.to_nat sizeof_Dwarf_Unsigned) with 8%nat.
  destruct WORDS_BIGENDIAN.
  - rewrite take_replicate, drop_replicate.
    replace (8 - (8 - length s + length s))%nat with 0%nat by lia.
    simpl. rewrite app_nil_r. unfold be_decode.
    rewrite rev_app_distr, rev_replicate. apply le_decode_app_zeros.
  - rewrite drop_replicate. rewrite take_0. simpl. apply le_decode_app_zeros.
Qed.

Lemma byte_val_bound (b : byte) : 0 <= byte_val b < 256.
Proof. unfold byte_val. pose proof (Byte.to_N_bounded b). lia. Qed.

Lemma char_at_widened (size : Z) (s : list byte) (i : nat) :
  1 <= size ->
  char_at CHAR_IS_SIGNED size s i
  = widened CHAR_IS_SIGNED size (byte_at s i).
Proof.
  clear. intros Hsize. unfold char_at, widened.
  destruct (CHAR_IS_SIGNED && (128 <=? byte_at s i)) eqn:E;
    [|reflexivity].
  apply andb_true_iff in E. destruct E as [_ E].
  apply Z.leb_le in E.
  pose proof (byte_val_bound (nth i s "000"%byte)) as Hb.
  assert (Hp : 2 ^ 8 <= 2 ^ (8 * size))
    by (apply Z.pow_le_mono_r; lia).
  change (2 ^ 8) with 256 in Hp.
  unfold byte_at in *.
  symmetry. apply (Z.mod_unique_pos _ _ (-1)); lia.
Qed.

Lemma rel_loop_at cast body ecount relp grel (i : nat) :
  (i < Z.to_nat ecount)%nat ->
  rel_loop uninit_rela cast body ecount relp grel !! i
  = Some (body (cast relp i) (nth i grel uninit_rela)).
Proof.
  clear. intros Hi. unfold rel_loop.
  change (map ?f ?l) with (f <$> l). rewrite list_lookup_fmap.
  rewrite lookup_seq_lt by exact Hi. reflexivity.
Qed.

Lemma rela64_body_decoding ep relp grel :
  1 <= sizeof_gr_type2 ->
  r_info_decoding WORDS_BIGENDIAN DW_OBJECT_LSB CHAR_IS_SIGNED sizeof_gr_type2 ep relp
    (rela64_body WORDS_BIGENDIAN DW_OBJECT_LSB CHAR_IS_SIGNED sizeof_gr_type2 SIGN_EXTEND ep relp grel)
  /\ gr_is_rela
       (rela64_body WORDS_BIGENDIAN DW_OBJECT_LSB CHAR_IS_SIGNED sizeof_gr_type2 SIGN_EXTEND ep relp grel)
     = true.
Proof.
  clear RRMOA ign struct_sizes_agree uninit_rela uninit_byte uninit_word.
  intros Hsize. unfold r_info_decoding, rela64_body.
  rewrite <- !char_at_widened by (exact Hsize || (vm_compute; discriminate)).
  destruct (Z.eqb_spec (f_machine ep) EM_MIPS) as [Hm|Hm];
    destruct (Z.eqb_spec (f_endian ep) DW_OBJECT_LSB) as [He|He];
    destruct (Z.eqb_spec (f_machine ep) EM_SPARCV9) as [Hs|Hs];
    simpl; repeat split; intros;
    try congruence; try tauto;
    try (rewrite Hm in Hs; discriminate).
Qed.

Lemma rel64_body_decoding ep relp grel :
  1 <= sizeof_gr_type2 ->
  r_info_decoding WORDS_BIGENDIAN DW_OBJECT_LSB CHAR_IS_SIGNED sizeof_gr_type2 ep relp
    (rel64_body WORDS_BIGENDIAN DW_OBJECT_LSB CHAR_IS_SIGNED sizeof_gr_type2 ep relp grel)
  /\ gr_is_rela (rel64_body WORDS_BIGENDIAN DW_OBJECT_LSB CHAR_IS_SIGNED sizeof_gr_type2 ep relp grel)
     = false.
Proof.
  clear RRMOA ign struct_sizes_agree uninit_rela uninit_byte uninit_word
    SIGN_EXTEND.
  intros Hsize. unfold r_info_decoding, rel64_body.
  rewrite <- !char_at_widened by (exact Hsize || (vm_compute; discriminate)).
  destruct (Z.eqb_spec (f_machine ep) EM_MIPS) as [Hm|Hm];
    destruct (Z.eqb_spec (f_endian ep) DW_OBJECT_LSB) as [He|He];
    destruct (Z.eqb_spec (f_machine ep) EM_SPARCV9) as [Hs|Hs];
    simpl; repeat split; intros;
    try congruence; try tauto;
    try (rewrite Hm in Hs; discriminate).
Qed.

(** C5: the 64-bit RELA and REL decoders deliver one record for each
    whole record of the section, [gh_size] divided by the record size
    of them, and the record at each index relates to the record of
    the file at that index as follows.  Its [gr_info] is the [r_info]
    word.  On a little-endian EM_MIPS object the symbol is assembled
    from the first four bytes of [r_info] and the three types are its
    elements 7, 6 and 5; on an EM_SPARCV9 object the symbol is
    assembled from the first four bytes and the type is element 7;
    otherwise the symbol is [r_info >> 32] and the type
    [r_info & 0xffffffff].  An element is converted from the
    character type of the array to the unsigned type of the field,
    64 bits for [gr_type]: where the character type is signed a byte
    of 0x80 or more arrives in [gr_type] as the byte plus 2^64 - 256,
    not as the byte the claim names. *)
Theorem C5_r_info_by_machine (gsh : generic_shdr) (relp : list byte)
  (grel : list generic_rela) (w w' : world) (out : list generic_rela) :
  1 <= sizeof_gr_type2 ->
  (generic_rel_from_rela64 WORDS_BIGENDIAN DW_OBJECT_LSB CHAR_IS_SIGNED sizeof_gr_type2 SIGN_EXTEND
     uninit_rela gsh relp grel w = (DW_DLV_OK, out, w') ->
   length out = Z.to_nat (gh_size gsh / sizeof_dw_elf64_rela)
   /\ forall i : nat, (i < length out)%nat ->
        exists g, out !! i = Some g
          /\ r_info_decoding WORDS_BIGENDIAN DW_OBJECT_LSB CHAR_IS_SIGNED sizeof_gr_type2
               (w_ep w) (cast_dw_elf64_rela relp i) g
          /\ gr_is_rela g = true)
  /\ (generic_rel_from_rel64 WORDS_BIGENDIAN DW_OBJECT_LSB CHAR_IS_SIGNED sizeof_gr_type2 uninit_rela
        gsh relp grel w = (DW_DLV_OK, out, w') ->
      length out = Z.to_nat (gh_size gsh / sizeof_dw_elf64_rel)
      /\ forall i : nat, (i < length out)%nat ->
           exists g, out !! i = Some g
             /\ r_info_decoding WORDS_BIGENDIAN DW_OBJECT_LSB CHAR_IS_SIGNED sizeof_gr_type2
                  (w_ep w) (cast_dw_elf64_rel relp i) g
             /\ gr_is_rela g = false).
Proof.
  intros Hsize. split.
  - unfold generic_rel_from_rela64. intros Hrun.
    destruct (negb _); simpl in Hrun; [discriminate|].
    inversion Hrun; subst.
    assert (Hl : forall cast body ecount,
               length (rel_loop uninit_rela cast body ecount relp grel)
               = Z.to_nat ecount)
      by (intros; unfold rel_loop; rewrite length_map, length_seq;
          reflexivity).
    split; [apply Hl|]. intros i Hi. rewrite Hl in Hi.
    eexists. split; [apply rel_loop_at; exact Hi|].
    apply rela64_body_decoding. exact Hsize.
  - unfold generic_rel_from_rel64. intros Hrun.
    destruct (negb _); simpl in Hrun; [discriminate|].
    inversion Hrun; subst.
    assert (Hl : forall cast body ecount,
               length (rel_loop uninit_rela cast body ecount relp grel)
               = Z.to_nat ecount)
      by (intros; unfold rel_loop; rewrite length_map, length_seq;
          reflexivity).
    split; [apply Hl|]. intros i Hi. rewrite Hl in Hi.
    eexists. split; [apply rel_loop_at; exact Hi|].
    apply rel64_body_decoding. exact Hsize.
Qed.
(** ** C6: section names *)

Lemma name_scan_found (data : list byte) (n cur : nat) :
  name_scan data cur n = Some true
  <-> exists j : nat,
      (cur <= j < cur + n)%nat /\ data !! j = Some "000"%byte.
Proof.
  revert cur. induction n as [|n IH]; intros cur; simpl.
  - split; [discriminate | intros [j [Hj _]]; lia].
  - destruct (data !! cur) as [b|] eqn:Hb.
    + destruct (Byte.eqb b "000"%byte) eqn:Hz.
      * apply Byte.byte_dec_bl in Hz. subst b.
        split; [|reflexivity]. intros _. exists cur. split; [lia|exact Hb].
      * rewrite IH. split.
        -- intros [j [Hj Hl]]. exists j. split; [lia|exact Hl].
        -- intros [j [Hj Hl]]. exists j. split; [|exact Hl].
           destruct (Nat.eq_dec j cur) as [->|Hne]; [|lia].
           rewrite Hb in Hl. inversion Hl; subst.
           discriminate.
    + split; [discriminate|].
      intros [j [Hj Hl]]. exfalso.
      apply lookup_lt_Some in Hl. apply lookup_ge_None in Hb. lia.
Qed.

Lemma name_scan_total (data : list byte) (n cur : nat) :
  (cur + n <= length data)%nat ->
  exists found : bool, name_scan data cur n = Some found.
Proof.
  revert cur. induction n as [|n IH]; intros cur Hlen; simpl.
  - exists false. reflexivity.
  - destruct (lookup_lt_is_Some_2 data cur ltac:(lia)) as [b Hb].
    rewrite Hb. destruct (Byte.eqb b "000"%byte).
    + exists true. reflexivity.
    + apply IH. lia.
Qed.

Lemma scan_bounds_iff (section_length idx : Z) (data : list byte) :
  0 <= idx < section_length ->
  (exists j : nat,
      (Z.to_nat idx <= j
       < Z.to_nat idx + Z.to_nat (section_length - idx))%nat
      /\ data !! j = Some "000"%byte)
  <-> name_offset_ok section_length idx data.
Proof.
  intros Hidx. unfold name_offset_ok. split.
  - intros [j [Hj Hl]]. split; [lia|]. exists j. split; [lia|exact Hl].
  - intros [_ [j [Hj Hl]]]. exists j. split; [lia|exact Hl].
Qed.

Lemma validate_accepts_iff (section_length idx : Z) (data : list byte)
  (w : world) :
  0 <= idx ->
  validate_section_name_string section_length idx data w
  = Some (DW_DLV_OK, w)
  <-> name_offset_ok section_length idx data.
Proof.
  intros Hidx. unfold validate_section_name_string.
  destruct (Z.leb_spec section_length idx) as [Hle|Hlt].
  - split; [discriminate|]. intros [Hlt _]. lia.
  - rewrite <- scan_bounds_iff by lia. rewrite <- name_scan_found.
    destruct (name_scan data _ _) as [[|]|]; simpl;
      split; intros H; try discriminate; try reflexivity.
Qed.

Lemma validate_rejects (section_length idx : Z) (data : list byte)
  (w : world) :
  0 <= idx ->
  section_length <= Z.of_nat (length data) ->
  ~ name_offset_ok section_length idx data ->
  validate_section_name_string section_length idx data w
  = Some (DW_DLV_ERROR, set_err DW_DLE_SECTION_STRING_OFFSET_BAD w).
Proof.
  intros Hidx Hlen Hbad. unfold validate_section_name_string.
  destruct (Z.leb_spec section_length idx) as [Hle|Hlt]; [reflexivity|].
  destruct (name_scan_total data (Z.to_nat (section_length - idx))
              (Z.to_nat idx) ltac:(lia)) as [found Hf].
  rewrite Hf. simpl. destruct found; [|reflexivity].
  exfalso. apply Hbad. apply scan_bounds_iff; [lia|].
  apply name_scan_found. exact Hf.
Qed.

Lemma for_each_app {S : Type} (l1 l2 : list nat)
  (body : nat -> S -> option (status * S)) (s : S) :
  for_each (l1 ++ l2) body s
  = match for_each l1 body s with
    | Some (DW_DLV_OK, s') => for_each l2 body s'
    | r => r
    end.
Proof.
  revert s. induction l1 as [|i l1 IH]; intros s; simpl; [reflexivity|].
  destruct (body i s) as [[[| |] s']|]; try reflexivity. apply IH.
Qed.

Lemma names_loop_prefix (w : world) (n a : nat) (wc : world) :
  let data := default [] (f_elf_shstrings_data (w_ep w)) in
  let len := f_elf_shstrings_length (w_ep w) in
  names_done w a wc ->
  (a + n <= length (f_shdr (w_ep w)))%nat ->
  (forall i sh, (a <= i < a + n)%nat -> f_shdr (w_ep w) !! i = Some sh ->
                0 <= gh_name sh /\ name_offset_ok len (gh_name sh) data) ->
  exists w',
    for_each (seq a n) load_sect_namestring_body wc = Some (DW_DLV_OK, w')
    /\ names_done w (a + n) w'
    /\ w_errcode w' = w_errcode wc.
Proof.
  intros data len. subst data len. revert a wc.
  induction n as [|n IH]; intros a wc Hinv Hlen Hok; simpl.
  - exists wc. rewrite Nat.add_0_r. auto.
  - destruct Hinv as [Hd [Hl Hs]].
    destruct (lookup_lt_is_Some_2 (f_shdr (w_ep w)) a ltac:(lia))
      as [sh Hsh].
    destruct (Hok a sh ltac:(lia) Hsh) as [Hnn Hgood].
    unfold load_sect_namestring_body at 1.
    rewrite (Hs a), Nat.ltb_irrefl, Hsh. simpl.
    rewrite Hd, Hl.
    rewrite (proj2 (validate_accepts_iff _ (gh_name sh) _ wc Hnn) Hgood).
    simpl.
    destruct (IH (S a)
                (set_section a
                   (set_gh_namestring
                      (cstring_at
                         (default [] (f_elf_shstrings_data (w_ep w)))
                         (gh_name sh))) wc))
      as [w' [Hrun [Hinv' Herr]]].
    + split; [exact Hd|]. split; [exact Hl|].
      intros i. simpl.
      destruct (Nat.eq_dec i a) as [->|Hne].
      * rewrite list_lookup_alter_eq, Hs, Nat.ltb_irrefl, Hsh.
        destruct (Nat.ltb_spec a (S a)); [reflexivity|lia].
      * rewrite list_lookup_alter_ne by congruence. rewrite Hs.
        destruct (Nat.ltb_spec i a), (Nat.ltb_spec i (S a));
          try reflexivity; lia.
    + lia.
    + intros i sh' Hi. apply Hok. lia.
    + exists w'. replace (a + S n)%nat with (S a + n)%nat by lia.
      split; [exact Hrun|]. split; [exact Hinv'|]. exact Herr.
Qed.

Lemma validate_status_iff (section_length idx : Z) (data : list byte)
  (w : world) :
  0 <= idx ->
  (exists w', validate_section_name_string section_length idx data w
              = Some (DW_DLV_OK, w'))
  <-> name_offset_ok section_length idx data.
Proof.
  intros Hidx. rewrite <- (validate_accepts_iff _ _ _ w Hidx). split.
  - intros [w' Hrun]. unfold validate_section_name_string in *.
    destruct (section_length <=? idx); [discriminate|].
    destruct (name_scan data _ _) as [[|]|]; simpl in *;
      try discriminate; reflexivity.
  - intros Hrun. exists w. exact Hrun.
Qed.

Lemma names_stop_at_first_invalid (w : world) (k : nat)
  (shk : generic_shdr) :
  let ep := w_ep w in
  let data := default [] (f_elf_shstrings_data ep) in
  let len := f_elf_shstrings_length ep in
  g_count (f_loc_shdr ep) = Z.of_nat (length (f_shdr ep)) ->
  len <= Z.of_nat (length data) ->
  (forall i sh, f_shdr ep !! i = Some sh -> 0 <= gh_name sh) ->
  f_shdr ep !! k = Some shk ->
  ~ name_offset_ok len (gh_name shk) data ->
  (forall i sh, (i < k)%nat -> f_shdr ep !! i = Some sh ->
                name_offset_ok len (gh_name sh) data) ->
  exists w',
    _dwarf_elf_load_sect_namestring w = Some (DW_DLV_ERROR, w')
    /\ w_errcode w' = DW_DLE_SECTION_STRING_OFFSET_BAD
    /\ forall i sh, f_shdr ep !! i = Some sh ->
                    f_shdr (w_ep w') !! i = Some (stopped_at k data i sh).
Proof.
  intros ep data len. subst ep data len.
  intros Hcount Hlen Hnn Hk Hbad Hgood.
  unfold _dwarf_elf_load_sect_namestring.
  rewrite Hcount, Nat2Z.id.
  pose proof (lookup_lt_Some _ _ _ Hk) as Hklt.
  replace (length (f_shdr (w_ep w)))
    with (k + S (length (f_shdr (w_ep w)) - S k))%nat by lia.
  rewrite seq_app, for_each_app. simpl.
  destruct (names_loop_prefix w k 0 w) as [w1 [Hrun [Hinv Herr]]].
  - split; [reflexivity|]. split; [reflexivity|]. intros i. reflexivity.
  - lia.
  - intros i sh Hi Hsh.
    split; [exact (Hnn i sh Hsh) | apply (Hgood i sh); [lia | exact Hsh]].
  - rewrite Hrun. simpl in Hinv. destruct Hinv as [Hd [Hl Hs]].
    unfold load_sect_namestring_body at 1.
    rewrite (Hs k), Nat.ltb_irrefl, Hk. simpl.
    rewrite Hd, Hl.
    rewrite (validate_rejects _ (gh_name shk) _ w1 (Hnn k shk Hk) Hlen Hbad).
    simpl. eexists. split; [reflexivity|]. split; [reflexivity|].
    intros i sh Hsh. simpl. unfold stopped_at.
    destruct (Nat.eq_dec i k) as [->|Hne].
    + rewrite list_lookup_alter_eq, Hs, Nat.ltb_irrefl, Nat.eqb_refl, Hk.
      rewrite Hk in Hsh. inversion Hsh; subst. reflexivity.
    + rewrite list_lookup_alter_ne by congruence. rewrite Hs, Hsh.
      destruct (Nat.ltb_spec i k); [reflexivity|].
      destruct (Nat.eqb_spec i k); [contradiction | reflexivity].
Qed.

Lemma names_all_resolved (w : world) :
  let ep := w_ep w in
  let data := default [] (f_elf_shstrings_data ep) in
  let len := f_elf_shstrings_length ep in
  g_count (f_loc_shdr ep) = Z.of_nat (length (f_shdr ep)) ->
  (forall i sh, f_shdr ep !! i = Some sh ->
                0 <= gh_name sh /\ name_offset_ok len (gh_name sh) data) ->
  exists w',
    _dwarf_elf_load_sect_namestring w = Some (DW_DLV_OK, w')
    /\ forall i sh, f_shdr ep !! i = Some sh ->
                    f_shdr (w_ep w') !! i = Some (resolve_name data sh).
Proof.
  intros ep data len. subst ep data len. intros Hcount Hgood.
  unfold _dwarf_elf_load_sect_namestring.
  rewrite Hcount, Nat2Z.id.
  destruct (names_loop_prefix w (length (f_shdr (w_ep w))) 0 w)
    as [w1 [Hrun [Hinv Herr]]].
  - split; [reflexivity|]. split; [reflexivity|]. intros i. reflexivity.
  - lia.
  - intros i sh Hi Hsh. apply (Hgood i). exact Hsh.
  - exists w1. split; [exact Hrun|].
    intros i sh Hsh. destruct Hinv as [_ [_ Hs]]. rewrite Hs, Hsh.
    pose proof (lookup_lt_Some _ _ _ Hsh) as Hlt. simpl.
    destruct (Nat.ltb_spec i (length (f_shdr (w_ep w))));
      [reflexivity | lia].
Qed.

(** C6: a name offset is accepted by [validate_section_name_string]
    exactly when it is below the length of the string section and a
    NUL byte lies at or after it before the end of the section;
    otherwise (the buffer holding the whole section) the result is
    ERROR with DW_DLE_SECTION_STRING_OFFSET_BAD.  Name resolution over
    the section table stops at the first section with an invalid name:
    the sections before it have their names resolved, that section gets
    the marker name, the sections after it are untouched, and the
    result is that error; with no invalid name every name is
    resolved. *)
Theorem C6_section_name_validation :
  (forall (section_length idx : Z) (data : list byte) (w : world),
      0 <= idx ->
      ((exists w', validate_section_name_string section_length idx data w
                   = Some (DW_DLV_OK, w'))
       <-> name_offset_ok section_length idx data)
      /\ (section_length <= Z.of_nat (length data) ->
          ~ name_offset_ok section_length idx data ->
          validate_section_name_string section_length idx data w
          = Some (DW_DLV_ERROR,
                  set_err DW_DLE_SECTION_STRING_OFFSET_BAD w)))
  /\ (forall (w : world) (k : nat) (shk : generic_shdr),
         let ep := w_ep w in
         let data := default [] (f_elf_shstrings_data ep) in
         let len := f_elf_shstrings_length ep in
         g_count (f_loc_shdr ep) = Z.of_nat (length (f_shdr ep)) ->
         len <= Z.of_nat (length data) ->
         (forall i sh, f_shdr ep !! i = Some sh -> 0 <= gh_name sh) ->
         f_shdr ep !! k = Some shk ->
         ~ name_offset_ok len (gh_name shk) data ->
         (forall i sh, (i < k)%nat -> f_shdr ep !! i = Some sh ->
                       name_offset_ok len (gh_name sh) data) ->
         exists w',
           _dwarf_elf_load_sect_namestring w = Some (DW_DLV_ERROR, w')
           /\ w_errcode w' = DW_DLE_SECTION_STRING_OFFSET_BAD
           /\ forall i sh, f_shdr ep !! i = Some sh ->
                           f_shdr (w_ep w') !! i
                           = Some (stopped_at k data i sh))
  /\ (forall w : world,
         let ep := w_ep w in
         let data := default [] (f_elf_shstrings_data ep) in
         let len := f_elf_shstrings_length ep in
         g_count (f_loc_shdr ep) = Z.of_nat (length (f_shdr ep)) ->
         (forall i sh, f_shdr ep !! i = Some sh ->
                       0 <= gh_name sh
                       /\ name_offset_ok len (gh_name sh) data) ->
         exists w',
           _dwarf_elf_load_sect_namestring w = Some (DW_DLV_OK, w')
           /\ forall i sh, f_shdr ep !! i = Some sh ->
                           f_shdr (w_ep w') !! i
                           = Some (resolve_name data sh)).
Proof.
  split; [|split].
  - intros section_length idx data w Hidx. split.
    + apply validate_status_iff. exact Hidx.
    + apply validate_rejects. exact Hidx.
  - exact names_stop_at_first_invalid.
  - exact names_all_resolved.
Qed.

(** ** C3: the payload of an SHT_GROUP section *)




(** A successful entry: the entry was not zero, one of its readings is
    within the count, the section selected had no group number and now
    has the next one. *)
Lemma gs_entry_ok data i grouparray foundone w ga' fo' w' :
  gs_entry WORDS_BIGENDIAN data i (grouparray, foundone, w)
  = Some (DW_DLV_OK, (ga', fo', w')) ->
  let count := g_count (f_loc_shdr (w_ep w)) in
  let sel := gs_selected WORDS_BIGENDIAN count data i in
  gs_native WORDS_BIGENDIAN data i <> 0
  /\ sel <= count
  /\ (exists targ,
         f_shdr (w_ep w) !! Z.to_nat sel = Some targ
         /\ gh_section_group_number targ = 0)
  /\ ga' = <[i := sel]> grouparray
  /\ fo' = true
  /\ w' = set_section (Z.to_nat sel)
            (set_gh_section_group_number (f_sg_next_group_number (w_ep w)))
            w.
Proof.
  unfold gs_entry, gs_selected, gs_native, gs_swapped.
  set (a := ASNAR WORDS_BIGENDIAN memcpy _).
  set (b := ASNAR WORDS_BIGENDIAN _dwarf_memcpy_swap_bytes _).
  intros Hrun. simpl.
  destruct (Z.eqb_spec a 0) as [Ha|Ha]; [discriminate|].
  destruct (Z.gtb_spec a (g_count (f_loc_shdr (w_ep w)))) as [Hga|Hga].
  - destruct (Z.gtb_spec b (g_count (f_loc_shdr (w_ep w)))) as [Hgb|Hgb];
      [discriminate|].
    unfold gs_assign in Hrun.
    destruct (f_shdr (w_ep w) !! Z.to_nat b) as [targ|] eqn:Ht;
      [simpl in Hrun|discriminate].
    destruct (Z.eqb_spec (gh_section_group_number targ) 0) as [Hz|Hz];
      simpl in Hrun; [|discriminate].
    inversion Hrun; subst.
    repeat split; try assumption; try (exists targ; auto).
    apply list_insert_insert_eq.
  - unfold gs_assign in Hrun.
    destruct (f_shdr (w_ep w) !! Z.to_nat a) as [targ|] eqn:Ht;
      [simpl in Hrun|discriminate].
    destruct (Z.eqb_spec (gh_section_group_number targ) 0) as [Hz|Hz];
      simpl in Hrun; [|discriminate].
    inversion Hrun; subst.
    repeat split; try assumption; try lia; try (exists targ; auto).
Qed.

(** An entry fails exactly on a zero entry, on two readings beyond the
    count, or on a section that has a group number already; the error
    is DW_DLE_ELF_SECTION_GROUP_ERROR and no section changes. *)
Lemma gs_entry_error_iff data i grouparray foundone w :
  let count := g_count (f_loc_shdr (w_ep w)) in
  let sel := gs_selected WORDS_BIGENDIAN count data i in
  (exists ga',
      gs_entry WORDS_BIGENDIAN data i (grouparray, foundone, w)
      = Some (DW_DLV_ERROR,
              (ga', foundone, set_err DW_DLE_ELF_SECTION_GROUP_ERROR w)))
  <-> (gs_native WORDS_BIGENDIAN data i = 0
       \/ (gs_native WORDS_BIGENDIAN data i > count
           /\ gs_swapped WORDS_BIGENDIAN data i > count)
       \/ exists targ,
           f_shdr (w_ep w) !! Z.to_nat sel = Some targ
           /\ gh_section_group_number targ <> 0).
Proof.
  unfold gs_entry, gs_selected, gs_native, gs_swapped.
  set (a := ASNAR WORDS_BIGENDIAN memcpy _).
  set (b := ASNAR WORDS_BIGENDIAN _dwarf_memcpy_swap_bytes _).
  simpl.
  destruct (Z.eqb_spec a 0) as [Ha|Ha].
  { split; [auto | intros _; eexists; reflexivity]. }
  destruct (Z.gtb_spec a (g_count (f_loc_shdr (w_ep w)))) as [Hga|Hga].
  - destruct (Z.gtb_spec b (g_count (f_loc_shdr (w_ep w)))) as [Hgb|Hgb].
    { split; [intros _; right; left; lia | intros _; eexists; reflexivity]. }
    unfold gs_assign.
    destruct (f_shdr (w_ep w) !! Z.to_nat b) as [targ|] eqn:Ht; simpl.
    + destruct (Z.eqb_spec (gh_section_group_number targ) 0) as [Hz|Hz];
        simpl.
      * split; [intros [ga' Hx]; discriminate|].
        intros [Hx|[Hx|[t [Hx Hy]]]]; try lia.
        inversion Hx; subst. contradiction.
      * split; [|intros _; eexists; reflexivity].
        intros _. right. right. exists targ. auto.
    + split; [intros [ga' Hx]; discriminate|].
      intros [Hx|[Hx|[t [Hx Hy]]]]; try lia. discriminate.
  - unfold gs_assign.
    destruct (f_shdr (w_ep w) !! Z.to_nat a) as [targ|] eqn:Ht; simpl.
    + destruct (Z.eqb_spec (gh_section_group_number targ) 0) as [Hz|Hz];
        simpl.
      * split; [intros [ga' Hx]; discriminate|].
        intros [Hx|[Hx|[t [Hx Hy]]]]; try lia.
        inversion Hx; subst. contradiction.
      * split; [|intros _; eexists; reflexivity].
        intros _. right. right. exists targ. auto.
    + split; [intros [ga' Hx]; discriminate|].
      intros [Hx|[Hx|[t [Hx Hy]]]]; try lia. discriminate.
Qed.

(** Every failure of an entry has that form. *)
Lemma gs_entry_failure_form data i st r st' :
  gs_entry WORDS_BIGENDIAN data i st = Some (r, st') ->
  r <> DW_DLV_OK ->
  r = DW_DLV_ERROR
  /\ exists ga',
      st' = (ga', snd (fst st),
             set_err DW_DLE_ELF_SECTION_GROUP_ERROR (snd st)).
Proof.
  destruct st as [[ga fo] w]. unfold gs_entry.
  set (a := ASNAR WORDS_BIGENDIAN memcpy _).
  set (b := ASNAR WORDS_BIGENDIAN _dwarf_memcpy_swap_bytes _).
  intros Hrun Hr. simpl.
  assert (Hassign : forall sel ga0,
             gs_assign sel ga0 fo w = Some (r, st') ->
             r = DW_DLV_ERROR
             /\ exists ga',
                 st' = (ga', fo, set_err DW_DLE_ELF_SECTION_GROUP_ERROR w)).
  { intros sel ga0 Hx. unfold gs_assign in Hx.
    destruct (f_shdr (w_ep w) !! Z.to_nat sel) as [targ|];
      [simpl in Hx|discriminate].
    destruct (negb _); inversion Hx; subst; [|congruence].
    split; [reflexivity | eexists; reflexivity]. }
  destruct (a =? 0).
  { inversion Hrun; subst. split; [reflexivity | eexists; reflexivity]. }
  destruct (a >? g_count (f_loc_shdr (w_ep w))).
  - destruct (b >? g_count (f_loc_shdr (w_ep w))).
    + inversion Hrun; subst. split; [reflexivity | eexists; reflexivity].
    + eapply Hassign. exact Hrun.
  - eapply Hassign. exact Hrun.
Qed.

Lemma for_each_failure {S : Type} (idx : list nat)
  (body : nat -> S -> option (status * S)) (s : S) r s' :
  for_each idx body s = Some (r, s') ->
  r <> DW_DLV_OK ->
  exists i s0, In i idx /\ body i s0 = Some (r, s').
Proof.
  revert s. induction idx as [|i idx IH]; intros s Hrun Hr; simpl in Hrun.
  - inversion Hrun; subst. contradiction.
  - destruct (body i s) as [[[| |] s1]|] eqn:Hb; try discriminate.
    + destruct (IH s1 Hrun Hr) as [i' [s0 [Hin Hb']]].
      exists i', s0. split; [right; exact Hin | exact Hb'].
    + inversion Hrun; subst. exists i, s. split; [left; reflexivity|exact Hb].
    + inversion Hrun; subst. exists i, s. split; [left; reflexivity|exact Hb].
Qed.


Lemma gs_payload_version_of_success j count data w w' :
  gs_payload WORDS_BIGENDIAN uninit_word j count data w
  = Some (DW_DLV_OK, w') ->
  gs_version WORDS_BIGENDIAN data = 1
  \/ gs_version WORDS_BIGENDIAN data = 16777216.
Proof.
  unfold gs_payload, gs_version.
  destruct (Z.eqb_spec (ASNAR WORDS_BIGENDIAN memcpy (sub_bytes data 0 4)) 1);
    [auto|].
  destruct (Z.eqb_spec (ASNAR WORDS_BIGENDIAN memcpy (sub_bytes data 0 4))
              16777216); [auto|].
  simpl. discriminate.
Qed.

Lemma gs_payload_failure_at_entry j count data w r w' :
  gs_version WORDS_BIGENDIAN data = 1
  \/ gs_version WORDS_BIGENDIAN data = 16777216 ->
  gs_payload WORDS_BIGENDIAN uninit_word j count data w = Some (r, w') ->
  r <> DW_DLV_OK ->
  r = DW_DLV_ERROR
  /\ w_errcode w' = DW_DLE_ELF_SECTION_GROUP_ERROR
  /\ exists (i : nat) st st',
      (1 <= i < Z.to_nat count)%nat
      /\ gs_entry WORDS_BIGENDIAN data i st = Some (DW_DLV_ERROR, st').
Proof.
  unfold gs_payload, gs_version. intros Hv Hrun Hr.
  destruct (negb _ && negb _) eqn:Hc.
  { apply andb_true_iff in Hc. destruct Hc as [H1 H2].
    apply negb_true_iff in H1, H2.
    apply Z.eqb_neq in H1, H2. destruct Hv; contradiction. }
  destruct (for_each _ _ _) as [[res [[ga fo] w1]]|] eqn:Hloop;
    [simpl in Hrun|discriminate].
  destruct res; inversion Hrun; subst; try congruence.
  - destruct (for_each_failure _ _ _ _ _ Hloop Hr) as [i [s0 [Hin Hb]]].
    destruct (gs_entry_failure_form _ _ _ _ _ Hb Hr) as [Hx _].
    discriminate.
  - destruct (for_each_failure _ _ _ _ _ Hloop Hr) as [i [s0 [Hin Hb]]].
    destruct (gs_entry_failure_form _ _ _ _ _ Hb Hr) as [_ [ga' Hst]].
    split; [reflexivity|]. split; [inversion Hst; reflexivity|].
    exists i, s0, (ga, fo, w'). split; [|exact Hb].
    apply in_seq in Hin. lia.
Qed.

(** ** C2: section groups partition the DWARF sections *)

Lemma for_each_invariant {S : Type} (P : nat -> S -> Prop)
  (body : nat -> S -> option (status * S)) (n a : nat) (s s' : S) :
  P a s ->
  (forall i s1 s2, (a <= i < a + n)%nat -> P i s1 ->
                   body i s1 = Some (DW_DLV_OK, s2) -> P (Datatypes.S i) s2) ->
  for_each (seq a n) body s = Some (DW_DLV_OK, s') ->
  P (a + n)%nat s'.
Proof.
  revert a s. induction n as [|n IH]; intros a s HP Hstep Hrun;
    simpl in Hrun.
  - inversion Hrun; subst. rewrite Nat.add_0_r. exact HP.
  - destruct (body a s) as [[[| |] s1]|] eqn:Hb; try discriminate.
    replace (a + Datatypes.S n)%nat with (Datatypes.S a + n)%nat by lia.
    apply (IH (Datatypes.S a) s1).
    + apply (Hstep a s s1); [lia | exact HP | exact Hb].
    + intros i s2 s3 Hi. apply Hstep. lia.
    + exact Hrun.
Qed.
















Lemma marked_namestring sh :
  gh_namestring (marked ign sh) = gh_namestring sh.
Proof.
  unfold marked.
  repeat match goal with
         | |- context [if ?c then _ else _] => destruct c
         end; reflexivity.
Qed.

Lemma listed_in_ext (L L' : list generic_shdr) (j i : nat) :
  (forall x, option_map gh_sht_group_array (L' !! x)
             = option_map gh_sht_group_array (L !! x)) ->
  listed_in L' j i -> listed_in L j i.
Proof.
  intros Hext [sh [arr [k [Hj [Harr [Hk Hl]]]]]].
  specialize (Hext j). rewrite Hj in Hext. simpl in Hext.
  destruct (L !! j) as [shc|] eqn:Hc; [|discriminate].
  simpl in Hext. inversion Hext as [Hx].
  exists shc, arr, k. rewrite <- Hx. auto.
Qed.

Lemma sections_marked_step (L1 : list generic_shdr) (a : nat)
  (w w' : world) :
  sections_marked ign L1 a w ->
  setup_step_C ign a w = Some (DW_DLV_OK, w') ->
  sections_marked ign L1 (Datatypes.S a) w'.
Proof.
  intros [Hcur Hdwo] Hrun. unfold setup_step_C in Hrun.
  pose proof (Hcur a) as Ha. rewrite Nat.ltb_irrefl in Ha.
  destruct (f_shdr (w_ep w) !! a) as [psh|] eqn:Hpsh;
    [simpl in Hrun|discriminate].
  symmetry in Ha.
  assert (Hother : forall f i, i <> a ->
             alter f a (f_shdr (w_ep w)) !! i
             = if (i <? Datatypes.S a)%nat then marked ign <$> L1 !! i
               else L1 !! i).
  { intros f i Hne. rewrite list_lookup_alter_ne by congruence.
    rewrite Hcur.
    destruct (Nat.ltb_spec i a), (Nat.ltb_spec i (Datatypes.S a));
      try reflexivity; lia. }
  assert (Hkeep : marked ign psh = psh ->
             forall i, f_shdr (w_ep w) !! i
                       = if (i <? Datatypes.S a)%nat
                         then marked ign <$> L1 !! i else L1 !! i).
  { intros Hm i. destruct (Nat.eq_dec i a) as [->|Hne].
    - rewrite Hpsh, Ha. simpl. rewrite Hm.
      destruct (Nat.ltb_spec a (Datatypes.S a)); [reflexivity|lia].
    - rewrite Hcur.
      destruct (Nat.ltb_spec i a), (Nat.ltb_spec i (Datatypes.S a));
        try reflexivity; lia. }
  assert (Hlt : (a <? Datatypes.S a)%nat = true) by (apply Nat.ltb_lt; lia).
  assert (Hdwo' : forall i sh, (i < a)%nat -> L1 !! i = Some sh ->
             is_empty_section (gh_type sh) = false ->
             elf_sht_groupsec (gh_type sh) (gh_namestring sh) = false ->
             string_endswith (gh_namestring sh) ".dwo" = true ->
             gh_section_group_number sh = 0) by exact Hdwo.
  unfold sections_marked.
  destruct (is_empty_section (gh_type psh)) eqn:He.
  { inversion Hrun; subst w'. split.
    - apply Hkeep. unfold marked. rewrite He. reflexivity.
    - intros i sh Hi Hsh H1 H2 H3.
      destruct (Nat.eq_dec i a) as [->|Hne];
        [|apply (Hdwo i sh); auto; lia].
      rewrite Ha in Hsh. inversion Hsh; subst sh. congruence. }
  destruct (elf_sht_groupsec (gh_type psh) (gh_namestring psh)) eqn:Hg.
  { inversion Hrun; subst w'. split.
    - apply Hkeep. unfold marked. rewrite He, Hg. reflexivity.
    - intros i sh Hi Hsh H1 H2 H3.
      destruct (Nat.eq_dec i a) as [->|Hne];
        [|apply (Hdwo i sh); auto; lia].
      rewrite Ha in Hsh. inversion Hsh; subst sh. congruence. }
  destruct (string_endswith (gh_namestring psh) ".dwo") eqn:Hd.
  { destruct (Z.eqb_spec (gh_section_group_number psh) 0) as [Hz|Hz];
      simpl in Hrun; [|discriminate].
    inversion Hrun; subst w'. simpl. split.
    - intros i. destruct (Nat.eq_dec i a) as [->|Hne].
      + rewrite !list_lookup_alter_eq, Hpsh, Hlt, Ha. simpl.
        unfold marked. rewrite He, Hg, Hd. reflexivity.
      + rewrite list_lookup_alter_ne by congruence. apply Hother. exact Hne.
    - intros i sh Hi Hsh H1 H2 H3.
      destruct (Nat.eq_dec i a) as [->|Hne];
        [|apply (Hdwo i sh); auto; lia].
      rewrite Ha in Hsh. inversion Hsh; subst sh. exact Hz. }
  destruct (fst (_dwarf_load_elf_section_is_dwarf ign (gh_namestring psh)))
    eqn:Hn.
  { inversion Hrun; subst w'. split.
    - intros i. destruct (Nat.eq_dec i a) as [->|Hne].
      + rewrite Hlt, Ha. simpl. unfold marked. rewrite He, Hg, Hd, Hn.
        destruct (gh_section_group_number psh =? 0); simpl.
        * rewrite !list_lookup_alter_eq, Hpsh. reflexivity.
        * rewrite list_lookup_alter_eq, Hpsh. reflexivity.
      + destruct (gh_section_group_number psh =? 0); simpl.
        * rewrite list_lookup_alter_ne by congruence.
          apply Hother. exact Hne.
        * apply Hother. exact Hne.
    - intros i sh Hi Hsh H1 H2 H3.
      destruct (Nat.eq_dec i a) as [->|Hne];
        [|apply (Hdwo i sh); auto; lia].
      rewrite Ha in Hsh. inversion Hsh; subst sh. congruence. }
  inversion Hrun; subst w'. split.
  - apply Hkeep. unfold marked. rewrite He, Hg, Hd, Hn. reflexivity.
  - intros i sh Hi Hsh H1 H2 H3.
    destruct (Nat.eq_dec i a) as [->|Hne];
      [|apply (Hdwo i sh); auto; lia].
    rewrite Ha in Hsh. inversion Hsh; subst sh. congruence.
Qed.

Lemma sections_marked_all (count : nat) (w w' : world) :
  for_each (seq 0 count) (setup_step_C ign) w = Some (DW_DLV_OK, w') ->
  sections_marked ign (f_shdr (w_ep w)) count w'.
Proof.
  intros Hrun.
  apply (for_each_invariant (sections_marked ign (f_shdr (w_ep w)))
           (setup_step_C ign) count 0 w w'); [| |exact Hrun].
  - split; [intros i; reflexivity | intros i sh Hi; lia].
  - intros a w1 w2 _ Hinv Hb.
    exact (sections_marked_step (f_shdr (w_ep w)) a w1 w2 Hinv Hb).
Qed.





(** ** Names of sections *)

Lemma strlen_append (p q : string) :
  strlen (p ++ q)%string = (strlen p + strlen q)%nat.
Proof. induction p as [|a p IH]; simpl; [reflexivity | now rewrite IH]. Qed.

Lemma str_advance_app (p q : string) :
  str_advance (strlen p) (p ++ q)%string = q.
Proof. induction p as [|a p IH]; simpl; [reflexivity | exact IH]. Qed.

Lemma str_advance_split (k : nat) (n : string) :
  (k <= strlen n)%nat -> exists p, n = (p ++ str_advance k n)%string.
Proof.
  revert n. induction k as [|k IH]; intros n Hk.
  - exists ""%string. reflexivity.
  - destruct n as [|a n]; simpl in Hk; [lia|].
    destruct (IH n ltac:(lia)) as [p Hp].
    exists (String a p). simpl. rewrite <- Hp. reflexivity.
Qed.

(** X1: [string_endswith(n,q)] holds exactly when [n] is some string
    followed by [q]. *)
Theorem string_endswith_iff (n q : string) :
  string_endswith n q = true <-> exists p : string, n = (p ++ q)%string.
Proof.
  unfold string_endswith. split.
  - destruct (Nat.ltb_spec (strlen n) (strlen q)) as [Hlt|Hge];
      [discriminate|].
    destruct (strcmp_eq (str_advance (strlen n - strlen q) n) q) eqn:E;
      simpl; [|discriminate].
    intros _. apply String.eqb_eq in E.
    destruct (str_advance_split (strlen n - strlen q) n) as [p Hp]; [lia|].
    exists p. rewrite <- E. exact Hp.
  - intros [p ->]. rewrite strlen_append.
    destruct (Nat.ltb_spec (strlen p + strlen q) (strlen q)) as [Hlt|Hge];
      [lia|].
    replace (strlen p + strlen q - strlen q)%nat with (strlen p) by lia.
    rewrite str_advance_app. unfold strcmp_eq. rewrite String.eqb_refl.
    reflexivity.
Qed.

Lemma strncmp_eq_starts_with (q s : string) :
  strncmp_eq s q (strlen q) = true <-> starts_with q s.
Proof.
  unfold strlen. revert s. induction q as [|b q IH]; intros s.
  - split; [intros _; exists s; reflexivity | destruct s; reflexivity].
  - destruct s as [|a s]; simpl.
    + split; [discriminate | intros [t Ht]; discriminate Ht].
    + rewrite andb_true_iff, Ascii.eqb_eq, IH. split.
      * intros [-> [t ->]]. exists t. reflexivity.
      * intros [t Ht]. inversion Ht. split; [reflexivity|].
        exists t. reflexivity.
Qed.

Lemma starts_with_shorter (p q s : string) :
  starts_with (p ++ q)%string s -> starts_with p s.
Proof.
  intros [t ->]. exists (q ++ t)%string.
  induction p as [|a p IH]; simpl; [reflexivity | now rewrite IH].
Qed.

Lemma strncmp_eq_false (q s : string) :
  strncmp_eq s q (strlen q) = false <-> ~ starts_with q s.
Proof.
  rewrite <- strncmp_eq_starts_with.
  destruct (strncmp_eq s q (strlen q)); split; congruence.
Qed.

(** X2: The classifier accepts a name exactly when the name is not one to
    ignore and begins with ".rela.", ".rel.", ".debug_", ".zdebug_" or
    ".gdb_index", or is ".eh_frame"; it sets the flag it stores for
    relocation sections exactly for the first two. *)
Theorem section_is_dwarf_by_prefix (sname : string) :
  let r := _dwarf_load_elf_section_is_dwarf ign sname in
  (fst r = true <->
     ign sname = false
     /\ (starts_with ".rela." sname \/ starts_with ".rel." sname
         \/ starts_with ".debug_" sname \/ starts_with ".zdebug_" sname
         \/ sname = ".eh_frame" \/ starts_with ".gdb_index" sname))
  /\ (out_is_rela r = true <->
        ign sname = false
        /\ (starts_with ".rela." sname \/ starts_with ".rel." sname)).
Proof.
  clear WORDS_BIGENDIAN DW_OBJECT_LSB CHAR_IS_SIGNED sizeof_gr_type2 SIGN_EXTEND RRMOA struct_sizes_agree
    uninit_rela uninit_byte uninit_word.
  unfold _dwarf_load_elf_section_is_dwarf, out_is_rela.
  pose proof (strncmp_eq_starts_with ".rel" sname) as Prel.
  pose proof (strncmp_eq_starts_with ".rela." sname) as Prela.
  pose proof (strncmp_eq_starts_with ".rel." sname) as Preld.
  pose proof (strncmp_eq_starts_with ".debug_" sname) as Pdbg.
  pose proof (strncmp_eq_starts_with ".zdebug_" sname) as Pz.
  pose proof (strncmp_eq_starts_with ".gdb_index" sname) as Pg.
  pose proof (String.eqb_eq sname ".eh_frame") as Peh.
  pose proof (starts_with_shorter ".rel" "a." sname) as Srela.
  pose proof (starts_with_shorter ".rel" "." sname) as Sreld.
  simpl strlen in *. simpl append in *. unfold strcmp_eq.
  assert (Xd : starts_with ".rel" sname -> starts_with ".debug_" sname
               -> False)
    by (intros [t ->] [t' H]; discriminate H).
  assert (Xz : starts_with ".rel" sname -> starts_with ".zdebug_" sname
               -> False)
    by (intros [t ->] [t' H]; discriminate H).
  assert (Xg : starts_with ".rel" sname -> starts_with ".gdb_index" sname
               -> False)
    by (intros [t ->] [t' H]; discriminate H).
  assert (Xe : starts_with ".rel" sname -> sname = ".eh_frame" -> False)
    by (intros [t ->] H; discriminate H).
  destruct (ign sname); simpl;
    [split; split; [discriminate | intros [H _]; discriminate H
                   | discriminate | intros [H _]; discriminate H]|].
  destruct (strncmp_eq sname ".rel" 4);
    destruct (strncmp_eq sname ".rela." 6);
    destruct (strncmp_eq sname ".rel." 5);
    destruct (strncmp_eq sname ".debug_" 7);
    destruct (strncmp_eq sname ".zdebug_" 8);
    destruct (sname =? ".eh_frame")%string;
    destruct (strncmp_eq sname ".gdb_index" 10);
    simpl; (split; split; [intros H | intros [_ H] | intros H | intros [_ H]]);
    try reflexivity; try discriminate;
    intuition (try discriminate; try congruence).
Qed.

(** ** Fixed-width fields *)

Lemma le_decode_bound (l : list byte) :
  0 <= le_decode l < 256 ^ Z.of_nat (length l).
Proof.
  induction l as [|b l IH].
  - simpl. lia.
  - simpl length. rewrite Nat2Z.inj_succ, Z.pow_succ_r by lia.
    simpl le_decode. pose proof (byte_val_bound b). lia.
Qed.

Lemma be_decode_bound (l : list byte) :
  0 <= be_decode l < 256 ^ Z.of_nat (length l).
Proof.
  unfold be_decode. rewrite <- (length_rev l). apply le_decode_bound.
Qed.

Lemma be_decode_rev (l : list byte) : be_decode (rev l) = le_decode l.
Proof. unfold be_decode. rewrite rev_involutive. reflexivity. Qed.

Lemma copy_fn_length (cw : copy_word) (s : list byte) :
  length (copy_fn cw s) = length s.
Proof. destruct cw; simpl; [reflexivity | apply length_rev]. Qed.

(** X3: [ASNAR] over a field of at most eight bytes: with [memcpy] the
    value is that of the bytes in the host's order, with
    [_dwarf_memcpy_swap_bytes] in the opposite order, and in both cases
    it fits the width of the field. *)
Theorem ASNAR_reads_field (s : list byte) :
  (length s <= 8)%nat ->
  ASNAR WORDS_BIGENDIAN memcpy s
  = (if WORDS_BIGENDIAN then be_decode s else le_decode s)
  /\ ASNAR WORDS_BIGENDIAN _dwarf_memcpy_swap_bytes s
     = (if WORDS_BIGENDIAN then le_decode s else be_decode s)
  /\ forall cw : copy_word,
      0 <= ASNAR WORDS_BIGENDIAN (copy_fn cw) s
      < 256 ^ Z.of_nat (length s).
Proof.
  intros Hle. split; [|split].
  - rewrite ASNAR_host_order by (auto; reflexivity). reflexivity.
  - rewrite ASNAR_host_order
      by (auto; unfold _dwarf_memcpy_swap_bytes; apply length_rev).
    unfold _dwarf_memcpy_swap_bytes. rewrite be_decode_rev.
    reflexivity.
  - intros cw.
    rewrite ASNAR_host_order by (auto; apply copy_fn_length).
    rewrite <- (copy_fn_length cw s).
    destruct WORDS_BIGENDIAN; [apply be_decode_bound | apply le_decode_bound].
Qed.

Lemma ASNAR_width (cw : copy_word) (s : list byte) (n : nat) :
  (length s <= n)%nat -> (n <= 8)%nat ->
  0 <= ASNAR WORDS_BIGENDIAN (copy_fn cw) s < 256 ^ Z.of_nat n.
Proof.
  intros Hs Hn.
  rewrite ASNAR_host_order by (try apply copy_fn_length; lia).
  assert (Hb : 0 <= (if WORDS_BIGENDIAN then be_decode (copy_fn cw s)
                     else le_decode (copy_fn cw s))
               < 256 ^ Z.of_nat (length s)).
  { rewrite <- (copy_fn_length cw s).
    destruct WORDS_BIGENDIAN;
      [apply be_decode_bound | apply le_decode_bound]. }
  assert (256 ^ Z.of_nat (length s) <= 256 ^ Z.of_nat n)
    by (apply Z.pow_le_mono_r; lia).
  lia.
Qed.

Lemma sub_bytes_length (buf : list byte) (off n : nat) :
  (length (sub_bytes buf off n) <= n)%nat.
Proof. unfold sub_bytes. rewrite length_take. lia. Qed.

(** ** The symbol table *)

Lemma generic_symentry_of_fields (cw : copy_word) (psym : dw_elf_sym) :
  (length (st_info psym) <= 1)%nat ->
  (length (st_other psym) <= 1)%nat ->
  (length (st_shndx psym) <= 2)%nat ->
  (length (st_name psym) <= 4)%nat ->
  symentry_fields_ok (generic_symentry_of WORDS_BIGENDIAN cw psym).
Proof.
  intros Hi Ho Hx Hn. unfold symentry_fields_ok, generic_symentry_of.
  simpl.
  pose proof (ASNAR_width cw (st_info psym) 1 Hi ltac:(lia)) as Bi.
  pose proof (ASNAR_width cw (st_other psym) 1 Ho ltac:(lia)) as Bo.
  pose proof (ASNAR_width cw (st_shndx psym) 2 Hx ltac:(lia)) as Bx.
  pose proof (ASNAR_width cw (st_name psym) 4 Hn ltac:(lia)) as Bn.
  change (256 ^ Z.of_nat 1) with 256 in *.
  change (256 ^ Z.of_nat 2) with 65536 in *.
  change (256 ^ Z.of_nat 4) with two32 in *.
  set (info := ASNAR WORDS_BIGENDIAN (copy_fn cw) (st_info psym)) in *.
  rewrite Z.shiftr_div_pow2 by lia.
  change 15 with (Z.ones 4). rewrite Z.land_ones by lia.
  change (2 ^ 4) with 16.
  pose proof (Z.div_mod info 16 ltac:(lia)).
  pose proof (Z.mod_pos_bound info 16 ltac:(lia)).
  assert (0 <= info / 16 < 16)
    by (split; [apply Z.div_pos; lia | apply Z.div_lt_upper_bound; lia]).
  repeat split; lia.
Qed.

Lemma cast32_sym_fields (cw : copy_word) (buf : list byte) (i : nat) :
  symentry_fields_ok
    (generic_symentry_of WORDS_BIGENDIAN cw (cast_dw_elf32_sym buf i)).
Proof. apply generic_symentry_of_fields; apply sub_bytes_length. Qed.

Lemma cast64_sym_fields (cw : copy_word) (buf : list byte) (i : nat) :
  symentry_fields_ok
    (generic_symentry_of WORDS_BIGENDIAN cw (cast_dw_elf64_sym buf i)).
Proof. apply generic_symentry_of_fields; apply sub_bytes_length. Qed.

Lemma malloc_world (w : world) (p : bool) (w1 : world) :
  malloc w = (p, w1) ->
  w_ep w1 = w_ep w /\ w_reads w1 = w_reads w /\ w_errcode w1 = w_errcode w.
Proof.
  unfold malloc. destruct (w_heap w); intros H; inversion H; subst;
    repeat split.
Qed.

Lemma do_RRMOA_world (o l : Z) (w : world) (rd : read_result) (w1 : world) :
  do_RRMOA RRMOA o l w = (rd, w1) ->
  w_ep w1 = w_ep w /\ w_reads w1 = (w_reads w ++ [(o, l)])%list
  /\ rd = RRMOA o l (f_filesize (w_ep w)).
Proof.
  intros H.
  pose proof (do_RRMOA_ep o l w) as H1.
  pose proof (do_RRMOA_reads o l w) as H2.
  pose proof (do_RRMOA_fst o l w) as H3.
  rewrite H in H1, H2, H3. simpl in H1, H2, H3. auto.
Qed.


Ltac frame_cases :=
  simpl; repeat split;
  try (intros; congruence); try (left; congruence);
  try (right; congruence); try (intros; discriminate).

Lemma u64_nonneg (x : Z) : 0 <= u64 x.
Proof. apply u64_range. Qed.

Lemma symbols32_result (offset size : Z) (w : world) :
  symbols_result offset size w
    (dwarf_generic_elf_load_symbols32 WORDS_BIGENDIAN RRMOA offset size w).
Proof.
  unfold dwarf_generic_elf_load_symbols32, symbols_result.
  set (ecount := u64 (cast_long (size / sizeof_dw_elf32_sym))).
  destruct (size =? u64 (ecount * sizeof_dw_elf32_sym)); simpl;
    [|solve [frame_cases]].
  destruct (malloc w) as [p1 w1] eqn:M1.
  destruct (malloc_world _ _ _ M1) as (E1 & R1 & _).
  destruct p1; simpl; [|solve [frame_cases]].
  destruct (malloc w1) as [p2 w2] eqn:M2.
  destruct (malloc_world _ _ _ M2) as (E2 & R2 & _).
  destruct p2; simpl; [|solve [frame_cases]].
  destruct (do_RRMOA RRMOA offset size w2) as [rd w3] eqn:D.
  destruct (do_RRMOA_world _ _ _ _ _ D) as (E3 & R3 & _).
  destruct rd; [|solve [frame_cases]|solve [frame_cases]].
  simpl. split; [congruence|]. split; [right; congruence|].
  split; [intros X; contradiction|].
  intros _. eexists. split.
  - rewrite length_map, length_seq, Z2Nat.id by apply u64_nonneg.
    reflexivity.
  - apply List.Forall_forall. intros g Hg. apply in_map_iff in Hg.
    destruct Hg as [i [<- _]]. apply cast32_sym_fields.
Qed.

Lemma symbols64_result (offset size : Z) (w : world) :
  symbols_result offset size w
    (dwarf_generic_elf_load_symbols64 WORDS_BIGENDIAN RRMOA offset size w).
Proof.
  unfold dwarf_generic_elf_load_symbols64, symbols_result.
  set (ecount := u64 (cast_long (size / sizeof_dw_elf64_sym))).
  destruct (size =? u64 (ecount * sizeof_dw_elf64_sym)); simpl;
    [|solve [frame_cases]].
  destruct (malloc w) as [p1 w1] eqn:M1.
  destruct (malloc_world _ _ _ M1) as (E1 & R1 & _).
  destruct p1; simpl; [|solve [frame_cases]].
  destruct (malloc w1) as [p2 w2] eqn:M2.
  destruct (malloc_world _ _ _ M2) as (E2 & R2 & _).
  destruct p2; simpl; [|solve [frame_cases]].
  destruct (do_RRMOA RRMOA offset size w2) as [rd w3] eqn:D.
  destruct (do_RRMOA_world _ _ _ _ _ D) as (E3 & R3 & _).
  destruct rd; [|solve [frame_cases]|solve [frame_cases]].
  simpl. split; [congruence|]. split; [right; congruence|].
  split; [intros X; contradiction|].
  intros _. eexists. split.
  - rewrite length_map, length_seq, Z2Nat.id by apply u64_nonneg.
    reflexivity.
  - apply List.Forall_forall. intros g Hg. apply in_map_iff in Hg.
    destruct Hg as [i [<- _]]. apply cast64_sym_fields.
Qed.

Lemma symbols_result_of (secnum : Z) (psh : generic_shdr) (w : world) :
  symbols_result (gh_offset psh) (gh_size psh) w
    (dwarf_generic_elf_load_symbols WORDS_BIGENDIAN RRMOA secnum psh w).
Proof.
  unfold dwarf_generic_elf_load_symbols.
  destruct (u32 secnum =? 0); [solve [frame_cases]|].
  destruct (gh_size psh >? f_filesize (w_ep w)); [solve [frame_cases]|].
  destruct (f_offsetsize (w_ep w) =? 32); [apply symbols32_result|].
  destruct (f_offsetsize (w_ep w) =? 64); [apply symbols64_result|].
  solve [frame_cases].
Qed.

(** X4: after [_dwarf_load_elf_symtab_symbols] has returned OK the
    record holds a symbol table whose length is the count recorded
    with it, and in every symbol the binding and the type are the two
    halves of [gs_info] (info = 16 * binding + type, both below 16),
    [gs_other] is below 256, [gs_shndx] below 65536 and [gs_name]
    below 2^32. *)
Theorem symtab_symbols_loaded (w w' : world) :
  _dwarf_load_elf_symtab_symbols WORDS_BIGENDIAN RRMOA w
  = Some (DW_DLV_OK, w') ->
  exists gsym : list generic_symentry,
    f_symtab (w_ep w') = Some gsym
    /\ g_count (f_loc_symtab (w_ep w')) = Z.of_nat (length gsym)
    /\ Forall symentry_fields_ok gsym.
Proof.
  unfold _dwarf_load_elf_symtab_symbols.
  destruct (f_symtab_sect_index (w_ep w) =? 0); [discriminate|].
  destruct (f_shdr (w_ep w) !! Z.to_nat (f_symtab_sect_index (w_ep w)))
    as [psh|]; simpl; [|discriminate].
  destruct (gh_size psh >? f_filesize (w_ep w)); [discriminate|].
  pose proof (symbols_result_of (f_symtab_sect_index (w_ep w)) psh w) as R.
  destruct (dwarf_generic_elf_load_symbols WORDS_BIGENDIAN RRMOA
              (f_symtab_sect_index (w_ep w)) psh w) as [[res out] w1].
  destruct R as (E & _ & Hn & Hok).
  destruct out as [[gsym count]|]; intros H; inversion H; subst.
  - destruct (Hok eq_refl) as [g [Hg Hf]]. inversion Hg; subst.
    exists g. split; [reflexivity|]. split; [reflexivity | exact Hf].
  - destruct (Hok eq_refl) as [g [Hg _]]. discriminate Hg.
Qed.

(** X5: [_dwarf_load_elf_symtab_symbols] changes the record only when
    it returns OK, and then only the symbol table and the count kept
    with it; whatever it returns, it has issued at most one read, that
    of the symbol table section as its header gives it. *)
Theorem symtab_symbols_frame (w w' : world) (r : status) :
  _dwarf_load_elf_symtab_symbols WORDS_BIGENDIAN RRMOA w = Some (r, w') ->
  (r <> DW_DLV_OK -> w_ep w' = w_ep w)
  /\ (r = DW_DLV_OK ->
      exists gsym : list generic_symentry,
        w_ep w'
        = set_f_loc_symtab
            (set_g_count (Z.of_nat (length gsym)) (f_loc_symtab (w_ep w)))
            (set_f_symtab (Some gsym) (w_ep w)))
  /\ (w_reads w' = w_reads w
      \/ exists psh : generic_shdr,
          f_shdr (w_ep w) !! Z.to_nat (f_symtab_sect_index (w_ep w))
          = Some psh
          /\ w_reads w'
             = (w_reads w ++ [(gh_offset psh, gh_size psh)])%list).
Proof.
  unfold _dwarf_load_elf_symtab_symbols.
  destruct (f_symtab_sect_index (w_ep w) =? 0).
  { intros H; inversion H; subst. repeat split; auto. discriminate. }
  destruct (f_shdr (w_ep w) !! Z.to_nat (f_symtab_sect_index (w_ep w)))
    as [psh|] eqn:Hl; simpl; [|discriminate].
  destruct (gh_size psh >? f_filesize (w_ep w)).
  { intros H; inversion H; subst. repeat split; auto. discriminate. }
  pose proof (symbols_result_of (f_symtab_sect_index (w_ep w)) psh w) as R.
  destruct (dwarf_generic_elf_load_symbols WORDS_BIGENDIAN RRMOA
              (f_symtab_sect_index (w_ep w)) psh w) as [[res out] w1].
  destruct R as (E & Hr & Hn & Hok).
  assert (Hreads : w_reads w1 = w_reads w
                   \/ exists psh0 : generic_shdr,
                       Some psh = Some psh0
                       /\ w_reads w1
                          = (w_reads w
                               ++ [(gh_offset psh0, gh_size psh0)])%list).
  { destruct Hr as [Hr|Hr]; [left; exact Hr|].
    right. exists psh. split; [reflexivity | exact Hr]. }
  destruct out as [[gsym count]|]; intros H; inversion H; subst.
  - destruct r.
    + destruct (Hok eq_refl) as [g [Hg _]]. inversion Hg; subst.
      split; [intros X; contradiction|]. split; [|exact Hreads].
      intros _. exists g. unfold upd_ep. simpl. rewrite E. reflexivity.
    + specialize (Hn ltac:(discriminate)). discriminate Hn.
    + specialize (Hn ltac:(discriminate)). discriminate Hn.
  - split; [intros _; exact E|]. split; [|exact Hreads].
    intros ->. destruct (Hok eq_refl) as [g [Hg _]]. discriminate Hg.
Qed.

Lemma malloc_succeeds (n : nat) (w : world) :
  allocations_succeed (Datatypes.S n) w ->
  exists w1 : world,
    malloc w = (true, w1) /\ allocations_succeed n w1
    /\ w_ep w1 = w_ep w /\ w_reads w1 = w_reads w
    /\ w_errcode w1 = w_errcode w.
Proof.
  unfold malloc, allocations_succeed. destruct (w_heap w) as [|b h] eqn:Hh.
  - intros _. exists w. rewrite Hh. repeat split.
    destruct n; constructor.
  - simpl. intros H. inversion H; subst.
    exists (set_w_heap h w). repeat split. simpl. assumption.
Qed.

(** X6: when the read of the symbol table fails with an error, the
    32-bit decoder leaves the code of the reader in [*errcode], and
    the 64-bit decoder replaces it by DW_DLE_ALLOC_FAIL; both return
    ERROR and leave the record as it was. *)
Theorem symtab_read_failure_code (w : world) (psh : generic_shdr)
  (c : Dwarf_Error_code) :
  0 < f_symtab_sect_index (w_ep w) < two32 ->
  f_shdr (w_ep w) !! Z.to_nat (f_symtab_sect_index (w_ep w)) = Some psh ->
  is_u64 (gh_size psh) ->
  gh_size psh <= f_filesize (w_ep w) ->
  allocations_succeed 2 w ->
  RRMOA (gh_offset psh) (gh_size psh) (f_filesize (w_ep w)) = RdError c ->
  (f_offsetsize (w_ep w) = 32 ->
   gh_size psh mod sizeof_dw_elf32_sym = 0 ->
   exists w' : world,
     _dwarf_load_elf_symtab_symbols WORDS_BIGENDIAN RRMOA w
     = Some (DW_DLV_ERROR, w')
     /\ w_errcode w' = c /\ w_ep w' = w_ep w)
  /\ (f_offsetsize (w_ep w) = 64 ->
      gh_size psh mod sizeof_dw_elf64_sym = 0 ->
      exists w' : world,
        _dwarf_load_elf_symtab_symbols WORDS_BIGENDIAN RRMOA w
        = Some (DW_DLV_ERROR, w')
        /\ w_errcode w' = DW_DLE_ALLOC_FAIL /\ w_ep w' = w_ep w).
Proof.
  intros Hidx Hl Hs Hfs Ha Hrd.
  destruct (malloc_succeeds 1 w Ha) as (w1 & M1 & Ha1 & E1 & _).
  destruct (malloc_succeeds 0 w1 Ha1) as (w2 & M2 & _ & E2 & _).
  assert (Hu : u32 (f_symtab_sect_index (w_ep w))
               = f_symtab_sect_index (w_ep w))
    by (apply Z.mod_small; unfold two32 in *; lia).
  assert (Hrd2 : RRMOA (gh_offset psh) (gh_size psh) (f_filesize (w_ep w2))
                 = RdError c) by (rewrite E2, E1; exact Hrd).
  split; intros Ho Hm; unfold _dwarf_load_elf_symtab_symbols;
    (destruct (Z.eqb_spec (f_symtab_sect_index (w_ep w)) 0); [lia|]);
    rewrite Hl; simpl;
    (destruct (Z.gtb_spec (gh_size psh) (f_filesize (w_ep w))); [lia|]);
    unfold dwarf_generic_elf_load_symbols; rewrite Hu;
    (destruct (Z.eqb_spec (f_symtab_sect_index (w_ep w)) 0); [lia|]);
    (destruct (Z.gtb_spec (gh_size psh) (f_filesize (w_ep w))); [lia|]);
    rewrite Ho; simpl.
  - unfold dwarf_generic_elf_load_symbols32.
    rewrite count_via_long by (auto; unfold sizeof_dw_elf32_sym; lia).
    apply (size2_eq_iff (gh_size psh) sizeof_dw_elf32_sym Hs
             ltac:(reflexivity)) in Hm.
    rewrite Hm. simpl. rewrite M1. simpl. rewrite M2. simpl.
    unfold do_RRMOA. simpl. rewrite Hrd2. simpl.
    eexists. split; [reflexivity|]. simpl. split; [reflexivity|].
    congruence.
  - unfold dwarf_generic_elf_load_symbols64.
    rewrite count_via_long by (auto; unfold sizeof_dw_elf64_sym; lia).
    apply (size2_eq_iff (gh_size psh) sizeof_dw_elf64_sym Hs
             ltac:(reflexivity)) in Hm.
    rewrite Hm. simpl. rewrite M1. simpl. rewrite M2. simpl.
    unfold do_RRMOA. simpl. rewrite Hrd2. simpl.
    eexists. split; [reflexivity|]. simpl. split; [reflexivity|].
    congruence.
Qed.

(** ** Relocation records *)

Lemma rel_loop_Forall (P : generic_rela -> Prop) cast body ecount relp grel :
  (forall i g0, P (body (cast relp i) g0)) ->
  Forall P (rel_loop uninit_rela cast body ecount relp grel).
Proof.
  intros H. unfold rel_loop. apply List.Forall_forall. intros g Hg.
  apply in_map_iff in Hg. destruct Hg as [i [<- _]]. apply H.
Qed.

Lemma info32_split (cw : copy_word) (s : list byte) :
  (length s <= 4)%nat ->
  let info := ASNAR WORDS_BIGENDIAN (copy_fn cw) s in
  info = 256 * Z.shiftr info 8 + Z.land info 255
  /\ 0 <= Z.land info 255 < 256
  /\ 0 <= Z.shiftr info 8 < 16777216.
Proof.
  intros Hs info.
  pose proof (ASNAR_width cw s 4 Hs ltac:(lia)) as B.
  change (256 ^ Z.of_nat 4) with 4294967296 in B. fold info in B.
  rewrite Z.shiftr_div_pow2 by lia.
  change 255 with (Z.ones 8). rewrite Z.land_ones by lia.
  change (2 ^ 8) with 256.
  pose proof (Z.div_mod info 256 ltac:(lia)).
  pose proof (Z.mod_pos_bound info 256 ltac:(lia)).
  assert (0 <= info / 256 < 16777216)
    by (split; [apply Z.div_pos; lia | apply Z.div_lt_upper_bound; lia]).
  repeat split; lia.
Qed.

(** X7: every record delivered by the two 32-bit relocation decoders
    splits [gr_info] into the symbol index (above 8 bits) and the type
    (the low 8 bits), so info = 256 * sym + type with the type below
    256 and the symbol index below 2^24; a RELA record is flagged as
    such, a REL record is not and has the addend 0. *)
Theorem rel32_records_split (gsh : generic_shdr) (relp : list byte)
  (grel out : list generic_rela) (w w' : world) :
  (generic_rel_from_rela32 WORDS_BIGENDIAN SIGN_EXTEND uninit_rela
     gsh relp grel w = (DW_DLV_OK, out, w') ->
   Forall (rel32_fields_ok true) out)
  /\ (generic_rel_from_rel32 WORDS_BIGENDIAN uninit_rela
        gsh relp grel w = (DW_DLV_OK, out, w') ->
      Forall (rel32_fields_ok false) out).
Proof.
  clear DW_OBJECT_LSB RRMOA ign struct_sizes_agree uninit_byte uninit_word.
  split.
  - unfold generic_rel_from_rela32.
    destruct (gh_size gsh
              =? u64 (gh_size gsh / sizeof_dw_elf32_rela
                      * sizeof_dw_elf32_rela)); simpl;
      intros H; inversion H; subst; clear H.
    apply rel_loop_Forall. intros i g0.
    unfold rel32_fields_ok, rela32_body. simpl.
    destruct (info32_split (f_copy_word (w_ep w'))
                (r_info (cast_dw_elf32_rela relp i))
                ltac:(apply sub_bytes_length)) as (H1 & H2 & H3).
    pose proof (ASNAR_width (f_copy_word (w_ep w'))
                  (r_offset (cast_dw_elf32_rela relp i)) 4
                  ltac:(apply sub_bytes_length) ltac:(lia)) as H4.
    repeat split; try tauto; try lia; try discriminate; apply H4.
  - unfold generic_rel_from_rel32.
    destruct (gh_size gsh
              =? u64 (gh_size gsh / sizeof_dw_elf32_rel
                      * sizeof_dw_elf32_rel)); simpl;
      intros H; inversion H; subst; clear H.
    apply rel_loop_Forall. intros i g0.
    unfold rel32_fields_ok, rel32_body. simpl.
    destruct (info32_split (f_copy_word (w_ep w'))
                (r_info (cast_dw_elf32_rel relp i))
                ltac:(apply sub_bytes_length)) as (H1 & H2 & H3).
    pose proof (ASNAR_width (f_copy_word (w_ep w'))
                  (r_offset (cast_dw_elf32_rel relp i)) 4
                  ltac:(apply sub_bytes_length) ltac:(lia)) as H4.
    repeat split; try tauto; try lia; apply H4.
Qed.

Lemma sub_bytes_eight (buf : list byte) (off : nat) :
  (off + 8 <= length buf)%nat ->
  exists b0 b1 b2 b3 b4 b5 b6 b7 : byte,
    sub_bytes buf off 8 = [b0; b1; b2; b3; b4; b5; b6; b7].
Proof.
  intros H.
  assert (Hl : length (sub_bytes buf off 8) = 8%nat)
    by (unfold sub_bytes; rewrite length_take, length_drop; lia).
  destruct (sub_bytes buf off 8)
    as [|b0 [|b1 [|b2 [|b3 [|b4 [|b5 [|b6 [|b7 [|b8 l]]]]]]]]];
    simpl in Hl; try lia.
  exists b0, b1, b2, b3, b4, b5, b6, b7. reflexivity.
Qed.

Lemma mips64el_split (b0 b1 b2 b3 b4 b5 b6 b7 : byte) :
  let s := [b0; b1; b2; b3; b4; b5; b6; b7] in
  let info := le_decode s in
  le_decode (take 4 s) = info mod 2 ^ 32
  /\ byte_at s 5 = (info / 2 ^ 40) mod 256
  /\ byte_at s 6 = (info / 2 ^ 48) mod 256
  /\ byte_at s 7 = info / 2 ^ 56.
Proof.
  intros s info. subst s info. unfold byte_at. simpl.
  pose proof (byte_val_bound b0). pose proof (byte_val_bound b1).
  pose proof (byte_val_bound b2). pose proof (byte_val_bound b3).
  pose proof (byte_val_bound b4). pose proof (byte_val_bound b5).
  pose proof (byte_val_bound b6). pose proof (byte_val_bound b7).
  set (x0 := byte_val b0) in *. set (x1 := byte_val b1) in *.
  set (x2 := byte_val b2) in *. set (x3 := byte_val b3) in *.
  set (x4 := byte_val b4) in *. set (x5 := byte_val b5) in *.
  set (x6 := byte_val b6) in *. set (x7 := byte_val b7) in *.
  change (2 ^ 32) with 4294967296. change (2 ^ 40) with 1099511627776.
  change (2 ^ 48) with 281474976710656.
  change (2 ^ 56) with 72057594037927936.
  repeat split.
  - apply (Z.mod_unique_pos _ _ (x4 + 256 * (x5 + 256 * (x6 + 256 * x7))));
      lia.
  - rewrite <- (Z.div_unique_pos _ 1099511627776
                  (x5 + 256 * (x6 + 256 * x7))
                  (x0 + 256 * (x1 + 256 * (x2 + 256 * (x3 + 256 * x4)))))
      by lia.
    apply (Z.mod_unique_pos _ _ (x6 + 256 * x7)); lia.
  - rewrite <- (Z.div_unique_pos _ 281474976710656 (x6 + 256 * x7)
                  (x0 + 256 * (x1 + 256 * (x2 + 256 * (x3 + 256
                     * (x4 + 256 * x5))))))
      by lia.
    apply (Z.mod_unique_pos _ _ x7); lia.
  - apply (Z.div_unique_pos _ 72057594037927936 x7
             (x0 + 256 * (x1 + 256 * (x2 + 256 * (x3 + 256
                * (x4 + 256 * (x5 + 256 * x6)))))));
      lia.
Qed.

Lemma mips64el_body_fields (s : list byte) :
  WORDS_BIGENDIAN = false ->
  (exists b0 b1 b2 b3 b4 b5 b6 b7 : byte,
      s = [b0; b1; b2; b3; b4; b5; b6; b7]) ->
  ASNAR WORDS_BIGENDIAN memcpy s = le_decode s
  /\ ASNAR WORDS_BIGENDIAN memcpy (take 4 s)
     = ASNAR WORDS_BIGENDIAN memcpy s mod 2 ^ 32
  /\ byte_at s 5 = (ASNAR WORDS_BIGENDIAN memcpy s / 2 ^ 40) mod 256
  /\ byte_at s 6 = (ASNAR WORDS_BIGENDIAN memcpy s / 2 ^ 48) mod 256
  /\ byte_at s 7 = ASNAR WORDS_BIGENDIAN memcpy s / 2 ^ 56.
Proof.
  clear. intros Hwb (b0 & b1 & b2 & b3 & b4 & b5 & b6 & b7 & ->).
  rewrite !ASNAR_host_order by (try reflexivity; simpl; lia).
  rewrite Hwb. unfold memcpy. split; [reflexivity|].
  apply mips64el_split.
Qed.

(** X8: on a little-endian host reading a little-endian MIPS64 object
    with plain copies, the decoders deliver, for every index below
    the record count whose record lies wholly in the buffer, a record
    whose [gr_info] is the little-endian value of the eight [r_info]
    bytes of that record of the file, whose symbol index is the low
    32 bits of [gr_info], and whose three types are its bytes 5, 6
    and 7 converted from the character type to the unsigned type of
    the field: type3 from (info / 2^40) mod 256, type2 from
    (info / 2^48) mod 256, type from info / 2^56, a byte of 0x80 or
    more becoming, where the character type is signed, the byte plus
    2^64 - 256 in the 64 bits of [gr_type], and the byte plus
    2^(8 * size) - 256 in a field of [size] bytes. *)
Theorem mips64el_r_info_fields (gsh : generic_shdr) (relp : list byte)
  (grel out : list generic_rela) (w w' : world) (i : nat) :
  WORDS_BIGENDIAN = false ->
  f_copy_word (w_ep w) = use_memcpy ->
  f_machine (w_ep w) = EM_MIPS ->
  f_endian (w_ep w) = DW_OBJECT_LSB ->
  1 <= sizeof_gr_type2 ->
  (generic_rel_from_rela64 WORDS_BIGENDIAN DW_OBJECT_LSB CHAR_IS_SIGNED sizeof_gr_type2 SIGN_EXTEND
     uninit_rela gsh relp grel w = (DW_DLV_OK, out, w') ->
   (i < Z.to_nat (gh_size gsh / sizeof_dw_elf64_rela))%nat ->
   (24 * i + 24 <= length relp)%nat ->
   exists g, out !! i = Some g
     /\ gr_info g = le_decode (sub_bytes relp (24 * i + 8) 8)
     /\ mips64el_fields CHAR_IS_SIGNED sizeof_gr_type2 g)
  /\ (generic_rel_from_rel64 WORDS_BIGENDIAN DW_OBJECT_LSB CHAR_IS_SIGNED sizeof_gr_type2 uninit_rela
        gsh relp grel w = (DW_DLV_OK, out, w') ->
      (i < Z.to_nat (gh_size gsh / sizeof_dw_elf64_rel))%nat ->
      (16 * i + 16 <= length relp)%nat ->
      exists g, out !! i = Some g
        /\ gr_info g = le_decode (sub_bytes relp (16 * i + 8) 8)
        /\ mips64el_fields CHAR_IS_SIGNED sizeof_gr_type2 g).
Proof.
  intros Hwb Hcw Hm He Hsize. split.
  - unfold generic_rel_from_rela64.
    destruct (gh_size gsh
              =? u64 (gh_size gsh / sizeof_dw_elf64_rela
                      * sizeof_dw_elf64_rela)); simpl;
      intros H Hi Hlen; [|discriminate H];
      injection H as Hout Hw; subst out.
    eexists. split; [apply rel_loop_at; exact Hi|].
    unfold mips64el_fields, rela64_body.
    rewrite Hm, He, !Z.eqb_refl, Hcw. simpl andb. cbv iota.
    cbn [gr_sym gr_info gr_type gr_type2 gr_type3 copy_fn].
    rewrite !char_at_widened
      by (exact Hsize || (vm_compute; discriminate)).
    change (r_info (cast_dw_elf64_rela relp i))
      with (sub_bytes relp (24 * i + 8) 8).
    destruct (mips64el_body_fields (sub_bytes relp (24 * i + 8) 8) Hwb)
      as (H0 & H1 & H2 & H3 & H4); [apply sub_bytes_eight; lia|].
    rewrite <- H2, <- H3, <- H4. auto.
  - unfold generic_rel_from_rel64.
    destruct (gh_size gsh
              =? u64 (gh_size gsh / sizeof_dw_elf64_rel
                      * sizeof_dw_elf64_rel)); simpl;
      intros H Hi Hlen; [|discriminate H];
      injection H as Hout Hw; subst out.
    eexists. split; [apply rel_loop_at; exact Hi|].
    unfold mips64el_fields, rel64_body.
    rewrite Hm, He, !Z.eqb_refl, Hcw. simpl andb. cbv iota.
    cbn [gr_sym gr_info gr_type gr_type2 gr_type3 copy_fn].
    rewrite !char_at_widened
      by (exact Hsize || (vm_compute; discriminate)).
    change (r_info (cast_dw_elf64_rel relp i))
      with (sub_bytes relp (16 * i + 8) 8).
    destruct (mips64el_body_fields (sub_bytes relp (16 * i + 8) 8) Hwb)
      as (H0 & H1 & H2 & H3 & H4); [apply sub_bytes_eight; lia|].
    rewrite <- H2, <- H3, <- H4. auto.
Qed.

(** ** Loading the relocations of one section *)

Lemma generic_rel_from_shape (localoffsize : RelocOffsetSize)
  (localrela : RelocRela) (gsh : generic_shdr) (relp : list byte)
  (grel : list generic_rela) (w : world) res out w' :
  generic_rel_from WORDS_BIGENDIAN DW_OBJECT_LSB CHAR_IS_SIGNED sizeof_gr_type2 SIGN_EXTEND uninit_rela
    localoffsize localrela gsh relp grel w = (res, out, w') ->
  w_ep w' = w_ep w
  /\ (res = DW_DLV_OK -> Forall (rel_flag_ok localrela) out).
Proof.
  destruct localoffsize, localrela; simpl;
    cbv beta delta [generic_rel_from_rela32 generic_rel_from_rela64
                    generic_rel_from_rel32 generic_rel_from_rel64] zeta;
    (destruct (gh_size gsh =? _); simpl; intros H; injection H as <- <- <-;
     (split; [reflexivity|]); intros Hok; try discriminate Hok;
     apply rel_loop_Forall; intros i g0; unfold rel_flag_ok).
  - unfold rela32_body. simpl. split; [reflexivity | discriminate].
  - unfold rel32_body. simpl. split; reflexivity.
  - unfold rela64_body.
    destruct (_ && _); [|destruct (_ =? _)]; simpl;
      (split; [reflexivity | discriminate]).
  - unfold rel64_body.
    destruct (_ && _); [|destruct (_ =? _)]; simpl; split; reflexivity.
Qed.

Lemma batch_frame (gsh : generic_shdr) (localrela : RelocRela)
  (localoffsize : RelocOffsetSize) (w : world) res gsh' out w' :
  _dwarf_elf_load_a_relx_batch WORDS_BIGENDIAN DW_OBJECT_LSB CHAR_IS_SIGNED sizeof_gr_type2 SIGN_EXTEND
    RRMOA uninit_rela gsh localrela localoffsize w = (res, gsh', out, w') ->
  w_ep w' = w_ep w
  /\ (res <> DW_DLV_OK -> out = None)
  /\ (res = DW_DLV_OK ->
      exists grel count,
        out = Some (grel, count)
        /\ gsh' = set_gh_rels (Some grel) (set_gh_relcount count gsh)
        /\ Forall (rel_flag_ok localrela) grel).
Proof.
  unfold _dwarf_elf_load_a_relx_batch.
  destruct (gh_size gsh =? 0);
    [intros H; injection H as <- <- <- <-; frame_cases|].
  destruct (_ || _);
    [intros H; injection H as <- <- <- <-; frame_cases|].
  destruct (negb _); simpl;
    [intros H; injection H as <- <- <- <-; frame_cases|].
  destruct (malloc w) as [p1 w1] eqn:M1.
  destruct (malloc_world _ _ _ M1) as (E1 & _).
  destruct p1; simpl;
    [|intros H; injection H as <- <- <- <-; frame_cases].
  destruct (malloc w1) as [p2 w2] eqn:M2.
  destruct (malloc_world _ _ _ M2) as (E2 & _).
  destruct p2; simpl;
    [|intros H; injection H as <- <- <- <-; frame_cases].
  destruct (do_RRMOA RRMOA _ _ w2) as [rd w3] eqn:D.
  destruct (do_RRMOA_world _ _ _ _ _ D) as (E3 & _).
  destruct rd;
    [| intros H; injection H as <- <- <- <-; frame_cases
     | intros H; injection H as <- <- <- <-; frame_cases].
  destruct (generic_rel_from _ _ _ _ _ _ _ _ _ _ _ _) as [[res1 grel1] w4]
    eqn:Hdec.
  destruct (generic_rel_from_shape _ _ _ _ _ _ _ _ _ Hdec) as [E4 Hf].
  destruct res1; intros H; injection H as <- <- <- <-;
    (split; [congruence|]); (split; [intros; congruence|]);
    intros Hok; try discriminate Hok.
  eexists _, _. split; [reflexivity|]. split; [reflexivity|].
  apply Hf. reflexivity.
Qed.

Lemma set_rels_twice (grel : list generic_rela) (count : Z)
  (gsh : generic_shdr) :
  set_gh_relcount count
    (set_gh_rels (Some grel)
       (set_gh_rels (Some grel) (set_gh_relcount count gsh)))
  = set_gh_relcount count (set_gh_rels (Some grel) gsh).
Proof. reflexivity. Qed.

(** X9: [_dwarf_load_elf_relx] changes the record only when it returns
    OK after loading records, and then only the section it was called
    for, whose [gh_rels] and [gh_relcount] become the records and their
    number; every record carries the flag the caller asked for
    ([gr_is_rela] for RelocIsRela), and a record loaded as plain REL
    has the addend 0. *)
Theorem relx_changes_one_section (secnum : Z) (localr : RelocRela)
  (w w' : world) (r : status) (gshdr : generic_shdr) :
  f_shdr (w_ep w) !! Z.to_nat secnum = Some gshdr ->
  is_u64 (gh_size gshdr) ->
  _dwarf_load_elf_relx WORDS_BIGENDIAN DW_OBJECT_LSB CHAR_IS_SIGNED sizeof_gr_type2 SIGN_EXTEND RRMOA
    uninit_rela secnum localr w = Some (r, w') ->
  (r <> DW_DLV_OK -> w_ep w' = w_ep w)
  /\ (r = DW_DLV_OK ->
      w_ep w' = w_ep w
      \/ exists grel : list generic_rela,
          w_ep w'
          = set_f_shdr
              (<[Z.to_nat secnum :=
                   set_gh_relcount (Z.of_nat (length grel))
                     (set_gh_rels (Some grel) gshdr)]> (f_shdr (w_ep w)))
              (w_ep w)
          /\ Forall (rel_flag_ok localr) grel).
Proof.
  intros Hl Hs. unfold _dwarf_load_elf_relx. rewrite Hl. simpl.
  destruct (secnum >=? g_count (f_loc_shdr (w_ep w)));
    [intros H; injection H as <- <-; frame_cases|].
  destruct (is_empty_section (gh_type gshdr));
    [intros H; injection H as <- <-; frame_cases|].
  assert (Hrel : forall res oksec w1,
             this_rel_is_a_section_dwarf_related gshdr w
             = Some (res, oksec, w1) -> w_ep w1 = w_ep w).
  { unfold this_rel_is_a_section_dwarf_related. intros res oksec w1.
    destruct (_ && _); [intros H; injection H as <- <- <-; reflexivity|].
    destruct (_ >=? _); [intros H; injection H as <- <- <-; reflexivity|].
    destruct (f_shdr (w_ep w)
                !! Z.to_nat (u32 (gh_reloc_target_secnum gshdr)))
      as [gstarg|]; simpl; [|discriminate].
    destruct (negb _); intros H; injection H as <- <- <-; reflexivity. }
  destruct (this_rel_is_a_section_dwarf_related gshdr w)
    as [[[res oksec] w1]|] eqn:Hthis; simpl; [|discriminate].
  specialize (Hrel _ _ _ eq_refl).
  assert (Hgo : forall lo : RelocOffsetSize,
             (let '(res0, gshdr0, out, w0) :=
                _dwarf_elf_load_a_relx_batch WORDS_BIGENDIAN DW_OBJECT_LSB CHAR_IS_SIGNED sizeof_gr_type2
                  SIGN_EXTEND RRMOA uninit_rela gshdr localr lo w1 in
              match res0, out with
              | DW_DLV_ERROR, _ => Some (res0, w0)
              | DW_DLV_NO_ENTRY, _ => Some (res0, w0)
              | DW_DLV_OK, Some (grp, count_read) =>
                  Some (DW_DLV_OK,
                        upd_ep (fun ep =>
                          set_f_shdr
                            (<[Z.to_nat secnum :=
                                 set_gh_relcount count_read
                                   (set_gh_rels (Some grp) gshdr0)]>
                               (f_shdr ep)) ep) w0)
              | DW_DLV_OK, None => Some (DW_DLV_OK, w0)
              end) = Some (r, w') ->
             (r <> DW_DLV_OK -> w_ep w' = w_ep w)
             /\ (r = DW_DLV_OK ->
                 w_ep w' = w_ep w
                 \/ exists grel : list generic_rela,
                     w_ep w'
                     = set_f_shdr
                         (<[Z.to_nat secnum :=
                              set_gh_relcount (Z.of_nat (length grel))
                                (set_gh_rels (Some grel) gshdr)]>
                            (f_shdr (w_ep w)))
                         (w_ep w)
                     /\ Forall (rel_flag_ok localr) grel)).
  { intros lo.
    destruct (_dwarf_elf_load_a_relx_batch _ _ _ _ _ _ _ gshdr localr lo w1)
      as [[[res0 gshdr0] out] w0] eqn:Hb.
    destruct (batch_frame _ _ _ _ _ _ _ _ Hb) as (E0 & Hn & Hok).
    destruct res0.
    - destruct (Hok eq_refl) as (grel & count & -> & -> & Hf).
      destruct (batch_success _ _ _ _ _ _ _ _ Hs Hb eq_refl)
        as (_ & grel2 & Hout & Hlen & _).
      injection Hout as <- ->.
      intros H; injection H as <- <-.
      split; [intros X; contradiction|]. intros _. right.
      exists grel. split; [|exact Hf].
      unfold upd_ep. simpl. rewrite E0, Hrel, set_rels_twice, Hlen.
      reflexivity.
    - intros H; injection H as <- <-.
      split; [intros _; congruence | discriminate].
    - intros H; injection H as <- <-.
      split; [intros _; congruence | discriminate]. }
  destruct res.
  - destruct (oksec =? 0);
      [intros H; injection H as <- <-;
       split; [intros X; contradiction | intros _; left; exact Hrel]|].
    destruct (f_offsetsize (w_ep w) =? 64); [apply Hgo|].
    destruct (f_offsetsize (w_ep w) =? 32); [apply Hgo|].
    intros H; injection H as <- <-.
    split; [intros _; exact Hrel | discriminate].
  - destruct (oksec =? 0);
      [intros H; injection H as <- <-;
       split; [intros X; contradiction | intros _; left; exact Hrel]|].
    destruct (f_offsetsize (w_ep w) =? 64); [apply Hgo|].
    destruct (f_offsetsize (w_ep w) =? 32); [apply Hgo|].
    intros H; injection H as <- <-.
    split; [intros _; exact Hrel | discriminate].
  - intros H; injection H as <- <-.
    split; [intros _; exact Hrel | discriminate].
Qed.

(** X10: when the section count of the record does not exceed the length
    of the section table, [_dwarf_load_elf_relx] stays inside the
    table for every section number: it always returns a status. *)
Theorem relx_stays_in_table (secnum : Z) (localr : RelocRela) (w : world) :
  0 <= secnum ->
  g_count (f_loc_shdr (w_ep w)) <= Z.of_nat (length (f_shdr (w_ep w))) ->
  exists (r : status) (w' : world),
    _dwarf_load_elf_relx WORDS_BIGENDIAN DW_OBJECT_LSB CHAR_IS_SIGNED sizeof_gr_type2 SIGN_EXTEND RRMOA
      uninit_rela secnum localr w = Some (r, w').
Proof.
  intros Hn Hc. unfold _dwarf_load_elf_relx.
  destruct (Z.geb_spec secnum (g_count (f_loc_shdr (w_ep w))));
    [eexists _, _; reflexivity|].
  destruct (lookup_lt_is_Some_2 (f_shdr (w_ep w)) (Z.to_nat secnum)
              ltac:(lia)) as [gshdr Hl].
  rewrite Hl. simpl.
  destruct (is_empty_section (gh_type gshdr));
    [eexists _, _; reflexivity|].
  unfold this_rel_is_a_section_dwarf_related.
  destruct (_ && _); simpl.
  { eexists _, _; reflexivity. }
  assert (Hu : 0 <= u32 (gh_reloc_target_secnum gshdr))
    by (apply Z.mod_pos_bound; reflexivity).
  destruct (Z.geb_spec (u32 (gh_reloc_target_secnum gshdr))
              (g_count (f_loc_shdr (w_ep w)))); simpl;
    [eexists _, _; reflexivity|].
  destruct (lookup_lt_is_Some_2 (f_shdr (w_ep w))
              (Z.to_nat (u32 (gh_reloc_target_secnum gshdr)))
              ltac:(lia)) as [gstarg Ht].
  rewrite Ht. simpl.
  destruct (negb (gh_is_dwarf gstarg)); simpl;
    [eexists _, _; reflexivity|].
  destruct (u32 (gh_reloc_target_secnum gshdr) =? 0);
    [eexists _, _; reflexivity|].
  destruct (f_offsetsize (w_ep w) =? 64);
    [|destruct (f_offsetsize (w_ep w) =? 32);
      [|eexists _, _; reflexivity]];
    (destruct (_dwarf_elf_load_a_relx_batch _ _ _ _ _ _ _ gshdr localr _ w)
       as [[[res0 gshdr0] out] w0];
     destruct res0; [destruct out as [[grp cnt]|]| |];
     eexists _, _; reflexivity).
Qed.

(** ** The strings of the section names *)

Lemma sectstrings_post (stringsection : Z) (w w' : world)
  (r : status) (psh : generic_shdr) :
  shstrings_consistent (w_ep w) ->
  f_shdr (w_ep w) !! Z.to_nat stringsection = Some psh ->
  0 <= gh_size psh ->
  _dwarf_elf_load_sectstrings RRMOA uninit_byte stringsection w
  = Some (r, w') ->
  shstrings_consistent (w_ep w')
  /\ (r = DW_DLV_OK -> f_elf_shstrings_length (w_ep w') = gh_size psh)
  /\ (r <> DW_DLV_OK ->
      (w_reads w' = w_reads w /\ f_elf_shstrings_length (w_ep w') = 0)
      \/ (w_reads w'
          = (w_reads w ++ [(gh_offset psh, gh_size psh)])%list
          /\ f_elf_shstrings_length (w_ep w') = gh_size psh)).
Proof.
  intros [[Hl0 Hlm] Hbuf] Hlook Hsz Hrun.
  unfold _dwarf_elf_load_sectstrings in Hrun. simpl in Hrun.
  destruct (f_ehdr (w_ep w)) as [ehdr|]; simpl in Hrun; [|discriminate].
  assert (Hmax : 0 <= f_elf_shstrings_max (w_ep w)) by lia.
  assert (Hguard : forall c,
             shstrings_consistent
               (w_ep (set_err c (upd_ep (set_f_elf_shstrings_length 0) w)))
             /\ (DW_DLV_ERROR = DW_DLV_OK ->
                 f_elf_shstrings_length
                   (w_ep (set_err c
                            (upd_ep (set_f_elf_shstrings_length 0) w)))
                 = gh_size psh)
             /\ (DW_DLV_ERROR <> DW_DLV_OK ->
                 (w_reads (set_err c
                             (upd_ep (set_f_elf_shstrings_length 0) w))
                  = w_reads w
                  /\ f_elf_shstrings_length
                       (w_ep (set_err c
                                (upd_ep (set_f_elf_shstrings_length 0) w)))
                     = 0)
                 \/ (w_reads (set_err c
                                (upd_ep (set_f_elf_shstrings_length 0) w))
                     = (w_reads w ++ [(gh_offset psh, gh_size psh)])%list
                     /\ f_elf_shstrings_length
                          (w_ep (set_err c
                                   (upd_ep (set_f_elf_shstrings_length 0)
                                      w)))
                        = gh_size psh))).
  { intros c. split; [|split].
    - unfold shstrings_consistent. simpl. split; [lia | exact Hbuf].
    - discriminate.
    - intros _. left. split; reflexivity. }
  destruct (stringsection >=? ge_shnum ehdr);
    [injection Hrun as <- <-; apply Hguard|].
  rewrite Hlook in Hrun. simpl in Hrun.
  destruct (is_empty_section (gh_type psh));
    [injection Hrun as <- <-; apply Hguard|].
  destruct (_ || _); [injection Hrun as <- <-; apply Hguard|].
  clear Hguard.
  destruct (Z.gtb_spec (gh_size psh) (f_elf_shstrings_max (w_ep w)))
    as [Hgrow|Hfit].
  - destruct (malloc (upd_ep (set_f_elf_shstrings_length 0) w))
      as [p w1] eqn:M.
    destruct (malloc_world _ _ _ M) as (E1 & R1 & _).
    simpl in E1, R1. destruct p; simpl in Hrun.
    + destruct (do_RRMOA RRMOA _ _ _) as [rd w2] eqn:D in Hrun.
      destruct (do_RRMOA_world _ _ _ _ _ D) as (E2 & R2 & _).
      simpl in E2, R2.
      destruct rd.
      * rewrite E2 in Hrun. simpl in Hrun. injection Hrun as <- <-.
        unfold shstrings_consistent. simpl. rewrite E2. simpl.
        split; [|split; [reflexivity | intros X; contradiction]].
        split; [lia|].
        rewrite length_app, drop_replicate, length_replicate.
        unfold bytes_of. rewrite length_map, length_seq. lia.
      * injection Hrun as <- <-.
        unfold shstrings_consistent. rewrite E2. simpl.
        split; [|split; [discriminate|]].
        -- split; [lia|]. rewrite length_replicate. lia.
        -- intros _. right. rewrite R2, R1. split; reflexivity.
      * injection Hrun as <- <-.
        unfold shstrings_consistent. rewrite E2. simpl.
        split; [|split; [discriminate|]].
        -- split; [lia|]. rewrite length_replicate. lia.
        -- intros _. right. rewrite R2, R1. split; reflexivity.
    + injection Hrun as <- <-.
      unfold shstrings_consistent. simpl. rewrite E1. simpl.
      split; [|split; [discriminate|]].
      * split; [lia | reflexivity].
      * intros _. left. rewrite R1. split; reflexivity.
  - simpl in Hrun.
    destruct (do_RRMOA RRMOA _ _ _) as [rd w2] eqn:D in Hrun.
    destruct (do_RRMOA_world _ _ _ _ _ D) as (E2 & R2 & _).
    simpl in E2, R2.
    destruct rd.
    + rewrite E2 in Hrun. simpl in Hrun.
      destruct (f_elf_shstrings_data (w_ep w)) as [buf|] eqn:Hd.
      * injection Hrun as <- <-.
        unfold shstrings_consistent. simpl. rewrite E2. simpl.
        split; [|split; [reflexivity | intros X; contradiction]].
        split; [lia|].
        rewrite length_app, length_drop.
        unfold bytes_of. rewrite length_map, length_seq. lia.
      * destruct (Z.eqb_spec (gh_size psh) 0) as [Hz|Hz];
          [|discriminate].
        injection Hrun as <- <-.
        unfold shstrings_consistent. rewrite E2. simpl. rewrite Hd.
        split; [|split; [reflexivity | intros X; contradiction]].
        split; [lia | exact Hbuf].
    + injection Hrun as <- <-.
      unfold shstrings_consistent. rewrite E2. simpl.
      split; [|split; [discriminate|]].
      * split; [lia | exact Hbuf].
      * intros _. right. rewrite R2. split; reflexivity.
    + injection Hrun as <- <-.
      unfold shstrings_consistent. rewrite E2. simpl.
      split; [|split; [discriminate|]].
      * split; [lia | exact Hbuf].
      * intros _. right. rewrite R2. split; reflexivity.
Qed.

(** X11: [_dwarf_elf_load_sectstrings] keeps the length in use within
    the buffer of the section-name strings.  On OK the length is the
    size of the string section.  On another status either no read was
    issued and the length is 0, or the read failed and the length
    stays at the size of the section although nothing was loaded. *)
Theorem sectstrings_keeps_buffer (stringsection : Z) (w w' : world)
  (r : status) (psh : generic_shdr) :
  shstrings_consistent (w_ep w) ->
  f_shdr (w_ep w) !! Z.to_nat stringsection = Some psh ->
  0 <= gh_size psh ->
  _dwarf_elf_load_sectstrings RRMOA uninit_byte stringsection w
  = Some (r, w') ->
  shstrings_consistent (w_ep w')
  /\ (r = DW_DLV_OK -> f_elf_shstrings_length (w_ep w') = gh_size psh)
  /\ (r <> DW_DLV_OK ->
      (w_reads w' = w_reads w /\ f_elf_shstrings_length (w_ep w') = 0)
      \/ (w_reads w'
          = (w_reads w ++ [(gh_offset psh, gh_size psh)])%list
          /\ f_elf_shstrings_length (w_ep w') = gh_size psh)).
Proof. apply sectstrings_post. Qed.

Lemma for_each_total {S : Type} (Inv : S -> Prop) (Q : status -> S -> Prop)
  (idx : list nat) (body : nat -> S -> option (status * S)) (s : S) :
  Inv s ->
  (forall i s0, In i idx -> Inv s0 ->
     exists r s1, body i s0 = Some (r, s1)
                  /\ (r = DW_DLV_OK -> Inv s1)
                  /\ (r <> DW_DLV_OK -> Q r s1)) ->
  (forall s0, Inv s0 -> Q DW_DLV_OK s0) ->
  exists r s', for_each idx body s = Some (r, s') /\ Q r s'.
Proof.
  intros Hs Hbody Hend. revert s Hs.
  induction idx as [|i idx IH]; intros s Hs; simpl.
  - exists DW_DLV_OK, s. split; [reflexivity | apply Hend; exact Hs].
  - destruct (Hbody i s (or_introl eq_refl) Hs) as (r & s1 & Hb & Hok & Hno).
    rewrite Hb. destruct r.
    + apply IH; [|apply Hok; reflexivity].
      intros j s0 Hj. apply Hbody. right. exact Hj.
    + exists DW_DLV_NO_ENTRY, s1. split; [reflexivity|].
      apply Hno. discriminate.
    + exists DW_DLV_ERROR, s1. split; [reflexivity|].
      apply Hno. discriminate.
Qed.

Lemma names_erased_set_section (v : string) (i : nat) (w : world) :
  names_erased (w_ep (set_section i (set_gh_namestring v) w))
  = names_erased (w_ep w).
Proof.
  assert (H : set_gh_namestring "" <$> alter (set_gh_namestring v) i
                                         (f_shdr (w_ep w))
              = set_gh_namestring "" <$> f_shdr (w_ep w)).
  { apply list_eq. intros k. rewrite !list_lookup_fmap.
    destruct (Nat.eq_dec k i) as [->|Hne].
    - rewrite list_lookup_alter_eq. destruct (f_shdr (w_ep w) !! i);
        reflexivity.
    - rewrite list_lookup_alter_ne by congruence. reflexivity. }
  unfold names_erased, set_section, upd_ep. simpl. rewrite H.
  reflexivity.
Qed.

(** What [_dwarf_elf_load_sect_namestring] does to a record whose
    strings are within their buffer. *)
Lemma names_stage (w : world) :
  shstrings_consistent (w_ep w) ->
  g_count (f_loc_shdr (w_ep w)) <= Z.of_nat (length (f_shdr (w_ep w))) ->
  (forall i sh, f_shdr (w_ep w) !! i = Some sh -> 0 <= gh_name sh) ->
  exists (r : status) (w' : world),
    _dwarf_elf_load_sect_namestring w = Some (r, w')
    /\ (r = DW_DLV_OK
        \/ (r = DW_DLV_ERROR
            /\ w_errcode w' = DW_DLE_SECTION_STRING_OFFSET_BAD))
    /\ names_erased (w_ep w') = names_erased (w_ep w)
    /\ w_reads w' = w_reads w.
Proof.
  intros Hc Hcount Hnames. unfold _dwarf_elf_load_sect_namestring.
  apply (for_each_total
           (fun s0 : world =>
              shstrings_consistent (w_ep s0)
              /\ length (f_shdr (w_ep s0)) = length (f_shdr (w_ep w))
              /\ Forall (fun sh => 0 <= gh_name sh) (f_shdr (w_ep s0))
              /\ names_erased (w_ep s0) = names_erased (w_ep w)
              /\ w_reads s0 = w_reads w)
           (fun r s1 =>
              (r = DW_DLV_OK
               \/ (r = DW_DLV_ERROR
                   /\ w_errcode s1 = DW_DLE_SECTION_STRING_OFFSET_BAD))
              /\ names_erased (w_ep s1) = names_erased (w_ep w)
              /\ w_reads s1 = w_reads w)).
  - split; [exact Hc|]. split; [reflexivity|].
    split; [apply Forall_lookup; exact Hnames|].
    split; reflexivity.
  - intros i s0 Hi (Hc0 & Hlen0 & Hn0 & Hne0 & Hr0).
    apply in_seq in Hi.
    destruct (lookup_lt_is_Some_2 (f_shdr (w_ep s0)) i ltac:(lia))
      as [gshdr Hl].
    unfold load_sect_namestring_body. rewrite Hl. simpl.
    assert (Hname : 0 <= gh_name gshdr)
      by (exact (proj1 (Forall_lookup _ _) Hn0 i gshdr Hl)).
    assert (Hkeep : forall v s2,
               w_ep s2 = w_ep s0 -> w_reads s2 = w_reads s0 ->
               shstrings_consistent
                 (w_ep (set_section i (set_gh_namestring v) s2))
               /\ length (f_shdr (w_ep (set_section i
                                          (set_gh_namestring v) s2)))
                  = length (f_shdr (w_ep w))
               /\ Forall (fun sh => 0 <= gh_name sh)
                    (f_shdr (w_ep (set_section i
                                     (set_gh_namestring v) s2)))
               /\ names_erased (w_ep (set_section i
                                        (set_gh_namestring v) s2))
                  = names_erased (w_ep w)
               /\ w_reads (set_section i (set_gh_namestring v) s2)
                  = w_reads w).
    { intros v s2 E R.
      split; [unfold set_section, upd_ep; simpl; rewrite E; exact Hc0|].
      split; [unfold set_section, upd_ep; simpl; rewrite E;
              rewrite length_alter; exact Hlen0|].
      split; [unfold set_section, upd_ep; simpl; rewrite E;
              apply Forall_alter; [exact Hn0|]; intros x _ Hx; exact Hx|].
      split; [rewrite names_erased_set_section, E; exact Hne0|].
      unfold set_section, upd_ep. simpl. congruence. }
    unfold validate_section_name_string.
    destruct (Z.leb_spec (f_elf_shstrings_length (w_ep s0)) (gh_name gshdr))
      as [Hle|Hgt]; simpl.
    { eexists _, _. split; [reflexivity|].
      split; [discriminate|]. intros _.
      split; [right; split; reflexivity|].
      apply (Hkeep invalid_sh_name (set_err _ s0)); reflexivity. }
    destruct Hc0 as [[Hc1 Hc2] Hc3].
    assert (Hin : (Z.to_nat (gh_name gshdr)
                   + Z.to_nat (f_elf_shstrings_length (w_ep s0)
                               - gh_name gshdr)
                   <= length (default [] (f_elf_shstrings_data (w_ep s0))))%nat).
    { destruct (f_elf_shstrings_data (w_ep s0)); simpl; lia. }
    destruct (name_scan_total _ _ _ Hin) as [found Hscan].
    rewrite Hscan. simpl. destruct found; simpl.
    + eexists _, _. split; [reflexivity|].
      split; [|intros X; contradiction]. intros _.
      apply (Hkeep _ s0); reflexivity.
    + eexists _, _. split; [reflexivity|].
      split; [discriminate|]. intros _.
      split; [right; split; reflexivity|].
      apply (Hkeep invalid_sh_name (set_err _ s0)); reflexivity.
  - intros s0 (_ & _ & _ & Hne0 & Hr0).
    split; [left; reflexivity | split; assumption].
Qed.

(** X12: when the length in use lies within the buffer of the
    section-name strings and the section count does not exceed the
    table, [_dwarf_elf_load_sect_namestring] reads neither past the
    buffer nor past the table: it returns OK, or ERROR with
    DW_DLE_SECTION_STRING_OFFSET_BAD. *)
Theorem names_stay_in_buffer (w : world) :
  shstrings_consistent (w_ep w) ->
  g_count (f_loc_shdr (w_ep w)) <= Z.of_nat (length (f_shdr (w_ep w))) ->
  (forall i sh, f_shdr (w_ep w) !! i = Some sh -> 0 <= gh_name sh) ->
  exists (r : status) (w' : world),
    _dwarf_elf_load_sect_namestring w = Some (r, w')
    /\ (r = DW_DLV_OK
        \/ (r = DW_DLV_ERROR
            /\ w_errcode w' = DW_DLE_SECTION_STRING_OFFSET_BAD)).
Proof.
  intros Hc Hn Hs.
  destruct (names_stage w Hc Hn Hs) as (r & w' & Hrun & Hr & _).
  exists r, w'. split; assumption.
Qed.

(** ** The strings of the symbol names *)

(** X13: after [_dwarf_load_elf_symstr] has returned OK, the buffer of
    symbol-name strings is one byte longer than the string section,
    begins with the bytes the reader delivered, and ends with a NUL
    byte; so every offset up to the size of the section finds a NUL at
    or after it inside the buffer.  The size and the index of the
    string section stay as they were. *)
Theorem symstr_loaded_terminated (w w' : world) :
  let max := f_symtab_sect_strings_max (w_ep w) in
  0 <= max ->
  max + 1 < two64 ->
  _dwarf_load_elf_symstr RRMOA w = Some (DW_DLV_OK, w') ->
  exists (buf : list byte) (strpsh : generic_shdr) (content : nat -> byte),
    f_symtab_sect_strings (w_ep w') = Some buf
    /\ Z.of_nat (length buf) = max + 1
    /\ f_shdr (w_ep w) !! Z.to_nat (f_symtab_sect_strings_sect_index (w_ep w))
       = Some strpsh
    /\ RRMOA (gh_offset strpsh) max (f_filesize (w_ep w)) = RdOk content
    /\ take (Z.to_nat max) buf = bytes_of content max
    /\ buf !! Z.to_nat max = Some "000"%byte
    /\ (forall idx, 0 <= idx <= max -> name_offset_ok (max + 1) idx buf)
    /\ f_symtab_sect_strings_max (w_ep w') = max
    /\ f_symtab_sect_strings_sect_index (w_ep w')
       = f_symtab_sect_strings_sect_index (w_ep w).
Proof.
  intros max Hmax Hwrap. unfold _dwarf_load_elf_symstr. fold max.
  destruct (f_symtab_sect_strings_sect_index (w_ep w) =? 0);
    [discriminate|].
  destruct (max >? f_filesize (w_ep w)); [discriminate|].
  destruct (f_shdr (w_ep w)
              !! Z.to_nat (f_symtab_sect_strings_sect_index (w_ep w)))
    as [strpsh|]; simpl; [|discriminate].
  destruct (_ || _); [discriminate|].
  destruct (malloc w) as [p w1] eqn:M.
  destruct (malloc_world _ _ _ M) as (E1 & _).
  destruct p; simpl; [|discriminate].
  destruct (do_RRMOA RRMOA _ _ _) as [rd w2] eqn:D.
  destruct (do_RRMOA_world _ _ _ _ _ D) as (E2 & _ & Hrd).
  simpl in E2, Hrd. rewrite E1 in E2, Hrd. simpl in Hrd.
  destruct rd; [|discriminate|discriminate].
  intros H. injection H as <-.
  rewrite (u64_id (max + 1)) by (unfold is_u64; lia).
  set (buf := (bytes_of content max
                 ++ drop (Z.to_nat max)
                      (replicate (Z.to_nat (max + 1)) "000"%byte))%list).
  assert (Hb : length (bytes_of content max) = Z.to_nat max)
    by (unfold bytes_of; rewrite length_map, length_seq; reflexivity).
  assert (Hlast : buf !! Z.to_nat max = Some "000"%byte).
  { unfold buf. rewrite lookup_app_r by lia.
    rewrite Hb, Nat.sub_diag, lookup_drop, Nat.add_0_r.
    apply lookup_replicate_2. lia. }
  exists buf, strpsh, content. simpl. rewrite E2. simpl.
  split; [reflexivity|]. split.
  { unfold buf. rewrite length_app, length_drop, length_replicate, Hb.
    lia. }
  split; [reflexivity|]. split; [symmetry; exact Hrd|]. split.
  { unfold buf. rewrite take_app_length' by (symmetry; exact Hb).
    reflexivity. }
  split; [exact Hlast|]. split; [|split; reflexivity].
  intros idx Hidx. unfold name_offset_ok. split; [lia|].
  exists (Z.to_nat max). split; [lia | exact Hlast].
Qed.

(** ** What the set-up of the section groups leaves alone *)

Lemma for_each_related {S : Type} (R : S -> S -> Prop) (idx : list nat)
  (body : nat -> S -> option (status * S)) (s : S) r s' :
  (forall x, R x x) ->
  (forall x y z, R x y -> R y z -> R x z) ->
  (forall i s0 r0 s1, In i idx -> body i s0 = Some (r0, s1) -> R s0 s1) ->
  for_each idx body s = Some (r, s') -> R s s'.
Proof.
  intros Hrefl Htrans. revert s.
  induction idx as [|i idx IH]; intros s Hbody; simpl.
  - intros H. injection H as <- <-. apply Hrefl.
  - destruct (body i s) as [[r0 s1]|] eqn:Hb; [|discriminate].
    pose proof (Hbody i s r0 s1 (or_introl eq_refl) Hb) as H1.
    destruct r0.
    + intros H. apply (Htrans _ s1); [exact H1|].
      apply IH; [|exact H].
      intros j s0 r1 s2 Hj. apply Hbody. right. exact Hj.
    + intros H. injection H as <- <-. exact H1.
    + intros H. injection H as <- <-. exact H1.
Qed.

Lemma fmap_alter_static (f : generic_shdr -> generic_shdr) (i : nat)
  (L : list generic_shdr) :
  (forall sh, section_static (f sh) = section_static sh) ->
  section_static <$> alter f i L = section_static <$> L.
Proof.
  intros Hf. apply list_eq. intros k. rewrite !list_lookup_fmap.
  destruct (Nat.eq_dec k i) as [->|Hne].
  - rewrite list_lookup_alter_eq. destruct (L !! i); simpl; [|reflexivity].
    rewrite Hf. reflexivity.
  - rewrite list_lookup_alter_ne by congruence. reflexivity.
Qed.

Lemma erased_set_section (f : generic_shdr -> generic_shdr) (i : nat)
  (w : world) :
  (forall sh, section_static (f sh) = section_static sh) ->
  groups_erased (w_ep (set_section i f w)) = groups_erased (w_ep w).
Proof.
  intros Hf. unfold groups_erased, set_section, upd_ep. simpl.
  rewrite fmap_alter_static by exact Hf. reflexivity.
Qed.

Lemma groups_frame_refl (w : world) : groups_frame w w.
Proof.
  split; [reflexivity|]. exists []. rewrite app_nil_r.
  split; [reflexivity | constructor].
Qed.

Lemma group_read_erased (ep ep' : dwarf_elf_object_access_internals_t)
  (rd : Z * Z) :
  groups_erased ep' = groups_erased ep -> group_read ep' rd ->
  group_read ep rd.
Proof.
  intros He (j & psh' & Hl & Hne & Hg & ->).
  assert (Hf : section_static <$> f_shdr ep' = section_static <$> f_shdr ep)
    by (exact (f_equal f_shdr He)).
  assert (Hj : (section_static <$> f_shdr ep) !! j
               = Some (section_static psh'))
    by (rewrite <- Hf, list_lookup_fmap, Hl; reflexivity).
  rewrite list_lookup_fmap in Hj.
  destruct (f_shdr ep !! j) as [psh|] eqn:Hl0; [|discriminate].
  simpl in Hj. injection Hj as _ Hn Ht _ Ho Hz _ _ _ _.
  exists j, psh. split; [exact Hl0|].
  rewrite Ht, Hn, Ho, Hz. auto.
Qed.

Lemma groups_frame_trans (w1 w2 w3 : world) :
  groups_frame w1 w2 -> groups_frame w2 w3 -> groups_frame w1 w3.
Proof.
  intros [E1 (l1 & R1 & F1)] [E2 (l2 & R2 & F2)].
  split; [congruence|]. exists (l1 ++ l2)%list.
  split; [rewrite R2, R1, app_assoc; reflexivity|].
  apply Forall_app. split; [exact F1|].
  eapply Forall_impl; [exact F2|].
  intros rd. apply group_read_erased. exact E1.
Qed.

(** A step that issues no read. *)
Lemma groups_frame_quiet (w w' : world) :
  groups_erased (w_ep w') = groups_erased (w_ep w) ->
  w_reads w' = w_reads w -> groups_frame w w'.
Proof.
  intros E R. split; [exact E|]. exists []. rewrite app_nil_r.
  split; [exact R | constructor].
Qed.

Lemma gs_assign_frame gseca ga fo w r ga' fo' w' :
  gs_assign gseca ga fo w = Some (r, (ga', fo', w')) ->
  groups_erased (w_ep w') = groups_erased (w_ep w)
  /\ w_reads w' = w_reads w.
Proof.
  unfold gs_assign.
  destruct (f_shdr (w_ep w) !! Z.to_nat gseca) as [targ|]; simpl;
    [|discriminate].
  destruct (negb _); intros H; injection H as <- <- <- <-.
  - split; reflexivity.
  - split; [|reflexivity]. apply erased_set_section. reflexivity.
Qed.

Lemma gs_entry_frame data i ga fo w r ga' fo' w' :
  gs_entry WORDS_BIGENDIAN data i (ga, fo, w) = Some (r, (ga', fo', w')) ->
  groups_erased (w_ep w') = groups_erased (w_ep w)
  /\ w_reads w' = w_reads w.
Proof.
  unfold gs_entry.
  destruct (_ =? 0); [intros H; injection H as <- <- <- <-; split; reflexivity|].
  destruct (_ >? _); [destruct (_ >? _)|];
    try (intros H; injection H as <- <- <- <-; split; reflexivity);
    apply gs_assign_frame.
Qed.

Lemma gs_payload_frame j count data w r w' :
  gs_payload WORDS_BIGENDIAN uninit_word j count data w = Some (r, w') ->
  groups_erased (w_ep w') = groups_erased (w_ep w)
  /\ w_reads w' = w_reads w.
Proof.
  unfold gs_payload.
  destruct (negb _ && negb _);
    [intros H; injection H as <- <-; split; reflexivity|].
  destruct (for_each _ _ _) as [[res [[ga fo] wi]]|] eqn:Hloop; simpl;
    [|discriminate].
  assert (Hl : groups_erased (w_ep wi) = groups_erased (w_ep w)
               /\ w_reads wi = w_reads w).
  { apply (for_each_related
             (fun st st' : gs_locals =>
                groups_erased (w_ep (snd st')) = groups_erased (w_ep (snd st))
                /\ w_reads (snd st') = w_reads (snd st))
             _ _ _ _ _) in Hloop; [exact Hloop| | |].
    - intros x. split; reflexivity.
    - intros x y z [A1 A2] [B1 B2]. split; congruence.
    - intros i [[ga0 fo0] w0] r0 [[ga1 fo1] w1] _ Hb.
      apply gs_entry_frame in Hb. exact Hb. }
  destruct Hl as [HE HR].
  destruct res; intros H; injection H as <- <-; try (split; assumption).
  split.
  - rewrite !erased_set_section by reflexivity.
    destruct fo; [|exact HE]. rewrite <- HE. reflexivity.
  - simpl. destruct fo; exact HR.
Qed.

Lemma read_gs_frame (j : nat) (w w' : world) (r : status)
  (psh : generic_shdr) :
  f_shdr (w_ep w) !! j = Some psh ->
  read_gs_section_group WORDS_BIGENDIAN RRMOA uninit_word j w
  = Some (r, w') ->
  groups_erased (w_ep w') = groups_erased (w_ep w)
  /\ (w_reads w' = w_reads w
      \/ w_reads w' = (w_reads w ++ [(gh_offset psh, gh_size psh)])%list).
Proof.
  intros Hl. unfold read_gs_section_group. rewrite Hl. simpl.
  destruct (gh_sht_group_array psh);
    [intros H; injection H as <- <-; auto|].
  destruct (_ <? _); [intros H; injection H as <- <-; auto|].
  destruct (malloc w) as [p1 w1] eqn:M1.
  destruct (malloc_world _ _ _ M1) as (E1 & R1 & _).
  destruct p1; simpl;
    [|intros H; injection H as <- <-; simpl; rewrite E1, R1; auto].
  destruct (negb _);
    [intros H; injection H as <- <-; simpl; rewrite E1, R1; auto|].
  destruct (_ =? 0);
    [intros H; injection H as <- <-; simpl; rewrite E1, R1; auto|].
  destruct (_ >? _);
    [intros H; injection H as <- <-; simpl; rewrite E1, R1; auto|].
  destruct (do_RRMOA RRMOA _ _ w1) as [rd w2] eqn:D.
  destruct (do_RRMOA_world _ _ _ _ _ D) as (E2 & R2 & _).
  rewrite E1 in E2. rewrite R1 in R2.
  destruct rd;
    [| intros H; injection H as <- <-; rewrite E2, R2; auto
     | intros H; injection H as <- <-; rewrite E2, R2; auto].
  destruct (malloc w2) as [p3 w3] eqn:M3.
  destruct (malloc_world _ _ _ M3) as (E3 & R3 & _).
  rewrite E2 in E3. rewrite R2 in R3.
  destruct p3; simpl;
    [|intros H; injection H as <- <-; simpl; rewrite E3, R3; auto].
  intros H. apply gs_payload_frame in H. destruct H as [HE HR].
  rewrite HE, HR, E3, R3. auto.
Qed.

Lemma setup_step_AB_frame (i : nat) (w w' : world) (r : status) :
  setup_step_AB WORDS_BIGENDIAN RRMOA uninit_word i w = Some (r, w') ->
  groups_frame w w'.
Proof.
  unfold setup_step_AB.
  destruct (f_shdr (w_ep w) !! i) as [psh|] eqn:Hl; simpl; [|discriminate].
  destruct (is_empty_section (gh_type psh)) eqn:Hne;
    [intros H; injection H as <- <-; apply groups_frame_refl|].
  destruct (elf_sht_groupsec (gh_type psh) (gh_namestring psh)) eqn:Hg;
    simpl.
  - intros H. destruct (read_gs_frame _ _ _ _ _ Hl H) as [HE [HR|HR]].
    + apply groups_frame_quiet; assumption.
    + split; [exact HE|]. eexists. split; [exact HR|].
      constructor; [|constructor].
      exists i, psh. auto.
  - destruct (elf_flagmatches _ _); intros H; injection H as <- <-;
      apply groups_frame_quiet; reflexivity.
Qed.

Lemma setup_step_C_frame (i : nat) (w w' : world) (r : status) :
  setup_step_C ign i w = Some (r, w') -> groups_frame w w'.
Proof.
  unfold setup_step_C.
  destruct (f_shdr (w_ep w) !! i) as [psh|]; simpl; [|discriminate].
  destruct (is_empty_section _);
    [intros H; injection H as <- <-; apply groups_frame_refl|].
  destruct (elf_sht_groupsec _ _);
    [intros H; injection H as <- <-; apply groups_frame_refl|].
  destruct (string_endswith _ _).
  - destruct (negb _); intros H; injection H as <- <-;
      apply groups_frame_quiet; try reflexivity.
    unfold upd_ep at 1. simpl.
    change (groups_erased
              (w_ep (set_section i
                       (set_gh_section_group_number DW_GROUPNUMBER_DWO)
                       (set_section i (set_gh_is_dwarf true) w)))
            = groups_erased (w_ep w)).
    rewrite !erased_set_section by reflexivity. reflexivity.
  - destruct (fst _); intros H; injection H as <- <-;
      apply groups_frame_quiet; try reflexivity.
    + rewrite erased_set_section by reflexivity.
      destruct (_ =? 0); [|reflexivity].
      apply erased_set_section. reflexivity.
    + destruct (_ =? 0); reflexivity.
Qed.

Lemma setup_frame (w w' : world) (r : status) :
  _dwarf_elf_setup_all_section_groups WORDS_BIGENDIAN ign RRMOA uninit_word
    w = Some (r, w') ->
  groups_erased (w_ep w') = groups_erased (w_ep w)
  /\ exists l : list (Z * Z),
      w_reads w' = (w_reads w ++ l)%list
      /\ Forall (group_read (w_ep w)) l.
Proof.
  unfold _dwarf_elf_setup_all_section_groups.
  destruct (for_each _ (setup_step_AB _ _ _) w) as [[res w1]|] eqn:HA;
    simpl; [|discriminate].
  assert (H1 : groups_frame w w1).
  { apply (for_each_related groups_frame _ _ _ _ _
             groups_frame_refl groups_frame_trans) in HA; [exact HA|].
    intros i s0 r0 s1 _. apply setup_step_AB_frame. }
  destruct res; try (intros H; injection H as <- <-; exact H1).
  intros HC.
  apply (for_each_related groups_frame _ _ _ _ _
           groups_frame_refl groups_frame_trans) in HC.
  - exact (groups_frame_trans _ _ _ H1 HC).
  - intros i s0 r0 s1 _. apply setup_step_C_frame.
Qed.

(** X14: whatever [_dwarf_elf_setup_all_section_groups] returns, it has
    changed nothing of the record but the group fields (in a section
    header the DWARF mark, the group number and the recorded payload;
    in the record the next group number and the three counters), and
    every read it has issued is the read of the payload of a section
    of the table that is not empty and is a group section by type or
    by name, at the offset and of the size its header gives. *)
Theorem setup_changes_group_fields_only (w w' : world) (r : status) :
  _dwarf_elf_setup_all_section_groups WORDS_BIGENDIAN ign RRMOA uninit_word
    w = Some (r, w') ->
  groups_erased (w_ep w') = groups_erased (w_ep w)
  /\ exists l : list (Z * Z),
      w_reads w' = (w_reads w ++ l)%list
      /\ Forall (group_read (w_ep w)) l.
Proof. apply setup_frame. Qed.

(** ** The payload of a group section, entry by entry *)

Lemma with_table_id (w : world) : with_table (f_shdr (w_ep w)) w = w.
Proof. clear. destruct w as [ep c r h]. destruct ep. reflexivity. Qed.

Lemma gs_selection_length count data k :
  length (gs_selection WORDS_BIGENDIAN count data k) = (k - 1)%nat.
Proof.
  clear. unfold gs_selection. rewrite length_map, length_seq. reflexivity.
Qed.

Lemma gs_selection_S count data k :
  (1 <= k)%nat ->
  gs_selection WORDS_BIGENDIAN count data (S k)
  = (gs_selection WORDS_BIGENDIAN count data k
       ++ [gs_selected WORDS_BIGENDIAN count data k])%list.
Proof.
  clear. intros Hk. unfold gs_selection.
  replace (S k - 1)%nat with (S (k - 1)) by lia.
  rewrite seq_S, map_app. simpl.
  replace (S (k - 1)) with k by lia. reflexivity.
Qed.

Lemma number_sections_snoc n sels s L :
  number_sections n (sels ++ [s]) L
  = alter (set_gh_section_group_number n) (Z.to_nat s)
      (number_sections n sels L).
Proof. clear. unfold number_sections. rewrite foldl_app. reflexivity. Qed.


(** The section [i] of the numbered table: the one of [L], with the
    number [n] when an entry selects it. *)
Lemma number_sections_lookup n sels L (i : nat) :
  number_sections n sels L !! i
  = (if selects sels i then set_gh_section_group_number n else id)
      <$> L !! i.
Proof.
  clear. revert L. induction sels as [|s sels IH]; intros L.
  - simpl. destruct (L !! i); reflexivity.
  - change (number_sections n (s :: sels) L)
      with (number_sections n sels
              (alter (set_gh_section_group_number n) (Z.to_nat s) L)).
    rewrite IH. unfold selects. simpl.
    destruct (Nat.eqb_spec (Z.to_nat s) i) as [->|Hne]; simpl.
    + rewrite list_lookup_alter_eq.
      destruct (L !! i); simpl;
        repeat match goal with
               | |- context [if ?c then _ else _] => destruct c
               end; reflexivity.
    + rewrite list_lookup_alter_ne by exact Hne. reflexivity.
Qed.

Lemma gs_array_at_S count data cnt k :
  (1 <= k < cnt)%nat ->
  <[k := gs_selected WORDS_BIGENDIAN count data k]>
    (gs_array_at WORDS_BIGENDIAN uninit_word count data cnt k)
  = gs_array_at WORDS_BIGENDIAN uninit_word count data cnt (S k).
Proof.
  clear. intros Hk. unfold gs_array_at.
  rewrite insert_app_r_alt
    by (simpl; rewrite gs_selection_length; lia).
  simpl length. rewrite gs_selection_length.
  replace (k - S (k - 1))%nat with 0%nat by lia.
  replace (cnt - k)%nat with (S (cnt - S k)) by lia.
  rewrite gs_selection_S by lia. simpl.
  rewrite <- app_assoc. reflexivity.
Qed.

(** The header of the section that entry [k] selects, as the entries
    before it have left it. *)
Lemma gs_target_number n count data L0 (k : nat) :
  let sel := Z.to_nat (gs_selected WORDS_BIGENDIAN count data k) in
  let sels := gs_selection WORDS_BIGENDIAN count data k in
  (forall targ,
      number_sections n sels L0 !! sel = Some targ ->
      exists t0, L0 !! sel = Some t0
                 /\ gh_section_group_number targ
                    = if selects sels sel then n
                      else gh_section_group_number t0)
  /\ (forall t0,
         L0 !! sel = Some t0 ->
         exists targ, number_sections n sels L0 !! sel = Some targ
                      /\ gh_section_group_number targ
                         = if selects sels sel then n
                           else gh_section_group_number t0).
Proof.
  clear. intros sel sels. split.
  - intros targ Ht. rewrite number_sections_lookup in Ht.
    destruct (L0 !! sel) as [t0|]; [|discriminate].
    simpl in Ht. injection Ht as <-. exists t0.
    split; [reflexivity|]. destruct (selects _ _); reflexivity.
  - intros t0 Ht. rewrite number_sections_lookup, Ht. simpl.
    eexists. split; [reflexivity|]. destruct (selects _ _); reflexivity.
Qed.

(** An entry that is accepted: it is not refused, and it leaves the
    state of the next entry. *)
Lemma gs_entry_state_ok (data : list byte) (cnt : nat)
  (L0 : list generic_shdr) (w0 : world) (k : nat) (st1 : gs_locals) :
  let n := f_sg_next_group_number (w_ep w0) in
  let count := g_count (f_loc_shdr (w_ep w0)) in
  let state k :=
    (gs_array_at WORDS_BIGENDIAN uninit_word count data cnt k,
     (1 <? k)%nat,
     with_table
       (number_sections n (gs_selection WORDS_BIGENDIAN count data k) L0)
       w0) in
  (1 <= k < cnt)%nat ->
  gs_entry WORDS_BIGENDIAN data k (state k) = Some (DW_DLV_OK, st1) ->
  st1 = state (S k)
  /\ ~ gs_refused WORDS_BIGENDIAN n count L0 data k.
Proof.
  clear RRMOA ign struct_sizes_agree uninit_rela uninit_byte SIGN_EXTEND.
  intros n count state Hk Hb. destruct st1 as [[ga1 fo1] w1].
  pose proof (gs_entry_ok _ _ _ _ _ _ _ _ Hb) as Hok.
  cbn zeta in Hok.
  change (g_count (f_loc_shdr (w_ep (with_table _ w0)))) with count in Hok.
  change (f_sg_next_group_number (w_ep (with_table _ w0))) with n in Hok.
  change (f_shdr (w_ep (with_table ?L w0))) with L in Hok.
  destruct Hok as (Hnz & Hle & (targ & Ht & Hz) & -> & -> & ->).
  split.
  - unfold state. rewrite gs_array_at_S by lia.
    rewrite gs_selection_S by lia. rewrite number_sections_snoc.
    destruct (Nat.ltb_spec 1 (S k)); [reflexivity|lia].
  - intros [Hx|[[Hx Hy]|(t0 & Ht0 & Hx)]].
    + contradiction.
    + unfold gs_selected in Hle.
      destruct (Z.gtb_spec (gs_native WORDS_BIGENDIAN data k) count); lia.
    + destruct (proj1 (gs_target_number n count data L0 k) targ Ht)
        as (t1 & Ht1 & Hg).
      rewrite Ht0 in Ht1. injection Ht1 as <-.
      rewrite <- Hg in Hx. contradiction.
Qed.

(** An entry that fails is refused, and leaves the table as it was. *)
Lemma gs_entry_state_error (data : list byte) (cnt : nat)
  (L0 : list generic_shdr) (w0 : world) (k : nat) (r : status)
  (st1 : gs_locals) :
  let n := f_sg_next_group_number (w_ep w0) in
  let count := g_count (f_loc_shdr (w_ep w0)) in
  let state k :=
    (gs_array_at WORDS_BIGENDIAN uninit_word count data cnt k,
     (1 <? k)%nat,
     with_table
       (number_sections n (gs_selection WORDS_BIGENDIAN count data k) L0)
       w0) in
  gs_entry WORDS_BIGENDIAN data k (state k) = Some (r, st1) ->
  r <> DW_DLV_OK ->
  r = DW_DLV_ERROR
  /\ (exists ga',
         st1 = (ga', (1 <? k)%nat,
                set_err DW_DLE_ELF_SECTION_GROUP_ERROR
                  (with_table
                     (number_sections n
                        (gs_selection WORDS_BIGENDIAN count data k) L0)
                     w0)))
  /\ gs_refused WORDS_BIGENDIAN n count L0 data k.
Proof.
  clear RRMOA ign struct_sizes_agree uninit_rela uninit_byte SIGN_EXTEND.
  intros n count state Hb Hr.
  destruct (gs_entry_failure_form _ _ _ _ _ Hb Hr) as (-> & ga' & Hs).
  simpl in Hs. subst st1.
  split; [reflexivity|]. split; [exists ga'; reflexivity|].
  pose proof (proj1 (gs_entry_error_iff data k _ _ _)
                (ex_intro _ ga' Hb)) as Hbad.
  cbn zeta in Hbad.
  change (g_count (f_loc_shdr (w_ep (with_table _ w0)))) with count
    in Hbad.
  change (f_shdr (w_ep (with_table ?L w0))) with L in Hbad.
  destruct Hbad as [Hx|[Hx|(targ & Ht & Hx)]].
  - left. exact Hx.
  - right. left. exact Hx.
  - right. right.
    destruct (proj1 (gs_target_number n count data L0 k) targ Ht)
      as (t0 & Ht0 & Hg).
    exists t0. split; [exact Ht0|]. rewrite <- Hg. exact Hx.
Qed.

(** The loop over the entries, from entry [k] on: it ends at the
    first entry that is refused, with the table as the entries before
    it have left it, and runs to the end when none is. *)
Lemma gs_entries_explicit (data : list byte) (cnt : nat)
  (L0 : list generic_shdr) (w0 : world) :
  let n := f_sg_next_group_number (w_ep w0) in
  let count := g_count (f_loc_shdr (w_ep w0)) in
  let state k :=
    (gs_array_at WORDS_BIGENDIAN uninit_word count data cnt k,
     (1 <? k)%nat,
     with_table
       (number_sections n (gs_selection WORDS_BIGENDIAN count data k) L0)
       w0) in
  forall (m k : nat) (r : status) (st' : gs_locals),
    (1 <= k)%nat -> (k + m = cnt)%nat ->
    for_each (seq k m) (gs_entry WORDS_BIGENDIAN data) (state k)
    = Some (r, st') ->
    (r = DW_DLV_OK /\ st' = state cnt
     /\ forall k', (k <= k' < cnt)%nat ->
                   ~ gs_refused WORDS_BIGENDIAN n count L0 data k')
    \/ (r = DW_DLV_ERROR
        /\ exists (k' : nat) (ga' : list Z),
            (k <= k' < cnt)%nat
            /\ st' = (ga', (1 <? k')%nat,
                      set_err DW_DLE_ELF_SECTION_GROUP_ERROR
                        (with_table
                           (number_sections n
                              (gs_selection WORDS_BIGENDIAN count data k')
                              L0) w0))
            /\ gs_refused WORDS_BIGENDIAN n count L0 data k'
            /\ forall k'', (k <= k'' < k')%nat ->
                 ~ gs_refused WORDS_BIGENDIAN n count L0 data k'').
Proof.
  clear RRMOA ign struct_sizes_agree uninit_rela uninit_byte SIGN_EXTEND.
  intros n count state m.
  induction m as [|m IH]; intros k r st' Hk Hm Hrun.
  - simpl in Hrun. injection Hrun as <- <-.
    left. split; [reflexivity|].
    replace cnt with k by lia. split; [reflexivity|].
    intros k' Hk'. lia.
  - change (seq k (S m)) with (k :: seq (S k) m) in Hrun.
    cbn [for_each] in Hrun.
    destruct (gs_entry WORDS_BIGENDIAN data k (state k))
      as [[r1 st1]|] eqn:Hb; [|discriminate].
    assert (Hfail : r1 <> DW_DLV_OK -> Some (r1, st1) = Some (r, st') ->
              r = DW_DLV_ERROR
              /\ exists (k' : nat) (ga' : list Z),
                  (k <= k' < cnt)%nat
                  /\ st' = (ga', (1 <? k')%nat,
                            set_err DW_DLE_ELF_SECTION_GROUP_ERROR
                              (with_table
                                 (number_sections n
                                    (gs_selection WORDS_BIGENDIAN count
                                       data k') L0) w0))
                  /\ gs_refused WORDS_BIGENDIAN n count L0 data k'
                  /\ forall k'', (k <= k'' < k')%nat ->
                       ~ gs_refused WORDS_BIGENDIAN n count L0 data k'').
    { intros Hr X. injection X as <- <-.
      destruct (gs_entry_state_error data cnt L0 w0 k r1 st1 Hb Hr)
        as (-> & (ga' & ->) & Hbad).
      split; [reflexivity|]. exists k, ga'.
      split; [lia|]. split; [reflexivity|]. split; [exact Hbad|].
      intros k'' Hk''. lia. }
    destruct r1;
      [| right; apply Hfail; [discriminate | exact Hrun]
       | right; apply Hfail; [discriminate | exact Hrun] ].
    clear Hfail.
    destruct (gs_entry_state_ok data cnt L0 w0 k st1 ltac:(lia) Hb)
      as (-> & Hnot).
    destruct (IH (S k) r st' ltac:(lia) ltac:(lia) Hrun)
      as [(Hr & Hs & Hall)|(Hr & k' & ga' & Hk' & Hs & Hbad & Hall)].
    + left. split; [exact Hr|]. split; [exact Hs|].
      intros k' Hk'. destruct (Nat.eq_dec k' k) as [->|Hne];
        [exact Hnot | apply Hall; lia].
    + right. split; [exact Hr|]. exists k', ga'.
      split; [lia|]. split; [exact Hs|]. split; [exact Hbad|].
      intros k'' Hk''. destruct (Nat.eq_dec k'' k) as [->|Hne];
        [exact Hnot | apply Hall; lia].
Qed.



(** The payload, once its version word is accepted: it is recorded
    when no entry is refused, and the reading ends at the first entry
    that is refused, with the sections the entries before it selected
    numbered. *)
Lemma gs_payload_explicit (j : nat) (cnt : Z) (data : list byte)
  (w : world) (r : status) (w' : world) :
  let n := f_sg_next_group_number (w_ep w) in
  let count := g_count (f_loc_shdr (w_ep w)) in
  let L0 := f_shdr (w_ep w) in
  1 <= cnt ->
  gs_version WORDS_BIGENDIAN data = 1
  \/ gs_version WORDS_BIGENDIAN data = 16777216 ->
  gs_payload WORDS_BIGENDIAN uninit_word j cnt data w = Some (r, w') ->
  (r = DW_DLV_OK
   /\ w' = set_w_ep (group_recorded WORDS_BIGENDIAN j cnt data (w_ep w)) w
   /\ forall k, (1 <= k < Z.to_nat cnt)%nat ->
                ~ gs_refused WORDS_BIGENDIAN n count L0 data k)
  \/ (r = DW_DLV_ERROR
      /\ exists k : nat,
          (1 <= k < Z.to_nat cnt)%nat
          /\ w' = set_err DW_DLE_ELF_SECTION_GROUP_ERROR
                    (with_table
                       (number_sections n
                          (gs_selection WORDS_BIGENDIAN count data k) L0)
                       w)
          /\ gs_refused WORDS_BIGENDIAN n count L0 data k
          /\ forall k', (1 <= k' < k)%nat ->
               ~ gs_refused WORDS_BIGENDIAN n count L0 data k').
Proof.
  clear RRMOA ign struct_sizes_agree uninit_rela uninit_byte SIGN_EXTEND.
  intros n count L0 Hcnt Hv. unfold gs_payload.
  fold (gs_version WORDS_BIGENDIAN data).
  assert (Hc : negb (gs_version WORDS_BIGENDIAN data =? 1)
               && negb (gs_version WORDS_BIGENDIAN data =? 16777216)
               = false).
  { destruct Hv as [-> | ->]; reflexivity. }
  rewrite Hc.
  assert (H0 : (<[0%nat:=1]> (replicate (Z.to_nat cnt) uninit_word),
                false, w)
               = (gs_array_at WORDS_BIGENDIAN uninit_word count data
                    (Z.to_nat cnt) 1,
                  (1 <? 1)%nat,
                  with_table
                    (number_sections n
                       (gs_selection WORDS_BIGENDIAN count data 1) L0)
                    w)).
  { change (number_sections n
              (gs_selection WORDS_BIGENDIAN count data 1) L0) with L0.
    unfold L0. rewrite with_table_id.
    unfold gs_array_at, gs_selection. simpl.
    replace (Z.to_nat cnt) with (S (Z.to_nat cnt - 1)) at 1 by lia.
    reflexivity. }
  rewrite H0.
  destruct (for_each _ _ _) as [[res [[ga fo] wi]]|] eqn:Hloop;
    [|discriminate].
  destruct (gs_entries_explicit data (Z.to_nat cnt) L0 w
              (Z.to_nat cnt - 1) 1 res (ga, fo, wi) ltac:(lia) ltac:(lia)
              Hloop)
    as [(-> & Hs & Hall)|(-> & k & ga' & Hk & Hs & Hbad & Hall)].
  - injection Hs as -> -> ->. simpl. intros H. injection H as <- <-.
    left. split; [reflexivity|]. split; [|exact Hall].
    unfold gs_array_at, group_recorded. rewrite Nat.sub_diag. simpl.
    rewrite app_nil_r.
    destruct (Nat.ltb_spec 1 (Z.to_nat cnt)), (Z.ltb_spec 1 cnt);
      try lia; reflexivity.
  - injection Hs as -> -> ->. simpl. intros H. injection H as <- <-.
    right. split; [reflexivity|]. exists k.
    split; [exact Hk|]. split; [reflexivity|].
    split; [exact Hbad | exact Hall].
Qed.


(** ** The reading of a group section *)


(** A successful reading of a group section that has no array yet:
    the payload was read from the file, its version word is accepted,
    no entry is refused, and the record holds the group. *)
Lemma read_gs_ok_recorded (j : nat) (w w' : world) (psh : generic_shdr) :
  f_shdr (w_ep w) !! j = Some psh ->
  gh_sht_group_array psh = None ->
  read_gs_section_group WORDS_BIGENDIAN RRMOA uninit_word j w
  = Some (DW_DLV_OK, w') ->
  let cnt := gh_size psh / DWARF_32BIT_SIZE in
  exists content : nat -> byte,
    let data := bytes_of content (gh_size psh) in
    RRMOA (gh_offset psh) (gh_size psh) (f_filesize (w_ep w))
    = RdOk content
    /\ DWARF_32BIT_SIZE <= gh_size psh
    /\ gh_entsize psh = DWARF_32BIT_SIZE
    /\ cnt <= g_count (f_loc_shdr (w_ep w))
    /\ (gs_version WORDS_BIGENDIAN data = 1
        \/ gs_version WORDS_BIGENDIAN data = 16777216)
    /\ (forall k, (1 <= k < Z.to_nat cnt)%nat ->
          ~ gs_refused WORDS_BIGENDIAN (f_sg_next_group_number (w_ep w))
              (g_count (f_loc_shdr (w_ep w))) (f_shdr (w_ep w)) data k)
    /\ w_ep w' = group_recorded WORDS_BIGENDIAN j cnt data (w_ep w)
    /\ w_reads w' = (w_reads w ++ [(gh_offset psh, gh_size psh)])%list.
Proof.
  intros Hl Harr. unfold read_gs_section_group. rewrite Hl. simpl.
  rewrite Harr.
  destruct (Z.ltb_spec (gh_size psh) DWARF_32BIT_SIZE) as [Hsz|Hsz];
    [discriminate|].
  destruct (malloc w) as [p1 w1] eqn:M1.
  destruct (malloc_world _ _ _ M1) as (E1 & R1 & _).
  destruct p1; simpl; [|discriminate].
  destruct (Z.eqb_spec (gh_entsize psh) DWARF_32BIT_SIZE) as [Hent|Hent];
    simpl; [|discriminate].
  rewrite Hent. simpl.
  destruct (Z.gtb_spec (gh_size psh / DWARF_32BIT_SIZE)
              (g_count (f_loc_shdr (w_ep w)))) as [Hg|Hg]; [discriminate|].
  destruct (do_RRMOA RRMOA (gh_offset psh) (gh_size psh) w1)
    as [rd w2] eqn:D.
  destruct (do_RRMOA_world _ _ _ _ _ D) as (E2 & R2 & Hrd).
  destruct rd as [content| |c]; try discriminate.
  destruct (malloc w2) as [p3 w3] eqn:M3.
  destruct (malloc_world _ _ _ M3) as (E3 & R3 & _).
  destruct p3; simpl; [|discriminate].
  intros Hrun. exists content.
  assert (Ew : w_ep w3 = w_ep w) by congruence.
  assert (Hcnt : 1 <= gh_size psh / DWARF_32BIT_SIZE).
  { apply Z.div_le_lower_bound; unfold DWARF_32BIT_SIZE in *; lia. }
  split; [rewrite <- E1; symmetry; exact Hrd|].
  split; [exact Hsz|]. split; [reflexivity|]. split; [exact Hg|].
  pose proof (gs_payload_version_of_success _ _ _ _ _ Hrun) as Hv.
  split; [exact Hv|].
  destruct (gs_payload_explicit _ _ _ _ _ _ Hcnt Hv Hrun)
    as [(_ & -> & Hall)|(Hx & _)]; [|discriminate Hx].
  rewrite Ew in Hall. split; [exact Hall|].
  simpl. rewrite Ew. split; [reflexivity|]. congruence.
Qed.


(** ** The first loop of the set-up, against the file *)

Lemma fmap_alter_keep {B : Type} (g : generic_shdr -> B)
  (f : generic_shdr -> generic_shdr) (i : nat) (L : list generic_shdr) :
  (forall sh, g (f sh) = g sh) ->
  g <$> alter f i L = g <$> L.
Proof.
  clear. intros Hf. apply list_eq. intros k. rewrite !list_lookup_fmap.
  destruct (Nat.eq_dec k i) as [->|Hne].
  - rewrite list_lookup_alter_eq. destruct (L !! i); simpl; [|reflexivity].
    rewrite Hf. reflexivity.
  - rewrite list_lookup_alter_ne by congruence. reflexivity.
Qed.

Lemma fmap_number_sections {B : Type} (g : generic_shdr -> B) n sels L :
  (forall sh, g (set_gh_section_group_number n sh) = g sh) ->
  g <$> number_sections n sels L = g <$> L.
Proof.
  clear. intros Hg. revert L. induction sels as [|s sels IH]; intros L;
    [reflexivity|].
  change (number_sections n (s :: sels) L)
    with (number_sections n sels
            (alter (set_gh_section_group_number n) (Z.to_nat s) L)).
  rewrite IH. apply fmap_alter_keep. exact Hg.
Qed.

(** What the recording of a group keeps of the section headers. *)
Lemma group_recorded_keeps {B : Type} (g : generic_shdr -> B) j cnt data ep :
  (forall n sh, g (set_gh_section_group_number n sh) = g sh) ->
  (forall a sh, g (set_gh_sht_group_array a sh) = g sh) ->
  (forall c sh, g (set_gh_sht_group_array_count c sh) = g sh) ->
  g <$> f_shdr (group_recorded WORDS_BIGENDIAN j cnt data ep)
  = g <$> f_shdr ep.
Proof.
  clear. intros H1 H2 H3. unfold group_recorded. simpl.
  rewrite !fmap_alter_keep by (intros; auto).
  apply fmap_number_sections. apply H1.
Qed.

(** A step of the first loop that returns OK keeps the DWARF marks. *)
Lemma step_AB_keeps_marks (i : nat) (w w' : world) :
  setup_step_AB WORDS_BIGENDIAN RRMOA uninit_word i w
  = Some (DW_DLV_OK, w') ->
  gh_is_dwarf <$> f_shdr (w_ep w') = gh_is_dwarf <$> f_shdr (w_ep w).
Proof.
  unfold setup_step_AB.
  destruct (f_shdr (w_ep w) !! i) as [psh|] eqn:Hl; simpl; [|discriminate].
  destruct (is_empty_section (gh_type psh));
    [intros H; injection H as <-; reflexivity|].
  destruct (elf_sht_groupsec (gh_type psh) (gh_namestring psh)); simpl.
  - destruct (gh_sht_group_array psh) as [arr|] eqn:Harr.
    + unfold read_gs_section_group. rewrite Hl. simpl. rewrite Harr.
      intros H. injection H as <-. reflexivity.
    + intros H.
      destruct (read_gs_ok_recorded i w w' psh Hl Harr H)
        as (content & _ & _ & _ & _ & _ & _ & E & _).
      rewrite E. apply group_recorded_keeps; reflexivity.
  - destruct (elf_flagmatches _ _); intros H; injection H as <-;
      reflexivity.
Qed.

(** The first loop keeps the DWARF marks. *)
Lemma loop_AB_keeps_marks (count : nat) (w w' : world) :
  for_each (seq 0 count) (setup_step_AB WORDS_BIGENDIAN RRMOA uninit_word) w
  = Some (DW_DLV_OK, w') ->
  gh_is_dwarf <$> f_shdr (w_ep w') = gh_is_dwarf <$> f_shdr (w_ep w).
Proof.
  intros Hrun.
  apply (for_each_invariant
           (fun _ wc => gh_is_dwarf <$> f_shdr (w_ep wc)
                        = gh_is_dwarf <$> f_shdr (w_ep w))
           (setup_step_AB WORDS_BIGENDIAN RRMOA uninit_word)
           count 0 w w'); [reflexivity| |exact Hrun].
  intros a w1 w2 _ Hinv Hb.
  rewrite (step_AB_keeps_marks a w1 w2 Hb). exact Hinv.
Qed.









Lemma count_sections_app (has : generic_shdr -> bool)
  (L1 L2 : list generic_shdr) :
  count_sections has (L1 ++ L2)
  = (count_sections has L1 + count_sections has L2)%nat.
Proof. clear. induction L1 as [|sh L1 IH]; simpl; [reflexivity|]. lia. Qed.



Lemma marked_test (sh : generic_shdr) :
  gh_is_dwarf sh = false ->
  gh_is_dwarf (marked ign sh) = dwarf_name_test ign (marked ign sh).
Proof.
  intros Hd. unfold marked, dwarf_name_test.
  destruct (is_empty_section (gh_type sh)) eqn:He;
    [rewrite He; exact Hd|].
  destruct (elf_sht_groupsec (gh_type sh) (gh_namestring sh)) eqn:Hg;
    [rewrite He, Hg; exact Hd|].
  destruct (string_endswith (gh_namestring sh) ".dwo") eqn:Hw;
    [simpl; rewrite He, Hg, Hw; reflexivity|].
  destruct (fst (_dwarf_load_elf_section_is_dwarf ign (gh_namestring sh)))
    eqn:Hc.
  - destruct (gh_section_group_number sh =? 0); simpl;
      rewrite He, Hg, Hw, Hc; reflexivity.
  - rewrite He, Hg, Hw, Hc. exact Hd.
Qed.




(** ** Which sections the set-up marks *)

(** X15: after a successful set-up of the section groups of a fresh
    table, a section below the section count is marked as holding DWARF
    exactly when it is not empty (neither NOBITS nor NULL), is not a
    group section, and has a name that ends in ".dwo" or that the
    classifier of names accepts; a section at or beyond the count is
    not marked. *)
Theorem setup_marks_by_name (w w' : world) :
  fresh_sections (f_shdr (w_ep w)) ->
  _dwarf_elf_setup_all_section_groups WORDS_BIGENDIAN ign RRMOA uninit_word
    w = Some (DW_DLV_OK, w') ->
  forall (i : nat) (sh' : generic_shdr),
    f_shdr (w_ep w') !! i = Some sh' ->
    gh_is_dwarf sh'
    = if (i <? Z.to_nat (g_count (f_loc_shdr (w_ep w))))%nat
      then dwarf_name_test ign sh' else false.
Proof.
  intros Hfresh. unfold _dwarf_elf_setup_all_section_groups.
  set (count := Z.to_nat (g_count (f_loc_shdr (w_ep w)))).
  destruct (for_each (seq 0 count) (setup_step_AB _ _ _) w)
    as [[res w1]|] eqn:HA; simpl; [|discriminate].
  destruct res; try discriminate.
  assert (Hnd : forall i sh, f_shdr (w_ep w1) !! i = Some sh ->
                  gh_is_dwarf sh = false).
  { intros i sh Hi.
    pose proof (f_equal (fun l => l !! i)
                  (loop_AB_keeps_marks count w w1 HA)) as X.
    simpl in X. rewrite !list_lookup_fmap, Hi in X.
    destruct (f_shdr (w_ep w) !! i) as [sh0|] eqn:H0; [|discriminate].
    simpl in X. injection X as ->.
    exact (proj1 (proj2 (Hfresh i sh0 H0))). }
  intros HC i sh' Hl.
  destruct (sections_marked_all count w1 w' HC) as [Hm _].
  rewrite (Hm i) in Hl.
  destruct (i <? count)%nat.
  - destruct (f_shdr (w_ep w1) !! i) as [sh1|] eqn:H1; [|discriminate].
    simpl in Hl. injection Hl as <-.
    apply marked_test. exact (Hnd i sh1 H1).
  - exact (Hnd i sh' Hl).
Qed.

(** ** Reading the payload of a group section *)

Lemma erased_length (ep ep' : dwarf_elf_object_access_internals_t) :
  groups_erased ep' = groups_erased ep ->
  length (f_shdr ep') = length (f_shdr ep).
Proof.
  intros H. pose proof (f_equal (fun e => length (f_shdr e)) H) as Hl.
  simpl in Hl. rewrite !length_fmap in Hl. exact Hl.
Qed.

Lemma gs_payload_array j count data w w' :
  (j < length (f_shdr (w_ep w)))%nat ->
  gs_payload WORDS_BIGENDIAN uninit_word j count data w
  = Some (DW_DLV_OK, w') ->
  exists sh ga, f_shdr (w_ep w') !! j = Some sh
                /\ gh_sht_group_array sh = Some ga.
Proof.
  intros Hj. unfold gs_payload.
  destruct (negb _ && negb _); [discriminate|].
  destruct (for_each _ _ _) as [[res [[ga fo] wi]]|] eqn:Hloop; simpl;
    [|discriminate].
  assert (Hl : length (f_shdr (w_ep wi)) = length (f_shdr (w_ep w))).
  { apply erased_length.
    apply (for_each_related
             (fun st st' : gs_locals =>
                groups_erased (w_ep (snd st'))
                = groups_erased (w_ep (snd st)))
             _ _ _ _ _) in Hloop; [exact Hloop| | |].
    - intros x. reflexivity.
    - intros x y z A B. congruence.
    - intros i [[ga0 fo0] w0] r0 [[ga1 fo1] w1] _ Hb.
      apply gs_entry_frame in Hb. apply Hb. }
  destruct res; try discriminate.
  intros H. injection H as <-.
  assert (Hf : forall wx : world,
             f_shdr (w_ep (if fo
                           then upd_ep (fun ep =>
                                  set_f_sht_group_type_section_count
                                    (u64 (f_sht_group_type_section_count ep
                                          + 1)) ep)
                                  (upd_ep (fun ep =>
                                     set_f_sg_next_group_number
                                       (u64 (f_sg_next_group_number ep + 1))
                                       ep) wx)
                           else wx))
             = f_shdr (w_ep wx)) by (intros wx; destruct fo; reflexivity).
  destruct (lookup_lt_is_Some_2 (f_shdr (w_ep wi)) j ltac:(lia)) as [x Hx].
  simpl. rewrite !list_lookup_alter_eq, Hf, Hx. simpl.
  eexists _, _. split; reflexivity.
Qed.

(** X16: reading the payload of a group section is done once: after
    [read_gs_section_group] has returned OK for a section, a second
    call for that section returns OK and changes nothing, and issues
    no read. *)
Theorem read_gs_section_group_once (j : nat) (w w' : world) :
  read_gs_section_group WORDS_BIGENDIAN RRMOA uninit_word j w
  = Some (DW_DLV_OK, w') ->
  read_gs_section_group WORDS_BIGENDIAN RRMOA uninit_word j w'
  = Some (DW_DLV_OK, w').
Proof.
  intros H.
  assert (Hgoal : exists sh ga, f_shdr (w_ep w') !! j = Some sh
                                /\ gh_sht_group_array sh = Some ga).
  { unfold read_gs_section_group in H.
    destruct (f_shdr (w_ep w) !! j) as [psh|] eqn:Hl; simpl in H;
      [|discriminate].
    pose proof (lookup_lt_Some _ _ _ Hl) as Hj.
    destruct (gh_sht_group_array psh) as [ga|] eqn:Ha.
    { injection H as <-. exists psh, ga. auto. }
    destruct (_ <? _); [discriminate|].
    destruct (malloc w) as [p1 w1] eqn:M1.
    destruct (malloc_world _ _ _ M1) as (E1 & _).
    destruct p1; simpl in H; [|discriminate].
    destruct (negb _); [discriminate|].
    destruct (_ =? 0); [discriminate|].
    destruct (_ >? _); [discriminate|].
    destruct (do_RRMOA RRMOA _ _ w1) as [rd w2] eqn:D.
    destruct (do_RRMOA_world _ _ _ _ _ D) as (E2 & _).
    destruct rd; try discriminate.
    destruct (malloc w2) as [p3 w3] eqn:M3.
    destruct (malloc_world _ _ _ M3) as (E3 & _).
    destruct p3; simpl in H; [|discriminate].
    apply gs_payload_array in H; [exact H|].
    rewrite E3, E2, E1. exact Hj. }
  destruct Hgoal as (sh & ga & Hl & Ha).
  unfold read_gs_section_group. rewrite Hl. simpl. rewrite Ha.
  reflexivity.
Qed.

(** X17: the range test of an entry of an SHT_GROUP payload lets the
    section count itself through: for an entry whose value in the
    host's order equals the count of a table of that many headers, the
    loader goes on to the header at that index, one past the table,
    where the access has no result. *)
Theorem group_entry_equal_to_count (data : list byte) (i : nat)
  (grouparray : list Z) (foundone : bool) (w : world) :
  g_count (f_loc_shdr (w_ep w)) = Z.of_nat (length (f_shdr (w_ep w))) ->
  g_count (f_loc_shdr (w_ep w)) <> 0 ->
  gs_native WORDS_BIGENDIAN data i = g_count (f_loc_shdr (w_ep w)) ->
  gs_entry WORDS_BIGENDIAN data i (grouparray, foundone, w) = None.
Proof.
  intros Hc Hnz Hn. unfold gs_entry. unfold gs_native in Hn. rewrite Hn.
  destruct (Z.eqb_spec (g_count (f_loc_shdr (w_ep w))) 0); [contradiction|].
  rewrite Z.gtb_ltb, Z.ltb_irrefl.
  unfold gs_assign. rewrite Hc, Nat2Z.id.
  rewrite (lookup_ge_None_2 (f_shdr (w_ep w)) (length (f_shdr (w_ep w))))
    by lia.
  reflexivity.
Qed.

(** ** The ELF header *)

Lemma generic_ehdr_of_fields32 (cw : copy_word) (buf : list byte) :
  ehdr_fields_ok 32
    (generic_ehdr_of WORDS_BIGENDIAN cw (cast_dw_elf32_ehdr buf)).
Proof.
  unfold ehdr_fields_ok, generic_ehdr_of, cast_dw_elf32_ehdr. simpl.
  assert (W2 : forall off, 0 <= ASNAR WORDS_BIGENDIAN (copy_fn cw)
                                 (sub_bytes buf off 2) < 65536)
    by (intros off; apply (ASNAR_width cw _ 2);
        [apply sub_bytes_length | lia]).
  assert (W4 : forall off, 0 <= ASNAR WORDS_BIGENDIAN (copy_fn cw)
                                 (sub_bytes buf off 4) < two32)
    by (intros off; apply (ASNAR_width cw _ 4);
        [apply sub_bytes_length | lia]).
  change (2 ^ 32) with two32.
  repeat split; try apply W2; apply W4.
Qed.

Lemma generic_ehdr_of_fields64 (cw : copy_word) (buf : list byte) :
  ehdr_fields_ok 64
    (generic_ehdr_of WORDS_BIGENDIAN cw (cast_dw_elf64_ehdr buf)).
Proof.
  unfold ehdr_fields_ok, generic_ehdr_of, cast_dw_elf64_ehdr. simpl.
  assert (W2 : forall off, 0 <= ASNAR WORDS_BIGENDIAN (copy_fn cw)
                                 (sub_bytes buf off 2) < 65536)
    by (intros off; apply (ASNAR_width cw _ 2);
        [apply sub_bytes_length | lia]).
  assert (W4 : forall off, 0 <= ASNAR WORDS_BIGENDIAN (copy_fn cw)
                                 (sub_bytes buf off 4) < two32)
    by (intros off; apply (ASNAR_width cw _ 4);
        [apply sub_bytes_length | lia]).
  assert (W8 : forall off, 0 <= ASNAR WORDS_BIGENDIAN (copy_fn cw)
                                 (sub_bytes buf off 8) < 2 ^ 64)
    by (intros off; apply (ASNAR_width cw _ 8);
        [apply sub_bytes_length | lia]).
  repeat split; try apply W2; try apply W4; apply W8.
Qed.

(** X18: [_dwarf_load_elf_header] changes the record only when it
    returns OK, and then it sets the header, the machine taken from it
    and the location of the header (one entry at offset 0 of the size
    of the header for the offset size); every field of the header fits
    the width it has in the file.  Whatever it returns, it has issued
    at most one read, that of the header at offset 0. *)
Theorem elf_header_loaded (w w' : world) (r : status) :
  let bits := f_offsetsize (w_ep w) in
  _dwarf_load_elf_header WORDS_BIGENDIAN RRMOA struct_sizes_agree w
  = (r, w') ->
  (r <> DW_DLV_OK -> w_ep w' = w_ep w)
  /\ (r = DW_DLV_OK ->
      exists e : generic_ehdr,
        w_ep w'
        = set_f_loc_ehdr
            {| g_name := "Elf File Header"; g_offset := 0; g_count := 1;
               g_entrysize := ehdr_size bits;
               g_totalsize := ehdr_size bits |}
            (set_f_ehdr (Some e) (set_f_machine (ge_machine e) (w_ep w)))
        /\ ehdr_fields_ok bits e)
  /\ (w_reads w' = w_reads w
      \/ w_reads w' = (w_reads w ++ [(0, ehdr_size bits)])%list).
Proof.
  intros bits. unfold _dwarf_load_elf_header, validate_struct_sizes.
  fold bits.
  destruct (negb struct_sizes_agree); simpl;
    [intros H; injection H as <- <-; frame_cases|].
  unfold ehdr_size.
  destruct (Z.eqb_spec bits 32) as [H32|H32].
  - unfold elf_load_elf_header32.
    destruct (do_RRMOA RRMOA 0 sizeof_dw_elf32_ehdr w) as [rd w1] eqn:D.
    destruct (do_RRMOA_world _ _ _ _ _ D) as (E1 & R1 & _).
    destruct rd;
      [| intros H; injection H as <- <-; frame_cases
       | intros H; injection H as <- <-; frame_cases].
    destruct (malloc w1) as [p w2] eqn:M.
    destruct (malloc_world _ _ _ M) as (E2 & R2 & _).
    destruct p; simpl;
      [|intros H; injection H as <- <-; frame_cases].
    unfold generic_ehdr_from_32. intros H; injection H as <- <-.
    split; [intros X; contradiction|]. split; [|right; simpl; congruence].
    intros _.
    exists (generic_ehdr_of WORDS_BIGENDIAN (f_copy_word (w_ep w))
              (cast_dw_elf32_ehdr (bytes_of content sizeof_dw_elf32_ehdr))).
    split.
    + unfold upd_ep. simpl. rewrite E2, E1. reflexivity.
    + rewrite H32. apply generic_ehdr_of_fields32.
  - destruct (Z.eqb_spec bits 64) as [H64|H64];
      [|intros H; injection H as <- <-; frame_cases].
    simpl. unfold elf_load_elf_header64.
    destruct (do_RRMOA RRMOA 0 sizeof_dw_elf64_ehdr w) as [rd w1] eqn:D.
    destruct (do_RRMOA_world _ _ _ _ _ D) as (E1 & R1 & _).
    destruct rd;
      [| intros H; injection H as <- <-; frame_cases
       | intros H; injection H as <- <-; frame_cases].
    destruct (malloc w1) as [p w2] eqn:M.
    destruct (malloc_world _ _ _ M) as (E2 & R2 & _).
    destruct p; simpl;
      [|intros H; injection H as <- <-; frame_cases].
    unfold generic_ehdr_from_64. intros H; injection H as <- <-.
    split; [intros X; contradiction|]. split; [|right; simpl; congruence].
    intros _.
    exists (generic_ehdr_of WORDS_BIGENDIAN (f_copy_word (w_ep w))
              (cast_dw_elf64_ehdr (bytes_of content sizeof_dw_elf64_ehdr))).
    split.
    + unfold upd_ep. simpl. rewrite E2, E1. reflexivity.
    + rewrite H64. apply generic_ehdr_of_fields64.
Qed.

(** ** The section headers *)

Context (DW_DLE_ELF_SECTION_COUNT_MISMATCH : Dwarf_Error_code)
  (DW_DLE_ELF_STRING_SECTION_ERROR : Dwarf_Error_code)
  (DW_DLE_ELF_SECTION_LINK_ERROR : Dwarf_Error_code).

Lemma generic_shdr_of_fields32 (cw : copy_word) (buf : list byte)
  (i : nat) (k : Z) :
  let h := generic_shdr_of WORDS_BIGENDIAN cw k (cast_dw_elf32_shdr buf i) in
  shdr_fields_ok 32 (fst h) (snd h).
Proof.
  unfold shdr_fields_ok, generic_shdr_of, cast_dw_elf32_shdr. simpl.
  assert (W4 : forall off, 0 <= ASNAR WORDS_BIGENDIAN (copy_fn cw)
                                 (sub_bytes buf off 4) < two32)
    by (intros off; apply (ASNAR_width cw _ 4);
        [apply sub_bytes_length | lia]).
  change (2 ^ 32) with two32.
  repeat split; apply W4.
Qed.

Lemma generic_shdr_of_fields64 (cw : copy_word) (buf : list byte)
  (i : nat) (k : Z) :
  let h := generic_shdr_of WORDS_BIGENDIAN cw k (cast_dw_elf64_shdr buf i) in
  shdr_fields_ok 64 (fst h) (snd h).
Proof.
  unfold shdr_fields_ok, generic_shdr_of, cast_dw_elf64_shdr. simpl.
  assert (W4 : forall off, 0 <= ASNAR WORDS_BIGENDIAN (copy_fn cw)
                                 (sub_bytes buf off 4) < two32)
    by (intros off; apply (ASNAR_width cw _ 4);
        [apply sub_bytes_length | lia]).
  assert (W8 : forall off, 0 <= ASNAR WORDS_BIGENDIAN (copy_fn cw)
                                 (sub_bytes buf off 8) < 2 ^ 64)
    by (intros off; apply (ASNAR_width cw _ 8);
        [apply sub_bytes_length | lia]).
  repeat split; try apply W4; apply W8.
Qed.

(** What [generic_shdr_from_shdr32] and [generic_shdr_from_shdr64]
    hand back. *)
Lemma generic_shdr_from_shdr_post (bits : Z)
  (cast : list byte -> nat -> dw_elf_shdr)
  (offset entsize count : Z) (st st' : loader_state) (r : status)
  (c : Z) :
  (forall cw buf i k,
      let h := generic_shdr_of WORDS_BIGENDIAN cw k (cast buf i) in
      shdr_fields_ok bits (fst h) (snd h)) ->
  generic_shdr_from_shdr WORDS_BIGENDIAN RRMOA cast (shdr_size bits)
    offset entsize count st = Some (r, c, st') ->
  shdr_size bits * count < 2 ^ 64 -> 0 <= count ->
  (r = DW_DLV_OK ->
   c = count /\ sections_loaded bits offset count st st'
   /\ w_reads (fst st')
      = (w_reads (fst st) ++ [(offset, u64 (count * entsize))])%list)
  /\ (r <> DW_DLV_OK ->
      w_ep (fst st') = w_ep (fst st) /\ snd st' = snd st
      /\ (w_reads (fst st') = w_reads (fst st)
          \/ w_reads (fst st')
             = (w_reads (fst st)
                  ++ [(offset, u64 (count * entsize))])%list)).
Proof.
  intros Hcast. unfold generic_shdr_from_shdr.
  destruct st as [w m]. simpl fst. simpl snd.
  destruct (malloc w) as [p w1] eqn:M1.
  destruct (malloc_world _ _ _ M1) as (E1 & R1 & _).
  destruct p; simpl;
    [|intros H _ _; injection H as <- <- <-; simpl;
      split; [discriminate|]; intros _; repeat split;
      [exact E1 | left; exact R1]].
  destruct (malloc w1) as [p w2] eqn:M2.
  destruct (malloc_world _ _ _ M2) as (E2 & R2 & _).
  destruct p; simpl;
    [|intros H _ _; injection H as <- <- <-; simpl;
      split; [discriminate|]; intros _; repeat split;
      [congruence | left; congruence]].
  destruct (do_RRMOA RRMOA offset (u64 (count * entsize)) w2)
    as [rd w3] eqn:D.
  destruct (do_RRMOA_world _ _ _ _ _ D) as (E3 & R3 & _).
  destruct rd;
    [| intros H _ _; injection H as <- <- <-; simpl;
       split; [discriminate|]; intros _; repeat split;
       [congruence | right; congruence]
     | intros H _ _; injection H as <- <- <-; simpl;
       split; [discriminate|]; intros _; repeat split;
       [congruence | right; congruence]].
  destruct (u64 (count * entsize) <? count * shdr_size bits);
    [discriminate|].
  intros H Hno Hc. injection H as <- <- <-. simpl.
  split; [|intros X; contradiction]. intros _.
  split; [reflexivity|]. split; [|congruence].
  set (hdrs := map _ (seq 0 (Z.to_nat count))).
  exists (map fst hdrs), (map snd hdrs). simpl.
  assert (Hlen : length hdrs = Z.to_nat count)
    by (unfold hdrs; rewrite length_map, length_seq; reflexivity).
  assert (Hl : forall i h, hdrs !! i = Some h ->
             exists buf,
               h = generic_shdr_of WORDS_BIGENDIAN (f_copy_word (w_ep w3))
                     (Z.of_nat i) (cast buf i)).
  { intros i h Hi. unfold hdrs in Hi.
    change (map ?f ?l) with (f <$> l) in Hi.
    rewrite list_lookup_fmap in Hi.
    destruct (seq 0 (Z.to_nat count) !! i) as [j|] eqn:Hj;
      [|discriminate].
    apply lookup_seq in Hj. destruct Hj as [-> _]. simpl in Hi.
    injection Hi as <-. eexists. reflexivity. }
  split; [|split; [reflexivity|]].
  { unfold upd_ep. simpl. rewrite E3, E2, E1.
    assert (0 <= shdr_size bits)
      by (unfold shdr_size; destruct (bits =? 32); discriminate).
    rewrite u64_id by (unfold is_u64, two64; nia). reflexivity. }
  rewrite !length_map.
  split; [exact Hlen|]. split; [exact Hlen|].
  split.
  - intros i sh Hi.
    change (map ?f ?l) with (f <$> l) in Hi.
    rewrite list_lookup_fmap in Hi.
    destruct (hdrs !! i) as [h|] eqn:Hh; [|discriminate].
    injection Hi as <-.
    destruct (Hl _ _ Hh) as [buf ->]. repeat split.
  - intros i sh rest Hi Hr.
    change (map ?f ?l) with (f <$> l) in Hi.
    change (map ?f ?l) with (f <$> l) in Hr.
    rewrite list_lookup_fmap in Hi. rewrite list_lookup_fmap in Hr.
    destruct (hdrs !! i) as [h|] eqn:Hh; [|discriminate].
    injection Hi as <-. injection Hr as <-.
    destruct (Hl _ _ Hh) as [buf ->].
    split; [reflexivity|]. split; [apply Hcast|].
    repeat split.
Qed.

Lemma sectheaders_post (bits : Z) (cast : list byte -> nat -> dw_elf_shdr)
  (offset entsize count : Z) (st st' : loader_state) (r : status) :
  (forall cw buf i k,
      let h := generic_shdr_of WORDS_BIGENDIAN cw k (cast buf i) in
      shdr_fields_ok bits (fst h) (snd h)) ->
  0 <= offset -> 0 <= entsize -> 0 <= count ->
  f_filesize (w_ep (fst st)) <= 2 ^ 56 ->
  elf_load_sectheaders DW_DLE_ELF_SECTION_COUNT_MISMATCH (shdr_size bits)
    (generic_shdr_from_shdr WORDS_BIGENDIAN RRMOA cast (shdr_size bits))
    offset entsize count st = Some (r, st') ->
  sectheaders_result bits offset entsize count st r st'.
Proof.
  intros Hcast Ho He Hc Hf. unfold elf_load_sectheaders, fail_with.
  assert (Hq : forall s : loader_state,
             sectheaders_result bits offset entsize count s
               DW_DLV_NO_ENTRY s).
  { intros s. repeat split; try discriminate. left. reflexivity. }
  assert (Hx : forall (s : loader_state) c,
             sectheaders_result bits offset entsize count s
               DW_DLV_ERROR (set_err c (fst s), snd s)).
  { intros s c. repeat split; try discriminate. left. reflexivity. }
  destruct (Z.eqb_spec count 0) as [Hz|Hz];
    [intros H; injection H as <- <-; apply Hq|].
  destruct (Z.ltb_spec entsize (shdr_size bits)) as [Hlt|Hge];
    [intros H; injection H as <- <-; apply Hx|].
  destruct (Z.gtb_spec offset (f_filesize (w_ep (fst st)))) as [H1|H1];
    simpl; [intros H; injection H as <- <-; apply Hx|].
  destruct (Z.gtb_spec entsize 200) as [H2|H2];
    simpl; [intros H; injection H as <- <-; apply Hx|].
  destruct (Z.gtb_spec count (f_filesize (w_ep (fst st)))) as [H3|H3];
    simpl; [intros H; injection H as <- <-; apply Hx|].
  assert (Hce : 0 <= count * entsize <= 200 * 2 ^ 56) by nia.
  rewrite (u64_id (count * entsize)) by (unfold is_u64, two64; lia).
  rewrite (u64_id (count * entsize + offset)) by (unfold is_u64, two64; lia).
  destruct (Z.gtb_spec (count * entsize + offset)
              (f_filesize (w_ep (fst st)))) as [H4|H4];
    simpl; [intros H; injection H as <- <-; apply Hx|].
  destruct (generic_shdr_from_shdr _ _ _ _ _ _ _ _)
    as [[[res c] st1]|] eqn:G; simpl; [|discriminate].
  assert (Hsz : shdr_size bits * count < 2 ^ 64).
  { unfold shdr_size, sizeof_dw_elf32_shdr, sizeof_dw_elf64_shdr in *.
    destruct (bits =? 32); nia. }
  destruct (generic_shdr_from_shdr_post _ _ _ _ _ _ _ _ _ Hcast G Hsz Hc)
    as [Hok Hno].
  rewrite (u64_id (count * entsize)) in Hok, Hno by (unfold is_u64, two64; lia).
  destruct res.
  - destruct (Hok eq_refl) as (-> & Hl & Hr).
    rewrite Z.eqb_refl. simpl. intros H; injection H as <- <-.
    split; [|split; [intros X; contradiction|]].
    + intros _. split; [exact Hl|].
      split; [lia|]. split; [lia | exact Hr].
    + right. split; [exact Hr | lia].
  - intros H; injection H as <- <-.
    destruct Hno as (Hep & Hm & Hr); [discriminate|].
    split; [discriminate|]. split; [intros _; split; assumption|].
    destruct Hr as [Hr|Hr]; [left; exact Hr | right; split; [exact Hr|lia]].
  - intros H; injection H as <- <-.
    destruct Hno as (Hep & Hm & Hr); [discriminate|].
    split; [discriminate|]. split; [intros _; split; assumption|].
    destruct Hr as [Hr|Hr]; [left; exact Hr | right; split; [exact Hr|lia]].
Qed.

(** X19: [elf_load_sectheaders32] and [elf_load_sectheaders64], for a
    file of at most 2^56 bytes, change the record only when they
    return OK, and then they set the table of the [count] section
    headers and its location: every header has its number, fields of
    the widths of the file, the relocation target [sh_info] for the
    types SHT_REL and SHT_RELA only, and no relocations, group or
    DWARF mark yet.  At most one read is issued, that of [count]
    records of [entsize] bytes, and it lies inside the file. *)
Theorem section_headers_loaded (offset entsize count : Z)
  (st st' : loader_state) (r : status) :
  0 <= offset -> 0 <= entsize -> 0 <= count ->
  f_filesize (w_ep (fst st)) <= 2 ^ 56 ->
  (elf_load_sectheaders32 WORDS_BIGENDIAN RRMOA
     DW_DLE_ELF_SECTION_COUNT_MISMATCH offset entsize count st
   = Some (r, st') ->
   sectheaders_result 32 offset entsize count st r st')
  /\ (elf_load_sectheaders64 WORDS_BIGENDIAN RRMOA
        DW_DLE_ELF_SECTION_COUNT_MISMATCH offset entsize count st
      = Some (r, st') ->
      sectheaders_result 64 offset entsize count st r st').
Proof.
  intros Ho He Hc Hf. split; intros Hrun.
  - apply (sectheaders_post 32 cast_dw_elf32_shdr); try assumption.
    intros cw buf i k. apply generic_shdr_of_fields32.
  - apply (sectheaders_post 64 cast_dw_elf64_shdr); try assumption.
    intros cw buf i k. apply generic_shdr_of_fields64.
Qed.

Lemma sectheaders_total (cast : list byte -> nat -> dw_elf_shdr)
  (reclen offset entsize count : Z) (st : loader_state) :
  0 <= entsize -> 0 <= count -> count * entsize < 2 ^ 64 ->
  exists r st',
    elf_load_sectheaders DW_DLE_ELF_SECTION_COUNT_MISMATCH reclen
      (generic_shdr_from_shdr WORDS_BIGENDIAN RRMOA cast reclen)
      offset entsize count st = Some (r, st').
Proof.
  intros He Hc Hce.
  assert (G : (entsize <? reclen) = false ->
             exists r c st',
               generic_shdr_from_shdr WORDS_BIGENDIAN RRMOA cast reclen
                 offset entsize count st = Some (r, c, st')).
  { intros Hr. unfold generic_shdr_from_shdr.
    destruct st as [w m].
    destruct (malloc w) as [[|] w1]; simpl; [|eauto].
    destruct (malloc w1) as [[|] w2]; simpl; [|eauto].
    destruct (do_RRMOA _ _ _ _) as [[content| |] w3]; [|eauto|eauto].
    rewrite (u64_id (count * entsize)) by (unfold is_u64, two64; nia).
    apply Z.ltb_ge in Hr.
    destruct (Z.ltb_spec (count * entsize) (count * reclen));
      [nia | eauto]. }
  unfold elf_load_sectheaders, fail_with.
  destruct (count =? 0); [eauto|].
  destruct (entsize <? reclen) eqn:Hr; [eauto|].
  destruct (_ || _); [eauto|].
  destruct (G eq_refl) as (r & c & st' & ->). simpl.
  destruct r; [destruct (negb _)|..]; eauto.
Qed.

(** X20: when the product of [count] and [entsize] fits 64 bits, as it
    does once [calloc] has answered for it, [elf_load_sectheaders32]
    and [elf_load_sectheaders64] decode every record inside the
    buffer they have read: the test of [entsize] against the size of
    the structure comes first, and the calls always return a
    status. *)
Theorem section_headers_in_buffer (offset entsize count : Z)
  (st : loader_state) :
  0 <= entsize -> 0 <= count -> count * entsize < 2 ^ 64 ->
  (exists r st',
      elf_load_sectheaders32 WORDS_BIGENDIAN RRMOA
        DW_DLE_ELF_SECTION_COUNT_MISMATCH offset entsize count st
      = Some (r, st'))
  /\ (exists r st',
         elf_load_sectheaders64 WORDS_BIGENDIAN RRMOA
           DW_DLE_ELF_SECTION_COUNT_MISMATCH offset entsize count st
         = Some (r, st')).
Proof.
  intros He Hc Hce. split; apply sectheaders_total; assumption.
Qed.

(** ** The sections of the symbols *)

Lemma recorded_start (name : string) (field : generic_shdr -> Z)
  (L : list generic_shdr) (old : Z * Z) :
  recorded name field L 0 old old.
Proof. left. split; [intros j sh Hj; lia | reflexivity]. Qed.

Lemma recorded_skip (name : string) (field : generic_shdr -> Z)
  (L : list generic_shdr) (k : nat) (sh : generic_shdr)
  (old cur : Z * Z) :
  L !! k = Some sh ->
  is_empty_section (gh_type sh) = true \/ gh_namestring sh <> name ->
  recorded name field L k old cur ->
  recorded name field L (S k) old cur.
Proof.
  intros Hk Hno [[Hn ->]|(i & shi & (Hi & Hl & He & Hna & Hlast) & ->)].
  - left. split; [|reflexivity]. intros j sj Hj Hlj Hej.
    destruct (Nat.eq_dec j k) as [->|Hne].
    + rewrite Hk in Hlj. injection Hlj as <-.
      destruct Hno as [Hno|Hno]; [congruence | exact Hno].
    + apply (Hn j sj); [lia | exact Hlj | exact Hej].
  - right. exists i, shi. split; [|reflexivity].
    repeat split; try assumption; [lia|].
    intros j sj Hj Hlj Hej.
    destruct (Nat.eq_dec j k) as [->|Hne].
    + rewrite Hk in Hlj. injection Hlj as <-.
      destruct Hno as [Hno|Hno]; [congruence | exact Hno].
    + apply (Hlast j sj); [lia | exact Hlj | exact Hej].
Qed.

Lemma recorded_hit (name : string) (field : generic_shdr -> Z)
  (L : list generic_shdr) (k : nat) (sh : generic_shdr)
  (old : Z * Z) :
  L !! k = Some sh ->
  is_empty_section (gh_type sh) = false -> gh_namestring sh = name ->
  recorded name field L (S k) old (Z.of_nat k, field sh).
Proof.
  intros Hk He Hn. right. exists k, sh. split; [|reflexivity].
  repeat split; try assumption; [lia|]. intros j sj Hj. lia.
Qed.

Ltac recorded_step :=
  first
    [ eapply recorded_skip;
      [ eassumption
      | first [ left; assumption | right; congruence ]
      | assumption ]
    | eapply recorded_hit; [ eassumption | assumption | assumption ] ].

Lemma location_eta (l : location) : set_g_offset (g_offset l) l = l.
Proof. destruct l; reflexivity. Qed.

Ltac sym_frame w m :=
  unfold sym_fields_only; simpl;
  split;
  [ generalize (w_ep w); intros e; destruct e;
    unfold sym_fields; simpl; rewrite ?location_eta; reflexivity
  | split;
    [ destruct m; unfold dyn_fields; simpl; rewrite ?location_eta;
      reflexivity
    | split; reflexivity ] ].

(** A pass of the loop of [_dwarf_elf_find_sym_sections]. *)
Lemma find_sym_body_step (st s1 s2 : loader_state) (k : nat) (r : status) :
  f_shdr (w_ep (fst s1)) = f_shdr (w_ep (fst st)) ->
  sym_sections_found st k s1 ->
  find_sym_body k s1 = Some (r, s2) ->
  r = DW_DLV_OK /\ sym_sections_found st (S k) s2
  /\ sym_fields_only s1 s2 /\ w_errcode (fst s2) = w_errcode (fst s1).
Proof.
  clear. intros HL Hinv. unfold find_sym_body.
  destruct s1 as [w1 m1]. simpl fst in *. simpl snd in *.
  destruct (f_shdr (w_ep w1) !! k) as [psh|] eqn:Hl; [|discriminate].
  rewrite HL in Hl. simpl.
  destruct Hinv as (I1 & I2 & I3 & I4 & I5). simpl in I1, I2, I3, I4, I5.
  destruct (is_empty_section (gh_type psh)) eqn:He.
  { intros H. injection H as <- <-. split; [reflexivity|].
    split; [|split; [|reflexivity]].
    - repeat split; simpl; recorded_step.
    - sym_frame w1 m1. }
  unfold strcmp_eq.
  destruct (String.eqb_spec (gh_namestring psh) ".dynsym") as [N1|N1].
  { intros H. injection H as <- <-. split; [reflexivity|].
    split; [|split; [|reflexivity]].
    - repeat split; simpl; recorded_step.
    - sym_frame w1 m1. }
  destruct (String.eqb_spec (gh_namestring psh) ".dynstr") as [N2|N2].
  { intros H. injection H as <- <-. split; [reflexivity|].
    split; [|split; [|reflexivity]].
    - repeat split; simpl; recorded_step.
    - sym_frame w1 m1. }
  destruct (String.eqb_spec (gh_namestring psh) ".symtab") as [N3|N3].
  { intros H. injection H as <- <-. split; [reflexivity|].
    split; [|split; [|reflexivity]].
    - repeat split; simpl; recorded_step.
    - sym_frame w1 m1. }
  destruct (String.eqb_spec (gh_namestring psh) ".strtab") as [N4|N4].
  { intros H. injection H as <- <-. split; [reflexivity|].
    split; [|split; [|reflexivity]].
    - repeat split; simpl; recorded_step.
    - sym_frame w1 m1. }
  destruct (String.eqb_spec (gh_namestring psh) ".dynamic") as [N5|N5].
  { intros H. injection H as <- <-. split; [reflexivity|].
    split; [|split; [|reflexivity]].
    - repeat split; simpl; recorded_step.
    - sym_frame w1 m1. }
  intros H. injection H as <- <-. split; [reflexivity|].
  split; [|split; [|reflexivity]].
  - repeat split; simpl; recorded_step.
  - sym_frame w1 m1.
Qed.

Lemma sym_fields_eta (e : dwarf_elf_object_access_internals_t) :
  sym_fields (f_symtab_sect_index e) (g_offset (f_loc_symtab e))
    (f_symtab_sect_strings_sect_index e) (f_symtab_sect_strings_max e) e
  = e.
Proof.
  destruct e. unfold sym_fields. simpl. rewrite location_eta. reflexivity.
Qed.

Lemma sym_fields_twice (a b c d a' b' c' d' : Z)
  (e : dwarf_elf_object_access_internals_t) :
  sym_fields a' b' c' d' (sym_fields a b c d e) = sym_fields a' b' c' d' e.
Proof. reflexivity. Qed.

Lemma dyn_fields_eta (m : ep_rest) :
  dyn_fields (f_dynsym_sect_index m) (g_offset (f_loc_dynsym m))
    (f_dynsym_sect_strings_sect_index m) (f_dynsym_sect_strings_max m)
    (f_dynamic_sect_index m) (g_offset (f_loc_dynamic m)) m
  = m.
Proof.
  destruct m. unfold dyn_fields. simpl. rewrite !location_eta.
  reflexivity.
Qed.

Lemma dyn_fields_twice (a b c d e f a' b' c' d' e' f' : Z) (m : ep_rest) :
  dyn_fields a' b' c' d' e' f' (dyn_fields a b c d e f m)
  = dyn_fields a' b' c' d' e' f' m.
Proof. reflexivity. Qed.

Lemma sym_fields_only_refl (s : loader_state) : sym_fields_only s s.
Proof.
  unfold sym_fields_only. rewrite sym_fields_eta, dyn_fields_eta.
  repeat split.
Qed.

Lemma sym_fields_only_trans (s1 s2 s3 : loader_state) :
  sym_fields_only s1 s2 -> sym_fields_only s2 s3 -> sym_fields_only s1 s3.
Proof.
  unfold sym_fields_only.
  intros (E1 & M1 & R1 & H1) (E2 & M2 & R2 & H2).
  rewrite E1 in E2. rewrite sym_fields_twice in E2.
  rewrite M1 in M2. rewrite dyn_fields_twice in M2.
  repeat split; [exact E2 | exact M2 | congruence | congruence].
Qed.

Lemma sym_fields_only_table (s1 s2 : loader_state) :
  sym_fields_only s1 s2 ->
  f_shdr (w_ep (fst s2)) = f_shdr (w_ep (fst s1))
  /\ f_loc_shdr (w_ep (fst s2)) = f_loc_shdr (w_ep (fst s1))
  /\ f_shdr_rest (snd s2) = f_shdr_rest (snd s1).
Proof.
  intros (E & M & _). rewrite E, M. repeat split.
Qed.

Lemma find_sym_body_ok (k : nat) (s s2 : loader_state) (r : status) :
  find_sym_body k s = Some (r, s2) -> r = DW_DLV_OK.
Proof.
  clear. unfold find_sym_body. destruct s as [w m].
  destruct (f_shdr (w_ep w) !! k) as [psh|]; [|discriminate]. simpl.
  repeat match goal with
         | |- context [if ?c then _ else _] => destruct c
         end;
    intros H; injection H as <- _; reflexivity.
Qed.

(** The loop of [_dwarf_elf_find_sym_sections]. *)
Lemma find_sym_loop (st s' : loader_state) (n : nat) (r : status) :
  for_each (seq 0 n) find_sym_body st = Some (r, s') ->
  r = DW_DLV_OK /\ sym_sections_found st n s' /\ sym_fields_only st s'
  /\ w_errcode (fst s') = w_errcode (fst st).
Proof.
  clear. intros Hrun.
  assert (Hr : r = DW_DLV_OK).
  { destruct r; [reflexivity | |];
      (apply for_each_failure in Hrun; [|discriminate]);
      destruct Hrun as (i & s0 & _ & Hb);
      apply find_sym_body_ok in Hb; discriminate Hb. }
  split; [exact Hr|]. subst r.
  apply (for_each_invariant
           (fun k s => sym_sections_found st k s /\ sym_fields_only st s
                       /\ w_errcode (fst s) = w_errcode (fst st))
           find_sym_body n 0 st s'); [| |exact Hrun].
  - split; [|split; [apply sym_fields_only_refl | reflexivity]].
    repeat split; apply recorded_start.
  - intros i s1 s2 _ (Hf & Hfr & He) Hb.
    destruct (sym_fields_only_table _ _ Hfr) as (HL & _).
    destruct (find_sym_body_step st s1 s2 i _ HL Hf Hb)
      as (_ & Hf2 & Hfr2 & He2).
    split; [exact Hf2|].
    split; [exact (sym_fields_only_trans _ _ _ Hfr Hfr2) | congruence].
Qed.

Lemma find_sym_post (st st' : loader_state) (r : status) :
  _dwarf_elf_find_sym_sections DW_DLE_ELF_STRING_SECTION_ERROR
    DW_DLE_ELF_SECTION_LINK_ERROR st = Some (r, st') ->
  sym_sections_found st
    (Z.to_nat (g_count (f_loc_shdr (w_ep (fst st))))) st'
  /\ sym_fields_only st st'.
Proof.
  unfold _dwarf_elf_find_sym_sections.
  destruct (for_each _ find_sym_body st) as [[res s1]|] eqn:HL;
    simpl; [|discriminate].
  destruct (find_sym_loop _ _ _ _ HL) as (-> & Hf & Hfr & He).
  unfold validate_links, fail_with.
  assert (Hs : forall c r0 s2,
             Some (DW_DLV_ERROR, (set_err c (fst s1), snd s1))
             = Some (r0, s2) ->
             sym_sections_found st
               (Z.to_nat (g_count (f_loc_shdr (w_ep (fst st))))) s2
             /\ sym_fields_only st s2).
  { intros c r0 s2 H. injection H as <- <-. split; [exact Hf | exact Hfr]. }
  destruct (f_symtab_sect_index (w_ep (fst s1)) =? 0); simpl;
    [intros H; injection H as <- <-; split; assumption|].
  destruct (f_symtab_sect_strings_sect_index (w_ep (fst s1)) =? 0); simpl;
    [intros H; injection H as <- <-; split; assumption|].
  destruct (f_shdr_rest (snd s1) !! _) as [pshk|]; simpl; [|discriminate].
  destruct (negb _); simpl;
    intros H; injection H as <- <-; split; assumption.
Qed.

(** X21: the loop of [_dwarf_elf_find_sym_sections] keeps, for each of
    the names .symtab, .strtab, .dynsym, .dynstr and .dynamic, the
    index and the offset (for the two string tables the size) of the
    last section of the table that is not empty and has the name, and
    leaves the fields as they were when no section has it.  Whatever
    status the function returns, those ten fields and the error code
    are all it has changed, and it has read nothing. *)
Theorem find_sym_sections_last_wins (st st' : loader_state) (r : status) :
  _dwarf_elf_find_sym_sections DW_DLE_ELF_STRING_SECTION_ERROR
    DW_DLE_ELF_SECTION_LINK_ERROR st = Some (r, st') ->
  sym_sections_found st
    (Z.to_nat (g_count (f_loc_shdr (w_ep (fst st))))) st'
  /\ sym_fields_only st st'.
Proof. apply find_sym_post. Qed.

(** X22: [_dwarf_elf_find_sym_sections] returns OK exactly when it has
    found no symbol table (the index kept for .symtab is 0) or the
    index kept for .strtab is not 0 and is the [sh_link] of the
    symbol table; it never returns NO_ENTRY.  With ERROR the code is
    DW_DLE_ELF_STRING_SECTION_ERROR when no .strtab was found and
    DW_DLE_ELF_SECTION_LINK_ERROR otherwise; with OK the error code
    is as it was. *)
Theorem find_sym_sections_link_checked (st st' : loader_state)
  (r : status) :
  _dwarf_elf_find_sym_sections DW_DLE_ELF_STRING_SECTION_ERROR
    DW_DLE_ELF_SECTION_LINK_ERROR st = Some (r, st') ->
  let symtab := f_symtab_sect_index (w_ep (fst st')) in
  let strtab := f_symtab_sect_strings_sect_index (w_ep (fst st')) in
  r <> DW_DLV_NO_ENTRY
  /\ (r = DW_DLV_OK <->
      symtab = 0
      \/ (strtab <> 0
          /\ exists pshk : generic_shdr_rest,
              f_shdr_rest (snd st') !! Z.to_nat symtab = Some pshk
              /\ gh_link pshk = strtab))
  /\ (r = DW_DLV_ERROR ->
      w_errcode (fst st')
      = if strtab =? 0 then DW_DLE_ELF_STRING_SECTION_ERROR
        else DW_DLE_ELF_SECTION_LINK_ERROR)
  /\ (r = DW_DLV_OK -> w_errcode (fst st') = w_errcode (fst st)).
Proof.
  unfold _dwarf_elf_find_sym_sections.
  destruct (for_each _ find_sym_body st) as [[res s1]|] eqn:HL;
    simpl; [|discriminate].
  destruct (find_sym_loop _ _ _ _ HL) as (-> & Hf & Hfr & He).
  unfold validate_links, fail_with.
  destruct (Z.eqb_spec (f_symtab_sect_index (w_ep (fst s1))) 0)
    as [Hk|Hk]; simpl.
  { intros H; injection H as <- <-.
    split; [discriminate|]. split; [|split; [discriminate|]].
    - split; [intros _; left; exact Hk | reflexivity].
    - intros _. exact He. }
  destruct (Z.eqb_spec (f_symtab_sect_strings_sect_index (w_ep (fst s1))) 0)
    as [Hs|Hs]; simpl.
  { intros H; injection H as <- <-. simpl.
    split; [discriminate|]. split; [|split; [|discriminate]].
    - split; [discriminate|].
      intros [X|[X _]]; contradiction.
    - intros _. rewrite Hs. reflexivity. }
  destruct (f_shdr_rest (snd s1) !! _) as [pshk|] eqn:Hp; simpl;
    [|discriminate].
  destruct (Z.eqb_spec (f_symtab_sect_strings_sect_index (w_ep (fst s1)))
              (gh_link pshk)) as [Hlk|Hlk]; simpl.
  - intros H; injection H as <- <-.
    split; [discriminate|]. split; [|split; [discriminate|]].
    + split; [|reflexivity]. intros _. right. split; [exact Hs|].
      exists pshk. split; [exact Hp | symmetry; exact Hlk].
    + intros _. exact He.
  - intros H; injection H as <- <-. simpl.
    split; [discriminate|]. split; [|split; [|discriminate]].
    + split; [discriminate|].
      intros [X|[_ (p & Hp' & Hl')]]; [contradiction|].
      rewrite Hp in Hp'. injection Hp' as <-. congruence.
    + intros _.
      destruct (Z.eqb_spec
                  (f_symtab_sect_strings_sect_index (w_ep (fst s1))) 0);
        [contradiction|reflexivity].
Qed.

(** The loop over the first [n] sections of a table of at least [n]
    headers gives a result. *)
Lemma find_sym_loop_total (st : loader_state) (n : nat) :
  (n <= length (f_shdr (w_ep (fst st))))%nat ->
  exists s', for_each (seq 0 n) find_sym_body st = Some (DW_DLV_OK, s').
Proof.
  clear. intros Hn.
  destruct (for_each_total
              (fun s => f_shdr (w_ep (fst s)) = f_shdr (w_ep (fst st)))
              (fun _ _ => True) (seq 0 n) find_sym_body st)
    as (r & s' & Hrun & _); [reflexivity | | auto |].
  - intros i s0 Hi HL. apply in_seq in Hi.
    destruct (lookup_lt_is_Some_2 (f_shdr (w_ep (fst st))) i) as [psh Hp];
      [lia|].
    destruct (find_sym_body i s0) as [[r1 s1]|] eqn:Hb.
    + exists r1, s1. split; [reflexivity|]. split; [|auto].
      intros _.
      assert (Hfr : sym_fields_only s0 s1).
      { unfold find_sym_body in Hb. destruct s0 as [w0 m0].
        simpl in HL. rewrite HL, Hp in Hb. simpl in Hb.
        repeat match type of Hb with
               | context [if ?c then _ else _] => destruct c
               end;
          injection Hb as _ <-; sym_frame w0 m0. }
      destruct (sym_fields_only_table _ _ Hfr) as (-> & _). exact HL.
    + exfalso. unfold find_sym_body in Hb. destruct s0 as [w0 m0].
      simpl in HL. rewrite HL, Hp in Hb. simpl in Hb.
      repeat match type of Hb with
             | context [if ?c then _ else _] => destruct c
             end; discriminate Hb.
  - exists s'. destruct (find_sym_loop _ _ _ _ Hrun) as (-> & _).
    exact Hrun.
Qed.

Lemma find_sym_stage (st : loader_state) :
  let ep := w_ep (fst st) in
  g_count (f_loc_shdr ep) <= Z.of_nat (length (f_shdr ep)) ->
  length (f_shdr_rest (snd st)) = length (f_shdr ep) ->
  0 <= f_symtab_sect_index ep < Z.of_nat (length (f_shdr ep)) ->
  exists r st',
    _dwarf_elf_find_sym_sections DW_DLE_ELF_STRING_SECTION_ERROR
      DW_DLE_ELF_SECTION_LINK_ERROR st = Some (r, st')
    /\ 0 <= f_symtab_sect_index (w_ep (fst st'))
       < Z.of_nat (length (f_shdr (w_ep (fst st')))).
Proof.
  intros ep Hc Hlen Hidx. unfold _dwarf_elf_find_sym_sections.
  fold ep.
  destruct (find_sym_loop_total st (Z.to_nat (g_count (f_loc_shdr ep))))
    as [s1 Hrun]; [fold ep; lia|].
  rewrite Hrun. simpl.
  destruct (find_sym_loop _ _ _ _ Hrun) as (_ & Hf & Hfr & _).
  destruct (sym_fields_only_table _ _ Hfr) as (HL & _ & HR).
  fold ep in HL.
  assert (Hin : 0 <= f_symtab_sect_index (w_ep (fst s1))
                < Z.of_nat (length (f_shdr ep))).
  { destruct Hf as ([[_ Hu]|(i & sh & (Hi & _) & Hu)] & _);
      fold ep in Hu; injection Hu as -> _; [exact Hidx | lia]. }
  unfold validate_links, fail_with.
  destruct (_ =? 0); simpl;
    [eexists _, _; split; [reflexivity | rewrite HL; exact Hin]|].
  destruct (_ =? 0); simpl;
    [eexists _, _; split; [reflexivity | simpl; rewrite HL; exact Hin]|].
  destruct (lookup_lt_is_Some_2 (f_shdr_rest (snd s1))
              (Z.to_nat (f_symtab_sect_index (w_ep (fst s1)))))
    as [pshk ->]; [rewrite HR, Hlen; lia|].
  simpl. destruct (negb _); simpl;
    eexists _, _; (split; [reflexivity | simpl; rewrite HL; exact Hin]).
Qed.

(** X23: [_dwarf_elf_find_sym_sections] indexes the table with the
    index kept for .symtab without a test of its own.  When the
    section count does not exceed the table and the index it starts
    with lies in the table, the index it ends with does, and the call
    returns a status. *)
Theorem find_sym_sections_in_table (st : loader_state) :
  let ep := w_ep (fst st) in
  g_count (f_loc_shdr ep) <= Z.of_nat (length (f_shdr ep)) ->
  length (f_shdr_rest (snd st)) = length (f_shdr ep) ->
  0 <= f_symtab_sect_index ep < Z.of_nat (length (f_shdr ep)) ->
  exists r st',
    _dwarf_elf_find_sym_sections DW_DLE_ELF_STRING_SECTION_ERROR
      DW_DLE_ELF_SECTION_LINK_ERROR st = Some (r, st')
    /\ 0 <= f_symtab_sect_index (w_ep (fst st'))
       < Z.of_nat (length (f_shdr (w_ep (fst st')))).
Proof. apply find_sym_stage. Qed.

(** ** The stages of the loading of the section headers *)

Lemma Forall_fmap_eq {A : Type} (f : A -> A) (P : A -> Prop)
  (L L' : list A) :
  f <$> L' = f <$> L -> (forall x, P (f x) <-> P x) ->
  Forall P L -> Forall P L'.
Proof.
  intros Heq Hf HL. apply Forall_lookup. intros i x Hx.
  assert (H : (f <$> L) !! i = Some (f x))
    by (rewrite <- Heq, list_lookup_fmap, Hx; reflexivity).
  rewrite list_lookup_fmap in H.
  destruct (L !! i) as [y|] eqn:Hy; [|discriminate].
  injection H as H.
  apply Hf. rewrite <- H. apply Hf.
  exact (proj1 (Forall_lookup _ _) HL i y Hy).
Qed.

(** [_dwarf_elf_load_sectstrings] changes the buffer of the
    section-name strings only. *)
Lemma sectstrings_frame (stringsection : Z) (w w' : world) (r : status) :
  _dwarf_elf_load_sectstrings RRMOA uninit_byte stringsection w
  = Some (r, w') ->
  shstrings_erased (w_ep w') = shstrings_erased (w_ep w).
Proof.
  unfold _dwarf_elf_load_sectstrings. simpl.
  destruct (f_ehdr (w_ep w)) as [ehdr|]; simpl; [|discriminate].
  destruct (stringsection >=? ge_shnum ehdr);
    [intros H; injection H as <- <-; reflexivity|].
  destruct (f_shdr (w_ep w) !! Z.to_nat stringsection) as [psh|];
    simpl; [|discriminate].
  destruct (is_empty_section (gh_type psh));
    [intros H; injection H as <- <-; reflexivity|].
  destruct (_ || _); [intros H; injection H as <- <-; reflexivity|].
  destruct (gh_size psh >? f_elf_shstrings_max (w_ep w)).
  - destruct (malloc (upd_ep (set_f_elf_shstrings_length 0) w))
      as [p w1] eqn:M.
    destruct (malloc_world _ _ _ M) as (E1 & _).
    simpl in E1. destruct p; simpl.
    + destruct (do_RRMOA RRMOA _ _ _) as [rd w2] eqn:D.
      destruct (do_RRMOA_world _ _ _ _ _ D) as (E2 & _).
      simpl in E2.
      destruct rd.
      * rewrite E2. simpl. intros H; injection H as <- <-.
        unfold shstrings_erased. simpl. rewrite E2. simpl. rewrite E1.
        reflexivity.
      * intros H; injection H as <- <-.
        unfold shstrings_erased. rewrite E2. simpl. rewrite E1.
        reflexivity.
      * intros H; injection H as <- <-.
        unfold shstrings_erased. rewrite E2. simpl. rewrite E1.
        reflexivity.
    + intros H; injection H as <- <-.
      unfold shstrings_erased. simpl. rewrite E1. reflexivity.
  - simpl.
    destruct (do_RRMOA RRMOA _ _ _) as [rd w2] eqn:D.
    destruct (do_RRMOA_world _ _ _ _ _ D) as (E2 & _).
    simpl in E2.
    destruct rd.
    + rewrite E2. simpl.
      destruct (f_elf_shstrings_data (w_ep w)) as [buf|].
      * intros H; injection H as <- <-.
        unfold shstrings_erased. simpl. rewrite E2. reflexivity.
      * destruct (gh_size psh =? 0); [|discriminate].
        intros H; injection H as <- <-.
        unfold shstrings_erased. rewrite E2. reflexivity.
    + intros H; injection H as <- <-.
      unfold shstrings_erased. rewrite E2. reflexivity.
    + intros H; injection H as <- <-.
      unfold shstrings_erased. rewrite E2. reflexivity.
Qed.

(** With the table of the ELF header loaded,
    [_dwarf_elf_load_sectstrings] returns a status. *)
Lemma sectstrings_total (stringsection : Z) (w : world)
  (e : generic_ehdr) :
  f_ehdr (w_ep w) = Some e -> 0 < ge_shnum e ->
  length (f_shdr (w_ep w)) = Z.to_nat (ge_shnum e) ->
  shstrings_consistent (w_ep w) -> sizes_nonneg (f_shdr (w_ep w)) ->
  exists r w',
    _dwarf_elf_load_sectstrings RRMOA uninit_byte stringsection w
    = Some (r, w').
Proof.
  intros He Hn Hlen [[Hl0 Hlm] Hbuf] Hsz.
  unfold _dwarf_elf_load_sectstrings. simpl. rewrite He. simpl.
  destruct (Z.geb_spec stringsection (ge_shnum e)) as [Hge|Hlt];
    [eauto|].
  destruct (lookup_lt_is_Some_2 (f_shdr (w_ep w))
              (Z.to_nat stringsection)) as [psh Hp]; [lia|].
  rewrite Hp. simpl.
  assert (Hs : 0 <= gh_size psh)
    by (destruct (proj1 (Forall_lookup _ _) Hsz _ _ Hp)
          as (_ & _ & [Hs _]); exact Hs).
  destruct (is_empty_section (gh_type psh)); [eauto|].
  destruct (_ || _); [eauto|].
  destruct (Z.gtb_spec (gh_size psh) (f_elf_shstrings_max (w_ep w)))
    as [Hgrow|Hfit].
  - destruct (malloc (upd_ep (set_f_elf_shstrings_length 0) w))
      as [p w1] eqn:M.
    destruct (malloc_world _ _ _ M) as (E1 & _).
    simpl in E1. destruct p; simpl; [|eauto].
    destruct (do_RRMOA RRMOA _ _ _) as [rd w2] eqn:D.
    destruct (do_RRMOA_world _ _ _ _ _ D) as (E2 & _).
    simpl in E2.
    destruct rd; [|eauto|eauto].
    rewrite E2. simpl. eauto.
  - simpl.
    destruct (do_RRMOA RRMOA _ _ _) as [rd w2] eqn:D.
    destruct (do_RRMOA_world _ _ _ _ _ D) as (E2 & _).
    simpl in E2.
    destruct rd; [|eauto|eauto].
    rewrite E2. simpl.
    destruct (f_elf_shstrings_data (w_ep w)) as [buf|]; [eauto|].
    destruct (Z.eqb_spec (gh_size psh) 0); [eauto | lia].
Qed.

(** What each stage keeps of a loaded table. *)
Lemma table_loaded_strings (e : generic_ehdr) (w w' : world)
  (m : ep_rest) :
  shstrings_erased (w_ep w') = shstrings_erased (w_ep w) ->
  shstrings_consistent (w_ep w') ->
  table_loaded e (w, m) /\ sizes_nonneg (f_shdr (w_ep w)) ->
  table_loaded e (w', m) /\ sizes_nonneg (f_shdr (w_ep w')).
Proof.
  clear. intros H Hc [(He & Hn & Hl & _ & Hi) Hs].
  simpl in He, Hn, Hl, Hi.
  unfold shstrings_erased in H.
  pose proof (f_equal f_ehdr H) as X1.
  pose proof (f_equal f_loc_shdr H) as X2.
  pose proof (f_equal f_shdr H) as X3.
  pose proof (f_equal f_symtab_sect_index H) as X4.
  simpl in X1, X2, X3, X4.
  unfold table_loaded. simpl. rewrite X1, X2, X3, X4.
  repeat split; try tauto; try apply Hc; apply Hs.
Qed.

Lemma table_loaded_names (e : generic_ehdr) (w w' : world)
  (m : ep_rest) :
  names_erased (w_ep w') = names_erased (w_ep w) ->
  table_loaded e (w, m) /\ sizes_nonneg (f_shdr (w_ep w)) ->
  table_loaded e (w', m) /\ sizes_nonneg (f_shdr (w_ep w')).
Proof.
  clear. intros H [(He & Hn & Hl & Hc & Hi) Hs].
  simpl in He, Hn, Hl, Hc, Hi.
  unfold names_erased in H.
  pose proof (f_equal f_ehdr H) as X1.
  pose proof (f_equal f_loc_shdr H) as X2.
  pose proof (f_equal f_shdr H) as X3.
  pose proof (f_equal f_symtab_sect_index H) as X4.
  pose proof (f_equal f_elf_shstrings_data H) as X5.
  pose proof (f_equal f_elf_shstrings_length H) as X6.
  pose proof (f_equal f_elf_shstrings_max H) as X7.
  simpl in X1, X2, X3, X4, X5, X6, X7.
  assert (Hlen : length (f_shdr (w_ep w')) = length (f_shdr (w_ep w))).
  { pose proof (f_equal length X3) as X. rewrite !length_fmap in X.
    exact X. }
  unfold table_loaded, shstrings_consistent in *. simpl.
  rewrite X1, X2, X4, X5, X6, X7, Hlen.
  split; [tauto|].
  apply (Forall_fmap_eq (set_gh_namestring "") _ _ _ X3);
    [intros x; reflexivity | exact Hs].
Qed.

Lemma table_loaded_groups (e : generic_ehdr) (w w' : world)
  (m : ep_rest) :
  groups_erased (w_ep w') = groups_erased (w_ep w) ->
  table_loaded e (w, m) -> table_loaded e (w', m).
Proof.
  clear. intros H (He & Hn & Hl & Hc & Hi).
  simpl in He, Hn, Hl, Hc, Hi.
  unfold groups_erased in H.
  pose proof (f_equal f_ehdr H) as X1.
  pose proof (f_equal f_loc_shdr H) as X2.
  pose proof (f_equal f_shdr H) as X3.
  pose proof (f_equal f_symtab_sect_index H) as X4.
  pose proof (f_equal f_elf_shstrings_data H) as X5.
  pose proof (f_equal f_elf_shstrings_length H) as X6.
  pose proof (f_equal f_elf_shstrings_max H) as X7.
  simpl in X1, X2, X3, X4, X5, X6, X7.
  assert (Hlen : length (f_shdr (w_ep w')) = length (f_shdr (w_ep w))).
  { pose proof (f_equal length X3) as X. rewrite !length_fmap in X.
    exact X. }
  unfold table_loaded, shstrings_consistent in *. simpl.
  rewrite X1, X2, X4, X5, X6, X7, Hlen. tauto.
Qed.

Lemma table_loaded_sym (e : generic_ehdr) (st st' : loader_state) :
  sym_fields_only st st' ->
  0 <= f_symtab_sect_index (w_ep (fst st'))
  < Z.of_nat (length (f_shdr (w_ep (fst st')))) ->
  table_loaded e st -> table_loaded e st'.
Proof.
  clear. intros Hfr Hin (He & Hn & Hl & Hc & Hi).
  destruct (sym_fields_only_table _ _ Hfr) as (X3 & X2 & XR).
  destruct Hfr as (E & _).
  pose proof (f_equal f_ehdr E) as X1.
  pose proof (f_equal f_elf_shstrings_data E) as X5.
  pose proof (f_equal f_elf_shstrings_length E) as X6.
  pose proof (f_equal f_elf_shstrings_max E) as X7.
  simpl in X1, X5, X6, X7.
  unfold table_loaded, shstrings_consistent in *.
  rewrite X3 in Hin. rewrite X1, X2, X3, XR, X5, X6, X7.
  repeat split; try tauto; lia.
Qed.

(** The table that [elf_load_sectheaders32] and
    [elf_load_sectheaders64] have loaded. *)
Lemma table_loaded_start (bits : Z) (e : generic_ehdr)
  (st st' : loader_state) :
  2 ^ bits <= two64 ->
  f_ehdr (w_ep (fst st)) = Some e ->
  shstrings_consistent (w_ep (fst st)) ->
  f_symtab_sect_index (w_ep (fst st)) = 0 ->
  0 < ge_shnum e ->
  sections_loaded bits (ge_shoff e) (ge_shnum e) st st' ->
  table_loaded e st' /\ sizes_nonneg (f_shdr (w_ep (fst st')))
  /\ f_filesize (w_ep (fst st')) = f_filesize (w_ep (fst st)).
Proof.
  clear. intros Hb He Hc Hi Hn (L & R & E & M & HL & HR & _ & Hf).
  unfold table_loaded. rewrite E, M. simpl.
  split; [|split; [|reflexivity]].
  - repeat split; try assumption; try apply Hc; lia.
  - apply Forall_lookup. intros i sh Hsh.
    destruct (lookup_lt_is_Some_2 R i) as [rest Hrest];
      [rewrite HR, <- HL; exact (lookup_lt_Some _ _ _ Hsh)|].
    destruct (Hf i sh rest Hsh Hrest) as (_ & Hw & _).
    unfold shdr_fields_ok in Hw. unfold is_u64.
    repeat split; try tauto; lia.
Qed.

Lemma sectstrings_ok_in_table (stringsection : Z) (w w' : world)
  (e : generic_ehdr) :
  f_ehdr (w_ep w) = Some e ->
  _dwarf_elf_load_sectstrings RRMOA uninit_byte stringsection w
  = Some (DW_DLV_OK, w') ->
  stringsection < ge_shnum e.
Proof.
  intros He. unfold _dwarf_elf_load_sectstrings. simpl. rewrite He.
  simpl. destruct (Z.geb_spec stringsection (ge_shnum e));
    [discriminate | intros _; assumption].
Qed.

(** The read of a successful [_dwarf_elf_load_sectstrings]. *)
Lemma sectstrings_ok_read (stringsection : Z) (w w' : world)
  (e : generic_ehdr) (psh : generic_shdr) :
  f_ehdr (w_ep w) = Some e ->
  f_shdr (w_ep w) !! Z.to_nat stringsection = Some psh ->
  is_u64 (gh_offset psh) -> is_u64 (gh_size psh) ->
  f_filesize (w_ep w) <= 2 ^ 56 ->
  _dwarf_elf_load_sectstrings RRMOA uninit_byte stringsection w
  = Some (DW_DLV_OK, w') ->
  w_reads w' = (w_reads w ++ [(gh_offset psh, gh_size psh)])%list
  /\ gh_offset psh + gh_size psh <= f_filesize (w_ep w).
Proof.
  intros He Hp Ho Hsz Hf. unfold _dwarf_elf_load_sectstrings. simpl.
  rewrite He. simpl.
  destruct (stringsection >=? ge_shnum e); [discriminate|].
  rewrite Hp. simpl.
  destruct (is_empty_section (gh_type psh)); [discriminate|].
  destruct (Z.geb_spec (gh_offset psh) (f_filesize (w_ep w)));
    simpl; [discriminate|].
  destruct (Z.gtb_spec (gh_size psh) (f_filesize (w_ep w)));
    simpl; [discriminate|].
  unfold is_u64, two64 in Ho, Hsz.
  rewrite (u64_id (gh_offset psh + gh_size psh))
    by (unfold is_u64, two64; lia).
  destruct (Z.gtb_spec (gh_offset psh + gh_size psh)
              (f_filesize (w_ep w))); simpl; [discriminate|].
  destruct (gh_size psh >? f_elf_shstrings_max (w_ep w)).
  - destruct (malloc (upd_ep (set_f_elf_shstrings_length 0) w))
      as [p w1] eqn:M.
    destruct (malloc_world _ _ _ M) as (E1 & R1 & _).
    simpl in E1, R1. destruct p; simpl; [|discriminate].
    destruct (do_RRMOA RRMOA _ _ _) as [rd w2] eqn:D.
    destruct (do_RRMOA_world _ _ _ _ _ D) as (E2 & R2 & _).
    simpl in E2, R2.
    destruct rd; [|discriminate|discriminate].
    rewrite E2. simpl. intros Hq; injection Hq as <-. simpl.
    split; [congruence | lia].
  - simpl.
    destruct (do_RRMOA RRMOA _ _ _) as [rd w2] eqn:D.
    destruct (do_RRMOA_world _ _ _ _ _ D) as (E2 & R2 & _).
    simpl in E2, R2.
    destruct rd; [|discriminate|discriminate].
    rewrite E2. simpl.
    destruct (f_elf_shstrings_data (w_ep w)) as [buf|].
    + intros Hq; injection Hq as <-. simpl. split; [congruence | lia].
    + destruct (gh_size psh =? 0); [|discriminate].
      intros Hq; injection Hq as <-. split; [congruence | lia].
Qed.

Lemma lookup_fmap_eq {A : Type} (f : A -> A) (L L' : list A) (i : nat)
  (x : A) :
  f <$> L' = f <$> L -> L !! i = Some x ->
  exists x', L' !! i = Some x' /\ f x' = f x.
Proof.
  clear. intros Heq Hx.
  assert (H : (f <$> L') !! i = Some (f x))
    by (rewrite Heq, list_lookup_fmap, Hx; reflexivity).
  rewrite list_lookup_fmap in H.
  destruct (L' !! i) as [x'|]; [|discriminate].
  injection H as H. exists x'. split; [reflexivity | exact H].
Qed.

Lemma on_world_run (f : world -> option (status * world)) (w w' : world)
  (m : ep_rest) (r : status) :
  f w = Some (r, w') -> on_world f (w, m) = Some (r, (w', m)).
Proof. clear. intros H. unfold on_world. simpl. rewrite H. reflexivity. Qed.

(** The stages that follow the loading of the table, up to the set-up
    of the section groups. *)
Lemma stages_after_table (e : generic_ehdr) (st1 : loader_state) :
  table_loaded e st1 -> sizes_nonneg (f_shdr (w_ep (fst st1))) ->
  f_filesize (w_ep (fst st1)) <= 2 ^ 56 ->
  let k :=
    ehdr ← f_ehdr (w_ep (fst st1));
    '(res, st) ← on_world (_dwarf_elf_load_sectstrings RRMOA uninit_byte
                             (ge_shstrndx ehdr)) st1;
    match res with
    | DW_DLV_OK =>
        '(res, st) ← on_world _dwarf_elf_load_sect_namestring st;
        match res with
        | DW_DLV_OK =>
            '(res, st) ← _dwarf_elf_find_sym_sections
                           DW_DLE_ELF_STRING_SECTION_ERROR
                           DW_DLE_ELF_SECTION_LINK_ERROR st;
            match res with
            | DW_DLV_OK =>
                on_world (_dwarf_elf_setup_all_section_groups
                            WORDS_BIGENDIAN ign RRMOA uninit_word) st
            | _ => Some (res, st)
            end
        | _ => Some (res, st)
        end
    | _ => Some (res, st)
    end in
  (exists r st',
      r <> DW_DLV_OK /\ k = Some (r, st')
      /\ forall st4,
          ~ later_stages RRMOA uninit_byte DW_DLE_ELF_STRING_SECTION_ERROR
              DW_DLE_ELF_SECTION_LINK_ERROR e st1 st4)
  \/ (exists st4,
         later_stages RRMOA uninit_byte DW_DLE_ELF_STRING_SECTION_ERROR
           DW_DLE_ELF_SECTION_LINK_ERROR e st1 st4
         /\ table_loaded e st4 /\ strings_read e st1 st4
         /\ k = on_world (_dwarf_elf_setup_all_section_groups
                            WORDS_BIGENDIAN ign RRMOA uninit_word) st4).
Proof.
  destruct st1 as [w1 m1]. intros HT Hs Hfs. simpl in Hs, Hfs.
  pose proof HT as (He & (Hn & Hc) & (Hl & Hlr) & Hcons & Hi).
  simpl in He, Hc, Hl, Hlr, Hcons, Hi.
  simpl. rewrite He. simpl.
  destruct (sectstrings_total (ge_shstrndx e) w1 e He Hn Hl Hcons Hs)
    as (r2 & w2 & H2).
  pose proof (on_world_run _ _ _ m1 _ H2) as G2.
  rewrite G2. simpl.
  assert (Hfail2 : r2 <> DW_DLV_OK ->
            forall st4,
              ~ later_stages RRMOA uninit_byte
                  DW_DLE_ELF_STRING_SECTION_ERROR
                  DW_DLE_ELF_SECTION_LINK_ERROR e (w1, m1) st4).
  { intros Hr st4 (st2 & st3 & X2 & _). rewrite G2 in X2.
    injection X2 as X2 _. exact (Hr X2). }
  destruct r2;
    [| left; eexists _, _; split; [|split; [reflexivity | apply Hfail2; discriminate]];
        discriminate
     | left; eexists _, _; split; [|split; [reflexivity | apply Hfail2; discriminate]];
        discriminate ].
  clear Hfail2.
  pose proof (sectstrings_ok_in_table _ _ _ _ He H2) as Hidx.
  destruct (lookup_lt_is_Some_2 (f_shdr (w_ep w1))
              (Z.to_nat (ge_shstrndx e))) as [psh Hp]; [lia|].
  destruct (proj1 (Forall_lookup _ _) Hs _ _ Hp) as (_ & Hoff & Hsz).
  destruct (sectstrings_post _ _ _ _ _ Hcons Hp (proj1 Hsz) H2)
    as (Hcons2 & _).
  destruct (sectstrings_ok_read _ _ _ _ _ He Hp Hoff Hsz Hfs H2)
    as (Hr2 & Hin2).
  pose proof (sectstrings_frame _ _ _ _ H2) as Hfr2.
  destruct (table_loaded_strings e w1 w2 m1 Hfr2 Hcons2 (conj HT Hs))
    as [HT2 Hs2].
  assert (Hp2 : f_shdr (w_ep w2) !! Z.to_nat (ge_shstrndx e) = Some psh).
  { pose proof (f_equal f_shdr Hfr2) as X. simpl in X. rewrite X.
    exact Hp. }
  pose proof HT2 as (He2 & (_ & Hc2) & (Hl2 & Hlr2) & _ & Hi2).
  simpl in He2, Hc2, Hl2, Hlr2, Hi2.
  destruct (names_stage w2 Hcons2) as (r3 & w3 & H3 & _ & Hfr3 & Hr3).
  { rewrite Hc2, Hl2. lia. }
  { intros i sh Hsh.
    exact (proj1 (proj1 (Forall_lookup _ _) Hs2 _ _ Hsh)). }
  pose proof (on_world_run _ _ _ m1 _ H3) as G3.
  rewrite G3. simpl.
  assert (Hfail3 : r3 <> DW_DLV_OK ->
            forall st4,
              ~ later_stages RRMOA uninit_byte
                  DW_DLE_ELF_STRING_SECTION_ERROR
                  DW_DLE_ELF_SECTION_LINK_ERROR e (w1, m1) st4).
  { intros Hr st4 (st2 & st3 & X2 & X3 & _). rewrite G2 in X2.
    injection X2 as <-. rewrite G3 in X3.
    injection X3 as X3 _. exact (Hr X3). }
  destruct r3;
    [| left; eexists _, _; split; [|split; [reflexivity | apply Hfail3; discriminate]];
        discriminate
     | left; eexists _, _; split; [|split; [reflexivity | apply Hfail3; discriminate]];
        discriminate ].
  clear Hfail3.
  destruct (table_loaded_names e w2 w3 m1 Hfr3 (conj HT2 Hs2))
    as [HT3 Hs3].
  assert (Hp3 : exists psh3,
             f_shdr (w_ep w3) !! Z.to_nat (ge_shstrndx e) = Some psh3
             /\ gh_offset psh3 = gh_offset psh
             /\ gh_size psh3 = gh_size psh).
  { pose proof (f_equal f_shdr Hfr3) as X. simpl in X.
    destruct (lookup_fmap_eq _ _ _ _ _ X Hp2) as (psh3 & Hl3' & Hx).
    exists psh3. split; [exact Hl3'|].
    split; [exact (f_equal gh_offset Hx) | exact (f_equal gh_size Hx)]. }
  destruct Hp3 as (psh3 & Hp3 & Ho3 & Hz3).
  pose proof HT3 as (He3 & (_ & Hc3) & (Hl3 & Hlr3) & _ & Hi3).
  simpl in He3, Hc3, Hl3, Hlr3, Hi3.
  destruct (find_sym_stage (w3, m1)) as (r4 & st4 & H4 & Hin4).
  { simpl. rewrite Hc3, Hl3. lia. }
  { simpl. rewrite Hlr3, Hl3. reflexivity. }
  { simpl. rewrite Hl3. lia. }
  rewrite H4. simpl.
  assert (Hfail4 : r4 <> DW_DLV_OK ->
            forall st5,
              ~ later_stages RRMOA uninit_byte
                  DW_DLE_ELF_STRING_SECTION_ERROR
                  DW_DLE_ELF_SECTION_LINK_ERROR e (w1, m1) st5).
  { intros Hr st5 (st2 & st3 & X2 & X3 & X4). rewrite G2 in X2.
    injection X2 as <-. rewrite G3 in X3. injection X3 as <-.
    rewrite H4 in X4. injection X4 as X4 _. exact (Hr X4). }
  destruct r4;
    [| left; eexists _, _; split; [|split; [reflexivity | apply Hfail4; discriminate]];
        discriminate
     | left; eexists _, _; split; [|split; [reflexivity | apply Hfail4; discriminate]];
        discriminate ].
  clear Hfail4.
  right. exists st4.
  split; [exists (w2, m1), (w3, m1); auto|].
  destruct (find_sym_post _ _ _ H4) as (_ & Hfr4).
  split; [exact (table_loaded_sym e _ _ Hfr4 Hin4 HT3)|].
  split; [|reflexivity].
  destruct (sym_fields_only_table _ _ Hfr4) as (X4 & _).
  destruct Hfr4 as (_ & _ & Hr4 & _). simpl in X4, Hr4.
  exists psh3. simpl. rewrite X4, Hr4, Hr3, Hr2, Ho3, Hz3.
  split; [exact Hp3|]. split; [reflexivity | exact Hin2].
Qed.

Lemma sectheaders_stages (st : loader_state) (e : generic_ehdr) :
  let ep := w_ep (fst st) in
  f_ehdr ep = Some e ->
  0 <= ge_shoff e -> 0 <= ge_shentsize e < 65536 ->
  0 <= ge_shnum e < 65536 ->
  f_filesize ep <= 2 ^ 56 ->
  shstrings_consistent ep -> f_symtab_sect_index ep = 0 ->
  let run :=
    _dwarf_load_elf_sectheaders WORDS_BIGENDIAN RRMOA ign uninit_byte
      uninit_word DW_DLE_ELF_SECTION_COUNT_MISMATCH
      DW_DLE_ELF_STRING_SECTION_ERROR DW_DLE_ELF_SECTION_LINK_ERROR st in
  let reached :=
    stages_before_groups WORDS_BIGENDIAN RRMOA uninit_byte
      DW_DLE_ELF_SECTION_COUNT_MISMATCH DW_DLE_ELF_STRING_SECTION_ERROR
      DW_DLE_ELF_SECTION_LINK_ERROR e st in
  (exists r st',
      r <> DW_DLV_OK /\ run = Some (r, st')
      /\ forall st4, ~ reached st4)
  \/ (exists st4,
         reached st4 /\ table_loaded e st4 /\ table_reads e st st4
         /\ run = on_world (_dwarf_elf_setup_all_section_groups
                              WORDS_BIGENDIAN ign RRMOA uninit_word) st4).
Proof.
  intros ep He Ho Hes Hn Hf Hcons Hi run reached.
  assert (Hstage : forall bits cast,
             2 ^ bits <= two64 ->
             (forall cw buf i k,
                 let h := generic_shdr_of WORDS_BIGENDIAN cw k
                            (cast buf i) in
                 shdr_fields_ok bits (fst h) (snd h)) ->
             let load :=
               elf_load_sectheaders
                 DW_DLE_ELF_SECTION_COUNT_MISMATCH (shdr_size bits)
                 (generic_shdr_from_shdr WORDS_BIGENDIAN RRMOA cast
                    (shdr_size bits))
                 (ge_shoff e) (ge_shentsize e) (ge_shnum e) st in
             let later :=
               later_stages RRMOA uninit_byte
                 DW_DLE_ELF_STRING_SECTION_ERROR
                 DW_DLE_ELF_SECTION_LINK_ERROR e in
             forall k : loader_state -> option (status * loader_state),
               (forall st1,
                   table_loaded e st1 ->
                   sizes_nonneg (f_shdr (w_ep (fst st1))) ->
                   f_filesize (w_ep (fst st1)) <= 2 ^ 56 ->
                   (exists r st',
                       r <> DW_DLV_OK /\ k st1 = Some (r, st')
                       /\ forall st4, ~ later st1 st4)
                   \/ (exists st4,
                          later st1 st4
                          /\ table_loaded e st4 /\ strings_read e st1 st4
                          /\ k st1
                             = on_world
                                 (_dwarf_elf_setup_all_section_groups
                                    WORDS_BIGENDIAN ign RRMOA uninit_word)
                                 st4)) ->
               (exists r st',
                   r <> DW_DLV_OK
                   /\ load
                      ≫= (fun '(res, st1) =>
                            match res with
                            | DW_DLV_OK => k st1
                            | _ => Some (res, st1)
                            end)
                      = Some (r, st')
                   /\ forall st4,
                       ~ (exists st1, load = Some (DW_DLV_OK, st1)
                                      /\ later st1 st4))
               \/ (exists st4,
                      (exists st1, load = Some (DW_DLV_OK, st1)
                                   /\ later st1 st4)
                      /\ table_loaded e st4 /\ table_reads e st st4
                      /\ load
                         ≫= (fun '(res, st1) =>
                               match res with
                               | DW_DLV_OK => k st1
                               | _ => Some (res, st1)
                               end)
                         = on_world
                             (_dwarf_elf_setup_all_section_groups
                                WORDS_BIGENDIAN ign RRMOA uninit_word)
                             st4)).
  { intros bits cast Hb Hcast load later k Hk.
    destruct (sectheaders_total cast (shdr_size bits) (ge_shoff e)
                (ge_shentsize e) (ge_shnum e) st)
      as (r1 & st1 & H1); [lia | lia | nia|].
    fold load in H1. rewrite H1. simpl.
    destruct (sectheaders_post bits cast _ _ _ _ _ _ Hcast Ho
                (proj1 Hes) (proj1 Hn) Hf H1) as (Hok & _ & Hrd).
    assert (Hfail1 : r1 <> DW_DLV_OK ->
              forall st4,
                ~ (exists st0, Some (r1, st1) = Some (DW_DLV_OK, st0)
                               /\ later st0 st4)).
    { intros Hr st4 (st0 & X1 & _). injection X1 as X1 _.
      exact (Hr X1). }
    destruct r1;
      [| left; eexists _, _; split; [|split; [reflexivity | apply Hfail1; discriminate]];
          discriminate
       | left; eexists _, _; split; [|split; [reflexivity | apply Hfail1; discriminate]];
          discriminate ].
    clear Hfail1.
    destruct (Hok eq_refl) as (Hl & Hpos & _ & Hr1).
    destruct (table_loaded_start bits e st st1 Hb He Hcons Hi Hpos Hl)
      as (HT1 & Hs1 & Hf1).
    assert (Hin1 : ge_shoff e + ge_shnum e * ge_shentsize e
                   <= f_filesize (w_ep (fst st))).
    { destruct Hrd as [Hrd|[_ Hrd]]; [|exact Hrd].
      rewrite Hr1 in Hrd. apply (f_equal length) in Hrd.
      rewrite length_app in Hrd. simpl in Hrd. lia. }
    destruct (Hk st1 HT1 Hs1)
      as [(r & st' & Hr & Hrun & Hno)|(st4 & Hlat & HT4 & Hsr & Hrun)];
      [rewrite Hf1; exact Hf | |].
    - left. exists r, st'. split; [exact Hr|]. split; [exact Hrun|].
      intros st4 (st0 & X1 & X2). injection X1 as <-.
      exact (Hno st4 X2).
    - right. exists st4. split; [exists st1; auto|].
      split; [exact HT4|]. split; [|exact Hrun].
      destruct Hsr as (psh & Hp & Hr4 & Hin4).
      exists psh. split; [exact Hp|].
      rewrite Hr4, Hr1, <- app_assoc. simpl.
      split; [reflexivity|]. split; [exact Hin1|].
      rewrite <- Hf1. exact Hin4. }
  unfold reached, stages_before_groups, headers_stage.
  unfold run, _dwarf_load_elf_sectheaders. fold ep.
  destruct (f_offsetsize ep =? 32).
  - rewrite He. simpl.
    unfold elf_load_sectheaders32, generic_shdr_from_shdr32.
    change sizeof_dw_elf32_shdr with (shdr_size 32).
    apply (Hstage 32 cast_dw_elf32_shdr).
    + unfold two64. lia.
    + intros cw buf i k. apply generic_shdr_of_fields32.
    + intros st1 HT1 Hs1 Hf1. exact (stages_after_table e st1 HT1 Hs1 Hf1).
  - destruct (f_offsetsize ep =? 64).
    + rewrite He. simpl.
      unfold elf_load_sectheaders64, generic_shdr_from_shdr64.
      change sizeof_dw_elf64_shdr with (shdr_size 64).
      apply (Hstage 64 cast_dw_elf64_shdr).
      * unfold two64. lia.
      * intros cw buf i k. apply generic_shdr_of_fields64.
      * intros st1 HT1 Hs1 Hf1.
        exact (stages_after_table e st1 HT1 Hs1 Hf1).
    + simpl. left. eexists _, _.
      split; [|split; [reflexivity|]]; [discriminate|].
      intros st4 (st1 & X1 & _). unfold fail_with in X1.
      discriminate X1.
Qed.

(** X24: [_dwarf_load_elf_sectheaders], called on a record that has
    its ELF header and nothing else yet, for a file of at most 2^56
    bytes, keeps every access inside the tables while it loads the
    section headers, the section-name strings and the names and
    finds the sections of the symbols.  It gives no result exactly
    when these four stages have all returned OK and the last step,
    the set-up of the section groups run on the state they leave,
    steps outside the table; and whenever the four stages have
    returned OK the table of that state is loaded, the two reads of
    the headers and of the strings were issued inside the file, and
    the result of the call is that of the set-up. *)
Theorem load_sectheaders_in_table (st : loader_state)
  (e : generic_ehdr) :
  let ep := w_ep (fst st) in
  f_ehdr ep = Some e ->
  0 <= ge_shoff e -> 0 <= ge_shentsize e < 65536 ->
  0 <= ge_shnum e < 65536 ->
  f_filesize ep <= 2 ^ 56 ->
  shstrings_consistent ep -> f_symtab_sect_index ep = 0 ->
  let run :=
    _dwarf_load_elf_sectheaders WORDS_BIGENDIAN RRMOA ign uninit_byte
      uninit_word DW_DLE_ELF_SECTION_COUNT_MISMATCH
      DW_DLE_ELF_STRING_SECTION_ERROR DW_DLE_ELF_SECTION_LINK_ERROR st in
  let reached :=
    stages_before_groups WORDS_BIGENDIAN RRMOA uninit_byte
      DW_DLE_ELF_SECTION_COUNT_MISMATCH DW_DLE_ELF_STRING_SECTION_ERROR
      DW_DLE_ELF_SECTION_LINK_ERROR e st in
  let setup :=
    _dwarf_elf_setup_all_section_groups WORDS_BIGENDIAN ign RRMOA
      uninit_word in
  (run = None <-> exists st4, reached st4 /\ setup (fst st4) = None)
  /\ (forall st4,
         reached st4 ->
         table_loaded e st4 /\ table_reads e st st4
         /\ run = on_world setup st4).
Proof.
  intros ep He Ho Hes Hn Hf Hcons Hi run reached setup.
  assert (Hdet : forall a b, reached a -> reached b -> a = b).
  { intros a b (a1 & A1 & a2 & a3 & A2 & A3 & A4)
      (b1 & B1 & b2 & b3 & B2 & B3 & B4).
    rewrite A1 in B1. injection B1 as <-.
    rewrite A2 in B2. injection B2 as <-.
    rewrite A3 in B3. injection B3 as <-.
    rewrite A4 in B4. injection B4 as <-. reflexivity. }
  assert (Hnone : forall st4,
             on_world setup st4 = None <-> setup (fst st4) = None).
  { intros st4. unfold on_world.
    destruct (setup (fst st4)) as [[r w']|]; simpl; split;
      intros X; try discriminate X; reflexivity. }
  destruct (sectheaders_stages st e He Ho Hes Hn Hf Hcons Hi)
    as [(r & st' & _ & Hrun & Hno)|(st4 & Hre & HT & Hrd & Hrun)];
    fold run in Hrun; fold reached in Hno || fold reached in Hre.
  - split.
    + split.
      * intros X. rewrite X in Hrun. discriminate Hrun.
      * intros (st4 & Hre & _). destruct (Hno st4 Hre).
    + intros st4 Hre. destruct (Hno st4 Hre).
  - split.
    + split.
      * intros X. exists st4. split; [exact Hre|].
        apply Hnone. fold setup in Hrun. rewrite <- Hrun. exact X.
      * intros (st5 & Hre5 & X). rewrite (Hdet _ _ Hre Hre5) in Hrun.
        fold setup in Hrun. rewrite Hrun. apply Hnone. exact X.
    + intros st5 Hre5. rewrite <- (Hdet _ _ Hre Hre5).
      split; [exact HT|]. split; [exact Hrd | exact Hrun].
Qed.

(** X25: when [_dwarf_load_elf_sectheaders], called on a record that
    has its ELF header and nothing else yet, for a file of at most
    2^56 bytes, returns OK, the count kept for the section table is
    [e_shnum] of the ELF header and is not 0, the table has exactly
    that many headers, the length in use of the section-name strings
    lies within their buffer, and the index kept for the symbol table
    lies in the table. *)
Theorem load_sectheaders_table (st st' : loader_state)
  (e : generic_ehdr) :
  let ep := w_ep (fst st) in
  f_ehdr ep = Some e ->
  0 <= ge_shoff e -> 0 <= ge_shentsize e < 65536 ->
  0 <= ge_shnum e < 65536 ->
  f_filesize ep <= 2 ^ 56 ->
  shstrings_consistent ep -> f_symtab_sect_index ep = 0 ->
  _dwarf_load_elf_sectheaders WORDS_BIGENDIAN RRMOA ign uninit_byte
    uninit_word DW_DLE_ELF_SECTION_COUNT_MISMATCH
    DW_DLE_ELF_STRING_SECTION_ERROR DW_DLE_ELF_SECTION_LINK_ERROR st
  = Some (DW_DLV_OK, st') ->
  table_loaded e st'.
Proof.
  intros ep He Ho Hes Hn Hf Hcons Hi Hrun.
  destruct (sectheaders_stages st e He Ho Hes Hn Hf Hcons Hi)
    as [(r & st1 & Hr & Hrun1 & _)|(st4 & _ & HT & _ & Hrun4)].
  - rewrite Hrun in Hrun1. injection Hrun1 as <- _. contradiction.
  - rewrite Hrun in Hrun4. unfold on_world in Hrun4.
    destruct (_dwarf_elf_setup_all_section_groups _ _ _ _ (fst st4))
      as [[r w']|] eqn:Hs; simpl in Hrun4; [|discriminate].
    injection Hrun4 as <- ->.
    destruct (setup_frame _ _ _ Hs) as (Hg & _).
    destruct st4 as [w4 m4]. simpl in *.
    exact (table_loaded_groups e w4 w' m4 Hg HT).
Qed.

(** X26: when [_dwarf_load_elf_sectheaders], called on a record that
    has its ELF header and nothing else yet, for a file of at most
    2^56 bytes, returns OK, it has issued these reads in this order:
    the [e_shnum] section headers of [e_shentsize] bytes at
    [e_shoff]; the section [e_shstrndx] of the table, at the offset
    and of the size of its header; then payloads of group sections
    only.  The first two lie inside the file. *)
Theorem load_sectheaders_reads (st st' : loader_state)
  (e : generic_ehdr) :
  let ep := w_ep (fst st) in
  f_ehdr ep = Some e ->
  0 <= ge_shoff e -> 0 <= ge_shentsize e < 65536 ->
  0 <= ge_shnum e < 65536 ->
  f_filesize ep <= 2 ^ 56 ->
  shstrings_consistent ep -> f_symtab_sect_index ep = 0 ->
  _dwarf_load_elf_sectheaders WORDS_BIGENDIAN RRMOA ign uninit_byte
    uninit_word DW_DLE_ELF_SECTION_COUNT_MISMATCH
    DW_DLE_ELF_STRING_SECTION_ERROR DW_DLE_ELF_SECTION_LINK_ERROR st
  = Some (DW_DLV_OK, st') ->
  exists (psh : generic_shdr) (l : list (Z * Z)),
    f_shdr (w_ep (fst st')) !! Z.to_nat (ge_shstrndx e) = Some psh
    /\ w_reads (fst st')
       = (w_reads (fst st)
            ++ [(ge_shoff e, ge_shnum e * ge_shentsize e);
                (gh_offset psh, gh_size psh)] ++ l)%list
    /\ ge_shoff e + ge_shnum e * ge_shentsize e <= f_filesize ep
    /\ gh_offset psh + gh_size psh <= f_filesize ep
    /\ Forall (group_read (w_ep (fst st'))) l.
Proof.
  intros ep He Ho Hes Hn Hf Hcons Hi Hrun.
  destruct (sectheaders_stages st e He Ho Hes Hn Hf Hcons Hi)
    as [(r & st1 & Hr & Hrun1 & _)|(st4 & _ & _ & Hrd & Hrun4)].
  - rewrite Hrun in Hrun1. injection Hrun1 as <- _. contradiction.
  - rewrite Hrun in Hrun4. unfold on_world in Hrun4.
    destruct (_dwarf_elf_setup_all_section_groups _ _ _ _ (fst st4))
      as [[r w']|] eqn:Hs; simpl in Hrun4; [|discriminate].
    injection Hrun4 as <- ->.
    destruct (setup_frame _ _ _ Hs) as (Hg & l & Hrl & Hfl).
    destruct Hrd as (psh4 & Hp4 & Hr4 & Hin1 & Hin4).
    assert (HL : section_static <$> f_shdr (w_ep w')
                 = section_static <$> f_shdr (w_ep (fst st4)))
      by (exact (f_equal f_shdr Hg)).
    destruct (lookup_fmap_eq _ _ _ _ _ HL Hp4) as (psh & Hp & Hx).
    assert (Eo : gh_offset psh = gh_offset psh4)
      by (exact (f_equal gh_offset Hx)).
    assert (Ez : gh_size psh = gh_size psh4)
      by (exact (f_equal gh_size Hx)).
    rewrite <- Eo, <- Ez in Hr4, Hin4.
    exists psh, l. simpl.
    split; [exact Hp|].
    split; [rewrite Hrl, Hr4, <- app_assoc; reflexivity|].
    split; [exact Hin1|]. split; [exact Hin4|].
    eapply Forall_impl; [exact Hfl|].
    intros rd Hrdg. apply (group_read_erased _ (w_ep (fst st4)));
      [symmetry; exact Hg | exact Hrdg].
Qed.
End Properties.

(** * The properties at sample objects *)

Example C1_rel_debug_info_flags :
  _dwarf_load_elf_section_is_dwarf (fun _ => false) ".rel.debug_info"
  = (true, (true, false)).
Proof. reflexivity. Qed.

Lemma C10_witness :
  exists w' : world,
    _dwarf_load_elf_symstr no_file
      (sample_world
         (set_f_symtab_sect_strings_max 16
            (set_f_symtab_sect_strings_sect_index 1
               (sample_ep 64 200 text_sections))))
    = Some (DW_DLV_ERROR, w')
    /\ f_symtab_sect_strings (w_ep w') = None
    /\ (w_ep w'
        = w_ep (sample_world
                  (set_f_symtab_sect_strings_max 16
                     (set_f_symtab_sect_strings_sect_index 1
                        (sample_ep 64 200 text_sections))))
        \/ (f_symtab_sect_strings_max (w_ep w') = 0
            /\ f_symtab_sect_strings_sect_index (w_ep w') = 0)).
Proof.
  eexists. split.
  - vm_compute. reflexivity.
  - refine (proj2 (C10_symstr_failure_leaves_no_buffer no_file
                     (sample_world
                        (set_f_symtab_sect_strings_max 16
                           (set_f_symtab_sect_strings_sect_index 1
                              (sample_ep 64 200 text_sections))))
                     _ DW_DLV_ERROR _ _) _).
    + left. reflexivity.
    + reflexivity.
    + discriminate.
Defined.

Lemma C7_witness :
  _dwarf_load_elf_relx false 2 true 1 (fun v _ => v) no_file sample_uninit_rela 2
    RelocIsRela (sample_world (sample_ep 64 200 text_sections))
  = Some (DW_DLV_OK, sample_world (sample_ep 64 200 text_sections)).
Proof.
  refine (proj1 (C7_relx_skips_non_dwarf_target false 2 true 1 (fun v _ => v) no_file
                   sample_uninit_rela
                   (sample_world (sample_ep 64 200 text_sections)) 2
                   RelocIsRela (sample_shdr ".rela.text" SHT_RELA 80 24 24 1 false)
                   _ _ _ _)
            (sample_shdr ".text" 1 64 16 0 0 false) _ _ _).
  - vm_compute. split; [discriminate | reflexivity].
  - reflexivity.
  - right. reflexivity.
  - vm_compute. split; [discriminate | reflexivity].
  - reflexivity.
  - reflexivity.
  - reflexivity.
Defined.

(** C8 as stated fails: an object of offset size 16 without a symbol
    table gets NO_ENTRY from the symbol loader, and OK from the
    relocation loader for a section whose target holds no DWARF. *)
Lemma C8_counterexample :
  f_offsetsize (w_ep (sample_world (sample_ep 16 200 text_sections))) = 16
  /\ _dwarf_load_elf_symtab_symbols false no_file
       (sample_world (sample_ep 16 200 text_sections))
     = Some (DW_DLV_NO_ENTRY, sample_world (sample_ep 16 200 text_sections))
  /\ _dwarf_load_elf_relx false 2 true 1 (fun v _ => v) no_file sample_uninit_rela 2
       RelocIsRela (sample_world (sample_ep 16 200 text_sections))
     = Some (DW_DLV_OK, sample_world (sample_ep 16 200 text_sections)).
Proof. repeat split. Qed.

Lemma C8_witness :
  _dwarf_load_elf_header false no_file true
    (sample_world (sample_ep 16 200 debug_sections))
  = (DW_DLV_ERROR,
     set_err DW_DLE_OFFSET_SIZE (sample_world (sample_ep 16 200 debug_sections))).
Proof.
  refine (proj1 (C8_offset_size_rejected false 2 true 1 (fun v _ => v) no_file true
                   sample_uninit_rela
                   (sample_world (sample_ep 16 200 debug_sections)) _ _) _).
  - discriminate.
  - discriminate.
  - reflexivity.
Defined.

(** C9 as stated fails for the relocation batch loader: a section of 5
    bytes, not a multiple of the 24 bytes of a 64-bit RELA record, that
    lies beyond the end of the file is refused by the range check, with
    DW_DLE_SECTION_SIZE_OR_OFFSET_LARGE. *)
Lemma C9_counterexample :
  gh_size beyond_eof_rela mod sizeof_dw_elf64_rela <> 0
  /\ _dwarf_elf_load_a_relx_batch false 2 true 1 (fun v _ => v) no_file
       sample_uninit_rela beyond_eof_rela RelocIsRela RelocOffset64
       tiny_file_world
     = (DW_DLV_ERROR, beyond_eof_rela, None,
        set_err DW_DLE_SECTION_SIZE_OR_OFFSET_LARGE tiny_file_world).
Proof. split; [discriminate | reflexivity]. Qed.

Lemma C9_witness :
  dwarf_generic_elf_load_symbols32 false no_file 64 40
    (sample_world (sample_ep 32 200 text_sections))
  = (DW_DLV_ERROR, None,
     set_err DW_DLE_SECTION_SIZE_ERROR
       (sample_world (sample_ep 32 200 text_sections))).
Proof.
  refine (proj1 (proj1 (C9_record_size_multiple false 2 true 1 (fun v _ => v) no_file
                          sample_uninit_rela)
                   64 40 (sample_world (sample_ep 32 200 text_sections)) _) _).
  - split; [discriminate | reflexivity].
  - discriminate.
Defined.

(** C4 as stated fails: an empty relocation section whose offset lies
    beyond the end of the file gets NO_ENTRY, not ERROR with
    DW_DLE_SECTION_SIZE_OR_OFFSET_LARGE. *)
Lemma C4_counterexample :
  gh_offset empty_beyond_eof_rela > f_filesize (w_ep tiny_file_world)
  /\ _dwarf_elf_load_a_relx_batch false 2 true 1 (fun v _ => v) no_file
       sample_uninit_rela empty_beyond_eof_rela RelocIsRela RelocOffset64
       tiny_file_world
     = (DW_DLV_NO_ENTRY, empty_beyond_eof_rela, None, tiny_file_world).
Proof. split; reflexivity. Qed.

Lemma C4_witness :
  _dwarf_elf_load_a_relx_batch false 2 true 1 (fun v _ => v) no_file
    sample_uninit_rela beyond_eof_rela RelocIsRela RelocOffset64
    tiny_file_world
  = (DW_DLV_ERROR, beyond_eof_rela, None,
     set_err DW_DLE_SECTION_SIZE_OR_OFFSET_LARGE tiny_file_world).
Proof.
  refine (proj2 (proj2 (proj2 (C4_ranges_checked_before_read false 2 true 1
                                 (fun v _ => v) no_file sample_uninit_rela
                                 "000"%byte tiny_file_world _))
                   beyond_eof_rela RelocIsRela RelocOffset64 _ _) _ _).
  - split; [discriminate | reflexivity].
  - split; [discriminate | reflexivity].
  - split; [discriminate | reflexivity].
  - discriminate.
  - unfold in_file. simpl. lia.
Defined.

Example mips64el_rela_decoded :
  generic_rel_from_rela64 false 2 true 1 (fun v _ => v) sample_uninit_rela
    (sample_shdr ".rela.debug_info" SHT_RELA 80 24 24 1 false)
    mips_rela_bytes [sample_uninit_rela] (sample_world mips64el_ep)
  = (DW_DLV_OK, [mips_rela_decoded], sample_world mips64el_ep).
Proof. reflexivity. Qed.

Example mips64el_type_sign_extended :
  byte_at (r_info (cast_dw_elf64_rela mips_rela_bytes 0)) 7 = 146
  /\ map gr_type
       (snd (fst (generic_rel_from_rela64 false 2 true 1 (fun v _ => v)
                    sample_uninit_rela
                    (sample_shdr ".rela.debug_info" SHT_RELA 80 24 24 1
                       false)
                    mips_rela_bytes [sample_uninit_rela]
                    (sample_world mips64el_ep))))
     = [18446744073709551506]
  /\ map gr_type
       (snd (fst (generic_rel_from_rela64 false 2 false 1 (fun v _ => v)
                    sample_uninit_rela
                    (sample_shdr ".rela.debug_info" SHT_RELA 80 24 24 1
                       false)
                    mips_rela_bytes [sample_uninit_rela]
                    (sample_world mips64el_ep))))
     = [146].
Proof. repeat split. Qed.

Lemma C5_witness :
  length [mips_rela_decoded] = 1%nat
  /\ exists g : generic_rela,
       [mips_rela_decoded] !! 0%nat = Some g
       /\ r_info_decoding false 2 true 1 mips64el_ep
            (cast_dw_elf64_rela mips_rela_bytes 0) g
       /\ gr_is_rela g = true.
Proof.
  pose proof (proj1 (C5_r_info_by_machine false 2 true 1 (fun v _ => v)
                       sample_uninit_rela
                       (sample_shdr ".rela.debug_info" SHT_RELA 80 24 24 1
                          false)
                       mips_rela_bytes [sample_uninit_rela]
                       (sample_world mips64el_ep) (sample_world mips64el_ep)
                       [mips_rela_decoded] ltac:(lia)) eq_refl) as H.
  split; [exact (proj1 H)|].
  apply (proj2 H 0%nat). simpl. lia.
Defined.

Example bad_names_stop_at_third :
  option_map (fun r => (fst r, map gh_namestring (f_shdr (w_ep (snd r)))))
    (_dwarf_elf_load_sect_namestring bad_names_world)
  = Some (DW_DLV_ERROR,
          [""; ".text"; "<Invalid sh_name value. Corrupt Elf.>"; ""]).
Proof. reflexivity. Qed.

Lemma C6_witness :
  exists w',
    _dwarf_elf_load_sect_namestring bad_names_world = Some (DW_DLV_ERROR, w')
    /\ w_errcode w' = DW_DLE_SECTION_STRING_OFFSET_BAD
    /\ forall i sh,
        f_shdr (w_ep bad_names_world) !! i = Some sh ->
        f_shdr (w_ep w') !! i
        = Some (stopped_at 2 sample_shstrings i sh).
Proof.
  refine (proj1 (proj2 C6_section_name_validation) bad_names_world 2%nat
            (named_shdr 19) _ _ _ _ _ _).
  - reflexivity.
  - simpl. lia.
  - intros i sh H.
    destruct i as [|[|[|[|i]]]]; simpl in H; inversion H; subst;
      simpl; lia.
  - reflexivity.
  - intros [Hlt [j [Hj Hl]]]. simpl in Hj.
    assert (Hc : j = 19%nat \/ j = 20%nat \/ j = 21%nat) by lia.
    destruct Hc as [-> | [-> | ->]]; discriminate Hl.
  - intros i sh Hi H.
    destruct i as [|[|i]]; [| |lia]; simpl in H; inversion H; subst.
    + split; [reflexivity|]. exists 0%nat. split; [simpl; lia | reflexivity].
    + split; [reflexivity|]. exists 6%nat. split; [simpl; lia | reflexivity].
Defined.



Example grouped_sections_numbers :
  option_map
    (fun r => (fst r,
               map (fun sh => (gh_is_dwarf sh, gh_section_group_number sh))
                   (f_shdr (w_ep (snd r)))))
    (_dwarf_elf_setup_all_section_groups false (fun _ => false)
       (sample_RRMOA grouped_file) 0 grouped_world)
  = Some (DW_DLV_OK,
          [(false, 0); (true, 3); (true, 2); (false, 0); (true, 1)]).
Proof. vm_compute. reflexivity. Qed.



Lemma ASNAR_reads_field_witness :
  ASNAR false memcpy [ "001"; "002" ]%byte = le_decode [ "001"; "002" ]%byte
  /\ ASNAR false _dwarf_memcpy_swap_bytes [ "001"; "002" ]%byte
     = be_decode [ "001"; "002" ]%byte
  /\ forall cw : copy_word,
      0 <= ASNAR false (copy_fn cw) [ "001"; "002" ]%byte < 256 ^ Z.of_nat 2.
Proof.
  apply (ASNAR_reads_field false [ "001"; "002" ]%byte). simpl. lia.
Defined.

Lemma symtab_symbols_loaded_witness :
  exists w' : world,
    _dwarf_load_elf_symtab_symbols false (sample_RRMOA one_symbol_file)
      one_symbol_world = Some (DW_DLV_OK, w')
    /\ exists gsym : list generic_symentry,
        f_symtab (w_ep w') = Some gsym
        /\ g_count (f_loc_symtab (w_ep w')) = Z.of_nat (length gsym)
        /\ Forall symentry_fields_ok gsym.
Proof.
  eexists. split.
  - vm_compute. reflexivity.
  - apply (symtab_symbols_loaded false (sample_RRMOA one_symbol_file)
             one_symbol_world).
    vm_compute. reflexivity.
Defined.

Lemma symtab_symbols_frame_witness :
  exists w' : world,
    _dwarf_load_elf_symtab_symbols false (sample_RRMOA one_symbol_file)
      one_symbol_world = Some (DW_DLV_OK, w')
    /\ (DW_DLV_OK <> DW_DLV_OK -> w_ep w' = w_ep one_symbol_world)
    /\ (DW_DLV_OK = DW_DLV_OK ->
        exists gsym : list generic_symentry,
          w_ep w'
          = set_f_loc_symtab
              (set_g_count (Z.of_nat (length gsym))
                 (f_loc_symtab (w_ep one_symbol_world)))
              (set_f_symtab (Some gsym) (w_ep one_symbol_world)))
    /\ (w_reads w' = w_reads one_symbol_world
        \/ exists psh : generic_shdr,
            f_shdr (w_ep one_symbol_world)
              !! Z.to_nat (f_symtab_sect_index (w_ep one_symbol_world))
            = Some psh
            /\ w_reads w'
               = (w_reads one_symbol_world
                    ++ [(gh_offset psh, gh_size psh)])%list).
Proof.
  eexists. split.
  - vm_compute. reflexivity.
  - apply (symtab_symbols_frame false (sample_RRMOA one_symbol_file)
             one_symbol_world).
    vm_compute. reflexivity.
Defined.

Lemma symtab_read_failure_code_witness :
  exists w' : world,
    _dwarf_load_elf_symtab_symbols false no_file one_symbol_world
    = Some (DW_DLV_ERROR, w')
    /\ w_errcode w' = DW_DLE_ALLOC_FAIL
    /\ w_ep w' = w_ep one_symbol_world.
Proof.
  refine (proj2 (symtab_read_failure_code false no_file one_symbol_world
                   (sample_shdr ".symtab" 2 0 24 24 0 false)
                   (DW_DLE_code 1) _ _ _ _ _ _) _ _).
  - vm_compute. split; reflexivity.
  - reflexivity.
  - vm_compute. split; [discriminate | reflexivity].
  - vm_compute. discriminate.
  - constructor.
  - reflexivity.
  - reflexivity.
  - reflexivity.
Defined.

Lemma mips64el_r_info_fields_witness :
  exists g : generic_rela,
    [mips_rela_decoded] !! 0%nat = Some g
    /\ gr_info g = le_decode (sub_bytes mips_rela_bytes 8 8)
    /\ mips64el_fields true 1 g.
Proof.
  refine (proj1 (mips64el_r_info_fields false 2 true 1 (fun v _ => v)
                   sample_uninit_rela
                   (sample_shdr ".rela.debug_info" SHT_RELA 80 24 24 1 false)
                   mips_rela_bytes [] [mips_rela_decoded]
                   (sample_world mips64el_ep) (sample_world mips64el_ep)
                   0 _ _ _ _ _) _ _ _).
  - reflexivity.
  - reflexivity.
  - reflexivity.
  - reflexivity.
  - lia.
  - vm_compute. reflexivity.
  - vm_compute. lia.
  - simpl. lia.
Defined.

Lemma relx_changes_one_section_witness :
  exists w' : world,
    _dwarf_load_elf_relx false 2 true 1 (fun v _ => v) (sample_RRMOA zero_file)
      sample_uninit_rela 2 RelocIsRela
      (sample_world (sample_ep 64 200 debug_sections))
    = Some (DW_DLV_OK, w')
    /\ (DW_DLV_OK <> DW_DLV_OK ->
        w_ep w' = sample_ep 64 200 debug_sections)
    /\ (DW_DLV_OK = DW_DLV_OK ->
        w_ep w' = sample_ep 64 200 debug_sections
        \/ exists grel : list generic_rela,
            w_ep w'
            = set_f_shdr
                (<[2%nat :=
                     set_gh_relcount (Z.of_nat (length grel))
                       (set_gh_rels (Some grel)
                          (sample_shdr ".rela.debug_info" SHT_RELA 80 24 24 1
                             false))]> debug_sections)
                (sample_ep 64 200 debug_sections)
            /\ Forall (rel_flag_ok RelocIsRela) grel).
Proof.
  eexists. split.
  - vm_compute. reflexivity.
  - apply (relx_changes_one_section false 2 true 1 (fun v _ => v)
             (sample_RRMOA zero_file) sample_uninit_rela 2 RelocIsRela
             (sample_world (sample_ep 64 200 debug_sections))).
    + reflexivity.
    + vm_compute. split; [discriminate | reflexivity].
    + vm_compute. reflexivity.
Defined.

Lemma relx_stays_in_table_witness :
  exists (r : status) (w' : world),
    _dwarf_load_elf_relx false 2 true 1 (fun v _ => v) (sample_RRMOA zero_file)
      sample_uninit_rela 2 RelocIsRela
      (sample_world (sample_ep 64 200 debug_sections))
    = Some (r, w').
Proof.
  apply (relx_stays_in_table false 2 true 1 (fun v _ => v) (sample_RRMOA zero_file)
           sample_uninit_rela 2 RelocIsRela
           (sample_world (sample_ep 64 200 debug_sections))).
  - lia.
  - vm_compute. discriminate.
Defined.

Lemma sectstrings_keeps_buffer_witness :
  exists w' : world,
    _dwarf_elf_load_sectstrings (sample_RRMOA sample_shstrings) "000"%byte 1
      strings_world = Some (DW_DLV_OK, w')
    /\ shstrings_consistent (w_ep w')
    /\ f_elf_shstrings_length (w_ep w') = 22.
Proof.
  eexists. split.
  - vm_compute. reflexivity.
  - refine ((fun H => conj (proj1 H) (proj1 (proj2 H) eq_refl))
              (sectstrings_keeps_buffer (sample_RRMOA sample_shstrings)
                 "000"%byte 1 strings_world _ DW_DLV_OK
                 (sample_shdr "" 3 0 22 0 0 false) _ _ _ _)).
    + vm_compute. repeat split; discriminate.
    + reflexivity.
    + vm_compute. discriminate.
    + vm_compute. reflexivity.
Defined.

Lemma names_stay_in_buffer_witness :
  exists (r : status) (w' : world),
    _dwarf_elf_load_sect_namestring bad_names_world = Some (r, w')
    /\ (r = DW_DLV_OK
        \/ (r = DW_DLV_ERROR
            /\ w_errcode w' = DW_DLE_SECTION_STRING_OFFSET_BAD)).
Proof.
  apply (names_stay_in_buffer bad_names_world).
  - vm_compute. repeat split; discriminate.
  - vm_compute. discriminate.
  - intros i sh H.
    do 4 (destruct i as [|i]; [inversion H; subst; vm_compute; discriminate|]).
    discriminate H.
Defined.

Lemma symstr_loaded_terminated_witness :
  exists (w' : world) (buf : list byte),
    _dwarf_load_elf_symstr (sample_RRMOA sample_shstrings) symstr_world
    = Some (DW_DLV_OK, w')
    /\ f_symtab_sect_strings (w_ep w') = Some buf
    /\ Z.of_nat (length buf) = 23
    /\ buf !! 22%nat = Some "000"%byte.
Proof.
  eexists.
  refine ((fun Hrun =>
             match symstr_loaded_terminated (sample_RRMOA sample_shstrings)
                     symstr_world _ _ _ Hrun with
             | ex_intro _ buf (ex_intro _ strpsh (ex_intro _ content
                 (conj H1 (conj H2 (conj _ (conj _ (conj _ (conj H6 _)))))))) =>
                 ex_intro _ buf (conj Hrun (conj H1 (conj H2 H6)))
             end) _).
  - vm_compute. discriminate.
  - vm_compute. reflexivity.
  - vm_compute. reflexivity.
Defined.

Lemma setup_changes_group_fields_only_witness :
  exists w' : world,
    _dwarf_elf_setup_all_section_groups false (fun _ => false)
      (sample_RRMOA grouped_file) 0 grouped_world = Some (DW_DLV_OK, w')
    /\ groups_erased (w_ep w') = groups_erased (w_ep grouped_world)
    /\ exists l : list (Z * Z),
        w_reads w' = (w_reads grouped_world ++ l)%list
        /\ Forall (group_read (w_ep grouped_world)) l.
Proof.
  eexists. split.
  - vm_compute. reflexivity.
  - apply (setup_changes_group_fields_only false (fun _ => false)
             (sample_RRMOA grouped_file) 0 grouped_world _ DW_DLV_OK).
    vm_compute. reflexivity.
Defined.

Lemma setup_marks_by_name_witness :
  exists w' : world,
    _dwarf_elf_setup_all_section_groups false (fun _ => false)
      (sample_RRMOA grouped_file) 0 grouped_world = Some (DW_DLV_OK, w')
    /\ forall (i : nat) (sh' : generic_shdr),
        f_shdr (w_ep w') !! i = Some sh' ->
        gh_is_dwarf sh'
        = if (i <? Z.to_nat (g_count (f_loc_shdr (w_ep grouped_world))))%nat
          then dwarf_name_test (fun _ => false) sh' else false.
Proof.
  eexists. split.
  - vm_compute. reflexivity.
  - apply (setup_marks_by_name false (fun _ => false)
             (sample_RRMOA grouped_file) 0 grouped_world).
    + intros i sh H.
      do 5 (destruct i as [|i];
            [inversion H; subst; repeat split; reflexivity|]).
      discriminate H.
    + vm_compute. reflexivity.
Defined.

Lemma read_gs_section_group_once_witness :
  exists w' : world,
    read_gs_section_group false (sample_RRMOA grouped_file) 0 3 grouped_world
    = Some (DW_DLV_OK, w')
    /\ read_gs_section_group false (sample_RRMOA grouped_file) 0 3 w'
       = Some (DW_DLV_OK, w').
Proof.
  eexists. split.
  - vm_compute. reflexivity.
  - apply (read_gs_section_group_once false (sample_RRMOA grouped_file) 0 3
             grouped_world).
    vm_compute. reflexivity.
Defined.

Lemma group_entry_equal_to_count_witness :
  gs_entry false count_entry_payload 1 ([], false, group_world) = None.
Proof.
  apply (group_entry_equal_to_count false count_entry_payload 1 [] false
           group_world).
  - reflexivity.
  - discriminate.
  - vm_compute. reflexivity.
Defined.

Lemma elf_header_loaded_witness :
  exists w' : world,
    _dwarf_load_elf_header false (sample_RRMOA elf64_file) true
      (sample_world (sample_ep 64 347 []))
    = (DW_DLV_OK, w')
    /\ (DW_DLV_OK = DW_DLV_OK ->
        exists e : generic_ehdr,
          w_ep w'
          = set_f_loc_ehdr
              {| g_name := "Elf File Header"; g_offset := 0; g_count := 1;
                 g_entrysize := ehdr_size 64; g_totalsize := ehdr_size 64 |}
              (set_f_ehdr (Some e)
                 (set_f_machine (ge_machine e) (sample_ep 64 347 [])))
          /\ ehdr_fields_ok 64 e).
Proof.
  eexists. split.
  - vm_compute. reflexivity.
  - apply (elf_header_loaded false (sample_RRMOA elf64_file) true
             (sample_world (sample_ep 64 347 []))).
    vm_compute. reflexivity.
Defined.

Lemma section_headers_loaded_witness :
  exists st' : loader_state,
    elf_load_sectheaders64 false (sample_RRMOA elf64_file) (DW_DLE_code 101)
      64 64 4 elf64_state = Some (DW_DLV_OK, st')
    /\ sectheaders_result 64 64 64 4 elf64_state DW_DLV_OK st'.
Proof.
  eexists. split.
  - vm_compute. reflexivity.
  - apply (section_headers_loaded false (sample_RRMOA elf64_file)
             (DW_DLE_code 101) 64 64 4 elf64_state);
      [lia | lia | lia | simpl; lia | vm_compute; reflexivity].
Defined.

Lemma section_headers_in_buffer_witness :
  (exists r st',
      elf_load_sectheaders32 false (sample_RRMOA elf64_file)
        (DW_DLE_code 101) 64 64 4 elf64_state = Some (r, st'))
  /\ (exists r st',
         elf_load_sectheaders64 false (sample_RRMOA elf64_file)
           (DW_DLE_code 101) 64 64 4 elf64_state = Some (r, st')).
Proof.
  apply (section_headers_in_buffer false (sample_RRMOA elf64_file)
           (DW_DLE_code 101) 64 64 4 elf64_state); lia.
Defined.

Lemma find_sym_sections_last_wins_witness :
  exists st' : loader_state,
    _dwarf_elf_find_sym_sections (DW_DLE_code 102) (DW_DLE_code 103)
      named_state = Some (DW_DLV_OK, st')
    /\ sym_sections_found named_state
         (Z.to_nat (g_count (f_loc_shdr (w_ep (fst named_state))))) st'
    /\ sym_fields_only named_state st'.
Proof.
  eexists. split.
  - vm_compute. reflexivity.
  - apply (find_sym_sections_last_wins (DW_DLE_code 102) (DW_DLE_code 103)
             named_state _ DW_DLV_OK).
    vm_compute. reflexivity.
Defined.

Lemma find_sym_sections_link_checked_witness :
  exists st' : loader_state,
    _dwarf_elf_find_sym_sections (DW_DLE_code 102) (DW_DLE_code 103)
      named_state = Some (DW_DLV_OK, st')
    /\ f_symtab_sect_index (w_ep (fst st')) = 1
    /\ (DW_DLV_OK = DW_DLV_OK <->
        f_symtab_sect_index (w_ep (fst st')) = 0
        \/ (f_symtab_sect_strings_sect_index (w_ep (fst st')) <> 0
            /\ exists pshk : generic_shdr_rest,
                f_shdr_rest (snd st')
                  !! Z.to_nat (f_symtab_sect_index (w_ep (fst st')))
                = Some pshk
                /\ gh_link pshk
                   = f_symtab_sect_strings_sect_index (w_ep (fst st')))).
Proof.
  eexists. split; [|split].
  - vm_compute. reflexivity.
  - reflexivity.
  - apply (find_sym_sections_link_checked (DW_DLE_code 102)
             (DW_DLE_code 103) named_state _ DW_DLV_OK).
    vm_compute. reflexivity.
Defined.

Lemma find_sym_sections_in_table_witness :
  exists r st',
    _dwarf_elf_find_sym_sections (DW_DLE_code 102) (DW_DLE_code 103)
      named_state = Some (r, st')
    /\ 0 <= f_symtab_sect_index (w_ep (fst st'))
       < Z.of_nat (length (f_shdr (w_ep (fst st')))).
Proof.
  apply (find_sym_sections_in_table (DW_DLE_code 102) (DW_DLE_code 103)
           named_state); simpl; [lia | reflexivity | lia].
Defined.

Example elf64_stages_reached :
  exists st4 : loader_state,
    stages_before_groups false (sample_RRMOA elf64_file) "000"%byte
      (DW_DLE_code 101) (DW_DLE_code 102) (DW_DLE_code 103)
      elf64_ehdr elf64_state st4
    /\ f_symtab_sect_index (w_ep (fst st4)) = 1
    /\ map gh_namestring (f_shdr (w_ep (fst st4)))
       = [""; ".symtab"; ".strtab"; ".shstrtab"].
Proof.
  eexists. split; [|split].
  - eexists. split; [vm_compute; reflexivity|].
    eexists _, _. split; [vm_compute; reflexivity|].
    split; vm_compute; reflexivity.
  - reflexivity.
  - reflexivity.
Qed.

Lemma load_sectheaders_in_table_witness :
  (_dwarf_load_elf_sectheaders false (sample_RRMOA elf64_file)
     (fun _ => false) "000"%byte 0 (DW_DLE_code 101) (DW_DLE_code 102)
     (DW_DLE_code 103) elf64_state = None
   <-> exists st4,
         stages_before_groups false (sample_RRMOA elf64_file) "000"%byte
           (DW_DLE_code 101) (DW_DLE_code 102) (DW_DLE_code 103)
           elf64_ehdr elf64_state st4
         /\ _dwarf_elf_setup_all_section_groups false (fun _ => false)
              (sample_RRMOA elf64_file) 0 (fst st4) = None)
  /\ (forall st4,
         stages_before_groups false (sample_RRMOA elf64_file) "000"%byte
           (DW_DLE_code 101) (DW_DLE_code 102) (DW_DLE_code 103)
           elf64_ehdr elf64_state st4 ->
         table_loaded elf64_ehdr st4
         /\ table_reads elf64_ehdr elf64_state st4
         /\ _dwarf_load_elf_sectheaders false (sample_RRMOA elf64_file)
              (fun _ => false) "000"%byte 0 (DW_DLE_code 101)
              (DW_DLE_code 102) (DW_DLE_code 103) elf64_state
            = on_world
                (_dwarf_elf_setup_all_section_groups false (fun _ => false)
                   (sample_RRMOA elf64_file) 0) st4).
Proof.
  apply (load_sectheaders_in_table false (fun _ => false)
           (sample_RRMOA elf64_file) "000"%byte 0 (DW_DLE_code 101)
           (DW_DLE_code 102) (DW_DLE_code 103) elf64_state elf64_ehdr);
    simpl; try lia; try reflexivity.
  unfold shstrings_consistent. simpl. lia.
Defined.

Lemma load_sectheaders_table_witness :
  exists st' : loader_state,
    _dwarf_load_elf_sectheaders false (sample_RRMOA elf64_file)
      (fun _ => false) "000"%byte 0 (DW_DLE_code 101) (DW_DLE_code 102)
      (DW_DLE_code 103) elf64_state = Some (DW_DLV_OK, st')
    /\ table_loaded elf64_ehdr st'.
Proof.
  eexists. split.
  - vm_compute. reflexivity.
  - apply (load_sectheaders_table false (fun _ => false)
             (sample_RRMOA elf64_file) "000"%byte 0 (DW_DLE_code 101)
             (DW_DLE_code 102) (DW_DLE_code 103) elf64_state _ elf64_ehdr);
      [reflexivity | simpl; lia | simpl; lia | simpl; lia | simpl; lia
      | unfold shstrings_consistent; simpl; lia | reflexivity
      | vm_compute; reflexivity].
Defined.

Lemma load_sectheaders_reads_witness :
  exists st' : loader_state,
    _dwarf_load_elf_sectheaders false (sample_RRMOA elf64_file)
      (fun _ => false) "000"%byte 0 (DW_DLE_code 101) (DW_DLE_code 102)
      (DW_DLE_code 103) elf64_state = Some (DW_DLV_OK, st')
    /\ exists (psh : generic_shdr) (l : list (Z * Z)),
        f_shdr (w_ep (fst st')) !! Z.to_nat (ge_shstrndx elf64_ehdr)
        = Some psh
        /\ w_reads (fst st')
           = (w_reads (fst elf64_state)
                ++ [(ge_shoff elf64_ehdr,
                     ge_shnum elf64_ehdr * ge_shentsize elf64_ehdr);
                    (gh_offset psh, gh_size psh)] ++ l)%list
        /\ ge_shoff elf64_ehdr
           + ge_shnum elf64_ehdr * ge_shentsize elf64_ehdr
           <= f_filesize (w_ep (fst elf64_state))
        /\ gh_offset psh + gh_size psh
           <= f_filesize (w_ep (fst elf64_state))
        /\ Forall (group_read (w_ep (fst st'))) l.
Proof.
  eexists. split.
  - vm_compute. reflexivity.
  - apply (load_sectheaders_reads false (fun _ => false)
             (sample_RRMOA elf64_file) "000"%byte 0 (DW_DLE_code 101)
             (DW_DLE_code 102) (DW_DLE_code 103) elf64_state _ elf64_ehdr);
      [reflexivity | simpl; lia | simpl; lia | simpl; lia | simpl; lia
      | unfold shstrings_consistent; simpl; lia | reflexivity
      | vm_compute; reflexivity].
Defined.
